(* ===== verification/_CoqProject ===== *)
-Q . S2P
Prelude.v
Types.v
Support.v
PgText.v
Driver.v
MemDriver.v
CatDriver.v
StmtCache.v
StmtCacheSpec.v
StmtCacheProofs.v
StmtCacheRefine.v
StmtCacheTheorems.v
Condition.v
QueryBuilder.v
QueryBuilderProofs.v
Registry.v
RegistryProofs.v
PgParams.v
SqlText.v
SqlTextProofs.v
TypeMapping.v
TypeMappingProofs.v
Relational.v
TableDriver.v
Handle.v
Api.v
ApiProofs.v
Isolation.v
ApiSafety.v
SqlHandle.v
SqlBlocks.v
SqlApi.v
SqlRead.v
SqlTables.v
SqlWriteMany.v
Transactions.v
ApiOutputs.v
ApiTheorems.v
SqlTheorems.v
SqlBlob.v
SqlTx.v
TxTrace.v
Lifecycle.v
LifecycleProofs.v
Migration.v
MigrationProofs.v
MigrationSafety.v
MigrationTrace.v
MigrationTheorems.v
Generated.v
GeneratedTheorems.v
Alive.v
Session.v
Examples.v
ExamplesTheorems.v
ExampleRuns.v
PostgresDriver.v
PostgresProofs.v
PostgresLaws.v
PostgresTheorems.v
SqliteDriver.v
SqliteTheorems.v
