(* ===== verification/Prelude.v ===== *)
(** * libc2sql: a verification development

    libc2sql (src/src, src/include/c2sql.h) is a C library that stores the rows
    of C structs in the tables of an SQLite or a PostgreSQL database.  This
    library of Rocq files models it function by function, and proves what makes
    it correct.  This file is its prelude: the C monad, machine integers,
    strings, and the lemmas the other files share.

    ** The program and its model

    A client opens a handle on a connection string, registers structs (tables
    are created or migrated), reads and writes rows, and closes the handle.

      part (sources under src/)                    files
      ------------------------------------------   ---------------------------------
      public types (include/c2sql.h,               Types
        src/schema_registry.h)
      errors, logger, mutex (error_ctx.c,          Support
        logger.c, mutex.c)
      driver table (db_driver.h)                   Driver
      statement cache (stmt_cache.c)               StmtCache, StmtCacheSpec,
                                                   StmtCacheProofs, StmtCacheRefine,
                                                   StmtCacheTheorems
      search conditions (condition_ast.c)          Condition
      query builder (query_builder.c)              QueryBuilder, QueryBuilderProofs
      schema registry (schema_registry.c)          Registry, RegistryProofs
      type mapping (type_mapping.c)                TypeMapping, TypeMappingProofs
      operations on a handle, transactions         Handle, Api, ApiProofs, ApiSafety,
        (c2sql.c, handle_internal.h,               Transactions, ApiOutputs, TxTrace,
        txn_manager.h)                             ApiTheorems
      SqlRDBInit, SqlRDBClose (c2sql.c)            Lifecycle, LifecycleProofs
      SqlRDBRegisterStruct, migration              Migration, MigrationProofs,
        (c2sql.c, migration.c)                     MigrationSafety, MigrationTrace,
                                                   MigrationTheorems
      PostgreSQL driver (postgres_driver.c)        PgText, PgParams, PostgresDriver,
                                                   PostgresProofs, PostgresLaws,
                                                   PostgresTheorems
      SQLite driver (sqlite_driver.c)              SqliteDriver, SqliteTheorems
      generated accessors (src/generated:          Generated, GeneratedTheorems
        persons_schema, sessions_schema)
      example programs (src/examples)              Examples, ExamplesTheorems,
                                                   ExampleRuns

    and, for the meaning of the statements,

      the SQL that the builder writes: syntax,     SqlText, SqlTextProofs
        printer, parser
      tables, transactions and cursors, the laws   Relational, TableDriver
        of a database, a driver that obeys them
      the operations of c2sql.c on such tables     SqlHandle, SqlBlocks, SqlApi,
                                                   SqlRead, SqlTables, SqlWriteMany,
                                                   SqlTheorems, SqlBlob, SqlTx
      a whole session: a handle among others,      Isolation, Alive, Session
        from SqlRDBInit to SqlRDBClose

    Definitions have the names of the C functions and types; a helper that a
    definition is split into stands next to it.  MemDriver, CatDriver and
    TableDriver, and the driver of ExampleRuns made of the last two, are for the
    examples and stand for nothing in the repository.

    ** State and operations

    A C function is a computation of the monad [M S A] on an explicit state [S]:
    it returns a value and a new state, or is [None] where C gives the execution
    no meaning (an access outside of an object, a NULL or freed pointer, a
    second lock of the mutex) or where a loop ran out of fuel.  An error code is
    a value.  Every malloc, calloc, realloc and strdup takes its outcome from a
    list in the state, so that all theorems hold under any pattern of failing
    allocations; when the list is used up allocations succeed.  Output
    parameters are components of the result, given what they held before.

    The states are, from the inside out: the statement cache on a heap of
    entries with the statements it finalized; the registry with the number of
    blocks it owns; [HState]: one handle, the state [D] of the driver, the
    allocator; [MigState]: this and the log; [World]: all the handle structs in
    memory, the array of live handles and its mutex; [Pg]: the structs, the
    ledger and the libpq state of the PostgreSQL driver.  [zoom] runs a
    computation on a part of the state.  A pointer is an address (0 is NULL);
    what a char or void pointer points to is the list of the bytes there.
    Integers are Z with the wrap-around of their width written where the code
    relies on it.

    The parts meet at interfaces.  The class [DriverLaws] (Driver.v) is what the
    library relies on of a driver: each call on a statement or connection that
    is open is defined, and opens and closes nothing but what it is for;
    [ConnLaws] says the same of opening and closing connections.  All of
    the library above the drivers is proved against it; PostgresLaws and
    SqliteTheorems prove it of the two drivers, from laws of libpq and of the
    sqlite3 library ([LibpqLaws], [SqliteLaws]) that state their documented
    behaviour.  [FiniteRows] says that result sets are finite.  [SqlLaws]
    (Relational.v) says what a statement does to the tables of the database: it
    reads the text, with the parser of SqlText.v, as an insertion, upsert,
    selection, count, update or deletion of rows, binds what it is given, and a
    failing statement changes nothing or, inside of a transaction, dooms or
    drops it.  A query may change the number that [changes] reports, as
    pg_step does; the library asks for it only after a deletion.  The theorems on rows are proved against [DriverLaws] and
    [SqlLaws] and hold of every backend that obeys them; TableDriver proves
    them of one.  The abstract
    cache of StmtCacheSpec, the reference text [qb_text], the cells of a row in
    TypeMappingProofs and the machine of transactions in Transactions are the
    specifications that the code is proved to refine.

    ** What the theorems show

    - ApiTheorems, TxTrace: any history of calls on a handle is defined and
      leaves it in order; buffers of the caller survive a failing read; the
      transaction calls are a stack of at most 16 frames; SqlRDBWriteMany sends
      COMMIT when it returns OK, whose result it ignores, and ROLLBACK else.
    - SqlTheorems: the operations mean what they say.  On a database that obeys
      [SqlLaws], SqlRDBWrite puts the row in place of the one with its key,
      SqlRDBRead shows a selected row, SqlRDBCount counts, SqlRDBDelete removes
      exactly the selected rows, the iterator gives each row once, and a struct
      that was written is read back as it was, its NULL flags when the bitmap
      could be allocated; every call returns, and an error leaves the tables as
      they were or, inside of a transaction, may doom or undo it.  SqlTx: a transaction that is rolled back
      leaves the database exactly as before its begin, one that is committed
      leaves the rows the calls made, at any depth; SqlRDBWriteMany leaves all
      rows or none.  SqlBlob: the blob calls change and read the one selected
      row.  ExamplesTheorems: transactions.c can fail only where a call reports
      an error; ExampleRuns evaluates each example program from main to its
      return, which leaves nothing open.
      GeneratedTheorems: the generated structs are registered as declared;
      guarded writes refuse a new row exactly in a full table and keep it within
      its capacity.
    - LifecycleProofs: SqlRDBInit and SqlRDBClose, under any failure.  Session:
      from the one to the other, with registrations and calls in between, the
      process is left as it was, unless a registration never returns.  The laws of a driver hold of the part that
      one handle sees (Isolation), which is how several handles share it; no
      call in between touches the magic number (Alive).
    - MigrationTheorems: registering a struct is all or nothing; the commands a
      migration sends, and that a migration that succeeds has checked the table;
      the scan for STRICT against its reference, and a text on which it does not
      end.  Nothing is assumed of the texts in the catalogue: that this scan
      hangs on one of them is the second outcome of the theorems on
      registrations ([register_stuck], [migrate_stuck], [session_stuck]).
    - StmtCacheTheorems: the cache is a bounded LRU map that finalizes each
      statement once.  QueryBuilderProofs: the text of every statement, its
      number of parameters, and that values do not occur in it.  SqlTextProofs:
      a parser reads from that text the statement that was asked for.
      RegistryProofs: which definitions are accepted, the code of the first error
      in the others, lookups, leaks.
      TypeMappingProofs: binding and reading rows; SqlTheorems puts the two
      together to a round trip through a statement.
      Condition: ownership of trees.
    - PostgresTheorems: histories of calls on PostgreSQL are defined and the
      driver's ledger is balanced after them; what a statement sends; each row
      of a result is seen once; integers survive the text protocol; the
      parameters counted in a text are those of the builder; the 2 GiB boundary
      of pg_bind_blob.  SqliteTheorems: the same histories on SQLite; opening.

    ** Bounds and fuel

    - A loop that the code bounds by a count is a recursion on it; the loops
      that are not have fuel, and running out is [None], which the theorems
      exclude: [buf_grow] doubles at most 64 times, [next_pow2_at_least] likewise (and does
      not end above 2^63: bucket_count_terminates); walks of a hash chain and
      of the LRU list have one more turn than entries; [pg_count_loop] and
      [strict_scan] one more than characters (the latter is shown to stand still
      on some texts, for any fuel); [dec_loop] prints 20 digits, enough for 64
      bits.  The loops over catalogue rows have the caller's fuel, to exceed the
      bound [N] of [FiniteRows]; PostgresLaws gives 2^32 for PostgreSQL.
    - Cache capacities are below 2^62, SQL texts below the limit [MAX_TEXT],
      conditions below 10^9 leaves, blobs below 2^31 bytes: hypotheses that
      [call_ok] and the theorems name.

    ** Assumptions of the model

    A list of bytes behind a char pointer ends where the object ends; a string
    that is not terminated earlier is taken to be terminated there.  Addresses
    of freed structs are not handed out again while something remembers them.
    A handle is used by one thread at a time: the mutex is modelled, other
    threads are not.  SqlRDBSetConfig that turns threadsafe off leaves the mutex
    locked and unused, and so does the model: the invariant [mutex_ok] is that
    it is free while the handle is threadsafe.  The overflow of the int row
    number of a PostgreSQL statement, after 2^31 steps without a reset, has no
    meaning in C: the state remembers that it happened ([pg_undefined]), and
    pg_history_balanced claims nothing of such a run.  A history of calls on a
    handle has no registration in it, since one that grows the registry moves
    the schemas that open iterators point to; a session has its registrations
    before its calls.  Casts to narrower signed types wrap, as the compilers
    define them.

    ** Not modelled

    The libraries libpq, sqlite3 and pthreads (parameters, or a flag); printf
    of doubles and strtod (a parameter: their accuracy is the
    implementation's); the logger's and SqlRDBLogger's callbacks beyond the
    call; the generator of src/tools (Python, not part of the library); the
    tests (src/tests: clients with assertions on single inputs).
    SqlRDBFreeResult is free: a buffer that is given to the caller is a value
    here.  What the examples print is left out.  [SqlLaws] is an assumption on a
    backend: to derive it for SQLite or PostgreSQL one would need their SQL
    engines, which are not in the repository; CREATE and ALTER have no meaning
    in it. *)

From Stdlib Require Import ZArith Ascii String Lia.
From stdpp Require Export base list gmap strings numbers pretty.

#[global] Open Scope Z_scope.

(** ** Notations of the development *)

Declare Scope c_scope.
Delimit Scope c_scope with c.
#[global] Open Scope c_scope.

(** ** The C monad

    [M S A] is the type of a C function that returns an [A] and works on the
    state [S].  [None] is an execution that C gives no meaning to (an access
    outside of an object, a dereference of a NULL or freed pointer, a second
    lock of a held mutex) or a loop that ran out of the fuel it was given; an
    error the program reports is an ordinary return value. *)

Definition M (S A : Type) : Type := S → option (A * S).

#[global] Instance M_ret S : MRet (M S) := λ A x s, Some (x, s).
#[global] Instance M_bind S : MBind (M S) := λ A B k m s,
  match m s with
  | Some (a, s') => k a s'
  | None => None
  end.

(** Undefined behaviour. *)
Definition ub {S A} : M S A := λ _, None.

(** Reading and writing the state. *)
Definition mget {S} : M S S := λ s, Some (s, s).
Definition mgets {S A} (f : S → A) : M S A := λ s, Some (f s, s).
Definition mmodify {S} (f : S → S) : M S unit := λ s, Some (tt, f s).

(** A pointer that is dereferenced, an index that is used: [None] is UB. *)
Definition mdef {S A} (o : option A) : M S A := λ s,
  match o with Some a => Some (a, s) | None => None end.

(** Run a computation on a part of the state. *)
Definition zoom {S T A} (get : S → T) (set : T → S → S) (m : M T A) : M S A :=
  λ s, match m (get s) with
       | Some (a, t) => Some (a, set t s)
       | None => None
       end.

(** ** Allocation

    Whether the n-th allocation of a run succeeds is part of the state: a list
    of outcomes, consumed one by each malloc, calloc, realloc or strdup; when
    the list is used up every allocation succeeds. *)

Definition malloc_ok (al : list bool) : bool * list bool :=
  match al with
  | [] => (true, [])
  | b :: al' => (b, al')
  end.

Definition malloc : M (list bool) bool := λ al, Some (malloc_ok al).

(** No allocation of the run fails. *)
Definition no_oom (al : list bool) : Prop := Forall (λ b, b = true) al.

(** ** Machine integers (LP64: size_t is 64 bits, int is 32 bits) *)

Definition SIZE_MOD : Z := 2 ^ 64.
Definition size_t (z : Z) : Z := z mod SIZE_MOD.
Definition INT_MAX : Z := 2 ^ 31 - 1.
Definition INT32_MIN : Z := - 2 ^ 31.
Definition INT32_MAX : Z := 2 ^ 31 - 1.

(** Conversion to a signed type of [w] bits, as the compilers the project
    supports define it (two's complement wrap-around). *)
Definition to_signed (w z : Z) : Z :=
  let u := z mod 2 ^ w in if 2 ^ (w - 1) <=? u then u - 2 ^ w else u.

(** ** Pointers: an address, 0 for NULL *)

Abbreviation ptr := N (only parsing).
Definition NULL : ptr := 0%N.

(** ** Characters and strings

    A C string is the Rocq string of the characters before its NUL. *)

Definition DQ : string := String (ascii_of_nat 34) EmptyString.
Definition slen (s : string) : Z := Z.of_nat (String.length s).

Definition code (c : ascii) : Z := Z.of_nat (nat_of_ascii c).
Definition isupper (c : ascii) : bool := (65 <=? code c) && (code c <=? 90).
Definition islower (c : ascii) : bool := (97 <=? code c) && (code c <=? 122).
Definition isalpha (c : ascii) : bool := isupper c || islower c.
Definition isdigit (c : ascii) : bool := (48 <=? code c) && (code c <=? 57).
Definition isalnum (c : ascii) : bool := isalpha c || isdigit c.
Definition toupper (c : ascii) : ascii :=
  if islower c then ascii_of_nat (Z.to_nat (code c - 32)) else c.

Fixpoint string_map (f : ascii → ascii) (s : string) : string :=
  match s with
  | EmptyString => EmptyString
  | String c s' => String (f c) (string_map f s')
  end.

Fixpoint string_forall (f : ascii → bool) (s : string) : bool :=
  match s with
  | EmptyString => true
  | String c s' => f c && string_forall f s'
  end.

(** vsnprintf into an array of [n] bytes: at most n-1 characters are kept. *)
Definition vsnprintf (n : Z) (s : string) : string :=
  substring 0 (Z.to_nat (n - 1)) s.

(** printf's %zu, %d and %lld: 20 digits are enough for 64 bits. *)
Definition digit (n : Z) : ascii := ascii_of_nat (Z.to_nat (48 + n mod 10)).

Fixpoint dec_loop (fuel : nat) (n : Z) (acc : string) : string :=
  match fuel with
  | O => acc
  | S fuel =>
      let acc := String (digit n) acc in
      if n / 10 =? 0 then acc else dec_loop fuel (n / 10) acc
  end.

Definition dec (n : Z) : string :=
  if n <? 0 then String "-"%char (dec_loop 20 (- n) EmptyString)
  else dec_loop 20 n EmptyString.

(** Concatenation of a list of strings. *)
Fixpoint sconcat (l : list string) : string :=
  match l with
  | [] => EmptyString
  | s :: l' => s +:+ sconcat l'
  end.

(** ** Lemmas of the monad *)

Create HintDb c2sql.

Lemma bind_Some {S A B} (m : M S A) (k : A → M S B) s r :
  (m ≫= k) s = Some r ↔ ∃ a s', m s = Some (a, s') ∧ k a s' = Some r.
Proof.
  unfold mbind, M_bind. destruct (m s) as [[a s1]|]; naive_solver.
Qed.

Lemma bind_run {S A B} (m : M S A) (k : A → M S B) s a s' :
  m s = Some (a, s') → (m ≫= k) s = k a s'.
Proof. intros H. unfold mbind, M_bind. by rewrite H. Qed.

Lemma bind_None {S A B} (m : M S A) (k : A → M S B) s :
  m s = None → (m ≫= k) s = None.
Proof. intros H. unfold mbind, M_bind. by rewrite H. Qed.

Lemma zoom_run {S T A} get set (m : M T A) (s : S) a t :
  m (get s) = Some (a, t) → zoom get set m s = Some (a, set t s).
Proof. intros H. unfold zoom. by rewrite H. Qed.

Lemma zoom_Some {S T A} get set (m : M T A) (s : S) a s' :
  zoom get set m s = Some (a, s') ↔ ∃ t, m (get s) = Some (a, t) ∧ s' = set t s.
Proof. unfold zoom. destruct (m (get s)) as [[??]|]; naive_solver. Qed.

(** ** Computations that leave an observation as it is

    [silent g m]: every run of [m] leaves the observation [g] of the state as
    it is. *)

Definition silent {S L A} (g : S → L) (m : M S A) : Prop :=
  ∀ s a s', m s = Some (a, s') → g s' = g s.

Create HintDb silent.

Lemma silent_ret {S L A} (g : S → L) (a : A) : silent g (mret a).
Proof. by intros s b s' [= _ <-]. Qed.

Lemma silent_bind {S L A B} (g : S → L) (m : M S A) (k : A → M S B) :
  silent g m → (∀ a, silent g (k a)) → silent g (m ≫= k).
Proof. intros Hm Hk s b s' (a & s1 & E1 & E2)%bind_Some. rewrite (Hk a s1 b s' E2). by eapply Hm. Qed.

Lemma silent_def {S L A} (g : S → L) (o : option A) : silent g (mdef o).
Proof. intros s a s' H. unfold mdef in H. destruct o; [|done]. by injection H as _ <-. Qed.

Lemma silent_gets {S L A} (g : S → L) (f : S → A) : silent g (mgets f).
Proof. by intros s a s' [= _ <-]. Qed.

Lemma silent_ub {S L A} (g : S → L) : silent g (ub (A := A)).
Proof. by intros s a s' H. Qed.

(** A zoom onto a part that the observation does not see, or sees through [g']. *)
Lemma silent_zoom_away {S T L A} (g : S → L) get set (m : M T A) :
  (∀ t s, g (set t s) = g s) → silent g (zoom get set m).
Proof. intros Hs s a s' (t & _ & ->)%zoom_Some. apply Hs. Qed.

Lemma silent_zoom {S T L A} (g : S → L) (g' : T → L) get set (m : M T A) :
  (∀ s, g' (get s) = g s) → (∀ t s, g (set t s) = g' t) → silent g' m → silent g (zoom get set m).
Proof. intros Hg Hs Hm s a s' (t & E & ->)%zoom_Some. by rewrite Hs, (Hm _ _ _ E). Qed.

#[export] Hint Resolve silent_ret silent_def silent_gets silent_ub : silent.

(** Go through a definition: sequences, tests, then the lemmas of the base. *)
Ltac silence :=
  repeat first
    [ progress (auto with silent)
    | apply silent_bind; [|intros ?]
    | match goal with
      | |- silent _ (match ?x with _ => _ end) => destruct x
      | |- silent _ (if ?b then _ else _) => destruct b
      end ].

(** [run H]: rewrite the first command of a sequence with its known result. *)
Ltac run H := rewrite (bind_run _ _ _ _ _ H); cbn beta iota.

(** Invert a run of a sequence in [H] into the runs of its commands. *)
Ltac inv_run H :=
  repeat (let a := fresh "a" in let s := fresh "s" in let H1 := fresh "Hrun" in
          apply bind_Some in H as (a & s & H1 & H); cbn beta iota in H).

Lemma malloc_run al : malloc al = Some (malloc_ok al).
Proof. done. Qed.

Lemma malloc_no_oom al :
  no_oom al → ∃ al', malloc al = Some (true, al') ∧ no_oom al'.
Proof.
  unfold malloc, malloc_ok, no_oom.
  destruct 1 as [|b al -> Hal]; eauto using Forall.
Qed.

Lemma no_oom_malloc al : no_oom al → (malloc_ok al).1 = true ∧ no_oom (malloc_ok al).2.
Proof. intros (al' & E & Hal)%malloc_no_oom. unfold malloc in E. by injection E as ->. Qed.

Lemma no_oom_nil : no_oom [].
Proof. constructor. Qed.
#[export] Hint Resolve no_oom_nil : c2sql.

(** ** Lemmas on machine integers *)

Lemma size_t_small z : 0 ≤ z < SIZE_MOD → size_t z = z.
Proof. intros. unfold size_t. by apply Z.mod_small. Qed.

Lemma size_t_range z : 0 ≤ size_t z < SIZE_MOD.
Proof. apply Z.mod_pos_bound. done. Qed.

Lemma to_signed_range w z :
  0 < w → - 2 ^ (w - 1) ≤ to_signed w z < 2 ^ (w - 1).
Proof.
  intros Hw. unfold to_signed. cbv zeta.
  assert (2 ^ w = 2 * 2 ^ (w - 1)) as E.
  { rewrite <-Z.pow_succ_r by lia. f_equal. lia. }
  pose proof (Z.mod_pos_bound z (2 ^ w) ltac:(lia)).
  destruct (Z.leb_spec (2 ^ (w - 1)) (z mod 2 ^ w)); lia.
Qed.

(** A value in the range of the type is converted to itself. *)
Lemma to_signed_small w z :
  0 < w → - 2 ^ (w - 1) ≤ z < 2 ^ (w - 1) → to_signed w z = z.
Proof.
  intros Hw Hz. unfold to_signed. cbv zeta.
  assert (2 ^ w = 2 * 2 ^ (w - 1)) as E.
  { rewrite <-Z.pow_succ_r by lia. f_equal. lia. }
  destruct (Z.le_gt_cases 0 z).
  - rewrite Z.mod_small by lia. destruct (Z.leb_spec (2 ^ (w - 1)) z); lia.
  - assert (z mod 2 ^ w = z + 2 ^ w) as ->.
    { rewrite <-(Z_mod_plus_full z 1), Z.mul_1_l. apply Z.mod_small. lia. }
    destruct (Z.leb_spec (2 ^ (w - 1)) (z + 2 ^ w)); lia.
Qed.

Lemma to_signed_mod w z : 0 < w → to_signed w z mod 2 ^ w = z mod 2 ^ w.
Proof.
  intros Hw. unfold to_signed. cbv zeta.
  pose proof (Z.mod_pos_bound z (2 ^ w) ltac:(lia)).
  destruct (2 ^ (w - 1) <=? z mod 2 ^ w).
  - rewrite <-(Z_mod_plus_full _ 1), Z.mul_1_l, Z.sub_add.
    by rewrite Z.mod_mod by lia.
  - by rewrite Z.mod_mod by lia.
Qed.

(** ** Lemmas on strings *)

Lemma sapp_cons c (s1 s2 : string) : String c s1 +:+ s2 = String c (s1 +:+ s2).
Proof. done. Qed.

Lemma sapp_assoc (s1 s2 s3 : string) : (s1 +:+ s2) +:+ s3 = s1 +:+ s2 +:+ s3.
Proof. induction s1 as [|c s1 IH]; [done|]. by rewrite !sapp_cons, IH. Qed.

Lemma sapp_nil_r (s : string) : s +:+ EmptyString = s.
Proof. induction s as [|c s IH]; [done|]. by rewrite sapp_cons, IH. Qed.

Lemma length_sapp (s1 s2 : string) :
  String.length (s1 +:+ s2) = (String.length s1 + String.length s2)%nat.
Proof. induction s1 as [|c s1 IH]; [done|]. rewrite sapp_cons. simpl. by rewrite IH. Qed.

Lemma slen_app s1 s2 : slen (s1 +:+ s2) = slen s1 + slen s2.
Proof. unfold slen. rewrite length_sapp. lia. Qed.

Lemma slen_nonneg s : 0 ≤ slen s.
Proof. unfold slen. lia. Qed.
#[export] Hint Resolve slen_nonneg : c2sql.

Lemma string_forall_app f s1 s2 :
  string_forall f (s1 +:+ s2) = string_forall f s1 && string_forall f s2.
Proof.
  induction s1 as [|c s1 IH]; [done|]. rewrite sapp_cons. simpl.
  by rewrite IH, andb_assoc.
Qed.

Lemma substring_length n s : slen (substring 0 n s) = Z.min (Z.of_nat n) (slen s).
Proof.
  unfold slen. revert s. induction n as [|n IH]; intros [|c s]; simpl; try lia.
  specialize (IH s). lia.
Qed.

Lemma substring_all n s : (String.length s ≤ n)%nat → substring 0 n s = s.
Proof.
  revert s. induction n as [|n IH]; intros [|c s]; simpl; intros H; try done; try lia.
  f_equal. apply IH. lia.
Qed.
