(* ===== verification/Types.v ===== *)
(** * The data of the public header and of the schema registry

    The enumerations and structs of include/c2sql.h, and the schema record of
    src/schema_registry.h that the query builder, the type mapping, the
    migration and the API all work on. *)

From S2P Require Import Prelude.

(** ** Result codes *)

Inductive SqlRDBResult : Type :=
  | SQL_RDB_OK
  | SQL_RDB_WARN_TRUNCATED
  | SQL_RDB_ERR_INVALID_ARG
  | SQL_RDB_ERR_INVALID_HANDLE
  | SQL_RDB_ERR_INVALID_NAME
  | SQL_RDB_ERR_DB_OPEN
  | SQL_RDB_ERR_NO_MEMORY
  | SQL_RDB_ERR_DUPLICATE_SCHEMA
  | SQL_RDB_ERR_DUPLICATE_COLUMN
  | SQL_RDB_ERR_TOO_MANY_COLUMNS
  | SQL_RDB_ERR_UNKNOWN_STRUCT
  | SQL_RDB_ERR_UNKNOWN_COLUMN
  | SQL_RDB_ERR_SCHEMA_MISMATCH
  | SQL_RDB_ERR_NOT_FOUND
  | SQL_RDB_ERR_MULTIPLE_ROWS
  | SQL_RDB_ERR_NOT_NULL_VIOLATION
  | SQL_RDB_ERR_CAPACITY_EXCEEDED
  | SQL_RDB_ERR_NO_ACTIVE_TX
  | SQL_RDB_ERR_NESTED_TX
  | SQL_RDB_ERR_DRIVER
  | SQL_RDB_ERR_INTERNAL.

#[global] Instance SqlRDBResult_eq_dec : EqDecision SqlRDBResult.
Proof. solve_decision. Defined.

(** [r == SQL_RDB_OK] *)
Definition res_ok (r : SqlRDBResult) : bool :=
  match r with SQL_RDB_OK => true | _ => false end.

Lemma res_ok_true r : res_ok r = true ↔ r = SQL_RDB_OK.
Proof. by destruct r. Qed.

Lemma res_ok_false r : res_ok r = false ↔ r ≠ SQL_RDB_OK.
Proof. by destruct r. Qed.

(** ** SQL types

    The registry stores the [type] member of a column definition without
    checking it, and the code that switches on it has a default case: the last
    constructor stands for an enumeration value outside of the five. *)

Inductive SqlRDBType : Type :=
  | SQL_TYPE_INT32
  | SQL_TYPE_INT64
  | SQL_TYPE_REAL
  | SQL_TYPE_TEXT
  | SQL_TYPE_BLOB
  | SQL_TYPE_other (n : Z).

#[global] Instance SqlRDBType_eq_dec : EqDecision SqlRDBType.
Proof. solve_decision. Defined.

(** ** Column flags: a bit mask *)

Definition SQL_COL_FLAG_NONE : Z := 0.
Definition SQL_COL_FLAG_PRIMARY_KEY : Z := Z.shiftl 1 0.
Definition SQL_COL_FLAG_NULLABLE : Z := Z.shiftl 1 1.
Definition SQL_COL_FLAG_UNIQUE : Z := Z.shiftl 1 2.

(** [flags & f] used as a condition. *)
Definition has_flag (flags f : Z) : bool := negb (Z.land flags f =? 0).

(** ** Comparison operators

    The condition constructors cast an [int] to the enumeration. *)

Inductive SqlRDBOp : Type :=
  | SQL_OP_EQ
  | SQL_OP_NE
  | SQL_OP_LT
  | SQL_OP_LE
  | SQL_OP_GT
  | SQL_OP_GE
  | SQL_OP_other (n : Z).

#[global] Instance SqlRDBOp_eq_dec : EqDecision SqlRDBOp.
Proof. solve_decision. Defined.

(** The cast [(SqlRDBOp)op]. *)
Definition SqlRDBOp_of_int (op : Z) : SqlRDBOp :=
  if op =? 1 then SQL_OP_EQ
  else if op =? 2 then SQL_OP_NE
  else if op =? 3 then SQL_OP_LT
  else if op =? 4 then SQL_OP_LE
  else if op =? 5 then SQL_OP_GT
  else if op =? 6 then SQL_OP_GE
  else SQL_OP_other op.

(** ** Column definitions

    The [name] of a definition the caller passes may be NULL
    ([ColumnDef (option string)]); the registry's own copy has a name. *)

Record ColumnDef (T : Type) : Type := MkColumnDef {
  col_name : T;
  col_type : SqlRDBType;
  col_offset : Z;
  col_size : Z;
  col_flags : Z;
}.
Arguments MkColumnDef {T}.
Arguments col_name {T}.
Arguments col_type {T}.
Arguments col_offset {T}.
Arguments col_size {T}.
Arguments col_flags {T}.

Abbreviation SqlRDBColumnDef := (ColumnDef string).
Abbreviation RawColumnDef := (ColumnDef (option string)).

#[global] Instance ColumnDef_eq_dec `{EqDecision T} : EqDecision (ColumnDef T).
Proof. solve_decision. Defined.

(** The macro SQL_RDB_NULL_BITMAP_BYTES. *)
Definition SQL_RDB_NULL_BITMAP_BYTES (col_count : Z) : Z := (col_count + 7) / 8.

(** ** Read options and configuration *)

Record SqlRDBReadOpts : Type := MkReadOpts {
  allow_multi : bool;
  max_text_len : Z;
}.

Record SqlRDBConfig : Type := MkConfig {
  cfg_threadsafe : bool;
  cfg_stmt_cache_size : Z;
  cfg_auto_migrate : bool;
  cfg_multirow_default : Z;
  cfg_require_strict : bool;
}.

(** ** Registered schemas (src/schema_registry.h) *)

Record SqlRDBSchema : Type := MkSchema {
  sch_name : string;
  sch_cols : list SqlRDBColumnDef;
  sch_col_count : Z;
  sch_pk_index : Z;
}.

#[global] Instance SqlRDBSchema_eq_dec : EqDecision SqlRDBSchema.
Proof. solve_decision. Defined.

(** The name of a column: what lookups and the generated SQL use. *)
Definition col_names (s : SqlRDBSchema) : list string := col_name <$> sch_cols s.

Definition C2SQL_MAX_COLUMNS : Z := 64.
