(* ===== verification/Support.v ===== *)
(** * Error context, logger and mutex

    The three small services every handle carries: src/error_ctx.c,
    src/logger.c and src/mutex.c. *)

From Stdlib Require Import String.
From S2P Require Import Prelude Types.

(** ** Error context *)

Module ErrorCtx.

(** [message] is the text before the NUL of the 256-byte array. *)
Record SqlRDBErrorCtx : Type := MkErr {
  err_code : SqlRDBResult;
  err_message : string;
}.

Definition MESSAGE_SIZE : Z := 256.

Definition c2sql_internal_err_clear (e : SqlRDBErrorCtx) : SqlRDBErrorCtx :=
  MkErr SQL_RDB_OK EmptyString.

(** [msg] is the text the format and its arguments expand to, [None] a NULL
    format. *)
Definition c2sql_internal_err_set (code : SqlRDBResult) (msg : option string)
    (e : SqlRDBErrorCtx) : SqlRDBErrorCtx :=
  match msg with
  | None => MkErr code EmptyString
  | Some s => MkErr code (vsnprintf MESSAGE_SIZE s)
  end.

(** Every stored message fits the array with its NUL. *)
Lemma err_set_fits code msg e :
  slen (err_message (c2sql_internal_err_set code msg e)) < MESSAGE_SIZE.
Proof.
  destruct msg; simpl; [|done].
  unfold vsnprintf, MESSAGE_SIZE. rewrite substring_length. lia.
Qed.

End ErrorCtx.

(** ** Logger

    The callback is the caller's code: a call of it is the event the trace
    [log] records. *)

Module Logger.

Record LogEvent : Type := MkLog {
  log_fn : ptr;
  log_user : ptr;
  log_code : SqlRDBResult;
  log_sql : option string;
  log_msg : option string;
}.

Record SqlRDBLoggerCtx : Type := MkLogger {
  lg_fn : ptr;
  lg_user : ptr;
}.

Definition c2sql_internal_log (l : option SqlRDBLoggerCtx) (code : SqlRDBResult)
    (sql msg : option string) (log : list LogEvent) : list LogEvent :=
  match l with
  | None => log
  | Some l =>
      if (lg_fn l =? NULL)%N then log
      else log ++ [MkLog (lg_fn l) (lg_user l) code sql msg]
  end.

End Logger.

(** ** Mutex

    [held] is the state of the pthread mutex (or critical section) of the
    struct.  Locking a held mutex never returns on the thread that holds it,
    and unlocking a mutex that is not held is undefined: both are [None]. *)

Module Mutex.

Record SqlRDBMutex : Type := MkMutex {
  mtx_threadsafe : bool;
  mtx_held : bool;
}.

(** [init_rc] is what pthread_mutex_init returns. *)
Definition c2sql_internal_mutex_init (init_rc : Z) (threadsafe : bool)
    (m : SqlRDBMutex) : SqlRDBResult * SqlRDBMutex :=
  if negb threadsafe then (SQL_RDB_OK, MkMutex threadsafe (mtx_held m))
  else if init_rc =? 0 then (SQL_RDB_OK, MkMutex threadsafe false)
  else (SQL_RDB_ERR_INTERNAL, MkMutex threadsafe (mtx_held m)).

Definition c2sql_internal_mutex_lock : M SqlRDBMutex unit := λ m,
  if negb (mtx_threadsafe m) then Some (tt, m)
  else if mtx_held m then None
  else Some (tt, MkMutex (mtx_threadsafe m) true).

Definition c2sql_internal_mutex_unlock : M SqlRDBMutex unit := λ m,
  if negb (mtx_threadsafe m) then Some (tt, m)
  else if mtx_held m then Some (tt, MkMutex (mtx_threadsafe m) false)
  else None.

(** Destroying a held mutex is undefined. *)
Definition c2sql_internal_mutex_destroy : M SqlRDBMutex unit := λ m,
  if negb (mtx_threadsafe m) then Some (tt, m)
  else if mtx_held m then None
  else Some (tt, m).

(** The state between two API calls: a mutex in use is free. *)
Definition mutex_free (m : SqlRDBMutex) : Prop := mtx_held m = false.

(** A lock followed by an unlock of the same mutex gives back its state. *)
Lemma lock_unlock m m1 m2 :
  c2sql_internal_mutex_lock m = Some (tt, m1) →
  c2sql_internal_mutex_unlock m1 = Some (tt, m2) → m2 = m.
Proof.
  destruct m as [[] []]; unfold c2sql_internal_mutex_lock, c2sql_internal_mutex_unlock;
    simpl; naive_solver.
Qed.

Lemma lock_free m :
  mutex_free m → c2sql_internal_mutex_lock m =
    Some (tt, MkMutex (mtx_threadsafe m) (mtx_threadsafe m)).
Proof. destruct m as [[] []]; done. Qed.

Lemma unlock_locked ts :
  c2sql_internal_mutex_unlock (MkMutex ts ts) = Some (tt, MkMutex ts false).
Proof. by destruct ts. Qed.

End Mutex.
