(* ===== verification/PgText.v ===== *)
(** * Numbers in the text protocol (the parsers of src/postgres_driver.c)

    The scan for the largest parameter [$N] of a statement, and the conversion
    between integers and decimal text that the PostgreSQL driver relies on:
    what [%lld] prints, [strtoll] reads back. *)

From Stdlib Require Import String Strings.Byte Strings.Ascii.
From S2P Require Import Prelude.

(** ** Definitions *)

Definition digit_value (c : ascii) : Z := code c - 48.

(** [while (isdigit( *p)) { v = v * 10 + ( *p - '0'); p++; }] in an int: the value
    and where the scan stops; an overflow is undefined. *)
Fixpoint pg_digits (s : string) (v : Z) : option (Z * string) :=
  match s with
  | EmptyString => Some (v, EmptyString)
  | String c s' =>
      if isdigit c then
        let v' := v * 10 + digit_value c in
        if v' <=? INT_MAX then pg_digits s' v' else None
      else Some (v, s)
  end.

Definition starts_digit (s : string) : bool :=
  match s with String c _ => isdigit c | EmptyString => false end.

Fixpoint pg_count_loop (fuel : nat) (s : string) (max : Z) : option Z :=
  match fuel with
  | O => None
  | S fuel =>
      match s with
      | EmptyString => Some max
      | String c s' =>
          if bool_decide (c = "$"%char) && starts_digit s' then
            '(v, rest) ← pg_digits s' 0;
            pg_count_loop fuel rest (if max <? v then v else max)
          else pg_count_loop fuel s' max
      end
  end.

(** Every turn of the loop uses up a character. *)
Definition pg_count_params (sql : string) : option Z := pg_count_loop (S (String.length sql)) sql 0.

(** [strtoll(s, NULL, 10)]: blanks, a sign, digits; saturates. *)
Definition isspace (c : ascii) : bool := (code c =? 32) || ((9 <=? code c) && (code c <=? 13)).

Fixpoint skip_blanks (s : string) : string :=
  match s with
  | String c s' => if isspace c then skip_blanks s' else s
  | EmptyString => EmptyString
  end.

Fixpoint digits_value (s : string) (v : Z) : Z :=
  match s with
  | String c s' => if isdigit c then digits_value s' (v * 10 + digit_value c) else v
  | EmptyString => v
  end.

Definition LLONG_MIN : Z := - 2 ^ 63.
Definition LLONG_MAX : Z := 2 ^ 63 - 1.

Definition strtoll (s : string) : Z :=
  let v := match skip_blanks s with
           | String c s' =>
               if decide (c = "-"%char) then - digits_value s' 0
               else if decide (c = "+"%char) then digits_value s' 0
               else digits_value (String c s') 0
           | EmptyString => 0
           end in
  Z.max LLONG_MIN (Z.min LLONG_MAX v).

(** [atoi(s)] is [(int)strtol(s, NULL, 10)]. *)
Definition atoi (s : string) : Z := to_signed 32 (strtoll s).

Lemma to_signed_llong v : LLONG_MIN ≤ v ≤ LLONG_MAX → to_signed 64 v = v.
Proof.
  unfold LLONG_MIN, LLONG_MAX. intros Hv. apply to_signed_small; [lia|]. change (2 ^ (64 - 1)) with (2 ^ 63). lia.
Qed.

(** ** What [dec] prints *)

Fixpoint all_digits (s : string) : bool :=
  match s with String c s' => isdigit c && all_digits s' | EmptyString => true end.

Lemma digit_isdigit n : isdigit (digit n) = true ∧ digit_value (digit n) = n mod 10.
Proof.
  unfold digit, isdigit, digit_value, code. pose proof (Z.mod_pos_bound n 10 ltac:(lia)).
  rewrite nat_ascii_embedding by lia. split; [|lia]. apply andb_true_iff. split; apply Z.leb_le; lia.
Qed.

(** The digits that [dec_loop] puts before [acc]. *)
Lemma dec_loop_digits fuel n acc :
  0 ≤ n < 10 ^ Z.of_nat fuel → (0 < fuel)%nat →
  ∃ ds, dec_loop fuel n acc = ds +:+ acc ∧ all_digits ds = true ∧ ds ≠ EmptyString ∧
    ∀ rest v, digits_value (ds +:+ rest) v = digits_value rest (v * 10 ^ slen ds + n).
Proof.
  revert n acc. induction fuel as [|fuel IH]; intros n acc Hn Hf; [lia|]. cbn [dec_loop].
  destruct (digit_isdigit n) as [Hd Hv]. pose proof (Z.div_mod n 10 ltac:(lia)) as Hdm.
  destruct (Z.eqb_spec (n / 10) 0) as [E|E].
  - exists (String (digit n) EmptyString). split_and!; [done|by cbn [all_digits]; rewrite Hd|done|].
    intros rest v. rewrite sapp_cons. cbn [digits_value]. rewrite Hd, Hv. f_equal.
    change (slen (String (digit n) EmptyString)) with 1. lia.
  - assert (0 < fuel)%nat as Hf' by (destruct fuel; [change (10 ^ Z.of_nat 1) with 10 in Hn; destruct E; by apply Z.div_small|lia]).
    destruct (IH (n / 10) (String (digit n) acc)) as (ds & -> & Hall & Hne & Hval); [|done|].
    { rewrite Nat2Z.inj_succ, Z.pow_succ_r in Hn by lia. split; [apply Z.div_pos; lia|].
      apply Z.div_lt_upper_bound; lia. }
    exists (ds +:+ String (digit n) EmptyString). split_and!.
    + by rewrite sapp_assoc.
    + clear -Hall Hd. induction ds as [|c ds IHd]; [simpl; by rewrite Hd|].
      rewrite sapp_cons. cbn [all_digits] in *. apply andb_true_iff in Hall as [-> Hall]. by apply IHd.
    + by destruct ds.
    + intros rest v. rewrite sapp_assoc, Hval, sapp_cons. cbn [digits_value]. rewrite Hd, Hv. f_equal.
      rewrite slen_app. change (slen (String (digit n) EmptyString)) with 1.
      rewrite Z.pow_add_r by (try apply slen_nonneg; lia). change (10 ^ 1) with 10. lia.
Qed.

Lemma all_digits_blanks ds : all_digits ds = true → skip_blanks ds = ds.
Proof.
  destruct ds as [|c ds]; [done|]. cbn [all_digits skip_blanks]. intros [Hc _]%andb_true_iff.
  assert (isspace c = false) as ->; [|done]. unfold isdigit, isspace in *. lia.
Qed.

Lemma isdigit_char c : isdigit c = true → c ≠ "-"%char ∧ c ≠ "+"%char ∧ c ≠ "$"%char.
Proof. intros H. by split_and!; intros ->; vm_compute in H. Qed.

(** strtoll reads back what [dec] prints. *)
Lemma strtoll_dec n : LLONG_MIN ≤ n ≤ LLONG_MAX → strtoll (dec n) = n.
Proof.
  intros Hn. unfold LLONG_MIN, LLONG_MAX in Hn. unfold strtoll, dec.
  assert (∀ k, 0 ≤ k ≤ 2 ^ 63 → ∃ ds, dec_loop 20 k EmptyString = ds ∧ all_digits ds = true ∧
    ds ≠ EmptyString ∧ digits_value ds 0 = k) as Hdec.
  { intros k Hk. destruct (dec_loop_digits 20 k EmptyString) as (ds & E & Hall & Hne & Hval); [|lia|].
    { change (10 ^ Z.of_nat 20) with (10 ^ 20). lia. }
    exists ds. rewrite E, sapp_nil_r. split_and!; try done.
    rewrite <-(sapp_nil_r ds), Hval. cbn [digits_value]. lia. }
  destruct (Z.ltb_spec n 0).
  - destruct (Hdec (- n)) as (ds & -> & _ & _ & Hv); [lia|]. cbn [skip_blanks].
    change (isspace "-") with false. cbv iota. rewrite decide_True by done. rewrite Hv.
    unfold LLONG_MIN, LLONG_MAX. lia.
  - destruct (Hdec n) as (ds & -> & Hall & Hne & Hv); [lia|]. rewrite all_digits_blanks by done.
    destruct ds as [|c ds]; [done|]. cbn [all_digits] in Hall. apply andb_true_iff in Hall as [Hc _].
    destruct (isdigit_char c Hc) as (? & ? & _). rewrite !decide_False by done. rewrite Hv.
    unfold LLONG_MIN, LLONG_MAX. lia.
Qed.

(** The length of what is printed. *)
Lemma slen_dec n k : (0 < k ≤ 20)%nat → - 10 ^ Z.of_nat k < n < 10 ^ Z.of_nat k → slen (dec n) ≤ Z.of_nat k + 1.
Proof.
  intros Hk Hn. assert (∀ fuel m acc, (k ≤ fuel)%nat → 0 ≤ m < 10 ^ Z.of_nat k →
    slen (dec_loop fuel m acc) ≤ slen acc + Z.of_nat k) as Hl.
  { clear Hn. intros fuel. revert k Hk. induction fuel as [|fuel IH]; intros k Hk m acc Hf Hm; [lia|]. cbn [dec_loop].
    assert (slen (String (digit m) acc) = slen acc + 1) as Hs by (unfold slen; simpl; lia).
    destruct (Z.eqb_spec (m / 10) 0); [lia|].
    destruct k as [|k]; [lia|]. rewrite Nat2Z.inj_succ, Z.pow_succ_r in Hm by lia.
    assert (0 < k)%nat by (destruct k; [change (10 ^ Z.of_nat 0) with 1 in Hm; exfalso; pose proof (Z.div_small m 10 ltac:(lia)); lia|lia]).
    etrans; [apply (IH k)|lia]; [lia|lia|]. split; [apply Z.div_pos; lia|apply Z.div_lt_upper_bound; lia]. }
  specialize (Hl 20%nat). generalize dependent (10 ^ Z.of_nat k). intros q Hn Hl.
  unfold dec. destruct (Z.ltb_spec n 0).
  - specialize (Hl (- n) EmptyString ltac:(lia) ltac:(lia)).
    change (slen EmptyString) with 0 in Hl.
    assert (∀ c s, slen (String c s) = slen s + 1) as -> by (intros; unfold slen; simpl; lia). lia.
  - specialize (Hl n EmptyString ltac:(lia) ltac:(lia)). change (slen EmptyString) with 0 in Hl. lia.
Qed.

(** ** The largest parameter of a text *)

(** From [max] the loop over [s] ends with [r]. *)
Definition counts (s : string) (max r : Z) : Prop :=
  ∀ fuel, (String.length s < fuel)%nat → pg_count_loop fuel s max = Some r.

(** A piece of text whose largest parameter is [n] (0 when it has none), in
    front of anything that does not start with a digit. *)
Definition piece (s : string) (n : Z) : Prop :=
  ∀ rest max r, 0 ≤ max → starts_digit rest = false → counts rest (Z.max max n) r → counts (s +:+ rest) max r.

Definition no_dollar (s : string) : bool := string_forall (λ c, negb (bool_decide (c = "$"%char))) s.

Lemma counts_nil max : counts EmptyString max max.
Proof. intros [|fuel] Hf; [simpl in Hf; lia|done]. Qed.

Lemma counts_plain s rest max r : no_dollar s = true → counts rest max r → counts (s +:+ rest) max r.
Proof.
  intros Hs Hr. induction s as [|c s IH]; [done|]. unfold no_dollar in *. cbn [string_forall] in Hs.
  apply andb_true_iff in Hs as [Hc%negb_true_iff Hs]. rewrite sapp_cons. intros fuel Hf.
  destruct fuel as [|fuel]; [simpl in Hf; lia|]. cbn [pg_count_loop]. rewrite Hc. cbn [andb].
  apply IH; [done|]. simpl in Hf. lia.
Qed.

Lemma piece_plain s : no_dollar s = true → piece s 0.
Proof. intros Hs rest max r Hm _ Hr. apply counts_plain; [done|]. by rewrite Z.max_l in Hr by lia. Qed.

Lemma starts_digit_app s rest :
  starts_digit s = false → starts_digit rest = false → starts_digit (s +:+ rest) = false.
Proof. intros Hs Hr. destruct s as [|c s]; [done|]. by rewrite sapp_cons. Qed.

Lemma piece_app s1 s2 n1 n2 :
  piece s1 n1 → piece s2 n2 → starts_digit s2 = false → piece (s1 +:+ s2) (Z.max n1 n2).
Proof.
  intros H1 H2 Hd rest max r Hm Hr Hc. rewrite sapp_assoc.
  apply H1; [done|by apply starts_digit_app|]. apply H2; [lia|done|]. by rewrite <-Z.max_assoc.
Qed.

(** Plain text in front needs no boundary. *)
Lemma piece_plain_app s1 s2 n : no_dollar s1 = true → piece s2 n → piece (s1 +:+ s2) n.
Proof. intros H1 H2 rest max r Hm Hr Hc. rewrite sapp_assoc. apply counts_plain; [done|]. by apply H2. Qed.

Lemma pg_digits_all ds rest v :
  all_digits ds = true → starts_digit rest = false → digits_value ds v ≤ INT_MAX → 0 ≤ v →
  pg_digits (ds +:+ rest) v = Some (digits_value ds v, rest).
Proof.
  revert v. induction ds as [|c ds IH]; intros v Hall Hr Hle Hv.
  - destruct rest as [|c rest]; [done|]. simpl in Hr. cbn [pg_digits]. change (EmptyString +:+ String c rest) with (String c rest).
    cbn [pg_digits]. by rewrite Hr.
  - cbn [all_digits] in Hall. apply andb_true_iff in Hall as [Hc Hall].
    rewrite sapp_cons. cbn [pg_digits digits_value] in *. rewrite Hc in *.
    assert (0 ≤ digit_value c) by (unfold isdigit, digit_value in *; lia).
    assert (∀ ds v, 0 ≤ v → v ≤ digits_value ds v) as Hmono.
    { clear. induction ds as [|c ds IH]; intros v Hv; simpl; [lia|]. destruct (isdigit c) eqn:E; [|lia].
      assert (0 ≤ digit_value c) by (unfold isdigit, digit_value in *; lia).
      etrans; [|apply IH]; lia. }
    specialize (Hmono ds (v * 10 + digit_value c) ltac:(lia)).
    rewrite (proj2 (Z.leb_le _ _)) by lia. apply IH; [done|done|done|lia].
Qed.

(** A placeholder. *)
Lemma piece_hole n : 0 ≤ n ≤ INT_MAX → piece ("$" +:+ dec n) n.
Proof.
  intros Hn rest max r Hm Hd Hc. unfold dec. destruct (Z.ltb_spec n 0); [lia|].
  destruct (dec_loop_digits 20 n EmptyString) as (ds & -> & Hall & Hne & Hval); [|lia|].
  { change (10 ^ Z.of_nat 20) with (10 ^ 20). unfold INT_MAX in Hn. lia. }
  rewrite sapp_nil_r. assert (digits_value ds 0 = n) as Hv.
  { rewrite <-(sapp_nil_r ds), Hval. cbn [digits_value]. lia. }
  change ("$" +:+ ds) with (String "$" ds). rewrite sapp_cons. intros [|fuel] Hf; [simpl in Hf; lia|].
  cbn [pg_count_loop]. rewrite bool_decide_true by done.
  assert (starts_digit (ds +:+ rest) = true) as ->.
  { destruct ds as [|c ds]; [done|]. cbn [all_digits] in Hall. rewrite sapp_cons. simpl.
    by apply andb_true_iff in Hall as [-> _]. }
  cbn [andb]. rewrite pg_digits_all by (try done; lia). cbn [mbind option_bind]. rewrite Hv.
  replace (if max <? n then n else max) with (Z.max max n) by (destruct (Z.ltb_spec max n); lia).
  apply Hc. simpl in Hf. rewrite length_sapp in Hf. destruct ds; simpl in *; [done|lia].
Qed.

Lemma piece_count s n : piece s n → 0 ≤ n → pg_count_params s = Some n.
Proof.
  intros Hp Hn. unfold pg_count_params. rewrite <-(sapp_nil_r s) at 2. apply Hp; [done|done| |].
  - rewrite Z.max_r by lia. apply counts_nil.
  - rewrite sapp_nil_r. lia.
Qed.

(** The numbers are not negative. *)
Lemma pg_digits_nonneg s v v' rest : 0 ≤ v → pg_digits s v = Some (v', rest) → 0 ≤ v'.
Proof.
  revert v. induction s as [|c s IH]; intros v Hv; cbn [pg_digits]; [by intros [= <- _]|].
  destruct (isdigit c) eqn:E; [|by intros [= <- _]]. cbv zeta. destruct (_ <=? _); [|done].
  apply IH. unfold isdigit, digit_value in *. lia.
Qed.

Lemma pg_count_nonneg sql n : pg_count_params sql = Some n → 0 ≤ n.
Proof.
  unfold pg_count_params. assert (∀ fuel s max, 0 ≤ max → pg_count_loop fuel s max = Some n → 0 ≤ n) as H; [|by apply H].
  induction fuel as [|fuel IH]; intros s max Hm; cbn [pg_count_loop]; [done|]. destruct s as [|c s]; [by intros [= <-]|].
  destruct (_ && _); [|by apply IH]. destruct (pg_digits s 0) as [[v rest]|] eqn:E; [|done]. cbn [mbind option_bind].
  apply IH. apply pg_digits_nonneg in E; [|lia]. destruct (max <? v); lia.
Qed.
