(* ===== verification/Driver.v ===== *)
(** * The driver interface

    The function-pointer table of src/db_driver.h.  A backend is a record of
    operations on a state [D] that stands for the database library and what it
    keeps (connections, prepared statements, the data); [DriverLaws] states
    what the library's own code relies on. *)

From Stdlib Require Import Strings.Byte.
From S2P Require Import Prelude PgText Types.

Inductive C2SqlDialect : Type :=
  | C2SQL_DIALECT_SQLITE
  | C2SQL_DIALECT_POSTGRES.

#[global] Instance C2SqlDialect_eq_dec : EqDecision C2SqlDialect.
Proof. solve_decision. Defined.

(** The value bound to a parameter or held by a column of a result row; a
    double is its 64-bit pattern. *)
Inductive Cell : Type :=
  | CNull
  | CInt (v : Z)
  | CReal (v : Z)
  | CText (s : list byte)
  | CBlob (s : list byte).

Definition is_null (c : Cell) : bool := match c with CNull => true | _ => false end.

(** A double is passed around as its 64-bit pattern.  A [const char *] or
    [const void *] argument is the memory it points to ([None] is NULL); an
    output parameter is a component of the result, and [step]'s is [None] when
    the driver leaves it unwritten. *)

Record SqlRDBDriver (D : Type) : Type := MkDriver {
  drv_name : string;
  drv_dialect : C2SqlDialect;
  drv_open : string → M D (SqlRDBResult * ptr);
  drv_close : ptr → M D SqlRDBResult;
  drv_exec : ptr → string → M D SqlRDBResult;
  drv_prepare : ptr → string → M D (SqlRDBResult * ptr);
  drv_bind_int64 : ptr → Z → Z → M D SqlRDBResult;
  drv_bind_int32 : ptr → Z → Z → M D SqlRDBResult;
  drv_bind_real : ptr → Z → Z → M D SqlRDBResult;
  drv_bind_text : ptr → Z → option (list byte) → Z → M D SqlRDBResult;
  drv_bind_blob : ptr → Z → option (list byte) → Z → M D SqlRDBResult;
  drv_bind_null : ptr → Z → M D SqlRDBResult;
  drv_step : ptr → M D (SqlRDBResult * option bool);
  drv_column_int64 : ptr → Z → M D (SqlRDBResult * Z);
  drv_column_int32 : ptr → Z → M D (SqlRDBResult * Z);
  drv_column_real : ptr → Z → M D (SqlRDBResult * Z);
  drv_column_text : ptr → Z → M D (SqlRDBResult * (option (list byte) * Z));
  drv_column_blob : ptr → Z → M D (SqlRDBResult * (option (list byte) * Z));
  drv_column_isnull : ptr → Z → M D (SqlRDBResult * bool);
  drv_reset : ptr → M D SqlRDBResult;
  drv_finalize : ptr → M D SqlRDBResult;
  drv_begin : ptr → M D SqlRDBResult;
  drv_commit : ptr → M D SqlRDBResult;
  drv_rollback : ptr → M D SqlRDBResult;
  drv_savepoint : ptr → string → M D SqlRDBResult;
  drv_release_sp : ptr → string → M D SqlRDBResult;
  drv_rollback_sp : ptr → string → M D SqlRDBResult;
  drv_changes : ptr → M D Z;
}.
Arguments drv_name {D}.
Arguments drv_dialect {D}.
Arguments drv_open {D}.
Arguments drv_close {D}.
Arguments drv_exec {D}.
Arguments drv_prepare {D}.
Arguments drv_bind_int64 {D}.
Arguments drv_bind_int32 {D}.
Arguments drv_bind_real {D}.
Arguments drv_bind_text {D}.
Arguments drv_bind_blob {D}.
Arguments drv_bind_null {D}.
Arguments drv_step {D}.
Arguments drv_column_int64 {D}.
Arguments drv_column_int32 {D}.
Arguments drv_column_real {D}.
Arguments drv_column_text {D}.
Arguments drv_column_blob {D}.
Arguments drv_column_isnull {D}.
Arguments drv_reset {D}.
Arguments drv_finalize {D}.
Arguments drv_begin {D}.
Arguments drv_commit {D}.
Arguments drv_rollback {D}.
Arguments drv_savepoint {D}.
Arguments drv_release_sp {D}.
Arguments drv_rollback_sp {D}.
Arguments drv_changes {D}.

(** ** What the callers rely on

    What can be seen of the state of a driver: the statements that are prepared
    and not finalized, those of each connection, the connections that are open,
    and whether what the driver keeps for itself is in order. *)
Record View (D : Type) : Type := MkView {
  v_stmts : D → gset ptr;
  v_stmts_of : ptr → D → gset ptr;
  v_conns : D → gset ptr;
  v_good : D → Prop;
}.
Arguments MkView {D}.
Arguments v_stmts {D}.
Arguments v_stmts_of {D}.
Arguments v_conns {D}.
Arguments v_good {D}.

(** The connections are the same, and each has the statements it had. *)
Definition still {D} (v : View D) (d d' : D) : Prop :=
  v_conns v d' = v_conns v d ∧ ∀ c, v_stmts_of v c d' = v_stmts_of v c d.

(** The same, but for the statement [p], which may come or go. *)
Definition still_but {D} (v : View D) (p : ptr) (d d' : D) : Prop :=
  v_conns v d' = v_conns v d ∧ ∀ c, v_stmts_of v c d' ∖ {[p]} = v_stmts_of v c d ∖ {[p]}.

(** No connection is opened or closed, and none gets statements. *)
Definition calm {D} (v : View D) (d d' : D) : Prop :=
  v_conns v d' = v_conns v d ∧ ∀ c, v_stmts_of v c d' ⊆ v_stmts_of v c d.

Lemma still_refl {D} (v : View D) d : still v d d.
Proof. done. Qed.

Lemma still_trans {D} (v : View D) d1 d2 d3 : still v d1 d2 → still v d2 d3 → still v d1 d3.
Proof. intros [H1 H2] [H3 H4]. split; [congruence|]. intros c. by rewrite H4. Qed.

Lemma still_calm {D} (v : View D) d d' : still v d d' → calm v d d'.
Proof. intros [H1 H2]. split; [done|]. intros c. by rewrite H2. Qed.

Lemma calm_refl {D} (v : View D) d : calm v d d.
Proof. done. Qed.

Lemma calm_trans {D} (v : View D) d1 d2 d3 : calm v d1 d2 → calm v d2 d3 → calm v d1 d3.
Proof.
  intros [H1 H2] [H3 H4]. split; [congruence|]. intros c. etrans; [apply H4|apply H2].
Qed.
Lemma still_but_still {D} (v : View D) p d d' : still v d d' → still_but v p d d'.
Proof. intros [H1 H2]. split; [done|]. intros c. by rewrite H2. Qed.
#[export] Hint Resolve calm_refl still_refl still_calm still_but_still : c2sql.

(** From [d] the operation is defined and neither opens nor closes anything. *)
Definition keeps {D A} (v : View D) (m : M D A) (d : D) : Prop :=
  ∃ a d', m d = Some (a, d') ∧ v_stmts v d' = v_stmts v d ∧ still v d d'.

(** The length a driver returns with a buffer is one the buffer has. *)
Definition buffer_ok (q : option (list byte)) (n : Z) : Prop :=
  0 ≤ n ∧ ∀ bs, q = Some bs → n ≤ Z.of_nat (length bs).

(** The length a caller passes with a buffer is one the buffer has and an int
    can hold (-1 asks for the length of a C string). *)
Definition arg_ok (v : option (list byte)) (n : Z) : Prop :=
  ∀ bs, v = Some bs → n ≤ Z.of_nat (length bs) ∧ n ≤ INT_MAX.

(** A text with a statement in it: it starts with a letter, and the numbers of
    its parameters are ones an int can hold. *)
Definition sql_text (d : C2SqlDialect) (sql : string) : Prop :=
  match sql with String c _ => isalpha c = true | EmptyString => False end ∧
  (d = C2SQL_DIALECT_POSTGRES → is_Some (pg_count_params sql)).

Class DriverLaws {D : Type} (drv : SqlRDBDriver D) := {
  view : View D;
  prepare_law c sql d : c ∈ v_conns view d → sql_text (drv_dialect drv) sql → ∃ r p d',
    drv_prepare drv c sql d = Some ((r, p), d') ∧
    if res_ok r then p ≠ NULL ∧ (p ∉ v_stmts view d) ∧ v_stmts view d' = {[p]} ∪ v_stmts view d ∧ still_but view p d d'
    else v_stmts view d' = v_stmts view d ∧ still view d d';
  finalize_law p d : p ∈ v_stmts view d → ∃ r d',
    drv_finalize drv p d = Some (r, d') ∧ v_stmts view d' = v_stmts view d ∖ {[p]} ∧ calm view d d' ∧ still_but view p d d';
  bind_int64_law p i v d : p ∈ v_stmts view d → keeps view (drv_bind_int64 drv p i v) d;
  bind_int32_law p i v d : p ∈ v_stmts view d → keeps view (drv_bind_int32 drv p i v) d;
  bind_real_law p i v d : p ∈ v_stmts view d → keeps view (drv_bind_real drv p i v) d;
  bind_text_law p i v n d : p ∈ v_stmts view d → arg_ok v n → keeps view (drv_bind_text drv p i v n) d;
  bind_blob_law p i v n d : p ∈ v_stmts view d → 0 ≤ n → arg_ok v n → keeps view (drv_bind_blob drv p i v n) d;
  bind_null_law p i d : p ∈ v_stmts view d → keeps view (drv_bind_null drv p i) d;
  step_law p d : p ∈ v_stmts view d → keeps view (drv_step drv p) d;
  column_int64_law p i d : p ∈ v_stmts view d → keeps view (drv_column_int64 drv p i) d;
  column_int32_law p i d : p ∈ v_stmts view d → keeps view (drv_column_int32 drv p i) d;
  column_real_law p i d : p ∈ v_stmts view d → keeps view (drv_column_real drv p i) d;
  column_text_law p i d : p ∈ v_stmts view d → ∃ r q n d',
    drv_column_text drv p i d = Some ((r, (q, n)), d') ∧ v_stmts view d' = v_stmts view d ∧
    still view d d' ∧ buffer_ok q n;
  column_blob_law p i d : p ∈ v_stmts view d → ∃ r q n d',
    drv_column_blob drv p i d = Some ((r, (q, n)), d') ∧ v_stmts view d' = v_stmts view d ∧
    still view d d' ∧ buffer_ok q n;
  column_isnull_law p i d : p ∈ v_stmts view d → keeps view (drv_column_isnull drv p i) d;
  reset_law p d : p ∈ v_stmts view d → keeps view (drv_reset drv p) d;
  exec_law c sql d : c ∈ v_conns view d → keeps view (drv_exec drv c sql) d;
  begin_law c d : c ∈ v_conns view d → keeps view (drv_begin drv c) d;
  commit_law c d : c ∈ v_conns view d → keeps view (drv_commit drv c) d;
  rollback_law c d : c ∈ v_conns view d → keeps view (drv_rollback drv c) d;
  savepoint_law c n d : c ∈ v_conns view d → keeps view (drv_savepoint drv c n) d;
  release_sp_law c n d : c ∈ v_conns view d → keeps view (drv_release_sp drv c n) d;
  rollback_sp_law c n d : c ∈ v_conns view d → keeps view (drv_rollback_sp drv c n) d;
  changes_law c d : c ∈ v_conns view d → keeps view (drv_changes drv c) d;
}.

Abbreviation stmts := (v_stmts view).
Abbreviation stmts_of := (v_stmts_of view).
Abbreviation conns := (v_conns view).
Abbreviation good := (v_good view).

(** Opening and closing connections. *)
Class ConnLaws {D : Type} (drv : SqlRDBDriver D) `{!DriverLaws drv} := {
  conns_good c d : c ∈ conns d → good d;
  open_law dsn d : good d → ∃ r c d',
    drv_open drv dsn d = Some ((r, c), d') ∧ good d' ∧ stmts d' = stmts d ∧
    if res_ok r then c ≠ NULL ∧ (c ∉ conns d) ∧ conns d' = {[c]} ∪ conns d ∧
      stmts_of c d' = ∅
    else conns d' = conns d;
  close_law c d : c ∈ conns d → ∃ r d',
    drv_close drv c d = Some (r, d') ∧ good d' ∧ conns d' = conns d ∖ {[c]} ∧
    stmts d' ⊆ stmts d ∧ stmts d ∖ stmts_of c d ⊆ stmts d';
}.

(** A result set is finite: [rows_left p d] rows, at most [N], are still to
    come from the statement [p]; each step that returns a row uses one up, and
    reading the current row none. *)
Class FiniteRows {D : Type} (drv : SqlRDBDriver D) `{!DriverLaws drv} (N : nat) := {
  rows_left : ptr → D → nat;
  rows_bound p d : p ∈ stmts d → (rows_left p d ≤ N)%nat;
  step_rows p d r d' : p ∈ stmts d →
    drv_step drv p d = Some ((r, Some true), d') → res_ok r = true →
    (rows_left p d' < rows_left p d)%nat;
  text_rows p i d x d' : drv_column_text drv p i d = Some (x, d') → rows_left p d' = rows_left p d;
  int32_rows p i d x d' : drv_column_int32 drv p i d = Some (x, d') → rows_left p d' = rows_left p d;
}.
