(* ===== verification/MemDriver.v ===== *)
(** * An in-memory driver

    An instance of the driver interface small enough to evaluate: the examples
    of the other files run on it, and it shows that the laws of [DriverLaws]
    can hold together.  It stands for no backend of the repository.  A prepared
    statement is a number that is in use; using one that is not is undefined. *)

From Stdlib Require Import Strings.Byte.
From S2P Require Import Prelude Types Driver.

Record Mem : Type := MkMem {
  mem_open : list N;          (* the statements in use *)
  mem_rows : list (list Cell); (* the rows the next steps return *)
  mem_cur : list Cell;        (* the current row *)
  mem_bound : list (Z * Cell); (* what was bound, the last first *)
  mem_log : list string;      (* what was executed, the last first *)
  mem_bad : list string;      (* the statements that fail *)
  mem_conns : list N;         (* the open connections *)
}.

Definition mem0 : Mem := MkMem [] [] [] [] [] [] [1%N].

Definition mem_use (p : N) : M Mem unit := λ m,
  if bool_decide (p ∈ mem_open m) then Some (tt, m) else None.

Definition mem_do {A} (f : Mem → A * Mem) : M Mem A := λ m, Some (f m).

Definition mem_exec (sql : string) : M Mem SqlRDBResult := λ m,
  Some (if bool_decide (sql ∈ mem_bad m) then SQL_RDB_ERR_DRIVER else SQL_RDB_OK,
        MkMem (mem_open m) (mem_rows m) (mem_cur m) (mem_bound m) (sql :: mem_log m) (mem_bad m) (mem_conns m)).

Definition mem_prepare (sql : string) : M Mem (SqlRDBResult * ptr) := λ m,
  if bool_decide (sql ∈ mem_bad m) then Some ((SQL_RDB_ERR_DRIVER, NULL), m)
  else
    let p := (foldr N.max 0 (mem_open m) + 1)%N in
    Some ((SQL_RDB_OK, p),
          MkMem (p :: mem_open m) (mem_rows m) (mem_cur m) (mem_bound m) (sql :: mem_log m) (mem_bad m) (mem_conns m)).

Definition mem_finalize (p : ptr) : M Mem SqlRDBResult :=
  mem_use p;;
  mem_do (λ m, (SQL_RDB_OK, MkMem (filter (λ q, q ≠ p) (mem_open m)) (mem_rows m) (mem_cur m)
                                  (mem_bound m) (mem_log m) (mem_bad m) (mem_conns m))).

Definition mem_bind (p : ptr) (i : Z) (c : Cell) : M Mem SqlRDBResult :=
  mem_use p;;
  mem_do (λ m, (SQL_RDB_OK, MkMem (mem_open m) (mem_rows m) (mem_cur m) ((i, c) :: mem_bound m)
                                  (mem_log m) (mem_bad m) (mem_conns m))).

Definition mem_step (p : ptr) : M Mem (SqlRDBResult * option bool) :=
  mem_use p;;
  mem_do (λ m,
    match mem_rows m with
    | [] => ((SQL_RDB_OK, Some false), m)
    | r :: rows => ((SQL_RDB_OK, Some true),
        MkMem (mem_open m) rows r (mem_bound m) (mem_log m) (mem_bad m) (mem_conns m))
    end).

Definition mem_column {A} (p : ptr) (i : Z) (f : Cell → A) : M Mem (SqlRDBResult * A) :=
  mem_use p;;
  mem_do (λ m, ((SQL_RDB_OK, f (default CNull (mem_cur m !! Z.to_nat i))), m)).

Definition cell_int (c : Cell) : Z := match c with CInt v => v | _ => 0 end.
Definition cell_real (c : Cell) : Z := match c with CReal v => v | _ => 0 end.
Definition cell_bytes (c : Cell) : option (list byte) * Z :=
  match c with
  | CText s | CBlob s => (Some s, Z.of_nat (length s))
  | _ => (None, 0)
  end.

Definition mem_connect : M Mem (SqlRDBResult * ptr) := λ m,
  let c := (foldr N.max 0 (mem_conns m) + 1)%N in
  Some ((SQL_RDB_OK, c),
        MkMem (mem_open m) (mem_rows m) (mem_cur m) (mem_bound m) (mem_log m) (mem_bad m) (c :: mem_conns m)).

Definition mem_driver : SqlRDBDriver Mem := {|
  drv_name := "memory";
  drv_dialect := C2SQL_DIALECT_SQLITE;
  drv_open _ := mem_connect;
  drv_close c := mem_do (λ m, (SQL_RDB_OK,
    MkMem (mem_open m) (mem_rows m) (mem_cur m) (mem_bound m) (mem_log m) (mem_bad m)
      (filter (λ q, q ≠ c) (mem_conns m))));
  drv_exec _ := mem_exec;
  drv_prepare _ := mem_prepare;
  drv_bind_int64 p i v := mem_bind p i (CInt v);
  drv_bind_int32 p i v := mem_bind p i (CInt v);
  drv_bind_real p i v := mem_bind p i (CReal v);
  drv_bind_text p i v n := mem_bind p i (match v with Some s => CText s | None => CNull end);
  drv_bind_blob p i v n := mem_bind p i (match v with Some s => CBlob s | None => CNull end);
  drv_bind_null p i := mem_bind p i CNull;
  drv_step := mem_step;
  drv_column_int64 p i := mem_column p i cell_int;
  drv_column_int32 p i := mem_column p i (λ c, to_signed 32 (cell_int c));
  drv_column_real p i := mem_column p i cell_real;
  drv_column_text p i := mem_column p i cell_bytes;
  drv_column_blob p i := mem_column p i cell_bytes;
  drv_column_isnull p i := mem_column p i is_null;
  drv_reset p := mem_use p;; mret SQL_RDB_OK;
  drv_finalize := mem_finalize;
  drv_begin _ := mem_exec "BEGIN";
  drv_commit _ := mem_exec "COMMIT";
  drv_rollback _ := mem_exec "ROLLBACK";
  drv_savepoint _ n := mem_exec ("SAVEPOINT " +:+ n);
  drv_release_sp _ n := mem_exec ("RELEASE " +:+ n);
  drv_rollback_sp _ n := mem_exec ("ROLLBACK TO " +:+ n);
  drv_changes _ := mret 1;
|}.

Definition mem_stmts (m : Mem) : gset ptr := list_to_set (mem_open m).

Lemma mem_use_run p m : p ∈ mem_stmts m → mem_use p m = Some (tt, m).
Proof.
  intros Hp. unfold mem_use. rewrite bool_decide_true; [done|]. unfold mem_stmts in Hp. set_solver.
Qed.

Lemma foldr_max (l : list N) p : p ∈ l → (p ≤ foldr N.max 0 l)%N.
Proof. induction l as [|q l IH]; simpl; [set_solver|]. intros [->|Hp]%elem_of_cons; [lia|]. specialize (IH Hp). lia. Qed.

(** A connection does not take its statements with it. *)
Definition mem_view : View Mem := MkView mem_stmts (λ _ _, ∅) (λ m, list_to_set (mem_conns m)) (λ _, True).

Lemma mem_still d d' : mem_conns d' = mem_conns d → still mem_view d d'.
Proof. intros E. split; simpl; [by rewrite E|done]. Qed.

Lemma mem_bytes_law p i m :
  p ∈ mem_stmts m → ∃ r q n m', mem_column p i cell_bytes m = Some ((r, (q, n)), m') ∧
    mem_stmts m' = mem_stmts m ∧ still mem_view m m' ∧ buffer_ok q n.
Proof.
  intros Hp. unfold mem_column, mbind, M_bind. rewrite mem_use_run by done. unfold mem_do.
  exists SQL_RDB_OK. destruct (default CNull (mem_cur m !! Z.to_nat i)); simpl; eexists _, _, _;
    (split; [done|]; split; [done|]; split; [by apply mem_still|]; split; [lia|]; by intros bs [= <-]).
Qed.

#[global] Instance mem_driver_laws : DriverLaws mem_driver.
Proof.
  refine {| view := mem_view |}; simpl.
  { intros c sql m _ _. unfold mem_prepare. case_bool_decide; [by eexists _, _, _|].
    eexists _, _, _. split; [done|]. simpl. split; [unfold NULL; lia|]. split; [|done].
    unfold mem_stmts. rewrite elem_of_list_to_set. intros Hp%foldr_max. lia. }
  { intros p m Hp. unfold mem_finalize, mbind, M_bind, mem_do. rewrite mem_use_run by done.
    eexists _, _. split; [done|].
    assert (mem_stmts (MkMem (filter (λ q, q ≠ p) (mem_open m)) (mem_rows m) (mem_cur m) (mem_bound m)
      (mem_log m) (mem_bad m) (mem_conns m)) = mem_stmts m ∖ {[p]}) as E.
    { unfold mem_stmts. cbn [mem_open]. apply set_eq. intros q.
      rewrite elem_of_difference, !elem_of_list_to_set, list_elem_of_filter, elem_of_singleton. tauto. }
    split; [exact E|]. split; [apply still_calm|apply still_but_still]; by apply mem_still. }
  all: try (intros; by apply mem_bytes_law).
  all: intros; unfold keeps, mem_bind, mem_step, mem_column, mbind, M_bind, mem_exec, mem_do; try (by eexists _, _).
  all: rewrite mem_use_run by done; try (by eexists _, _).
  destruct (mem_rows d); by eexists _, _.
Defined.

#[global] Instance mem_conn_laws : ConnLaws mem_driver.
Proof.
  constructor; simpl; [done| |].
  - intros dsn m _. eexists _, _, _. split; [done|]. simpl. split_and!; try done.
    + unfold NULL. lia.
    + rewrite elem_of_list_to_set. intros Hp%foldr_max. lia.
  - intros c m _. eexists _, _. split; [done|]. split_and!; [done| |set_solver|set_solver].
    apply set_eq. intros q. cbn [mem_conns].
    rewrite elem_of_difference, !elem_of_list_to_set, list_elem_of_filter, elem_of_singleton. tauto.
Qed.
