(* ===== verification/CatDriver.v ===== *)
(** * A driver with a catalogue

    An instance of the driver interface for the examples of the migration: each
    query has the rows a table gives for it, which may change with every
    statement that is executed.  It shows that the laws of [DriverLaws] and
    [FiniteRows] can hold together; it stands for no backend of the repository. *)

From Stdlib Require Import String Strings.Byte Strings.Ascii.
From S2P Require Import Prelude Types Driver MemDriver.

(** The rows of each query, after 0, 1, 2, ... executed statements. *)
Definition Catalogue : Type := list (list (string * list (list Cell))).

Record Cat : Type := MkCat {
  cat_open : gmap N (nat * string * nat);  (* statement: when prepared, text, rows returned *)
  cat_execs : list string;                 (* what was executed, the last first *)
  cat_up : bool;                           (* whether the connection 1 is open *)
}.

Definition cat0 : Cat := MkCat ∅ [] true.

Section cat.
Context (dialect : C2SqlDialect) (c : Catalogue).

Fixpoint assoc (sql : string) (l : list (string * list (list Cell))) : list (list Cell) :=
  match l with
  | [] => []
  | (k, rows) :: l => if decide (k = sql) then rows else assoc sql l
  end.

Definition cat_rows (n : nat) (sql : string) : list (list Cell) := assoc sql (default [] (c !! n)).

(** No query has more rows. *)
Definition cat_max : nat := foldr Nat.max 0%nat (length ∘ snd <$> concat c).

Definition cat_at {A} (p : ptr) (f : nat * string * nat → A * (nat * string * nat)) : M Cat A := λ d,
  match cat_open d !! p with
  | None => None
  | Some x => let '(a, x') := f x in Some (a, MkCat (<[p := x']> (cat_open d)) (cat_execs d) (cat_up d))
  end.

Definition cat_prepare (sql : string) : M Cat (SqlRDBResult * ptr) := λ d,
  let p := fresh ({[NULL]} ∪ dom (cat_open d)) in
  Some ((SQL_RDB_OK, p),
        MkCat (<[p := (length (cat_execs d), sql, 0%nat)]> (cat_open d)) (cat_execs d) (cat_up d)).

Definition cat_exec (sql : string) : M Cat SqlRDBResult := λ d,
  Some (SQL_RDB_OK, MkCat (cat_open d) (sql :: cat_execs d) (cat_up d)).

Definition cat_step (p : ptr) : M Cat (SqlRDBResult * option bool) :=
  cat_at p (λ '(e, sql, pos),
    if (pos <? length (cat_rows e sql))%nat then ((SQL_RDB_OK, Some true), (e, sql, S pos))
    else ((SQL_RDB_OK, Some false), (e, sql, pos))).

(** A cell of the current row. *)
Definition cat_cell (x : nat * string * nat) (i : Z) : Cell :=
  let '(e, sql, pos) := x in
  default CNull (row ← cat_rows e sql !! pred pos; row !! Z.to_nat i).

Definition cat_column {A} (p : ptr) (i : Z) (f : Cell → A) : M Cat (SqlRDBResult * A) :=
  cat_at p (λ x, ((SQL_RDB_OK, f (cat_cell x i)), x)).

Definition cat_use (p : ptr) : M Cat SqlRDBResult := cat_at p (λ x, (SQL_RDB_OK, x)).

Definition cat_driver : SqlRDBDriver Cat := {|
  drv_name := "catalogue";
  drv_dialect := dialect;
  drv_open _ := λ d, if cat_up d then Some ((SQL_RDB_ERR_DB_OPEN, NULL), d)
                     else Some ((SQL_RDB_OK, 1%N), MkCat (cat_open d) (cat_execs d) true);
  drv_close c := λ d, Some (SQL_RDB_OK, MkCat (cat_open d) (cat_execs d) (cat_up d && negb (c =? 1)%N));
  drv_exec _ := cat_exec;
  drv_prepare _ := cat_prepare;
  drv_bind_int64 p i v := cat_use p;
  drv_bind_int32 p i v := cat_use p;
  drv_bind_real p i v := cat_use p;
  drv_bind_text p i v n := cat_use p;
  drv_bind_blob p i v n := cat_use p;
  drv_bind_null p i := cat_use p;
  drv_step := cat_step;
  drv_column_int64 p i := cat_column p i cell_int;
  drv_column_int32 p i := cat_column p i (λ c, to_signed 32 (cell_int c));
  drv_column_real p i := cat_column p i cell_real;
  drv_column_text p i := cat_column p i cell_bytes;
  drv_column_blob p i := cat_column p i cell_bytes;
  drv_column_isnull p i := cat_column p i is_null;
  drv_reset := cat_use;
  drv_finalize p := λ d, match cat_open d !! p with
                         | None => None
                         | Some _ => Some (SQL_RDB_OK, MkCat (delete p (cat_open d)) (cat_execs d) (cat_up d))
                         end;
  drv_begin _ := cat_exec "BEGIN";
  drv_commit _ := cat_exec "COMMIT";
  drv_rollback _ := cat_exec "ROLLBACK";
  drv_savepoint _ n := cat_exec ("SAVEPOINT " +:+ n);
  drv_release_sp _ n := cat_exec ("RELEASE " +:+ n);
  drv_rollback_sp _ n := cat_exec ("ROLLBACK TO " +:+ n);
  drv_changes _ := mret 1;
|}.

Definition cat_stmts (d : Cat) : gset ptr := dom (cat_open d).

(** One connection; closing it leaves the statements. *)
Definition cat_view : View Cat := MkView cat_stmts (λ _ _, ∅) (λ d, if cat_up d then {[1%N]} else ∅) (λ _, True).

Lemma cat_still d d' : cat_up d' = cat_up d → still cat_view d d'.
Proof. intros E. split; simpl; [by rewrite E|done]. Qed.

Lemma cat_at_keeps {A} p (f : _ → A * _) d : p ∈ cat_stmts d → keeps cat_view (cat_at p f) d.
Proof.
  unfold keeps, cat_at. simpl. intros Hp.
  destruct (proj1 (elem_of_dom (cat_open d) p) Hp) as [x Hx]. rewrite Hx.
  destruct (f x) as [a x']. eexists _, _. split; [done|].
  assert (cat_stmts (MkCat (<[p := x']> (cat_open d)) (cat_execs d) (cat_up d)) = cat_stmts d) as E
    by (apply dom_insert_lookup_L; by eexists).
  split; [done|]. by apply cat_still.
Qed.

Lemma cat_bytes_law p i d :
  p ∈ cat_stmts d → ∃ r q n d', cat_column p i cell_bytes d = Some ((r, (q, n)), d') ∧
    cat_stmts d' = cat_stmts d ∧ still cat_view d d' ∧ buffer_ok q n.
Proof.
  intros Hp. destruct (cat_at_keeps p (λ x, ((SQL_RDB_OK, cell_bytes (cat_cell x i)), x)) d Hp)
    as ([r [q n]] & d' & E & Hs & Hc). exists r, q, n, d'. split_and!; [done..|].
  unfold cat_at in E. destruct (cat_open d !! p) as [x|]; [|done]. injection E as _ Eq _.
  destruct (cat_cell x i); simpl in Eq; injection Eq as <- <-;
    (split; [lia|]; by intros bs [= <-]).
Qed.

#[global] Instance cat_driver_laws : DriverLaws cat_driver.
Proof.
  refine {| view := cat_view |}; simpl; intros.
  all: try (by apply cat_bytes_law).
  all: try (by apply cat_at_keeps).
  all: try (by eexists _, _).
  - pose proof (is_fresh ({[NULL]} ∪ dom (cat_open d))) as Hf. eexists _, _, _. split; [done|]. simpl.
    split; [set_solver|]. split; [set_solver|]. split; [|done]. unfold cat_stmts. simpl. by rewrite dom_insert_L.
  - destruct (proj1 (elem_of_dom (cat_open d) p) H) as [x Hx]. rewrite Hx.
    eexists _, _. split; [done|].
    assert (cat_stmts (MkCat (delete p (cat_open d)) (cat_execs d) (cat_up d)) = cat_stmts d ∖ {[p]}) as E
      by (unfold cat_stmts; simpl; by rewrite dom_delete_L).
    split; [exact E|]. split; [apply still_calm|apply still_but_still]; by apply cat_still.
Defined.

#[global] Instance cat_conn_laws : ConnLaws cat_driver.
Proof.
  constructor; simpl; intros; [done| |].
  { destruct (cat_up d) eqn:Eu; eexists _, _, _; (split; [done|]); simpl; rewrite ?Eu; done || by split_and!. }
  eexists _, _. split; [done|]. simpl. split_and!; [done| |set_solver|set_solver].
  destruct (cat_up d), (N.eqb_spec c0 1) as [->|]; simpl; set_solver.
Qed.

Lemma cat_rows_max e sql : (length (cat_rows e sql) ≤ cat_max)%nat.
Proof.
  unfold cat_rows, cat_max. assert (∀ l : list (string * list (list Cell)),
    (length (assoc sql l) ≤ foldr Nat.max 0 (length ∘ snd <$> l))%nat) as Hl.
  { induction l as [|[k rows] l IH]; [simpl; lia|]. cbn [assoc]. rewrite fmap_cons. cbn [foldr].
    change ((length ∘ snd) (k, rows)) with (length rows). destruct (decide _); lia. }
  revert e. induction c as [|l c' IH]; intros e; [simpl; lia|]. cbn [concat].
  rewrite fmap_app, foldr_app.
  assert (∀ (a : list nat) z, (foldr Nat.max 0 a ≤ foldr Nat.max z a ∧ z ≤ foldr Nat.max z a)%nat) as Hm
    by (induction a as [|n a IHa]; intros z; simpl; [lia|destruct (IHa z); split; lia]).
  destruct e as [|e].
  - etrans; [apply (Hl l)|]. apply Hm.
  - etrans; [apply (IH e)|]. apply Hm.
Qed.

Definition cat_left (p : ptr) (d : Cat) : nat :=
  match cat_open d !! p with
  | Some (e, sql, pos) => length (cat_rows e sql) - pos
  | None => 0
  end%nat.

Lemma cat_column_left {A} p i (f : Cell → A) d x d' :
  cat_column p i f d = Some (x, d') → cat_left p d' = cat_left p d.
Proof.
  unfold cat_column, cat_at, cat_left. destruct (cat_open d !! p) as [y|]; [|done]. intros [= _ <-]. simpl.
  by rewrite lookup_insert_eq.
Qed.

#[global] Instance cat_driver_finite : FiniteRows cat_driver cat_max.
Proof.
  refine {| rows_left := cat_left |}; simpl.
  - intros p d _. unfold cat_left. destruct (_ !! _) as [[[e sql] pos]|]; [|lia].
    pose proof (cat_rows_max e sql). lia.
  - intros p d r d' _. unfold cat_step, cat_at, cat_left. destruct (cat_open d !! p) as [[[e sql] pos]|]; [|done].
    destruct (Nat.ltb_spec pos (length (cat_rows e sql))); [|done]. intros [= <- <-] _. cbn [cat_open].
    rewrite lookup_insert_eq. lia.
  - intros p i d x d'. apply cat_column_left.
  - intros p i d x d'. apply cat_column_left.
Defined.
End cat.
