(* ===== verification/StmtCache.v ===== *)
(** * The prepared-statement cache (src/stmt_cache.c)

    Definitions: the doubly-linked LRU list and the chained hash table, as the
    code keeps them, on a heap of entries.  The abstract cache and the
    refinement are in StmtCacheSpec.v and StmtCacheProofs.v. *)

From S2P Require Import Prelude Types Driver.

(** ** Data *)

Record SqlRDBStmtCacheEntry : Type := MkEntry {
  ce_sql : string;
  ce_stmt : ptr;
  lru_prev : ptr;
  lru_next : ptr;
  bucket_next : ptr;
}.

(** [c_entries] is the memory of the entries the cache has allocated and not
    freed; [c_buckets] is the bucket array ([[]] when there is none). *)
Record SqlRDBStmtCache : Type := MkCache {
  c_capacity : Z;
  c_size : Z;
  lru_head : ptr;
  lru_tail : ptr;
  c_buckets : list ptr;
  c_bucket_count : Z;
  c_entries : gmap ptr SqlRDBStmtCacheEntry;
}.

(** ** Field updates *)

Definition set_ce_stmt v e := MkEntry (ce_sql e) v (lru_prev e) (lru_next e) (bucket_next e).
Definition set_lru_prev v e := MkEntry (ce_sql e) (ce_stmt e) v (lru_next e) (bucket_next e).
Definition set_lru_next v e := MkEntry (ce_sql e) (ce_stmt e) (lru_prev e) v (bucket_next e).
Definition set_bucket_next v e := MkEntry (ce_sql e) (ce_stmt e) (lru_prev e) (lru_next e) v.

Definition set_capacity v c := MkCache v (c_size c) (lru_head c) (lru_tail c)
  (c_buckets c) (c_bucket_count c) (c_entries c).
Definition set_size v c := MkCache (c_capacity c) v (lru_head c) (lru_tail c)
  (c_buckets c) (c_bucket_count c) (c_entries c).
Definition set_head v c := MkCache (c_capacity c) (c_size c) v (lru_tail c)
  (c_buckets c) (c_bucket_count c) (c_entries c).
Definition set_tail v c := MkCache (c_capacity c) (c_size c) (lru_head c) v
  (c_buckets c) (c_bucket_count c) (c_entries c).
Definition set_buckets v n c := MkCache (c_capacity c) (c_size c) (lru_head c)
  (lru_tail c) v n (c_entries c).
Definition set_entries v c := MkCache (c_capacity c) (c_size c) (lru_head c)
  (lru_tail c) (c_buckets c) (c_bucket_count c) v.

(** memset(c, 0, sizeof *c): no list, no buckets. *)
Definition zero_cache : SqlRDBStmtCache := MkCache 0 0 NULL NULL [] 0 ∅.

(** ** Memory access *)

(** [*p] *)
Definition deref (p : ptr) : M SqlRDBStmtCache SqlRDBStmtCacheEntry := λ c,
  match c_entries c !! p with Some e => Some (e, c) | None => None end.

(** [p->f = v] *)
Definition upd (p : ptr) (f : SqlRDBStmtCacheEntry → SqlRDBStmtCacheEntry) :
    M SqlRDBStmtCache unit := λ c,
  match c_entries c !! p with
  | Some _ => Some (tt, set_entries (alter f p (c_entries c)) c)
  | None => None
  end.

(** [c->buckets[i]] as a value and as an assignment target. *)
Definition bucket_get (i : Z) : M SqlRDBStmtCache ptr := λ c,
  match c_buckets c !! Z.to_nat i with Some p => Some (p, c) | None => None end.
Definition bucket_set (i : Z) (p : ptr) : M SqlRDBStmtCache unit := λ c,
  match c_buckets c !! Z.to_nat i with
  | Some _ => Some (tt, set_buckets (<[Z.to_nat i := p]> (c_buckets c)) (c_bucket_count c) c)
  | None => None
  end.

(** The address calloc returns for a new entry: not NULL, not in use. *)
Definition fresh_ptr (h : gmap ptr SqlRDBStmtCacheEntry) : ptr :=
  fresh ({[NULL]} ∪ dom h).

(** ** Helpers *)

Definition C2SQL_CACHE_MIN_BUCKETS : Z := 16.

(** [while (r < n) r <<= 1;]: 64 iterations bring [r] to 0, where it stays. *)
Fixpoint next_pow2_loop (fuel : nat) (r n : Z) : option Z :=
  if r <? n then
    match fuel with
    | O => None
    | S fuel => next_pow2_loop fuel (size_t (Z.shiftl r 1)) n
    end
  else Some r.

Definition next_pow2_at_least (n : Z) : option Z := next_pow2_loop 64 1 n.

Definition bucket_count_for (capacity : Z) : option Z :=
  if capacity =? 0 then Some 0
  else
    let want := size_t (capacity * 2) in
    let want := if want <? C2SQL_CACHE_MIN_BUCKETS then C2SQL_CACHE_MIN_BUCKETS else want in
    next_pow2_at_least want.

(** djb2 in size_t arithmetic. *)
Fixpoint hash_loop (h : Z) (s : string) : Z :=
  match s with
  | EmptyString => h
  | String ch s' => hash_loop (size_t (size_t (size_t (Z.shiftl h 5) + h) + code ch)) s'
  end.

Definition hash_sql (s : string) : Z := hash_loop 5381 s.

Definition bucket_index (c : SqlRDBStmtCache) (sql : string) : Z :=
  Z.land (hash_sql sql) (size_t (c_bucket_count c - 1)).

(** ** LRU list *)

Definition lru_unlink (e : ptr) : M SqlRDBStmtCache unit :=
  x ← deref e;
  (if (lru_prev x =? NULL)%N then mmodify (set_head (lru_next x))
   else upd (lru_prev x) (set_lru_next (lru_next x)));;
  x ← deref e;
  (if (lru_next x =? NULL)%N then mmodify (set_tail (lru_prev x))
   else upd (lru_next x) (set_lru_prev (lru_prev x)));;
  upd e (λ x, set_lru_prev NULL (set_lru_next NULL x)).

Definition lru_push_front (e : ptr) : M SqlRDBStmtCache unit :=
  upd e (set_lru_prev NULL);;
  c ← mget;
  upd e (set_lru_next (lru_head c));;
  (if (lru_head c =? NULL)%N then mret tt
   else upd (lru_head c) (set_lru_prev e));;
  mmodify (set_head e);;
  c ← mget;
  (if (lru_tail c =? NULL)%N then mmodify (set_tail e) else mret tt).

Definition lru_promote (e : ptr) : M SqlRDBStmtCache unit :=
  c ← mget;
  if (lru_head c =? e)%N then mret tt
  else lru_unlink e;; lru_push_front e.

(** ** Buckets *)

(** The walk along a chain from [e]. *)
Fixpoint bucket_find_loop (fuel : nat) (e : ptr) (sql : string) :
    M SqlRDBStmtCache ptr :=
  if (e =? NULL)%N then mret NULL
  else
    match fuel with
    | O => ub
    | S fuel =>
        x ← deref e;
        if decide (ce_sql x = sql) then mret e
        else bucket_find_loop fuel (bucket_next x) sql
    end.

(** A chain visits every entry at most once: the number of entries is fuel
    enough. *)
Definition chain_fuel (c : SqlRDBStmtCache) : nat := S (size (c_entries c)).

Definition bucket_find (idx : Z) (sql : string) : M SqlRDBStmtCache ptr :=
  e ← bucket_get idx;
  c ← mget;
  bucket_find_loop (chain_fuel c) e sql.

(** The pointer-to-pointer [pp] of bucket_unlink is the address of a bucket or
    of the [bucket_next] member of an entry. *)
Inductive link : Type :=
  | LBucket (idx : Z)
  | LNext (e : ptr).

Definition link_get (pp : link) : M SqlRDBStmtCache ptr :=
  match pp with
  | LBucket idx => bucket_get idx
  | LNext e => x ← deref e; mret (bucket_next x)
  end.

Definition link_set (pp : link) (v : ptr) : M SqlRDBStmtCache unit :=
  match pp with
  | LBucket idx => bucket_set idx v
  | LNext e => upd e (set_bucket_next v)
  end.

(** [while ( *pp && *pp != e) pp = &( *pp)->bucket_next;] *)
Fixpoint bucket_unlink_loop (fuel : nat) (pp : link) (e : ptr) :
    M SqlRDBStmtCache link :=
  p ← link_get pp;
  if (p =? NULL)%N || (p =? e)%N then mret pp
  else
    match fuel with
    | O => ub
    | S fuel => bucket_unlink_loop fuel (LNext p) e
    end.

Definition bucket_unlink (e : ptr) : M SqlRDBStmtCache unit :=
  x ← deref e;
  c ← mget;
  pp ← bucket_unlink_loop (chain_fuel c) (LBucket (bucket_index c (ce_sql x))) e;
  p ← link_get pp;
  (if (p =? NULL)%N then mret tt
   else x ← deref e; link_set pp (bucket_next x));;
  upd e (set_bucket_next NULL).

Definition bucket_insert (e : ptr) : M SqlRDBStmtCache unit :=
  x ← deref e;
  c ← mget;
  let idx := bucket_index c (ce_sql x) in
  b ← bucket_get idx;
  upd e (set_bucket_next b);;
  bucket_set idx e.

(** ** Entry lifecycle and the operations of the cache *)

Section Cache.
Context {D : Type}.

(** The cache, the driver's state and the allocation outcomes. *)
Record CState : Type := MkCState {
  cs_cache : SqlRDBStmtCache;
  cs_db : D;
  cs_alloc : list bool;
}.

Definition on_cache {A} (m : M SqlRDBStmtCache A) : M CState A :=
  zoom cs_cache (λ c s, MkCState c (cs_db s) (cs_alloc s)) m.
Definition on_db {A} (m : M D A) : M CState A :=
  zoom cs_db (λ d s, MkCState (cs_cache s) d (cs_alloc s)) m.
Definition on_alloc {A} (m : M (list bool) A) : M CState A :=
  zoom cs_alloc (λ a s, MkCState (cs_cache s) (cs_db s) a) m.

(** [if (drv && drv->finalize) drv->finalize(stmt);] *)
Definition finalize (drv : option (SqlRDBDriver D)) (stmt : ptr) : M CState unit :=
  match drv with
  | Some drv => on_db (drv_finalize drv stmt);; mret tt
  | None => mret tt
  end.

Definition entry_finalize_and_free (e : ptr) (drv : option (SqlRDBDriver D)) :
    M CState unit :=
  x ← on_cache (deref e);
  finalize drv (ce_stmt x);;
  on_cache (mmodify (λ c, set_entries (delete e (c_entries c)) c)).

Definition evict_lru_tail (drv : option (SqlRDBDriver D)) : M CState unit :=
  c ← on_cache mget;
  let victim := lru_tail c in
  if (victim =? NULL)%N then mret tt
  else
    on_cache (lru_unlink victim);;
    on_cache (bucket_unlink victim);;
    on_cache (mmodify (λ c, set_size (size_t (c_size c - 1)) c));;
    entry_finalize_and_free victim drv.

Definition c2sql_internal_cache_init (capacity : Z) : M CState SqlRDBResult :=
  on_cache (mmodify (λ _, set_capacity capacity zero_cache));;
  if capacity =? 0 then mret SQL_RDB_OK
  else
    bcount ← mdef (bucket_count_for capacity);
    ok ← on_alloc malloc;
    if negb ok then
      on_cache (mmodify (set_capacity 0));;
      mret SQL_RDB_ERR_NO_MEMORY
    else
      on_cache (mmodify (set_buckets (replicate (Z.to_nat bcount) NULL) bcount));;
      mret SQL_RDB_OK.

(** The statement is NULL when the result is not SQL_RDB_OK. *)
Definition c2sql_internal_cache_get (sql : option string) :
    M CState (SqlRDBResult * ptr) :=
  match sql with
  | None => mret (SQL_RDB_ERR_INVALID_ARG, NULL)
  | Some sql =>
      c ← on_cache mget;
      if (c_capacity c =? 0) || (c_size c =? 0) then mret (SQL_RDB_ERR_NOT_FOUND, NULL)
      else
        e ← on_cache (bucket_find (bucket_index c sql) sql);
        if (e =? NULL)%N then mret (SQL_RDB_ERR_NOT_FOUND, NULL)
        else
          on_cache (lru_promote e);;
          x ← on_cache (deref e);
          mret (SQL_RDB_OK, ce_stmt x)
  end.

Definition c2sql_internal_cache_put (sql : option string) (stmt : ptr)
    (drv : option (SqlRDBDriver D)) : M CState SqlRDBResult :=
  match sql with
  | None => mret SQL_RDB_ERR_INVALID_ARG
  | Some sql =>
      c ← on_cache mget;
      if c_capacity c =? 0 then finalize drv stmt;; mret SQL_RDB_OK
      else
        existing ← on_cache (bucket_find (bucket_index c sql) sql);
        if negb (existing =? NULL)%N then
          x ← on_cache (deref existing);
          finalize drv (ce_stmt x);;
          on_cache (upd existing (set_ce_stmt stmt));;
          on_cache (lru_promote existing);;
          mret SQL_RDB_OK
        else
          (if c_capacity c <=? c_size c then evict_lru_tail drv else mret tt);;
          e_ok ← on_alloc malloc;
          sql_ok ← (if e_ok : bool then on_alloc malloc else mret false);
          if negb e_ok || negb sql_ok then
            finalize drv stmt;; mret SQL_RDB_ERR_NO_MEMORY
          else
            c ← on_cache mget;
            let e := fresh_ptr (c_entries c) in
            on_cache (mmodify (set_entries
              (<[e := MkEntry sql stmt NULL NULL NULL]> (c_entries c))));;
            on_cache (bucket_insert e);;
            on_cache (lru_push_front e);;
            on_cache (mmodify (λ c, set_size (size_t (c_size c + 1)) c));;
            mret SQL_RDB_OK
  end.

(** [while (c->size > new_capacity) evict_lru_tail(...);] *)
Fixpoint evict_loop (fuel : nat) (new_capacity : Z) (drv : option (SqlRDBDriver D)) :
    M CState unit :=
  c ← on_cache mget;
  if c_size c <=? new_capacity then mret tt
  else
    match fuel with
    | O => ub
    | S fuel => evict_lru_tail drv;; evict_loop fuel new_capacity drv
    end.

(** [for (e = lru_head; e; e = e->lru_next) e->bucket_next = NULL;] *)
Fixpoint clear_chains_loop (fuel : nat) (e : ptr) : M SqlRDBStmtCache unit :=
  if (e =? NULL)%N then mret tt
  else
    match fuel with
    | O => ub
    | S fuel =>
        upd e (set_bucket_next NULL);;
        x ← deref e;
        clear_chains_loop fuel (lru_next x)
    end.

(** The second loop: insert every entry of the list into the new table. *)
Fixpoint rehash_loop (fuel : nat) (mask : Z) (e : ptr) : M SqlRDBStmtCache unit :=
  if (e =? NULL)%N then mret tt
  else
    match fuel with
    | O => ub
    | S fuel =>
        x ← deref e;
        let idx := Z.land (hash_sql (ce_sql x)) mask in
        b ← bucket_get idx;
        upd e (set_bucket_next b);;
        bucket_set idx e;;
        x ← deref e;
        rehash_loop fuel mask (lru_next x)
    end.

Definition c2sql_internal_cache_rebuild (new_capacity : Z)
    (drv : option (SqlRDBDriver D)) : M CState SqlRDBResult :=
  c ← on_cache mget;
  evict_loop (Z.to_nat (c_size c)) new_capacity drv;;
  if new_capacity =? 0 then
    on_cache (mmodify (λ c, set_capacity 0 (set_buckets [] 0 c)));;
    mret SQL_RDB_OK
  else
    want_buckets ← mdef (bucket_count_for new_capacity);
    c ← on_cache mget;
    r ← (if want_buckets =? c_bucket_count c then mret SQL_RDB_OK
         else
           ok ← on_alloc malloc;
           if negb ok then mret SQL_RDB_ERR_NO_MEMORY
           else
             let mask := size_t (want_buckets - 1) in
             on_cache (clear_chains_loop (chain_fuel c) (lru_head c));;
             on_cache (mmodify
               (set_buckets (replicate (Z.to_nat want_buckets) NULL) want_buckets));;
             on_cache (rehash_loop (chain_fuel c) mask (lru_head c));;
             mret SQL_RDB_OK);
    if negb (res_ok r) then mret r
    else
      on_cache (mmodify (set_capacity new_capacity));;
      mret SQL_RDB_OK.

Fixpoint destroy_loop (fuel : nat) (e : ptr) (drv : option (SqlRDBDriver D)) :
    M CState unit :=
  if (e =? NULL)%N then mret tt
  else
    match fuel with
    | O => ub
    | S fuel =>
        x ← on_cache (deref e);
        let next := lru_next x in
        entry_finalize_and_free e drv;;
        destroy_loop fuel next drv
    end.

(** The final memset does not free entries: what is left in memory stays. *)
Definition c2sql_internal_cache_destroy (drv : option (SqlRDBDriver D)) :
    M CState unit :=
  c ← on_cache mget;
  destroy_loop (chain_fuel c) (lru_head c) drv;;
  on_cache (mmodify (λ c, set_entries (c_entries c) zero_cache)).

End Cache.
Arguments CState : clear implicits.
