(* ===== verification/StmtCacheSpec.v ===== *)
(** * What the statement cache promises

    The abstract cache of stmt_cache.h: the entries from the most to the least
    recently used, and the statements each operation finalizes.  Then the
    relation [rep] between a cache in memory and an abstract cache. *)

From S2P Require Import Prelude Types Driver StmtCache.

(** ** The abstract cache *)

Record AbsCache : Type := MkAbs {
  a_capacity : Z;
  a_entries : list (string * ptr);
}.

Fixpoint a_lookup (sql : string) (l : list (string * ptr)) : option ptr :=
  match l with
  | [] => None
  | (k, s) :: l => if decide (k = sql) then Some s else a_lookup sql l
  end.

Definition a_remove (sql : string) (l : list (string * ptr)) : list (string * ptr) :=
  filter (λ x, x.1 ≠ sql) l.

(** The entry is moved to the front; nothing is finalized. *)
Definition abs_get (sql : string) (a : AbsCache) : (SqlRDBResult * ptr) * AbsCache :=
  match a_lookup sql (a_entries a) with
  | None => ((SQL_RDB_ERR_NOT_FOUND, NULL), a)
  | Some s =>
      ((SQL_RDB_OK, s),
       MkAbs (a_capacity a) ((sql, s) :: a_remove sql (a_entries a)))
  end.

(** [put]: the result, the statements finalized in order, the new cache;
    [e_ok] and [s_ok] tell whether the two allocations succeed. *)
Definition abs_put (sql : string) (stmt : ptr) (e_ok s_ok : bool) (a : AbsCache) :
    SqlRDBResult * list ptr * AbsCache :=
  if a_capacity a =? 0 then (SQL_RDB_OK, [stmt], a)
  else
    match a_lookup sql (a_entries a) with
    | Some old =>
        (SQL_RDB_OK, [old],
         MkAbs (a_capacity a) ((sql, stmt) :: a_remove sql (a_entries a)))
    | None =>
        let n := if a_capacity a <=? Z.of_nat (length (a_entries a))
                 then pred (length (a_entries a)) else length (a_entries a) in
        let victims := snd <$> drop n (a_entries a) in
        let kept := take n (a_entries a) in
        if e_ok && s_ok then
          (SQL_RDB_OK, victims, MkAbs (a_capacity a) ((sql, stmt) :: kept))
        else (SQL_RDB_ERR_NO_MEMORY, victims ++ [stmt], MkAbs (a_capacity a) kept)
    end.

(** [rebuild]: the entries beyond the new capacity go, least recent first. *)
Definition abs_rebuild (new_capacity : Z) (ok : bool) (a : AbsCache) :
    SqlRDBResult * list ptr * AbsCache :=
  let n := Z.to_nat new_capacity in
  let victims := reverse (snd <$> drop n (a_entries a)) in
  if ok then (SQL_RDB_OK, victims, MkAbs new_capacity (take n (a_entries a)))
  else (SQL_RDB_ERR_NO_MEMORY, victims, MkAbs (a_capacity a) (take n (a_entries a))).

(** ** Views of the entries in memory *)

Definition lview (h : gmap ptr SqlRDBStmtCacheEntry) : gmap ptr (ptr * ptr) :=
  (λ e, (lru_prev e, lru_next e)) <$> h.
Definition nview (h : gmap ptr SqlRDBStmtCacheEntry) : gmap ptr ptr :=
  bucket_next <$> h.
Definition kview (h : gmap ptr SqlRDBStmtCacheEntry) : gmap ptr (string * ptr) :=
  (λ e, (ce_sql e, ce_stmt e)) <$> h.

(** The first and the last pointer of a list, NULL when it is empty. *)
Definition hdp (d : ptr) (ps : list ptr) : ptr := default d (head ps).
Definition lastp (d : ptr) (ps : list ptr) : ptr := default d (last ps).

(** [ps] is a doubly linked segment between [prev] and [next]. *)
Fixpoint dlseg (L : gmap ptr (ptr * ptr)) (prev : ptr) (ps : list ptr) (next : ptr) : Prop :=
  match ps with
  | [] => True
  | p :: ps' => L !! p = Some (prev, hdp next ps') ∧ dlseg L p ps' next
  end.

(** [qs] is the chain from [start] to [stop]. *)
Fixpoint cseg (B : gmap ptr ptr) (start : ptr) (qs : list ptr) (stop : ptr) : Prop :=
  match qs with
  | [] => start = stop
  | q :: qs' => start = q ∧ ∃ n, B !! q = Some n ∧ cseg B n qs' stop
  end.

(** The LRU list of [c] is [ps]. *)
Record lru_rep (c : SqlRDBStmtCache) (ps : list ptr) : Prop := {
  lru_nodup : NoDup ps;
  lru_null : NULL ∉ ps;
  lru_seg : dlseg (lview (c_entries c)) NULL ps NULL;
  lru_head_ok : lru_head c = hdp NULL ps;
  lru_tail_ok : lru_tail c = lastp NULL ps;
}.

(** The bucket of a key in a table of [n] buckets. *)
Definition bidx (n : Z) (sql : string) : nat :=
  Z.to_nat (Z.land (hash_sql sql) (size_t (n - 1))).

(** Bucket [i] of [c] is the chain of the members of [T] whose key hashes to
    [i]. *)
Definition chain_ok (c : SqlRDBStmtCache) (T : gset ptr) (i : nat) (qs : list ptr) : Prop :=
  (∃ b, c_buckets c !! i = Some b ∧ cseg (nview (c_entries c)) b qs NULL) ∧
  NoDup qs ∧
  ∀ p, p ∈ qs ↔ p ∈ T ∧
    ∃ k, kview (c_entries c) !! p = Some k ∧ bidx (c_bucket_count c) k.1 = i.

Record tab_rep (c : SqlRDBStmtCache) (T : gset ptr) : Prop := {
  tab_len : c_bucket_count c = Z.of_nat (length (c_buckets c));
  tab_pow : ∃ k, 0 ≤ k ≤ 63 ∧ c_bucket_count c = 2 ^ k;
  tab_null : NULL ∉ T;
  tab_chains : ∀ i, (i < length (c_buckets c))%nat → ∃ qs, chain_ok c T i qs;
}.

(** ** The representation relation

    [rep c ps a]: the cache [c] in memory, whose entries are [ps] from the
    most to the least recently used, is the abstract cache [a]. *)
Record rep (c : SqlRDBStmtCache) (ps : list ptr) (a : AbsCache) : Prop := {
  rep_lru : lru_rep c ps;
  rep_tab : if c_capacity c =? 0 then c_buckets c = [] ∧ c_bucket_count c = 0 ∧ ps = []
            else tab_rep c (list_to_set ps);
  rep_cap : c_capacity c = a_capacity a;
  rep_cap_range : 0 ≤ c_capacity c < SIZE_MOD;
  rep_size : c_size c = Z.of_nat (length ps);
  rep_bound : Z.of_nat (length ps) ≤ c_capacity c;
  rep_dom : dom (c_entries c) = list_to_set ps;
  rep_abs : Forall2 (λ p kv, kview (c_entries c) !! p = Some kv) ps (a_entries a);
  rep_keys : NoDup (a_entries a).*1;
}.

(** Running the finalizations an abstract operation lists. *)
Fixpoint fin_all {D} (drv : option (SqlRDBDriver D)) (l : list ptr) : M D unit :=
  match l with
  | [] => mret tt
  | p :: l =>
      match drv with
      | Some drv => drv_finalize drv p;; mret tt
      | None => mret tt
      end;;
      fin_all drv l
  end.
