(* ===== verification/StmtCacheProofs.v ===== *)
(** * The statement cache in memory

    List and chain surgery on the heap of entries, and the specification of
    each helper of stmt_cache.c on the LRU list and on the hash table. *)

From S2P Require Import Prelude Types Driver StmtCache StmtCacheSpec.

(** ** Views and updates *)

Lemma fmap_alter_commute {A B} (g : A → B) (f : A → A) (f' : B → B) p (h : gmap ptr A) :
  (∀ e, g (f e) = f' (g e)) → g <$> alter f p h = alter f' p (g <$> h).
Proof.
  intros Hgf. apply map_eq. intros q. rewrite lookup_fmap.
  destruct (decide (p = q)) as [->|].
  - rewrite !lookup_alter_eq, lookup_fmap. destruct (h !! q); simpl; by rewrite ?Hgf.
  - by rewrite !lookup_alter_ne, lookup_fmap by done.
Qed.

Lemma fmap_alter_same {A B} (g : A → B) (f : A → A) p (h : gmap ptr A) :
  (∀ e, g (f e) = g e) → g <$> alter f p h = g <$> h.
Proof.
  intros Hgf. apply map_eq. intros q. rewrite !lookup_fmap.
  destruct (decide (p = q)) as [->|].
  - rewrite lookup_alter_eq. destruct (h !! q); simpl; by rewrite ?Hgf.
  - by rewrite lookup_alter_ne by done.
Qed.

Definition set_fst (v : ptr) (x : ptr * ptr) : ptr * ptr := (v, x.2).
Definition set_snd (v : ptr) (x : ptr * ptr) : ptr * ptr := (x.1, v).

Lemma lview_set_prev v p h :
  lview (alter (set_lru_prev v) p h) = alter (set_fst v) p (lview h).
Proof. by apply fmap_alter_commute. Qed.
Lemma lview_set_next v p h :
  lview (alter (set_lru_next v) p h) = alter (set_snd v) p (lview h).
Proof. by apply fmap_alter_commute. Qed.
Lemma nview_set_bnext v p h :
  nview (alter (set_bucket_next v) p h) = alter (λ _, v) p (nview h).
Proof. by apply fmap_alter_commute. Qed.
Create Rewrite HintDb views.
#[export] Hint Rewrite lview_set_prev lview_set_next nview_set_bnext : views.

(** ** The run of single accesses *)

Lemma deref_run p e c : c_entries c !! p = Some e → deref p c = Some (e, c).
Proof. intros H. unfold deref. by rewrite H. Qed.

Lemma upd_run p f c :
  is_Some (c_entries c !! p) →
  upd p f c = Some (tt, set_entries (alter f p (c_entries c)) c).
Proof. intros [e H]. unfold upd. by rewrite H. Qed.

Lemma is_Some_lview h p : is_Some (lview h !! p) ↔ is_Some (h !! p).
Proof. unfold lview. by rewrite lookup_fmap, fmap_is_Some. Qed.
Lemma is_Some_nview h p : is_Some (nview h !! p) ↔ is_Some (h !! p).
Proof. unfold nview. by rewrite lookup_fmap, fmap_is_Some. Qed.
Lemma is_Some_kview h p : is_Some (kview h !! p) ↔ is_Some (h !! p).
Proof. unfold kview. by rewrite lookup_fmap, fmap_is_Some. Qed.

Lemma lview_entry h p x :
  lview h !! p = Some x → ∃ e, h !! p = Some e ∧ lru_prev e = x.1 ∧ lru_next e = x.2.
Proof. unfold lview. rewrite lookup_fmap, fmap_Some. naive_solver. Qed.
Lemma nview_entry h p n : nview h !! p = Some n → ∃ e, h !! p = Some e ∧ bucket_next e = n.
Proof. unfold nview. rewrite lookup_fmap, fmap_Some. naive_solver. Qed.
Lemma kview_entry h p k :
  kview h !! p = Some k → ∃ e, h !! p = Some e ∧ ce_sql e = k.1 ∧ ce_stmt e = k.2.
Proof. unfold kview. rewrite lookup_fmap, fmap_Some. naive_solver. Qed.
Lemma entry_kview h p e : h !! p = Some e → kview h !! p = Some (ce_sql e, ce_stmt e).
Proof. intros H. unfold kview. by rewrite lookup_fmap, H. Qed.
Lemma entry_nview h p e : h !! p = Some e → nview h !! p = Some (bucket_next e).
Proof. intros H. unfold nview. by rewrite lookup_fmap, H. Qed.

(** ** Doubly linked segments *)

Lemma hdp_app d ps qs : hdp d (ps ++ qs) = hdp (hdp d qs) ps.
Proof. by destruct ps. Qed.
Lemma lastp_cons d p ps : lastp d (p :: ps) = lastp p ps.
Proof. unfold lastp. rewrite last_cons. by destruct (last ps). Qed.
Lemma lastp_app d ps qs : lastp d (ps ++ qs) = lastp (lastp d ps) qs.
Proof.
  unfold lastp. rewrite last_app. by destruct (last qs).
Qed.

Lemma hdp_in d ps : hdp d ps = d ∨ hdp d ps ∈ ps.
Proof. destruct ps; [by left|right]. by apply list_elem_of_here. Qed.
Lemma lastp_in d ps : lastp d ps = d ∨ lastp d ps ∈ ps.
Proof.
  revert d. induction ps as [|p ps IH]; intros d; [by left|]. rewrite lastp_cons. right.
  destruct (IH p) as [->|?]; set_solver.
Qed.

Lemma dlseg_app L prev ps qs next :
  dlseg L prev (ps ++ qs) next ↔
  dlseg L prev ps (hdp next qs) ∧ dlseg L (lastp prev ps) qs next.
Proof.
  revert prev. induction ps as [|p ps IH]; intros prev; simpl; [naive_solver|].
  rewrite IH, hdp_app, lastp_cons. naive_solver.
Qed.

Lemma dlseg_frame L L' prev ps next :
  (∀ p, p ∈ ps → L' !! p = L !! p) → dlseg L prev ps next → dlseg L' prev ps next.
Proof.
  revert prev. induction ps as [|p ps IH]; intros prev HL; simpl; [done|].
  intros [Hp Hps]. split; [rewrite HL by set_solver; done|].
  apply IH; [set_solver|done].
Qed.

Lemma dlseg_lookup L prev ps next p :
  dlseg L prev ps next → p ∈ ps → is_Some (L !! p).
Proof.
  revert prev. induction ps as [|q ps IH]; intros prev; simpl; [set_solver|].
  intros [Hq Hps] [->|?]%elem_of_cons; [by eexists|eauto].
Qed.

(** Redirect the [prev] of the first node, the [next] of the last one. *)
Lemma dlseg_set_head L prev prev' p ps next :
  p ∉ ps → dlseg L prev (p :: ps) next →
  dlseg (alter (set_fst prev') p L) prev' (p :: ps) next.
Proof.
  simpl. intros Hp [HL Hps]. rewrite lookup_alter_eq, HL. split; [done|].
  eapply dlseg_frame; [|done]. intros q Hq. apply lookup_alter_ne. set_solver.
Qed.

Lemma dlseg_set_last L prev ps p next next' :
  p ∉ ps → dlseg L prev (ps ++ [p]) next →
  dlseg (alter (set_snd next') p L) prev (ps ++ [p]) next'.
Proof.
  intros Hp. rewrite !dlseg_app. simpl. intros (Hps & HL & _). split_and!; [|by rewrite lookup_alter_eq, HL|done].
  eapply dlseg_frame; [|done]. intros q Hq. apply lookup_alter_ne. set_solver.
Qed.

(** ** The LRU list *)

(** The operations on the list leave the table and the keys alone. *)
Record same_table (c c' : SqlRDBStmtCache) : Prop := {
  st_capacity : c_capacity c' = c_capacity c;
  st_size : c_size c' = c_size c;
  st_buckets : c_buckets c' = c_buckets c;
  st_count : c_bucket_count c' = c_bucket_count c;
  st_nview : nview (c_entries c') = nview (c_entries c);
  st_kview : kview (c_entries c') = kview (c_entries c);
}.

#[global] Instance same_table_refl : Reflexive same_table.
Proof. by intros c. Qed.
#[global] Instance same_table_trans : Transitive same_table.
Proof. intros c1 c2 c3 [] []. split; congruence. Qed.

Lemma same_table_set_head v c : same_table c (set_head v c).
Proof. done. Qed.
Lemma same_table_set_tail v c : same_table c (set_tail v c).
Proof. done. Qed.
Lemma same_table_alter f p c :
  (∀ e, bucket_next (f e) = bucket_next e) →
  (∀ e, (ce_sql (f e), ce_stmt (f e)) = (ce_sql e, ce_stmt e)) →
  same_table c (set_entries (alter f p (c_entries c)) c).
Proof. intros ??. split; try done; simpl; by apply fmap_alter_same. Qed.

(** The first redirection of lru_unlink: the head of the list or the [next] of
    the node before [e]. *)
Lemma unlink_step1 c ps1 (n : ptr) :
  NoDup ps1 → NULL ∉ ps1 →
  (∀ p, p ∈ ps1 → is_Some (c_entries c !! p)) →
  let m := if (lastp NULL ps1 =? NULL)%N then mmodify (set_head n)
           else upd (lastp NULL ps1) (set_lru_next n) in
  ∃ c', m c = Some (tt, c') ∧ same_table c c' ∧ lru_tail c' = lru_tail c ∧
    lru_head c' = (if decide (ps1 = []) then n else lru_head c) ∧
    (∀ prev m0, dlseg (lview (c_entries c)) prev ps1 m0 →
       dlseg (lview (c_entries c')) prev ps1 n) ∧
    (∀ p, p ∉ ps1 → lview (c_entries c') !! p = lview (c_entries c) !! p).
Proof.
  intros Hnd Hnull Hdom. simpl. destruct ps1 as [|q ps1 _] using rev_ind.
  - eexists. split_and!; done.
  - rewrite lastp_app. change (lastp _ [q]) with q.
    assert ((q =? NULL)%N = false) as ->.
    { apply N.eqb_neq. intros ->. set_solver. }
    rewrite upd_run by (apply Hdom; set_solver).
    apply NoDup_app in Hnd as (_ & Hq & _).
    eexists. split_and!; [done|by apply same_table_alter|done| | |].
    + rewrite decide_False; [done|]. by destruct ps1.
    + simpl. intros prev m0. rewrite lview_set_next.
      apply dlseg_set_last. set_solver.
    + intros p Hp. simpl. rewrite lview_set_next. apply lookup_alter_ne. set_solver.
Qed.

(** The second one: the tail of the list or the [prev] of the node after. *)
Lemma unlink_step2 c ps2 (v : ptr) :
  NoDup ps2 → NULL ∉ ps2 →
  (∀ p, p ∈ ps2 → is_Some (c_entries c !! p)) →
  let m := if (hdp NULL ps2 =? NULL)%N then mmodify (set_tail v)
           else upd (hdp NULL ps2) (set_lru_prev v) in
  ∃ c', m c = Some (tt, c') ∧ same_table c c' ∧ lru_head c' = lru_head c ∧
    lru_tail c' = (if decide (ps2 = []) then v else lru_tail c) ∧
    (∀ m0 next, dlseg (lview (c_entries c)) m0 ps2 next →
       dlseg (lview (c_entries c')) v ps2 next) ∧
    (∀ p, p ∉ ps2 → lview (c_entries c') !! p = lview (c_entries c) !! p).
Proof.
  intros Hnd Hnull Hdom. simpl. destruct ps2 as [|q ps2].
  - eexists. split_and!; done.
  - change (hdp NULL (q :: ps2)) with q.
    assert ((q =? NULL)%N = false) as ->.
    { apply N.eqb_neq. intros ->. set_solver. }
    rewrite upd_run by (apply Hdom; set_solver).
    apply NoDup_cons in Hnd as [Hq _].
    eexists. split_and!; [done|by apply same_table_alter|done|done| |].
    + intros m0 next. simpl c_entries. rewrite lview_set_prev. by apply dlseg_set_head.
    + intros p Hp. simpl. rewrite lview_set_prev. apply lookup_alter_ne. set_solver.
Qed.

Lemma lru_entries c ps p : lru_rep c ps → p ∈ ps → is_Some (c_entries c !! p).
Proof.
  intros Hc Hp. apply is_Some_lview. by eapply dlseg_lookup; [apply lru_seg|].
Qed.

Lemma lru_unlink_spec c ps1 e ps2 :
  lru_rep c (ps1 ++ e :: ps2) →
  ∃ c', lru_unlink e c = Some (tt, c') ∧ lru_rep c' (ps1 ++ ps2) ∧ same_table c c'.
Proof.
  intros Hc. pose proof (λ p, lru_entries c _ p Hc) as Hent.
  destruct Hc as [Hnd Hnull Hseg Hhead Htail].
  apply NoDup_app in Hnd as (Hnd1 & Hdis & [He2 Hnd2]%NoDup_cons).
  assert (e ∉ ps1) as He1 by (intros ?; eapply Hdis; set_solver).
  apply dlseg_app in Hseg as [Hs1 [He Hs2]]. change (hdp NULL (e :: ps2)) with e in Hs1.
  apply lview_entry in He as He'. destruct He' as (x & Hx & Hxp & Hxn). simpl in Hxp, Hxn.
  destruct (unlink_step1 c ps1 (hdp NULL ps2)) as (c1 & Hr1 & Hst1 & Ht1 & Hh1 & Hd1 & Hf1);
    [done|set_solver|set_solver|].
  rewrite <-(Hf1 e He1) in He. apply lview_entry in He as (x1 & Hx1 & Hx1p & Hx1n).
  simpl in Hx1p, Hx1n.
  assert (∀ p, is_Some (c_entries c1 !! p) ↔ is_Some (c_entries c !! p)) as Hdom1.
  { intros p. rewrite <-!is_Some_kview. by rewrite (st_kview _ _ Hst1). }
  destruct (unlink_step2 c1 ps2 (lastp NULL ps1)) as (c2 & Hr2 & Hst2 & Hh2 & Ht2 & Hd2 & Hf2);
    [done|set_solver|intros p Hp; apply Hdom1, Hent; set_solver|].
  assert (is_Some (c_entries c2 !! e)) as He2s.
  { apply is_Some_kview. rewrite (st_kview _ _ Hst2), is_Some_kview. eauto. }
  eexists. unfold lru_unlink. run (deref_run _ _ _ Hx). rewrite Hxp, Hxn. run Hr1.
  run (deref_run _ _ _ Hx1). rewrite Hx1p, Hx1n. run Hr2. rewrite upd_run by done.
  split_and!; [done| |by etrans; [done|]; etrans; [done|]; apply same_table_alter].
  assert (∀ p, p ≠ e → lview (alter (λ y, set_lru_prev NULL (set_lru_next NULL y)) e
    (c_entries c2)) !! p = lview (c_entries c2) !! p) as Hf.
  { intros p Hp. unfold lview. by rewrite !lookup_fmap, lookup_alter_ne. }
  split; simpl.
  - apply NoDup_app. split_and!; [done| |done]. intros p Hp1 Hp2. eapply Hdis; set_solver.
  - set_solver.
  - apply dlseg_app. split.
    + eapply dlseg_frame; [|apply (Hd1 NULL e), Hs1].
      intros p Hp. rewrite Hf by congruence. apply Hf2. intros ?. eapply Hdis; set_solver.
    + eapply dlseg_frame; [|apply (Hd2 e NULL)].
      * intros p Hp. apply Hf. congruence.
      * eapply dlseg_frame; [|apply Hs2]. intros p Hp. apply Hf1.
        intros ?. eapply Hdis; set_solver.
  - rewrite Hh2, Hh1. destruct (decide (ps1 = [])) as [Hd|Hd]; [by rewrite Hd|].
    rewrite Hhead, !hdp_app. by destruct ps1.
  - rewrite Ht2. destruct (decide (ps2 = [])) as [Hd|Hd]; [by rewrite Hd, app_nil_r|].
    rewrite Ht1, Htail, !lastp_app. destruct ps2; [done|]. by rewrite !lastp_cons.
Qed.

Lemma lru_push_front_spec c ps e :
  lru_rep c ps → e ∉ ps → e ≠ NULL → is_Some (c_entries c !! e) →
  ∃ c', lru_push_front e c = Some (tt, c') ∧ lru_rep c' (e :: ps) ∧ same_table c c'.
Proof.
  intros Hc He Hnull Hs. pose proof (λ p, lru_entries c _ p Hc) as Hent.
  destruct Hc as [Hnd Hn Hseg Hhead Htail].
  set (h1 := alter (set_lru_next (lru_head c)) e (alter (set_lru_prev NULL) e (c_entries c))).
  assert (∀ p, is_Some (h1 !! p) ↔ is_Some (c_entries c !! p)) as Hdom.
  { intros p. unfold h1. rewrite <-!elem_of_dom, !dom_alter_L. done. }
  assert (lview h1 !! e = Some (NULL, hdp NULL ps)) as Hle.
  { unfold h1. rewrite lview_set_next, lview_set_prev, !lookup_alter_eq, Hhead.
    apply is_Some_lview in Hs as [x ->]. done. }
  assert (∀ p, p ≠ e → lview h1 !! p = lview (c_entries c) !! p) as Hlne.
  { intros p Hp. unfold h1. by rewrite lview_set_next, lview_set_prev, !lookup_alter_ne. }
  assert (same_table c (set_entries h1 c)) as Hst1.
  { transitivity (set_entries (alter (set_lru_prev NULL) e (c_entries c)) c);
      [by apply same_table_alter|].
    by apply (same_table_alter _ _ (set_entries _ c)). }
  unfold lru_push_front. rewrite (bind_run _ _ _ _ _ (upd_run e _ c Hs)). cbn beta.
  rewrite (bind_run _ _ _ _ _ eq_refl). cbn beta.
  rewrite (bind_run _ _ _ tt (set_entries h1 c)).
  2:{ rewrite upd_run; [done|]. apply elem_of_dom. simpl. rewrite dom_alter_L.
      by apply elem_of_dom. }
  simpl. rewrite Hhead. destruct ps as [|q ps].
  - change (hdp NULL []) with NULL. rewrite N.eqb_refl. simpl.
    eexists. rewrite (bind_run _ _ _ _ _ eq_refl). cbn beta.
    rewrite (bind_run _ _ _ _ _ eq_refl). cbn beta. rewrite (bind_run _ _ _ _ _ eq_refl).
    cbn beta. simpl. rewrite Htail. change (lastp NULL []) with NULL. rewrite N.eqb_refl.
    split_and!; [done| |by etrans; [apply Hst1|]].
    split; simpl; [apply NoDup_singleton|set_solver|done|done|done].
  - change (hdp NULL (q :: ps)) with q.
    assert ((q =? NULL)%N = false) as -> by (apply N.eqb_neq; intros ->; set_solver).
    rewrite (bind_run _ _ _ _ _ (upd_run q _ (set_entries h1 c) (proj2 (Hdom q) (Hent q (list_elem_of_here _ _))))).
    cbn beta. rewrite (bind_run _ _ _ _ _ eq_refl). cbn beta.
    rewrite (bind_run _ _ _ _ _ eq_refl). cbn beta. simpl. rewrite Htail, lastp_cons.
    assert ((lastp q ps =? NULL)%N = false) as ->.
    { apply N.eqb_neq. intros HN. apply Hn. rewrite <-HN, elem_of_cons.
      destruct (lastp_in q ps); auto. }
    eexists. split_and!; [done| |].
    + split; simpl.
      * apply NoDup_cons. done.
      * set_solver.
      * rewrite lview_set_prev. split; [rewrite lookup_alter_ne by set_solver; done|].
        apply (dlseg_set_head _ NULL); [by apply NoDup_cons in Hnd as [??]|].
        eapply dlseg_frame; [|apply Hseg]. intros p Hp. apply Hlne. set_solver.
      * done.
      * by rewrite Htail, !lastp_cons.
    + etrans; [apply Hst1|]. etrans; [|apply same_table_set_head].
      by apply (same_table_alter _ _ (set_entries h1 c)).
Qed.

Lemma lru_promote_spec c ps1 e ps2 :
  lru_rep c (ps1 ++ e :: ps2) →
  ∃ c', lru_promote e c = Some (tt, c') ∧ lru_rep c' (e :: ps1 ++ ps2) ∧ same_table c c'.
Proof.
  intros Hc. unfold lru_promote. rewrite (bind_run _ _ _ _ _ eq_refl). cbn beta.
  pose proof (lru_nodup _ _ Hc) as Hnd. pose proof (lru_null _ _ Hc) as Hnull.
  destruct (N.eqb_spec (lru_head c) e) as [Hh|Hh].
  - exists c. rewrite (lru_head_ok _ _ Hc) in Hh. destruct ps1 as [|q ps1]; [done|].
    change (hdp NULL ((q :: ps1) ++ e :: ps2)) with q in Hh. subst q. exfalso.
    apply NoDup_app in Hnd as (_ & Hd & _). eapply (Hd e); set_solver.
  - destruct (lru_unlink_spec c ps1 e ps2 Hc) as (c1 & Hr1 & Hc1 & Hst1).
    run Hr1. destruct (lru_push_front_spec c1 (ps1 ++ ps2) e) as (c2 & Hr2 & Hc2 & Hst2);
      [done| | | |].
    + apply NoDup_app in Hnd as (_ & Hd & [? _]%NoDup_cons). intros [?|?]%elem_of_app; [|done].
      eapply (Hd e); set_solver.
    + intros ->. set_solver.
    + apply is_Some_kview. rewrite (st_kview _ _ Hst1), is_Some_kview.
      apply (lru_entries _ _ _ Hc). set_solver.
    + exists c2. split_and!; [done|done|by etrans].
Qed.

(** ** Chains *)

Lemma cseg_app B b qs1 qs2 s :
  cseg B b (qs1 ++ qs2) s ↔ ∃ m, cseg B b qs1 m ∧ cseg B m qs2 s.
Proof.
  revert b. induction qs1 as [|q qs1 IH]; intros b; simpl; [naive_solver|].
  setoid_rewrite IH. naive_solver.
Qed.

Lemma cseg_frame B B' b qs s :
  (∀ p, p ∈ qs → B' !! p = B !! p) → cseg B b qs s → cseg B' b qs s.
Proof.
  revert b. induction qs as [|q qs IH]; intros b HB; simpl; [done|].
  intros (-> & n & Hn & Hqs). split; [done|]. exists n. split.
  - rewrite HB by set_solver. done.
  - apply IH; [set_solver|done].
Qed.

Lemma cseg_lookup B b qs s p : cseg B b qs s → p ∈ qs → is_Some (B !! p).
Proof.
  revert b. induction qs as [|q qs IH]; intros b; simpl; [set_solver|].
  intros (-> & n & Hn & Hqs) [->|?]%elem_of_cons; eauto.
Qed.

Lemma cseg_set_last B b qs q s s' :
  q ∉ qs → cseg B b (qs ++ [q]) s → cseg (<[q := s']> B) b (qs ++ [q]) s'.
Proof.
  intros Hq. rewrite !cseg_app. simpl. intros (m & Hqs & -> & n & Hn & _).
  exists q. split_and!; [|done|exists s'; by rewrite lookup_insert_eq].
  eapply cseg_frame; [|done]. intros p Hp. apply lookup_insert_ne. set_solver.
Qed.

Lemma nodup_fuel (qs : list ptr) (h : gmap ptr SqlRDBStmtCacheEntry) :
  NoDup qs → (∀ q, q ∈ qs → is_Some (h !! q)) → (length qs ≤ size h)%nat.
Proof.
  intros Hnd Hin. rewrite <-(size_dom (D := gset ptr) h).
  rewrite <-(size_list_to_set (C := gset ptr) qs) by done.
  apply subseteq_size. intros q Hq. apply elem_of_dom, Hin. by apply elem_of_list_to_set in Hq.
Qed.

(** ** The hash table *)

Lemma land_mask k h : 0 ≤ k ≤ 63 → Z.land h (size_t (2 ^ k - 1)) = h mod 2 ^ k.
Proof.
  intros Hk. assert (2 ^ k ≤ 2 ^ 63) by (apply Z.pow_le_mono_r; lia).
  assert (0 < 2 ^ k) by (apply Z.pow_pos_nonneg; lia).
  rewrite size_t_small by (unfold SIZE_MOD; lia).
  rewrite <-Z.land_ones by lia. by rewrite Z.ones_equiv.
Qed.

Lemma bucket_index_bidx c T sql :
  tab_rep c T →
  bucket_index c sql = Z.of_nat (bidx (c_bucket_count c) sql) ∧
  (bidx (c_bucket_count c) sql < length (c_buckets c))%nat.
Proof.
  intros [Hlen (k & Hk & Hpow) _ _]. unfold bucket_index, bidx. rewrite Hpow at 1 2 3.
  rewrite !land_mask by done.
  assert (0 ≤ hash_sql sql mod 2 ^ k < 2 ^ k) by (apply Z.mod_pos_bound; lia).
  split; [|]; lia.
Qed.

Lemma bucket_get_run c i b : c_buckets c !! Z.to_nat i = Some b → bucket_get i c = Some (b, c).
Proof. intros H. unfold bucket_get. by rewrite H. Qed.
Lemma bucket_set_run c i b p :
  c_buckets c !! Z.to_nat i = Some b →
  bucket_set i p c =
    Some (tt, set_buckets (<[Z.to_nat i := p]> (c_buckets c)) (c_bucket_count c) c).
Proof. intros H. unfold bucket_set. by rewrite H. Qed.

Lemma bucket_find_loop_spec c sql qs fuel b :
  cseg (nview (c_entries c)) b qs NULL → NULL ∉ qs → (length qs ≤ fuel)%nat →
  ∃ r, bucket_find_loop fuel b sql c = Some (r, c) ∧
    (r = NULL ∧ (∀ p k, p ∈ qs → kview (c_entries c) !! p = Some k → k.1 ≠ sql) ∨
     r ≠ NULL ∧ r ∈ qs ∧ ∃ s, kview (c_entries c) !! r = Some (sql, s)).
Proof.
  revert fuel b. induction qs as [|q qs IH]; intros fuel b; simpl.
  - intros -> _ _. exists NULL. destruct fuel; set_solver.
  - intros (-> & n & Hn & Hqs) Hnull Hf. destruct fuel as [|fuel]; [lia|]. simpl.
    assert (q ≠ NULL) as Hq by set_solver.
    rewrite (proj2 (N.eqb_neq _ _) Hq).
    apply nview_entry in Hn as (x & Hx & <-). run (deref_run _ _ _ Hx).
    pose proof (entry_kview _ _ _ Hx) as Hkx.
    destruct (decide (ce_sql x = sql)) as [<-|Hne].
    + exists q. split; [done|]. right. set_solver.
    + destruct (IH fuel (bucket_next x)) as (r & Hr & Hcase); [done|set_solver|lia|].
      exists r. split; [done|]. destruct Hcase as [[-> Hall]|(? & ? & ?)]; [left|right].
      * split; [done|]. intros p k [->|?]%elem_of_cons Hk; [|by eapply Hall].
        rewrite Hkx in Hk. by simplify_eq.
      * set_solver.
Qed.

Lemma chain_ok_fuel c T i qs : chain_ok c T i qs → (length qs ≤ size (c_entries c))%nat.
Proof.
  intros ((b & _ & Hseg) & Hnd & _). apply nodup_fuel; [done|].
  intros q Hq. apply is_Some_nview. by eapply cseg_lookup.
Qed.

Lemma chain_ok_null c T i qs : NULL ∉ T → chain_ok c T i qs → NULL ∉ qs.
Proof. intros HT (_ & _ & Hin) Hq. by apply Hin in Hq as [? _]. Qed.

(** Looking a key up in the table: NULL iff no member has it. *)
Lemma bucket_find_spec c T sql :
  tab_rep c T →
  ∃ r, bucket_find (bucket_index c sql) sql c = Some (r, c) ∧
    (r = NULL ∧ (∀ p k, p ∈ T → kview (c_entries c) !! p = Some k → k.1 ≠ sql) ∨
     r ≠ NULL ∧ r ∈ T ∧ ∃ s, kview (c_entries c) !! r = Some (sql, s)).
Proof.
  intros HT. destruct (bucket_index_bidx c T sql HT) as [Hi Hlt].
  destruct (tab_chains _ _ HT _ Hlt) as (qs & Hch).
  pose proof (chain_ok_fuel _ _ _ _ Hch) as Hfuel.
  pose proof (chain_ok_null _ _ _ _ (tab_null _ _ HT) Hch) as Hnull.
  destruct Hch as ((b & Hb & Hseg) & _ & Hin).
  unfold bucket_find. rewrite Hi.
  rewrite (bind_run _ _ _ _ _ (bucket_get_run c _ b ltac:(by rewrite Nat2Z.id))).
  cbn beta. rewrite (bind_run _ _ _ _ _ eq_refl). cbn beta.
  destruct (bucket_find_loop_spec c sql qs (chain_fuel c) b) as (r & Hr & Hcase);
    [done|done|unfold chain_fuel; lia|].
  exists r. split; [done|]. destruct Hcase as [[-> Hall]|(? & Hq & s & Hs)]; [left|right].
  - split; [done|]. intros p k Hp Hk Heq. eapply Hall; [|done|done].
    apply Hin. split; [done|]. exists k. by rewrite Heq.
  - apply Hin in Hq as [? _]. eauto.
Qed.

(** The operations on the table leave the list and the keys alone. *)
Record same_list (c c' : SqlRDBStmtCache) : Prop := {
  sl_capacity : c_capacity c' = c_capacity c;
  sl_size : c_size c' = c_size c;
  sl_head : lru_head c' = lru_head c;
  sl_tail : lru_tail c' = lru_tail c;
  sl_lview : lview (c_entries c') = lview (c_entries c);
  sl_kview : kview (c_entries c') = kview (c_entries c);
}.

#[global] Instance same_list_refl : Reflexive same_list.
Proof. by intros c. Qed.
#[global] Instance same_list_trans : Transitive same_list.
Proof. intros c1 c2 c3 [] []. split; congruence. Qed.

Lemma same_list_alter v p c :
  same_list c (set_entries (alter (set_bucket_next v) p (c_entries c)) c).
Proof. split; try done; simpl; by apply fmap_alter_same. Qed.
Lemma same_list_buckets v n c : same_list c (set_buckets v n c).
Proof. done. Qed.

Lemma lru_rep_same_list c c' ps : same_list c c' → lru_rep c ps → lru_rep c' ps.
Proof. intros [] []. split; congruence. Qed.

Lemma tab_rep_same_table c c' T : same_table c c' → tab_rep c T → tab_rep c' T.
Proof.
  intros [Hcap Hsz Hb Hc Hn Hk] [Hl Hp H0 Hch]. split; rewrite ?Hb, ?Hc; try done.
  intros i Hi. destruct (Hch i Hi) as (qs & Hqs). exists qs.
  unfold chain_ok. by rewrite Hb, Hc, Hn, Hk.
Qed.

Lemma alter_const {A} (v : A) q (N : gmap ptr A) :
  is_Some (N !! q) → alter (λ _, v) q N = <[q := v]> N.
Proof.
  intros [w Hw]. apply map_eq. intros p. destruct (decide (q = p)) as [->|].
  - by rewrite lookup_alter_eq, lookup_insert_eq, Hw.
  - by rewrite lookup_alter_ne, lookup_insert_ne.
Qed.

(** Replacing one chain of the table: the others are those of [c] as long as
    the links that changed are not theirs. *)
Lemma tab_rep_change c c' T T' i qs :
  tab_rep c T → (i < length (c_buckets c))%nat → NULL ∉ T' →
  c_bucket_count c' = c_bucket_count c → length (c_buckets c') = length (c_buckets c) →
  kview (c_entries c') = kview (c_entries c) →
  (∀ j, j ≠ i → c_buckets c' !! j = c_buckets c !! j) →
  (∀ p k, kview (c_entries c) !! p = Some k → bidx (c_bucket_count c) k.1 ≠ i →
     nview (c_entries c') !! p = nview (c_entries c) !! p ∧ (p ∈ T' ↔ p ∈ T)) →
  chain_ok c' T' i qs → tab_rep c' T'.
Proof.
  intros [Hl Hp H0 Hch] Hi H0' Hc Hlen Hk Hb Hn Hqs.
  split; rewrite ?Hc, ?Hlen; try done.
  intros j Hj. destruct (decide (j = i)) as [->|Hji]; [by exists qs|].
  destruct (Hch j Hj) as (rs & (b & Hbj & Hseg) & Hnd & Hin). exists rs.
  split_and!; [|done|].
  - exists b. split; [by rewrite Hb|]. eapply cseg_frame; [|done].
    intros p (HpT & k & Hkp & Hbk)%Hin. by apply (Hn p k Hkp); rewrite Hbk.
  - intros p. rewrite Hk, Hc, Hin. split; intros (HpT & k & Hkp & Hbk).
    + split; [|by exists k]. apply (Hn p k Hkp); [by rewrite Hbk|done].
    + split; [|by exists k]. apply (Hn p k Hkp); [by rewrite Hbk|done].
Qed.

Lemma bucket_insert_spec c T e k :
  tab_rep c T → e ∉ T → e ≠ NULL → kview (c_entries c) !! e = Some k →
  ∃ c', bucket_insert e c = Some (tt, c') ∧ tab_rep c' ({[e]} ∪ T) ∧ same_list c c' ∧
    c_bucket_count c' = c_bucket_count c.
Proof.
  intros HT He Hnull Hk. destruct (bucket_index_bidx c T k.1 HT) as [Hi Hlt].
  destruct (tab_chains _ _ HT _ Hlt) as (qs & (b & Hb & Hseg) & Hnd & Hin).
  pose proof (tab_null _ _ HT) as H0.
  apply kview_entry in Hk as Hx. destruct Hx as (x & Hx & Hxs & _).
  assert (is_Some (c_entries c !! e)) as Hsx by eauto.
  unfold bucket_insert. run (deref_run _ _ _ Hx). rewrite (bind_run _ _ _ _ _ eq_refl).
  cbn beta zeta. rewrite Hxs, Hi.
  rewrite (bind_run _ _ _ _ _ (bucket_get_run c _ b ltac:(by rewrite Nat2Z.id))). cbn beta.
  rewrite (bind_run _ _ _ _ _ (upd_run e _ c Hsx)). cbn beta.
  rewrite (bucket_set_run _ _ b) by (simpl; by rewrite Nat2Z.id). rewrite Nat2Z.id.
  eexists. split_and!; [done| |by etrans; [apply same_list_alter|apply same_list_buckets]|done].
  set (i := bidx (c_bucket_count c) k.1) in *.
  assert (e ∉ qs) as Heq by (intros [? _]%Hin; done).
  eapply (tab_rep_change c _ T _ i (e :: qs)); try done; simpl.
  - set_solver.
  - by rewrite length_insert.
  - by apply fmap_alter_same.
  - intros j Hj. by apply list_lookup_insert_ne.
  - intros p k' Hp Hbk. assert (p ≠ e) as Hpe by (intros ->; rewrite Hk in Hp; by simplify_eq).
    split; [by rewrite nview_set_bnext, lookup_alter_ne|set_solver].
  - split_and!.
    + exists e. simpl. split; [by apply list_lookup_insert_eq|]. split; [done|]. exists b.
      rewrite nview_set_bnext, lookup_alter_eq, (entry_nview _ _ _ Hx). split; [done|].
      eapply cseg_frame; [|done]. intros p Hp. apply lookup_alter_ne. congruence.
    + by apply NoDup_cons.
    + intros p. simpl. unfold kview. rewrite fmap_alter_same by done.
      change ((λ e, (ce_sql e, ce_stmt e)) <$> c_entries c) with (kview (c_entries c)).
      rewrite elem_of_cons, Hin. split; [intros [->|(? & ? & ?)]|].
      * split; [set_solver|by exists k].
      * split; [set_solver|eauto].
      * intros ([->%elem_of_singleton|?]%elem_of_union & ?); eauto.
Qed.

Lemma bucket_unlink_loop_spec c qs1 e qs2 fuel pp b :
  link_get pp c = Some (b, c) →
  cseg (nview (c_entries c)) b (qs1 ++ e :: qs2) NULL →
  NULL ∉ qs1 ++ [e] → e ∉ qs1 → (length qs1 ≤ fuel)%nat →
  let pp' := from_option LNext pp (last qs1) in
  bucket_unlink_loop fuel pp e c = Some (pp', c) ∧ link_get pp' c = Some (e, c).
Proof.
  revert fuel pp b. induction qs1 as [|q qs1 IH]; intros fuel pp b Hpp Hseg Hnull He Hf.
  - destruct Hseg as [-> _]. simpl.
    destruct fuel; simpl; run Hpp; rewrite N.eqb_refl, orb_true_r; done.
  - destruct fuel as [|fuel]; [simpl in Hf; lia|]. destruct Hseg as (-> & n & Hn & Hseg).
    simpl. run Hpp.
    rewrite (proj2 (N.eqb_neq q NULL)), (proj2 (N.eqb_neq q e)) by set_solver. simpl.
    apply nview_entry in Hn as (x & Hx & <-).
    rewrite last_cons. replace (from_option LNext pp _) with
      (from_option LNext (LNext q) (last qs1)) by (by destruct (last qs1)).
    apply (IH fuel (LNext q) (bucket_next x)); [|done|set_solver|set_solver|simpl in Hf; lia].
    simpl. by run (deref_run _ _ _ Hx).
Qed.

(** After the walk: [e] is taken out of the chain [qs1 ++ e :: qs2] of bucket
    [i].  Only the bucket or the entry before [e], and [e], change. *)
Lemma bucket_relink c i b qs1 e qs2 x :
  c_buckets c !! i = Some b → c_entries c !! e = Some x →
  cseg (nview (c_entries c)) b (qs1 ++ e :: qs2) NULL → NoDup (qs1 ++ e :: qs2) →
  ∃ c', (link_set (from_option LNext (LBucket (Z.of_nat i)) (last qs1)) (bucket_next x);;
         upd e (set_bucket_next NULL)) c = Some (tt, c') ∧ same_list c c' ∧
    c_bucket_count c' = c_bucket_count c ∧ length (c_buckets c') = length (c_buckets c) ∧
    (∀ j, j ≠ i → c_buckets c' !! j = c_buckets c !! j) ∧
    (∀ p, p ∉ qs1 ++ [e] → nview (c_entries c') !! p = nview (c_entries c) !! p) ∧
    ∃ b', c_buckets c' !! i = Some b' ∧ cseg (nview (c_entries c')) b' (qs1 ++ qs2) NULL.
Proof.
  intros Hb Hx Hseg Hnd. pose proof Hseg as Hseg0.
  apply NoDup_app in Hnd as (Hnd1 & Hdis & [He2 Hnd2]%NoDup_cons).
  assert (e ∉ qs1) as He1 by (intros ?; eapply (Hdis e); set_solver).
  apply cseg_app in Hseg as (m & Hs1 & -> & n & Hn & Hs2).
  rewrite (entry_nview _ _ _ Hx) in Hn. injection Hn as <-.
  assert (is_Some (c_entries c !! e)) as Hsx by eauto.
  destruct qs1 as [|q qs1 _] using rev_ind; simpl.
  - rewrite (bind_run _ _ _ _ _ (bucket_set_run c _ b _ ltac:(by rewrite Nat2Z.id))). cbn beta.
    rewrite Nat2Z.id, upd_run by done. eexists.
    split_and!; [done|by etrans; [apply same_list_buckets|apply (same_list_alter NULL e (set_buckets _ _ c))]
      |done|by simpl; rewrite length_insert| | |]; simpl.
    + intros j Hj. by apply list_lookup_insert_ne.
    + intros p Hp. rewrite nview_set_bnext. apply lookup_alter_ne. set_solver.
    + eexists. split; [apply list_lookup_insert_eq; by eapply lookup_lt_Some|].
      eapply cseg_frame; [|done]. intros p Hp. rewrite nview_set_bnext. apply lookup_alter_ne. set_solver.
  - rewrite last_snoc. simpl.
    assert (is_Some (c_entries c !! q)) as Hsq.
    { apply is_Some_nview. eapply cseg_lookup; [apply Hseg0|set_solver]. }
    rewrite (bind_run _ _ _ _ _ (upd_run q _ c Hsq)). cbn beta.
    rewrite upd_run by (simpl; apply elem_of_dom; rewrite dom_alter_L; by apply elem_of_dom).
    apply NoDup_app in Hnd1 as (_ & Hq & _).
    eexists. split_and!; [done|by etrans; [apply same_list_alter|apply (same_list_alter NULL e (set_entries _ c))]
      |done|done|done| |]; simpl; rewrite !nview_set_bnext.
    + intros p Hp. rewrite !lookup_alter_ne by set_solver. done.
    + exists b. split; [done|]. apply cseg_app. exists (bucket_next x). split.
      * eapply cseg_frame; [|eapply (cseg_set_last (nview (c_entries c)) b qs1 q e); [set_solver|apply Hs1]].
        intros p Hp. rewrite lookup_alter_ne by congruence. by rewrite alter_const by (by apply is_Some_nview).
      * eapply cseg_frame; [|done]. intros p Hp. rewrite !lookup_alter_ne; [done| |congruence].
        intros <-. eapply (Hdis q); set_solver.
Qed.

Lemma bucket_unlink_spec c T e k :
  tab_rep c T → e ∈ T → kview (c_entries c) !! e = Some k →
  ∃ c', bucket_unlink e c = Some (tt, c') ∧ tab_rep c' (T ∖ {[e]}) ∧ same_list c c' ∧
    c_bucket_count c' = c_bucket_count c.
Proof.
  intros HT He Hk. destruct (bucket_index_bidx c T k.1 HT) as [Hi Hlt].
  destruct (tab_chains _ _ HT _ Hlt) as (qs & Hch).
  pose proof (chain_ok_fuel _ _ _ _ Hch) as Hfuel.
  pose proof (chain_ok_null _ _ _ _ (tab_null _ _ HT) Hch) as Hnull.
  destruct Hch as ((b & Hb & Hseg) & Hnd & Hin).
  set (i := bidx (c_bucket_count c) k.1) in *.
  assert (e ∈ qs) as Heq by (apply Hin; eauto).
  apply list_elem_of_split in Heq as (qs1 & qs2 & ->).
  assert (e ∉ qs1) as He1.
  { apply NoDup_app in Hnd as (_ & Hdis & _). intros ?. eapply (Hdis e); set_solver. }
  apply kview_entry in Hk as Hx. destruct Hx as (x & Hx & Hxs & _).
  destruct (bucket_unlink_loop_spec c qs1 e qs2 (chain_fuel c) (LBucket (Z.of_nat i)) b)
    as [Hloop Hget]; [|done|set_solver|done| |].
  { simpl. apply bucket_get_run. by rewrite Nat2Z.id. }
  { unfold chain_fuel. rewrite length_app in Hfuel. lia. }
  destruct (bucket_relink c i b qs1 e qs2 x) as (c' & Hrun & Hsl & Hcc & Hlen & Hbj & Hnp & b' & Hb' & Hseg');
    [done..|].
  exists c'. split_and!; [| |done|done].
  - unfold bucket_unlink. run (deref_run _ _ _ Hx). rewrite (bind_run _ _ _ _ _ eq_refl).
    cbn beta. rewrite Hxs, Hi. run Hloop. run Hget.
    rewrite (proj2 (N.eqb_neq e NULL)) by set_solver.
    unfold mbind, M_bind in *. by rewrite (deref_run _ _ _ Hx).
  - apply (tab_rep_change c c' T (T ∖ {[e]}) i (qs1 ++ qs2)); try done.
    + pose proof (tab_null _ _ HT). set_solver.
    + apply Hsl.
    + intros p k' Hp Hbk.
      assert (p ∉ qs1 ++ e :: qs2) as Hpq.
      { intros (_ & k2 & Hk2 & ?)%Hin. rewrite Hp in Hk2. by simplify_eq. }
      split; [apply Hnp; set_solver|]. set_solver.
    + split_and!; [eauto| |].
      * apply NoDup_app in Hnd as (Hnd1 & Hdis & [He2 Hnd2]%NoDup_cons).
        apply NoDup_app. split_and!; [done| |done]. intros p Hp1 Hp2. eapply (Hdis p); set_solver.
      * intros p. rewrite (sl_kview _ _ Hsl), Hcc. specialize (Hin p).
        apply NoDup_app in Hnd as (_ & _ & [He2 _]%NoDup_cons). set_solver.
Qed.
