(* ===== verification/StmtCacheRefine.v ===== *)
(** * The statement cache refines its specification

    Every operation of stmt_cache.c, run on a cache in memory that represents
    an abstract cache, returns what the abstract operation returns, finalizes
    the statements it lists in that order, and leaves a cache that represents
    the abstract result. *)

From S2P Require Import Prelude Types Driver StmtCache StmtCacheSpec StmtCacheProofs.

(** ** The abstract cache in memory *)

Lemma a_lookup_app sql l1 l2 :
  a_lookup sql (l1 ++ l2) = match a_lookup sql l1 with Some s => Some s | None => a_lookup sql l2 end.
Proof. induction l1 as [|[k s] l1 IH]; [done|]. simpl. by case_decide. Qed.

Lemma a_lookup_None sql l : a_lookup sql l = None ↔ sql ∉ l.*1.
Proof.
  induction l as [|[k s] l IH]; simpl; [set_solver|].
  rewrite not_elem_of_cons, <-IH. case_decide; naive_solver.
Qed.

Lemma a_remove_not_in sql l : sql ∉ l.*1 → a_remove sql l = l.
Proof.
  unfold a_remove. induction l as [|[k s] l IH]; simpl; [done|].
  rewrite not_elem_of_cons. intros [??]. rewrite filter_cons_True by (simpl; congruence).
  by rewrite IH.
Qed.

Lemma a_remove_split sql s l1 l2 :
  NoDup (l1 ++ (sql, s) :: l2).*1 →
  a_lookup sql (l1 ++ (sql, s) :: l2) = Some s ∧
  a_remove sql (l1 ++ (sql, s) :: l2) = l1 ++ l2.
Proof.
  rewrite fmap_app, fmap_cons. intros (_ & Hdis & [H2 _]%NoDup_cons)%NoDup_app.
  assert (sql ∉ l1.*1) as H1 by (intros ?; eapply (Hdis sql); set_solver).
  rewrite a_lookup_app, (proj2 (a_lookup_None _ _) H1). simpl. rewrite decide_True by done.
  split; [done|].
  assert (a_remove sql (l1 ++ (sql, s) :: l2) = a_remove sql l1 ++ a_remove sql l2) as ->.
  { unfold a_remove. by rewrite filter_app, filter_cons_False by (simpl; naive_solver). }
  by rewrite !a_remove_not_in.
Qed.

Lemma Forall2_split_at {A B} (R : A → B → Prop) l1 x l2 k :
  Forall2 R (l1 ++ x :: l2) k →
  ∃ k1 y k2, k = k1 ++ y :: k2 ∧ Forall2 R l1 k1 ∧ R x y ∧ Forall2 R l2 k2.
Proof.
  intros (k1 & k2 & H1 & H2 & ->)%Forall2_app_inv_l.
  apply Forall2_cons_inv_l in H2 as (y & k2' & Hy & H2 & ->). eauto 10.
Qed.

(** The entry in memory for a key, and its place in both lists. *)
Lemma rep_find c ps a p sql s :
  rep c ps a → p ∈ ps → kview (c_entries c) !! p = Some (sql, s) →
  ∃ ps1 ps2 l1 l2, ps = ps1 ++ p :: ps2 ∧ a_entries a = l1 ++ (sql, s) :: l2 ∧
    Forall2 (λ p kv, kview (c_entries c) !! p = Some kv) ps1 l1 ∧
    Forall2 (λ p kv, kview (c_entries c) !! p = Some kv) ps2 l2 ∧
    a_lookup sql (a_entries a) = Some s ∧ a_remove sql (a_entries a) = l1 ++ l2.
Proof.
  intros Hr Hp Hk. apply list_elem_of_split in Hp as (ps1 & ps2 & ->).
  pose proof (rep_keys _ _ _ Hr) as Hkeys.
  destruct (Forall2_split_at _ _ _ _ _ (rep_abs _ _ _ Hr)) as (l1 & kv & l2 & Hl & H1 & Hkv & H2).
  rewrite Hk in Hkv. injection Hkv as <-. rewrite Hl in *.
  destruct (a_remove_split sql s l1 l2 Hkeys) as [Hlo Hrm].
  by exists ps1, ps2, l1, l2.
Qed.

Lemma rep_not_found c ps a sql :
  rep c ps a →
  (∀ p k, p ∈ (list_to_set ps : gset ptr) → kview (c_entries c) !! p = Some k → k.1 ≠ sql) →
  a_lookup sql (a_entries a) = None.
Proof.
  intros Hr Hall. apply a_lookup_None. intros ([k s] & Heq & Hin)%list_elem_of_fmap.
  simpl in Heq. subst k. apply list_elem_of_lookup in Hin as [i Hi].
  destruct (Forall2_lookup_r _ _ _ _ _ (rep_abs _ _ _ Hr) Hi) as (p & Hp & Hk).
  eapply (Hall p (sql, s)); [|done|done]. apply elem_of_list_to_set. by eapply list_elem_of_lookup_2.
Qed.

Lemma kview_dom h : dom (kview h) =@{gset ptr} dom h.
Proof. unfold kview. apply dom_fmap_L. Qed.

Lemma list_to_set_perm_gset (l l' : list ptr) :
  l ≡ₚ l' → list_to_set l =@{gset ptr} list_to_set l'.
Proof. intros H. by apply list_to_set_perm_L. Qed.

(** A reordering of the list. *)
Lemma rep_reorder c ps a c' ps' a' :
  rep c ps a → same_table c c' → lru_rep c' ps' → ps' ≡ₚ ps →
  a_capacity a' = a_capacity a → NoDup (a_entries a').*1 →
  Forall2 (λ p kv, kview (c_entries c') !! p = Some kv) ps' (a_entries a') →
  rep c' ps' a'.
Proof.
  intros Hr Hst Hl Hperm Hcap Hnd Hfa.
  pose proof (Permutation_length Hperm) as Hlen.
  destruct Hr as [? Htab Hc Hcr Hs Hb Hd ? ?]. destruct Hst as [Ecap Esz Ebk Ecnt Enx Ekv] eqn:E.
  split; rewrite ?Hlen, ?Ecap, ?Esz, ?(list_to_set_perm_gset _ _ Hperm); try done.
  - destruct (c_capacity c =? 0).
    + rewrite Ebk, Ecnt. destruct Htab as (-> & -> & ->). split_and!; [done|done|].
      by apply Permutation_nil_r.
    + by eapply tab_rep_same_table.
  - congruence.
  - by rewrite <-kview_dom, Ekv, kview_dom.
Qed.

Section Refinement.
Context {D : Type}.
Implicit Types (d : D) (c : SqlRDBStmtCache) (al : list bool).

(** Symbolic execution on a state in constructor form. *)
Lemma bind_on_cache {A B} (m : M SqlRDBStmtCache A) (k : A → M (CState D) B) c d al a c' :
  m c = Some (a, c') → (on_cache m ≫= k) (MkCState c d al) = k a (MkCState c' d al).
Proof. intros H. apply bind_run. unfold on_cache, zoom. simpl. by rewrite H. Qed.

Lemma bind_get {B} (k : SqlRDBStmtCache → M (CState D) B) c d al :
  (on_cache mget ≫= k) (MkCState c d al) = k c (MkCState c d al).
Proof. done. Qed.

Lemma bind_modify {B} f (k : unit → M (CState D) B) c d al :
  (on_cache (mmodify f) ≫= k) (MkCState c d al) = k tt (MkCState (f c) d al).
Proof. done. Qed.

Lemma bind_malloc {B} (k : bool → M (CState D) B) c d al :
  (on_alloc malloc ≫= k) (MkCState c d al) =
  k (malloc_ok al).1 (MkCState c d (malloc_ok al).2).
Proof. unfold malloc, on_alloc, zoom, mbind, M_bind. simpl. by destruct (malloc_ok al). Qed.

Lemma bind_finalize {B} drv p (k : unit → M (CState D) B) c d al d' :
  fin_all drv [p] d = Some (tt, d') →
  (finalize drv p ≫= k) (MkCState c d al) = k tt (MkCState c d' al).
Proof.
  intros H. apply bind_run. revert H. unfold fin_all, finalize. destruct drv as [drv|].
  - unfold mbind, M_bind, mret, M_ret, on_db, zoom.
    destruct (drv_finalize drv p d) as [[r d1]|] eqn:E; simpl; rewrite ?E; [|done].
    by intros [= ->].
  - unfold mbind, M_bind, mret, M_ret. by intros [= <-].
Qed.

(** Both branches of an operation on a key start by looking it up. *)
Lemma rep_bucket_find c ps a sql :
  rep c ps a → c_capacity c ≠ 0 →
  ∃ r, bucket_find (bucket_index c sql) sql c = Some (r, c) ∧
    (r = NULL ∧ a_lookup sql (a_entries a) = None ∨
     r ≠ NULL ∧ r ∈ ps ∧ ∃ s, kview (c_entries c) !! r = Some (sql, s)).
Proof.
  intros Hr Hc. pose proof (rep_tab _ _ _ Hr) as HT.
  rewrite (proj2 (Z.eqb_neq _ _) Hc) in HT.
  destruct (bucket_find_spec c _ sql HT) as (r & Hrun & [[-> Hall]|(Hn & Hin & s & Hs)]).
  - exists NULL. split; [done|]. left. split; [done|]. by eapply rep_not_found.
  - exists r. split; [done|]. right. apply elem_of_list_to_set in Hin. eauto.
Qed.

(** Promoting the entry of a key moves its pair to the front. *)
Lemma rep_promote c ps a r sql s :
  rep c ps a → r ∈ ps → kview (c_entries c) !! r = Some (sql, s) →
  ∃ c' ps', lru_promote r c = Some (tt, c') ∧ same_table c c' ∧
    kview (c_entries c') !! r = Some (sql, s) ∧
    a_lookup sql (a_entries a) = Some s ∧
    rep c' (r :: ps') (MkAbs (a_capacity a) ((sql, s) :: a_remove sql (a_entries a))).
Proof.
  intros Hr Hin Hk.
  destruct (rep_find c ps a r sql s Hr Hin Hk) as (ps1 & ps2 & l1 & l2 & -> & Hl & Hfa1 & Hfa2 & Hlo & Hrm).
  destruct (lru_promote_spec c ps1 r ps2) as (c' & Hp & Hlru & Hst); [apply Hr|].
  exists c', (ps1 ++ ps2). rewrite Hrm. rewrite <-(st_kview _ _ Hst) in Hk, Hfa1, Hfa2.
  split_and!; [done..|]. eapply rep_reorder; [done|done|done|by rewrite Permutation_middle|done| |].
  - simpl. pose proof (rep_keys _ _ _ Hr) as Hkeys. rewrite Hl in Hkeys.
    revert Hkeys. rewrite !fmap_app, fmap_cons. by rewrite <-Permutation_middle.
  - constructor; [done|]. by apply Forall2_app.
Qed.

Lemma cache_get_refines c d al ps a sql :
  rep c ps a →
  ∃ c' ps', c2sql_internal_cache_get (Some sql) (MkCState c d al) =
      Some ((abs_get sql a).1, MkCState c' d al) ∧
    rep c' ps' (abs_get sql a).2.
Proof.
  intros Hr. unfold abs_get, c2sql_internal_cache_get. rewrite bind_get.
  destruct (Z.eqb_spec (c_capacity c) 0) as [Hc|Hc]; simpl.
  { pose proof (rep_tab _ _ _ Hr) as HT. rewrite Hc in HT. destruct HT as (_ & _ & ->).
    pose proof (rep_abs _ _ _ Hr) as Hf. apply Forall2_nil_inv_l in Hf. rewrite Hf.
    by exists c, []. }
  destruct (Z.eqb_spec (c_size c) 0) as [Hs|Hs].
  { rewrite (rep_size _ _ _ Hr) in Hs. destruct ps; [|simpl in Hs; lia].
    pose proof (rep_abs _ _ _ Hr) as Hf. apply Forall2_nil_inv_l in Hf. rewrite Hf.
    by exists c, []. }
  destruct (rep_bucket_find c ps a sql Hr Hc) as (r & Hrun & [[-> Hno]|(Hn & Hin & s & Hk)]);
    rewrite (bind_on_cache _ _ _ _ _ _ _ Hrun).
  - rewrite N.eqb_refl, Hno. by exists c, ps.
  - rewrite (proj2 (N.eqb_neq _ _) Hn).
    destruct (rep_promote c ps a r sql s Hr Hin Hk) as (c' & ps' & Hp & Hst & Hk' & Hlo & Hr').
    rewrite (bind_on_cache _ _ _ _ _ _ _ Hp). apply kview_entry in Hk' as (x & Hx & _ & Hxs).
    rewrite (bind_on_cache _ _ _ _ _ _ _ (deref_run _ _ _ Hx)), Hxs, Hlo. eauto.
Qed.

(** ** Eviction *)

Lemma fin_all_app (drv : option (SqlRDBDriver D)) l1 l2 d d' :
  fin_all drv (l1 ++ l2) d = Some (tt, d') ↔
  ∃ d1, fin_all drv l1 d = Some (tt, d1) ∧ fin_all drv l2 d1 = Some (tt, d').
Proof.
  revert d. induction l1 as [|p l1 IH]; intros d; simpl.
  - split; [eauto|]. by intros (d1 & [=->] & ?).
  - rewrite bind_Some. setoid_rewrite bind_Some. setoid_rewrite IH. naive_solver.
Qed.

(** The list and the table only depend on the entries they hold. *)
Lemma lru_rep_agree c c' ps :
  lru_rep c ps → lru_head c' = lru_head c → lru_tail c' = lru_tail c →
  (∀ p, p ∈ ps → c_entries c' !! p = c_entries c !! p) → lru_rep c' ps.
Proof.
  intros [] Hh Ht He. split; try done; try congruence.
  eapply dlseg_frame; [|done]. intros p Hp. unfold lview. by rewrite !lookup_fmap, He.
Qed.

Lemma tab_rep_agree c c' T :
  tab_rep c T → c_buckets c' = c_buckets c → c_bucket_count c' = c_bucket_count c →
  (∀ p, p ∈ T → c_entries c' !! p = c_entries c !! p) → tab_rep c' T.
Proof.
  intros [Hl Hp H0 Hch] Hb Hc He. split; rewrite ?Hb, ?Hc; try done.
  intros i Hi. destruct (Hch i Hi) as (qs & (b & Hbi & Hseg) & Hnd & Hin). exists qs.
  split_and!; [|done|].
  - exists b. rewrite Hb. split; [done|]. eapply cseg_frame; [|done].
    intros p [Hp' _]%Hin. unfold nview. by rewrite !lookup_fmap, He.
  - intros p. rewrite Hin, Hc. unfold kview. split; intros (HT & k & Hk & Hbk);
      (split; [done|]; exists k; split; [|done]); revert Hk; by rewrite !lookup_fmap, He.
Qed.

Lemma Forall2_kview_agree c c' ps l :
  (∀ p, p ∈ ps → c_entries c' !! p = c_entries c !! p) →
  Forall2 (λ p (kv : string * ptr), kview (c_entries c) !! p = Some kv) ps l →
  Forall2 (λ p kv, kview (c_entries c') !! p = Some kv) ps l.
Proof.
  intros He. induction 1 as [|p kv ps l Hp _ IH]; constructor.
  - revert Hp. unfold kview. rewrite !lookup_fmap, He; [done|set_solver].
  - apply IH. set_solver.
Qed.

Lemma evict_spec drv c d al ps e a l kv d' :
  rep c (ps ++ [e]) a → a_entries a = l ++ [kv] → fin_all drv [kv.2] d = Some (tt, d') →
  ∃ c', evict_lru_tail drv (MkCState c d al) = Some (tt, MkCState c' d' al) ∧
    rep c' ps (MkAbs (a_capacity a) l) ∧ c_bucket_count c' = c_bucket_count c.
Proof.
  intros Hr Hl Hfin.
  pose proof Hr as [Hlru Htab Hcap Hcr Hsz Hb Hdom Habs Hkeys].
  pose proof (lru_nodup _ _ Hlru) as (_ & Hdis & _)%NoDup_app.
  assert (e ∉ ps) as He by (intros ?; eapply (Hdis e); set_solver).
  assert (e ≠ NULL) as Hen by (intros ->; pose proof (lru_null _ _ Hlru); set_solver).
  assert (c_capacity c ≠ 0) as Hc0 by (rewrite length_app in Hb; simpl in Hb; lia).
  rewrite (proj2 (Z.eqb_neq _ _) Hc0) in Htab.
  rewrite Hl in Habs, Hkeys.
  assert (length ps = length l) as HL.
  { apply Forall2_length in Habs. rewrite !length_app in Habs. simpl in Habs. lia. }
  destruct (Forall2_app_inv _ _ _ _ _ HL Habs) as [Habs' He']. clear Habs. rename Habs' into Habs.
  apply Forall2_cons in He' as [Hkv _].
  destruct (lru_unlink_spec c ps e [] Hlru) as (c1 & Hr1 & Hlru1 & Hst1). rewrite app_nil_r in Hlru1.
  assert (tab_rep c1 (list_to_set (ps ++ [e]))) as Htab1 by (by eapply tab_rep_same_table).
  destruct (bucket_unlink_spec c1 (list_to_set (ps ++ [e])) e kv) as (c2 & Hr2 & Htab2 & Hsl2 & Hcnt2);
    [done|set_solver|by rewrite (st_kview _ _ Hst1)|].
  set (c3 := set_size (size_t (c_size c2 - 1)) c2).
  assert (kview (c_entries c3) = kview (c_entries c)) as Hk3.
  { simpl. by rewrite (sl_kview _ _ Hsl2), (st_kview _ _ Hst1). }
  rewrite <-Hk3 in Hkv. apply kview_entry in Hkv as Hx. destruct Hx as (x & Hx & _ & Hxs).
  set (c4 := set_entries (delete e (c_entries c3)) c3).
  exists c4. split_and!; [| |by simpl; rewrite Hcnt2, (st_count _ _ Hst1)].
  - unfold evict_lru_tail. rewrite bind_get. cbv zeta.
    rewrite (lru_tail_ok _ _ Hlru), lastp_app. change (lastp _ [e]) with e.
    rewrite (proj2 (N.eqb_neq _ _) Hen).
    rewrite (bind_on_cache _ _ _ _ _ _ _ Hr1), (bind_on_cache _ _ _ _ _ _ _ Hr2), bind_modify.
    unfold entry_finalize_and_free.
    rewrite (bind_on_cache _ _ c3 _ _ _ _ (deref_run _ _ c3 Hx)), Hxs.
    by rewrite (bind_finalize _ _ _ _ _ _ _ Hfin).
  - assert (∀ p, p ∈ ps → c_entries c4 !! p = c_entries c3 !! p) as Hag.
    { intros p Hp. simpl. apply lookup_delete_ne. congruence. }
    assert (list_to_set (ps ++ [e]) ∖ {[e]} =@{gset ptr} list_to_set ps) as Hset by set_solver.
    rewrite Hset in Htab2.
    assert (c_capacity c4 = c_capacity c) as Hcap4.
    { simpl. by rewrite (sl_capacity _ _ Hsl2), (st_capacity _ _ Hst1). }
    split; rewrite ?Hcap4.
    + eapply (lru_rep_agree c2); [|done|done|done]. by apply (lru_rep_same_list c1 c2).
    + rewrite (proj2 (Z.eqb_neq _ _) Hc0). eapply (tab_rep_agree c2); [done|done|done|].
      intros p Hp%elem_of_list_to_set. by apply Hag.
    + done.
    + done.
    + simpl. rewrite (sl_size _ _ Hsl2), (st_size _ _ Hst1), Hsz, length_app. simpl.
      rewrite length_app in Hb. simpl in Hb. rewrite size_t_small; lia.
    + rewrite length_app in Hb. simpl in Hb. lia.
    + simpl. rewrite dom_delete_L, <-kview_dom, (sl_kview _ _ Hsl2), (st_kview _ _ Hst1), kview_dom, Hdom.
      apply Hset.
    + apply (Forall2_kview_agree c3); [done|]. by rewrite Hk3.
    + rewrite fmap_app in Hkeys. by apply NoDup_app in Hkeys as [? _].
Qed.

(** ** Insertion *)

Lemma fresh_ptr_spec h : fresh_ptr h ≠ NULL ∧ h !! fresh_ptr h = None.
Proof.
  pose proof (is_fresh ({[NULL]} ∪ dom h : gset ptr)) as Hf.
  unfold fresh_ptr. rewrite not_elem_of_union, not_elem_of_singleton in Hf.
  destruct Hf as [Hn Hd]. split; [done|]. by apply not_elem_of_dom.
Qed.

Lemma insert_spec c ps a sql stmt :
  rep c ps a → a_lookup sql (a_entries a) = None → Z.of_nat (length ps) < c_capacity c →
  let e := fresh_ptr (c_entries c) in
  let c0 := set_entries (<[e := MkEntry sql stmt NULL NULL NULL]> (c_entries c)) c in
  ∃ c1 c2, bucket_insert e c0 = Some (tt, c1) ∧ lru_push_front e c1 = Some (tt, c2) ∧
    rep (set_size (size_t (c_size c2 + 1)) c2) (e :: ps)
        (MkAbs (a_capacity a) ((sql, stmt) :: a_entries a)).
Proof.
  intros Hr Hno Hlt e c0. destruct (fresh_ptr_spec (c_entries c)) as [Hnull Hfresh]. fold e in Hnull, Hfresh.
  pose proof Hr as [Hlru Htab Hcap Hcr Hsz Hb Hdom Habs Hkeys].
  assert (c_capacity c ≠ 0) as Hc0 by lia.
  rewrite (proj2 (Z.eqb_neq _ _) Hc0) in Htab.
  assert (e ∉ ps) as He.
  { rewrite <-(elem_of_list_to_set (C := gset ptr)), <-Hdom. by apply not_elem_of_dom. }
  assert (∀ p, p ∈ ps → c_entries c0 !! p = c_entries c !! p) as Hag.
  { intros p Hp. simpl. apply lookup_insert_ne. congruence. }
  assert (kview (c_entries c0) !! e = Some (sql, stmt)) as Hk0.
  { simpl. unfold kview. by rewrite lookup_fmap, lookup_insert_eq. }
  destruct (bucket_insert_spec c0 (list_to_set ps) e (sql, stmt)) as (c1 & Hr1 & Htab1 & Hsl1 & _);
    [|by rewrite elem_of_list_to_set|done|done|].
  { eapply tab_rep_agree; [apply Htab|done|done|]. intros p Hp%elem_of_list_to_set. by apply Hag. }
  destruct (lru_push_front_spec c1 ps e) as (c2 & Hr2 & Hlru2 & Hst2); [|done|done| |].
  { eapply lru_rep_same_list; [done|]. by eapply lru_rep_agree. }
  { apply is_Some_kview. rewrite (sl_kview _ _ Hsl1), Hk0. eauto. }
  exists c1, c2. split_and!; [done|done|].
  assert (kview (c_entries c2) = kview (c_entries c0)) as Hk2.
  { by rewrite (st_kview _ _ Hst2), (sl_kview _ _ Hsl1). }
  assert (c_capacity c2 = c_capacity c) as Hcap2.
  { by rewrite (st_capacity _ _ Hst2), (sl_capacity _ _ Hsl1). }
  split; simpl; rewrite ?Hcap2, ?Hk2; try done.
  - by eapply lru_rep_agree.
  - rewrite (proj2 (Z.eqb_neq _ _) Hc0). apply (tab_rep_agree c2); [|done..].
    by apply (tab_rep_same_table c1 c2 _ Hst2).
  - rewrite (st_size _ _ Hst2), (sl_size _ _ Hsl1). simpl. rewrite Hsz, size_t_small by lia. lia.
  - lia.
  - rewrite <-kview_dom, Hk2, kview_dom. simpl. by rewrite dom_insert_L, Hdom.
  - constructor; [done|]. by apply (Forall2_kview_agree c).
  - apply NoDup_cons. split; [by apply a_lookup_None|done].
Qed.

(** ** put *)

(** Replacing the statement of the entry for a key. *)
Lemma rep_set_stmt c ps a r sql s stmt :
  rep c ps a → r ∈ ps → kview (c_entries c) !! r = Some (sql, s) →
  ∃ l1 l2, a_entries a = l1 ++ (sql, s) :: l2 ∧ a_lookup sql (a_entries a) = Some s ∧
    rep (set_entries (alter (set_ce_stmt stmt) r (c_entries c)) c) ps
        (MkAbs (a_capacity a) (l1 ++ (sql, stmt) :: l2)).
Proof.
  intros Hr Hin Hk.
  pose proof (rep_lru _ _ _ Hr) as Hlru.
  destruct (rep_find c ps a r sql s Hr Hin Hk) as (ps1 & ps2 & l1 & l2 & -> & Hl & Ha1 & Ha2 & Hlo & _).
  exists l1, l2. split_and!; [done..|].
  pose proof Hr as [_ Htab Hcap Hcr Hsz Hb Hdom Habs Hkeys]. rewrite Hl in Habs, Hkeys.
  set (h' := alter (set_ce_stmt stmt) r (c_entries c)).
  assert (lview h' = lview (c_entries c)) as El by (by apply fmap_alter_same).
  assert (nview h' = nview (c_entries c)) as En by (by apply fmap_alter_same).
  assert (∀ p k, kview h' !! p = Some k → ∃ k', kview (c_entries c) !! p = Some k' ∧ k'.1 = k.1) as Ek1.
  { intros p k. unfold kview, h'. rewrite !lookup_fmap. destruct (decide (r = p)) as [->|].
    - rewrite lookup_alter_eq. destruct (c_entries c !! p); naive_solver.
    - rewrite lookup_alter_ne by done. naive_solver. }
  assert (∀ p k, kview (c_entries c) !! p = Some k → ∃ k', kview h' !! p = Some k' ∧ k'.1 = k.1) as Ek2.
  { intros p k. unfold kview, h'. rewrite !lookup_fmap. destruct (decide (r = p)) as [->|].
    - rewrite lookup_alter_eq. destruct (c_entries c !! p); naive_solver.
    - rewrite lookup_alter_ne by done. naive_solver. }
  split; simpl; try done.
  - destruct Hlru. split; try done. simpl. by rewrite El.
  - destruct (c_capacity c =? 0); [done|]. destruct Htab as [Hlen Hpow Hnull Hch]. split; try done.
    intros i Hi. destruct (Hch i Hi) as (qs & (b & Hbi & Hseg) & Hnd & Hq). exists qs.
    split_and!; [exists b; simpl; by rewrite En|done|]. intros p. rewrite Hq. simpl.
    split; intros (HT & k & Hkp & Hbk); split; try done.
    + apply Ek2 in Hkp as (k' & ? & E). exists k'. by rewrite E.
    + apply Ek1 in Hkp as (k' & ? & E). exists k'. by rewrite E.
  - unfold h'. by rewrite dom_alter_L.
  - pose proof (lru_nodup _ _ Hlru) as Hnd.
    apply NoDup_app in Hnd as (_ & Hdis & [Hr2 _]%NoDup_cons).
    assert (r ∉ ps1) as Hr1 by (intros ?; eapply (Hdis r); set_solver).
    assert (∀ p, p ≠ r → h' !! p = c_entries c !! p) as Ene.
    { intros p Hp. by apply lookup_alter_ne. }
    apply Forall2_app; [|constructor].
    + apply (Forall2_kview_agree c (set_entries h' c)); [|done]. intros p Hp. apply Ene. congruence.
    + apply kview_entry in Hk as (x & Hx & Hxs & _). unfold kview, h'.
      rewrite lookup_fmap, lookup_alter_eq, Hx. simpl. by rewrite Hxs.
    + apply (Forall2_kview_agree c (set_entries h' c)); [|done]. intros p Hp. apply Ene. congruence.
  - revert Hkeys. by rewrite !fmap_app, !fmap_cons.
Qed.
Lemma malloc_ok_drop al : (malloc_ok al).2 = drop 1 al.
Proof. by destruct al. Qed.

(** Making room: after the test of put, one more entry fits. *)
Lemma make_room drv c d al ps a d1 :
  rep c ps a → c_capacity c ≠ 0 →
  let n := if a_capacity a <=? Z.of_nat (length (a_entries a))
           then pred (length (a_entries a)) else length (a_entries a) in
  fin_all drv (drop n (a_entries a)).*2 d = Some (tt, d1) →
  ∃ c' ps', (if c_capacity c <=? c_size c then evict_lru_tail drv else mret tt)
      (MkCState c d al) = Some (tt, MkCState c' d1 al) ∧
    rep c' ps' (MkAbs (a_capacity a) (take n (a_entries a))) ∧
    Z.of_nat (length ps') < c_capacity c'.
Proof.
  intros Hr Hc0. pose proof (Forall2_length _ _ _ (rep_abs _ _ _ Hr)) as HL.
  rewrite (rep_size _ _ _ Hr), <-(rep_cap _ _ _ Hr), HL.
  pose proof (rep_bound _ _ _ Hr) as Hb. pose proof (rep_cap_range _ _ _ Hr) as Hcr.
  destruct (Z.leb_spec (c_capacity c) (Z.of_nat (length (a_entries a)))) as [Hle|Hlt]; intros n Hfin.
  - destruct (a_entries a) as [|kv l _] eqn:Hl using rev_ind; [simpl in *; lia|].
    destruct ps as [|e ps _] using rev_ind; [rewrite length_app in HL; simpl in HL; lia|].
    assert (n = length l) as -> by (unfold n; rewrite length_app; simpl; lia).
    rewrite drop_app_length in Hfin. rewrite take_app_length.
    destruct (evict_spec drv c d al ps e a l kv d1) as (c' & Hev & Hr' & _); [done..|].
    exists c', ps. rewrite (rep_cap _ _ _ Hr). split_and!; [done|done|].
    rewrite (rep_cap _ _ _ Hr'). simpl. rewrite <-(rep_cap _ _ _ Hr).
    rewrite !length_app in *. simpl in *. lia.
  - unfold n in *. rewrite drop_ge in Hfin by lia. injection Hfin as <-.
    rewrite take_ge by lia. exists c, ps. split_and!; [done| |lia].
    rewrite (rep_cap _ _ _ Hr). by destruct a.
Qed.

Lemma cache_put_refines drv c d al ps a sql stmt d' :
  rep c ps a →
  let out := abs_put sql stmt (malloc_ok al).1 (malloc_ok (malloc_ok al).2).1 a in
  fin_all drv out.1.2 d = Some (tt, d') →
  ∃ c' ps' n, c2sql_internal_cache_put (Some sql) stmt drv (MkCState c d al) =
      Some (out.1.1, MkCState c' d' (drop n al)) ∧ rep c' ps' out.2.
Proof.
  intros Hr. unfold abs_put, c2sql_internal_cache_put. rewrite bind_get, <-(rep_cap _ _ _ Hr).
  destruct (Z.eqb_spec (c_capacity c) 0) as [Hc|Hc].
  { simpl. intros Hfin. rewrite (bind_finalize _ _ _ _ _ _ _ Hfin). by exists c, ps, 0%nat. }
  destruct (rep_bucket_find c ps a sql Hr Hc) as (r & Hrun & [[-> Hno]|(Hn & Hin & s & Hk)]);
    rewrite (bind_on_cache _ _ _ _ _ _ _ Hrun).
  - rewrite N.eqb_refl, Hno. cbv zeta. cbn [negb]. intros Hfin.
    assert (∃ d1, fin_all drv (drop (if c_capacity c <=? Z.of_nat (length (a_entries a))
        then pred (length (a_entries a)) else length (a_entries a)) (a_entries a)).*2 d = Some (tt, d1) ∧
      fin_all drv (if (malloc_ok al).1 && (malloc_ok (malloc_ok al).2).1 then [] else [stmt]) d1
        = Some (tt, d')) as (d1 & Hf1 & Hf2).
    { destruct (_ && _); simpl in Hfin; [eauto|by apply fin_all_app]. }
    destruct (make_room drv c d al ps a d1) as (c1 & ps1 & Hr1 & Hrep1 & Hlt);
      [done|done|by rewrite <-(rep_cap _ _ _ Hr)|].
    run Hr1. rewrite <-(rep_cap _ _ _ Hr) in Hrep1.
    set (n := if c_capacity c <=? _ then _ else _) in *.
    rewrite bind_malloc. destruct (malloc_ok al).1 eqn:E1; simpl in Hf2 |- *;
      [rewrite bind_malloc; destruct (malloc_ok (malloc_ok al).2).1 eqn:E2; simpl in Hf2 |- *|].
    + injection Hf2 as <-. rewrite bind_get. cbv zeta. rewrite bind_modify.
      destruct (insert_spec c1 ps1 _ sql stmt Hrep1) as (c2 & c3 & Hb & Hp & Hrep3); [|done|].
      { simpl. rewrite <-(take_drop n (a_entries a)), a_lookup_app in Hno.
        by destruct (a_lookup sql (take n _)). }
      rewrite (bind_on_cache _ _ _ _ _ _ _ Hb), (bind_on_cache _ _ _ _ _ _ _ Hp), bind_modify.
      rewrite !malloc_ok_drop, drop_drop. eauto 10.
    + rewrite (bind_finalize _ _ _ _ _ _ _ Hf2), !malloc_ok_drop, drop_drop. eauto 10.
    + change (mret false ≫= _) with (λ s : CState D, (finalize drv stmt;; mret SQL_RDB_ERR_NO_MEMORY) s).
      cbn beta. rewrite (bind_finalize _ _ _ _ _ _ _ Hf2), !malloc_ok_drop. eauto 10.
  - rewrite (proj2 (N.eqb_neq _ _) Hn). cbn [negb].
    destruct (rep_set_stmt c ps a r sql s stmt Hr Hin Hk) as (l1 & l2 & Hl & Hlo & Hr1).
    rewrite Hlo. simpl. intros Hfin. apply kview_entry in Hk as (x & Hx & Hxk & Hxs).
    simpl in Hxk, Hxs. rewrite (bind_on_cache _ _ _ _ _ _ _ (deref_run _ _ _ Hx)), Hxs.
    rewrite (bind_finalize _ _ _ _ _ _ _ Hfin).
    rewrite (bind_on_cache _ _ _ _ _ _ _ (upd_run r _ c ltac:(eauto))).
    set (c1 := set_entries _ c) in *.
    destruct (rep_promote c1 ps _ r sql stmt Hr1 Hin) as (c2 & ps2 & Hp & _ & _ & _ & Hr2).
    { simpl. unfold kview. rewrite lookup_fmap, lookup_alter_eq, Hx. simpl. by rewrite Hxk. }
    rewrite (bind_on_cache _ _ _ _ _ _ _ Hp). exists c2, (r :: ps2), 0%nat. split; [done|].
    pose proof (rep_keys _ _ _ Hr) as Hk1. pose proof (rep_keys _ _ _ Hr1) as Hk2.
    simpl in Hk2, Hr2. rewrite Hl in Hk1 |- *. rewrite (rep_cap _ _ _ Hr).
    apply a_remove_split in Hk1 as [_ ->]. by apply a_remove_split in Hk2 as [_ <-].
Qed.

(** ** rebuild *)

Lemma evict_loop_spec drv n ps : ∀ fuel c d al a d',
  rep c ps a → (length ps - n ≤ fuel)%nat →
  fin_all drv (reverse (drop n (a_entries a)).*2) d = Some (tt, d') →
  ∃ c', evict_loop fuel (Z.of_nat n) drv (MkCState c d al) = Some (tt, MkCState c' d' al) ∧
    rep c' (take n ps) (MkAbs (a_capacity a) (take n (a_entries a))) ∧
    c_bucket_count c' = c_bucket_count c.
Proof.
  induction ps as [|e ps IH] using rev_ind; intros fuel c d al a d' Hr Hfuel Hfin;
    pose proof (Forall2_length _ _ _ (rep_abs _ _ _ Hr)) as HL.
  all: destruct (decide (length (a_entries a) ≤ n)%nat) as [Hle|Hgt].
  2: { simpl in *. lia. }
  1, 2: rewrite drop_ge in Hfin by done; injection Hfin as <-; exists c;
    rewrite !take_ge by lia; split_and!; [|by destruct a|done];
    destruct fuel; simpl; rewrite bind_get, (rep_size _ _ _ Hr), HL;
    rewrite (proj2 (Z.leb_le _ _)) by lia; done.
  destruct (a_entries a) as [|kv l _] eqn:Hl using rev_ind; [simpl in *; lia|].
  rewrite !length_app in *. simpl in HL, Hgt, Hfuel. destruct fuel as [|fuel]; [lia|].
  rewrite drop_app_le, fmap_app, reverse_app in Hfin by lia.
  apply fin_all_app in Hfin as (d1 & Hf1 & Hf2).
  destruct (evict_spec drv c d al ps e a l kv d1) as (c1 & Hev & Hr1 & Hc1); [done..|].
  rewrite !take_app_le by lia.
  destruct (IH fuel c1 d1 al (MkAbs (a_capacity a) l) d') as (c2 & Hloop & Hr2 & Hc2); [done|lia|done|].
  exists c2. split_and!; [|done|congruence]. simpl. rewrite bind_get, (rep_size _ _ _ Hr).
  rewrite (proj2 (Z.leb_gt _ _)) by (rewrite length_app; simpl; lia). by run Hev.
Qed.

Lemma lru_next_node c qs r rs :
  lru_rep c (qs ++ r :: rs) →
  ∃ x, c_entries c !! r = Some x ∧ lru_next x = hdp NULL rs ∧ r ≠ NULL.
Proof.
  intros Hl. pose proof (lru_seg _ _ Hl) as [_ [Hr _]]%dlseg_app.
  apply lview_entry in Hr as (x & Hx & _ & Hn). exists x. split_and!; [done..|].
  intros ->. apply (lru_null _ _ Hl). set_solver.
Qed.

Lemma clear_chains_spec rs : ∀ fuel c qs,
  lru_rep c (qs ++ rs) → (length rs ≤ fuel)%nat →
  ∃ c', clear_chains_loop fuel (hdp NULL rs) c = Some (tt, c') ∧ same_list c c'.
Proof.
  induction rs as [|r rs IH]; intros fuel c qs Hl Hf.
  { exists c. by destruct fuel. }
  destruct fuel as [|fuel]; [simpl in Hf; lia|]. simpl.
  destruct (lru_next_node _ _ _ _ Hl) as (x & Hx & _ & Hn).
  change (hdp NULL (r :: rs)) with r. rewrite (proj2 (N.eqb_neq _ _) Hn).
  rewrite (bind_run _ _ _ _ _ (upd_run r _ c ltac:(eauto))).
  set (c1 := set_entries _ c). assert (same_list c c1) as Hsl by apply same_list_alter.
  assert (lru_rep c1 (qs ++ r :: rs)) as Hl1 by (by eapply lru_rep_same_list).
  destruct (lru_next_node _ _ _ _ Hl1) as (x1 & Hx1 & Hnx & _). run (deref_run _ _ _ Hx1). rewrite Hnx.
  destruct (IH fuel c1 (qs ++ [r])) as (c2 & Hloop & Hsl2); [by rewrite <-app_assoc|simpl in Hf; lia|].
  exists c2. split; [done|by etrans].
Qed.

(** The body of the loop is bucket_insert. *)
Lemma rehash_step fuel e c :
  e ≠ NULL →
  rehash_loop (S fuel) (size_t (c_bucket_count c - 1)) e c =
  (bucket_insert e;; x ← deref e; rehash_loop fuel (size_t (c_bucket_count c - 1)) (lru_next x)) c.
Proof.
  intros He. cbn [rehash_loop]. rewrite (proj2 (N.eqb_neq _ _) He).
  unfold bucket_insert, bucket_index, mbind, M_bind, mget. destruct (deref e c) as [[x c1]|] eqn:E; [|done].
  assert (c1 = c) as ->.
  { unfold deref in E. destruct (c_entries c !! e); by simplify_eq. }
  destruct (bucket_get _ c) as [[b c2]|]; [|done]. destruct (upd e _ c2) as [[[] c3]|]; [|done].
  by destruct (bucket_set _ e c3) as [[[] c4]|].
Qed.

Lemma rehash_spec rs : ∀ fuel c qs,
  lru_rep c (qs ++ rs) → tab_rep c (list_to_set qs) → (length rs ≤ fuel)%nat →
  ∃ c', rehash_loop fuel (size_t (c_bucket_count c - 1)) (hdp NULL rs) c = Some (tt, c') ∧
    tab_rep c' (list_to_set (qs ++ rs)) ∧ same_list c c'.
Proof.
  induction rs as [|r rs IH]; intros fuel c qs Hl HT Hf.
  { rewrite app_nil_r. exists c. by destruct fuel. }
  destruct fuel as [|fuel]; [simpl in Hf; lia|].
  change (hdp NULL (r :: rs)) with r.
  destruct (lru_next_node _ _ _ _ Hl) as (x & Hx & _ & Hn). rewrite rehash_step by done.
  pose proof (lru_nodup _ _ Hl) as (_ & Hdis & _)%NoDup_app.
  destruct (bucket_insert_spec c (list_to_set qs) r (ce_sql x, ce_stmt x))
    as (c1 & Hb & HT1 & Hsl1 & Hcnt); [done| |done|by apply entry_kview|].
  { rewrite elem_of_list_to_set. intros ?. eapply (Hdis r); set_solver. }
  run Hb. assert (lru_rep c1 (qs ++ r :: rs)) as Hl1 by (by eapply lru_rep_same_list).
  destruct (lru_next_node _ _ _ _ Hl1) as (x1 & Hx1 & Hnx & _). run (deref_run _ _ _ Hx1).
  rewrite Hnx, <-Hcnt.
  destruct (IH fuel c1 (qs ++ [r])) as (c2 & Hloop & HT2 & Hsl2);
    [by rewrite <-app_assoc| |simpl in Hf; lia|].
  { by rewrite list_to_set_app_L, list_to_set_cons, list_to_set_nil, (union_comm_L _ ({[r]} ∪ ∅)),
      union_empty_r_L. }
  exists c2. rewrite <-app_assoc in HT2. split_and!; [done|done|by etrans].
Qed.

Lemma empty_table c n k :
  n = 2 ^ k → 0 ≤ k ≤ 63 →
  tab_rep (set_buckets (replicate (Z.to_nat n) NULL) n c) ∅.
Proof.
  intros -> Hk. assert (0 < 2 ^ k) by (apply Z.pow_pos_nonneg; lia).
  split; simpl.
  - rewrite length_replicate. lia.
  - eauto.
  - set_solver.
  - intros i Hi. rewrite length_replicate in Hi. exists []. split_and!.
    + exists NULL. simpl. split; [by apply lookup_replicate_2|done].
    + constructor.
    + set_solver.
Qed.

(** The capacity and the table may change under the same list and keys. *)
Lemma rep_resize c ps a c' (cap : Z) :
  rep c ps a → lru_rep c' ps → tab_rep c' (list_to_set ps) →
  kview (c_entries c') = kview (c_entries c) → c_size c' = c_size c →
  0 < cap < SIZE_MOD → Z.of_nat (length ps) ≤ cap →
  rep (set_capacity cap c') ps (MkAbs cap (a_entries a)).
Proof.
  intros Hr Hl HT Hk Hs Hcap Hb. destruct Hr as [_ _ _ _ Hsz _ Hdom Habs Hkeys].
  split; simpl; rewrite ?Hk, ?Hs; try done.
  - by eapply lru_rep_agree.
  - rewrite (proj2 (Z.eqb_neq _ _)) by lia. by eapply tab_rep_agree.
  - lia.
  - by rewrite <-kview_dom, Hk, kview_dom.
Qed.

(** An emptied cache without a table is a disabled one. *)
Lemma rep_disable c a :
  rep c [] a → rep (set_capacity 0 (set_buckets [] 0 c)) [] (MkAbs 0 []).
Proof.
  intros [Hl _ _ _ Hsz _ Hdom _ _]. 
  split; simpl; [by eapply lru_rep_agree|done|done|done|done|done|done|constructor|constructor].
Qed.

(** The two loops over the list that fill a new table. *)
Lemma rebuild_table c ps k :
  lru_rep c ps → 0 ≤ k ≤ 63 → (length ps ≤ chain_fuel c)%nat →
  ∃ c1 c2, clear_chains_loop (chain_fuel c) (lru_head c) c = Some (tt, c1) ∧
    rehash_loop (chain_fuel c) (size_t (2 ^ k - 1)) (lru_head c)
      (set_buckets (replicate (Z.to_nat (2 ^ k)) NULL) (2 ^ k) c1) = Some (tt, c2) ∧
    tab_rep c2 (list_to_set ps) ∧ same_list c c2.
Proof.
  intros Hl Hk Hf. rewrite (lru_head_ok _ _ Hl).
  destruct (clear_chains_spec ps (chain_fuel c) c []) as (c1 & Hcl & Hsl1); [done..|].
  set (c1' := set_buckets (replicate (Z.to_nat (2 ^ k)) NULL) (2 ^ k) c1).
  assert (same_list c c1') as Hsl1' by (by etrans; [done|apply same_list_buckets]).
  destruct (rehash_spec ps (chain_fuel c) c1' []) as (c2 & Hrh & HT & Hsl2); [|by apply (empty_table _ _ k)|done|].
  { simpl. by eapply lru_rep_same_list. }
  exists c1, c2. split_and!; [done|done|done|by etrans].
Qed.

(** Whether rebuild succeeds: no new table is needed, or it can be allocated. *)
Definition rebuild_ok (new_capacity want : Z) c al : bool :=
  (new_capacity =? 0) || (want =? c_bucket_count c) || (malloc_ok al).1.

Lemma cache_rebuild_refines drv c d al ps a cap want k d' :
  rep c ps a → 0 ≤ cap < SIZE_MOD →
  (if cap =? 0 then True else bucket_count_for cap = Some want ∧ want = 2 ^ k ∧ 0 ≤ k ≤ 63) →
  let out := abs_rebuild cap (rebuild_ok cap want c al) a in
  fin_all drv out.1.2 d = Some (tt, d') →
  ∃ c' ps' n, c2sql_internal_cache_rebuild cap drv (MkCState c d al) =
      Some (out.1.1, MkCState c' d' (drop n al)) ∧ rep c' ps' out.2.
Proof.
  intros Hr Hcap Hwant out Hfin. unfold c2sql_internal_cache_rebuild. rewrite bind_get.
  assert (fin_all drv (reverse (drop (Z.to_nat cap) (a_entries a)).*2) d = Some (tt, d')) as Hf.
  { revert Hfin. unfold out, abs_rebuild. rewrite fmap_drop. by destruct (rebuild_ok _ _ _ _). }
  destruct (evict_loop_spec drv (Z.to_nat cap) ps (Z.to_nat (c_size c)) c d al a d')
    as (c1 & Hloop & Hr1 & Hcnt); [done| |done|].
  { rewrite (rep_size _ _ _ Hr). lia. }
  rewrite Z2Nat.id in Hloop by lia. run Hloop. set (ps1 := take (Z.to_nat cap) ps) in *.
  assert (Z.of_nat (length ps1) ≤ cap) as Hb1 by (unfold ps1; rewrite length_take; lia).
  unfold out, abs_rebuild, rebuild_ok. destruct (Z.eqb_spec cap 0) as [->|Hc0].
  { simpl. rewrite bind_modify. eexists _, [], 0%nat. split; [done|]. by eapply rep_disable, Hr1. }
  destruct Hwant as (Hw & -> & Hk). rewrite Hw. change (mdef (Some (2 ^ k)) ≫= ?f) with (f (2 ^ k)).
  cbn beta. rewrite bind_get, Hcnt. assert (0 < 2 ^ k) by (apply Z.pow_pos_nonneg; lia).
  destruct (Z.eqb_spec (2 ^ k) (c_bucket_count c)) as [Heq|Hne]; simpl.
  - change (mret SQL_RDB_OK ≫= ?f) with (f SQL_RDB_OK). cbn beta. simpl. rewrite bind_modify.
    eexists _, ps1, 0%nat. split; [done|].
    eapply (rep_resize c1 _ (MkAbs _ _)); [done|apply Hr1| |done|done|lia|done].
    pose proof (rep_tab _ _ _ Hr1) as HT. destruct (c_capacity c1 =? 0); [|done].
    destruct HT as (_ & HT & _). lia.
  - destruct (malloc_ok al).1 eqn:Eok.
    + assert (lru_rep c1 ps1) as Hl1 by apply Hr1.
      destruct (rebuild_table c1 ps1 k) as (c2 & c3 & Hcl & Hrh & HT & Hsl); [done|done| |].
      { unfold chain_fuel. apply Nat.le_le_succ_r, nodup_fuel; [apply Hl1|].
        intros q Hq. by eapply lru_entries. }
      erewrite bind_run.
      2:{ rewrite bind_malloc, Eok. simpl. rewrite (bind_on_cache _ _ _ _ _ _ _ Hcl), bind_modify.
          rewrite (bind_on_cache _ _ _ _ _ _ _ Hrh). done. }
      simpl. rewrite bind_modify, malloc_ok_drop. eexists _, ps1, 1%nat. split; [done|].
      eapply (rep_resize c1 _ (MkAbs _ _)); [done| |done|apply Hsl|apply Hsl|lia|done].
      by eapply lru_rep_same_list.
    + erewrite bind_run; [|by rewrite bind_malloc, Eok]. simpl. rewrite malloc_ok_drop.
      by exists c1, ps1, 1%nat.
Qed.

(** ** destroy and init *)

Lemma destroy_loop_spec drv rs : ∀ fuel c d al prev (l : list (string * ptr)) d',
  dlseg (lview (c_entries c)) prev rs NULL → NoDup rs → NULL ∉ rs →
  Forall2 (λ p kv, kview (c_entries c) !! p = Some kv) rs l →
  dom (c_entries c) = list_to_set rs → (length rs ≤ fuel)%nat →
  fin_all drv l.*2 d = Some (tt, d') →
  ∃ c', destroy_loop fuel (hdp NULL rs) drv (MkCState c d al) = Some (tt, MkCState c' d' al) ∧
    c_entries c' = ∅.
Proof.
  induction rs as [|r rs IH]; intros fuel c d al prev l d' Hseg Hnd Hnull Hfa Hdom Hf Hfin.
  - apply Forall2_nil_inv_l in Hfa as ->. injection Hfin as <-. exists c.
    split; [by destruct fuel|]. by apply dom_empty_inv_L.
  - apply Forall2_cons_inv_l in Hfa as (kv & l' & Hkv & Hfa & ->).
    destruct fuel as [|fuel]; [simpl in Hf; lia|]. cbn [destroy_loop].
    change (hdp NULL (r :: rs)) with r. rewrite (proj2 (N.eqb_neq r NULL)) by set_solver.
    destruct Hseg as [Hl Hseg]. apply lview_entry in Hl as (x & Hx & _ & Hnx). simpl in Hnx.
    change ((kv :: l').*2) with ([kv.2] ++ l'.*2) in Hfin. apply fin_all_app in Hfin as (d1 & Hf1 & Hf2).
    rewrite (bind_on_cache _ _ _ _ _ _ _ (deref_run _ _ _ Hx)). cbv zeta. rewrite Hnx.
    apply kview_entry in Hkv as (x' & Hx' & _ & Hxs). rewrite Hx in Hx'. injection Hx' as <-.
    apply NoDup_cons in Hnd as [Hr Hnd].
    set (c1 := set_entries (delete r (c_entries c)) c).
    assert (∀ p, p ∈ rs → c_entries c1 !! p = c_entries c !! p) as Hag.
    { intros p Hp. apply lookup_delete_ne. congruence. }
    destruct (IH fuel c1 d1 al r l' d') as (c2 & Hloop & He); try done.
    + eapply dlseg_frame; [|done]. intros p Hp. unfold lview. by rewrite !lookup_fmap, Hag.
    + set_solver.
    + by apply (Forall2_kview_agree c).
    + simpl. rewrite dom_delete_L, Hdom. set_solver.
    + simpl in Hf. lia.
    + exists c2. split; [|done]. erewrite bind_run; [apply Hloop|].
      unfold entry_finalize_and_free. rewrite (bind_on_cache _ _ _ _ _ _ _ (deref_run _ _ _ Hx)), Hxs.
      by rewrite (bind_finalize _ _ _ _ _ _ _ Hf1).
Qed.

Lemma cache_destroy_refines drv c d al ps a d' :
  rep c ps a → fin_all drv (a_entries a).*2 d = Some (tt, d') →
  c2sql_internal_cache_destroy drv (MkCState c d al) = Some (tt, MkCState zero_cache d' al).
Proof.
  intros Hr Hfin. unfold c2sql_internal_cache_destroy. rewrite bind_get.
  pose proof Hr as [Hl _ _ _ _ _ Hdom Habs _]. rewrite (lru_head_ok _ _ Hl).
  destruct (destroy_loop_spec drv ps (chain_fuel c) c d al NULL (a_entries a) d')
    as (c' & Hloop & He); try done; try apply Hl.
  { unfold chain_fuel. apply Nat.le_le_succ_r, nodup_fuel; [apply Hl|].
    intros q Hq. by eapply lru_entries. }
  run Hloop. unfold on_cache, zoom, mmodify. simpl. by rewrite He.
Qed.

Lemma rep_empty_disabled : rep zero_cache [] (MkAbs 0 []).
Proof.
  split; simpl; [|done|done|done|done|done|by rewrite dom_empty_L|constructor|constructor].
  split; simpl; [constructor|set_solver|done|done|done].
Qed.

Lemma cache_init_spec c d al cap want k :
  0 ≤ cap < SIZE_MOD →
  (if cap =? 0 then True else bucket_count_for cap = Some want ∧ want = 2 ^ k ∧ 0 ≤ k ≤ 63) →
  let ok := (cap =? 0) || (malloc_ok al).1 in
  ∃ c' n, c2sql_internal_cache_init cap (MkCState c d al) =
      Some (if ok then SQL_RDB_OK else SQL_RDB_ERR_NO_MEMORY, MkCState c' d (drop n al)) ∧
    rep c' [] (MkAbs (if ok then cap else 0) []).
Proof.
  intros Hcap Hwant. unfold c2sql_internal_cache_init. rewrite bind_modify.
  destruct (Z.eqb_spec cap 0) as [->|Hc0]; cbv zeta; simpl.
  { exists zero_cache, 0%nat. split; [done|apply rep_empty_disabled]. }
  destruct Hwant as (-> & -> & Hk). change (mdef (Some (2 ^ k)) ≫= ?f) with (f (2 ^ k)). cbn beta.
  rewrite bind_malloc, malloc_ok_drop. destruct (malloc_ok al).1; simpl; rewrite bind_modify.
  - eexists _, 1%nat. split; [done|].
    split; simpl; [| |done|done|done|lia|by rewrite dom_empty_L|constructor|constructor].
    + split; simpl; [constructor|set_solver|done|done|done].
    + rewrite (proj2 (Z.eqb_neq _ _) Hc0). by apply (empty_table _ _ k).
  - eexists _, 1%nat. split; [done|]. apply rep_empty_disabled.
Qed.
End Refinement.

(** ** The size of the table *)

Lemma pow2_double k : 0 ≤ k → 2 ^ (k + 1) = Z.shiftl (2 ^ k) 1.
Proof. intros. rewrite Z.shiftl_mul_pow2, Z.pow_add_r by lia. done. Qed.

Lemma next_pow2_loop_spec fuel : ∀ k n,
  0 ≤ k ≤ 63 → n ≤ 2 ^ 63 → 63 - k ≤ Z.of_nat fuel →
  ∃ j, next_pow2_loop fuel (2 ^ k) n = Some (2 ^ j) ∧ k ≤ j ≤ 63 ∧ n ≤ 2 ^ j ∧
    (j = k ∨ 2 ^ (j - 1) < n).
Proof.
  induction fuel as [|fuel IH]; intros k n Hk Hn Hf; simpl;
    destruct (Z.ltb_spec (2 ^ k) n) as [Hlt|Hge].
  - assert (k = 63) as -> by lia. lia.
  - exists k. split_and!; auto; lia.
  - destruct (decide (k = 63)) as [->|Hk']; [lia|].
    assert (2 ^ (k + 1) < SIZE_MOD) by (apply Z.pow_lt_mono_r; lia).
    assert (0 < 2 ^ (k + 1)) by (apply Z.pow_pos_nonneg; lia).
    rewrite <-pow2_double, size_t_small by lia.
    destruct (IH (k + 1) n) as (j & -> & Hj & Hnj & Hcase); [lia..|].
    exists j. split_and!; [done|lia|lia|done|]. right.
    destruct Hcase as [->|?]; [|done]. by rewrite Z.add_simpl_r.
  - exists k. split_and!; auto; lia.
Qed.

(** The loop of next_pow2_at_least never ends above 2^63: the shift reaches 0. *)
Lemma next_pow2_loop_diverges fuel : ∀ r n,
  r = 0 ∨ (∃ k, 0 ≤ k ≤ 63 ∧ r = 2 ^ k) → 2 ^ 63 < n → next_pow2_loop fuel r n = None.
Proof.
  induction fuel as [|fuel IH]; intros r n Hr Hn; simpl;
    assert (r < n) as Hlt.
  1, 3: destruct Hr as [->|(k & Hk & ->)]; [lia|];
    pose proof (Z.pow_le_mono_r 2 k 63); lia.
  all: rewrite (proj2 (Z.ltb_lt _ _) Hlt); try done. apply IH; [|done].
  destruct Hr as [->|(k & Hk & ->)]; [by left|].
  rewrite <-pow2_double by lia. destruct (decide (k = 63)) as [->|Hk']; [by left|].
  right. exists (k + 1). split; [lia|]. apply size_t_small.
  split; [apply Z.pow_nonneg; lia|apply Z.pow_lt_mono_r; lia].
Qed.

(** A usable capacity: the table has a power of two of at least twice as many
    buckets, at most four times. *)
Lemma bucket_count_for_spec cap :
  0 < cap ≤ 2 ^ 62 →
  ∃ k, bucket_count_for cap = Some (2 ^ k) ∧ 4 ≤ k ≤ 63 ∧ 2 * cap ≤ 2 ^ k.
Proof.
  intros Hcap. unfold bucket_count_for. rewrite (proj2 (Z.eqb_neq _ _)) by lia. cbv zeta.
  rewrite size_t_small by (unfold SIZE_MOD; lia). unfold C2SQL_CACHE_MIN_BUCKETS.
  set (want := if cap * 2 <? 16 then 16 else cap * 2).
  assert (16 ≤ want ∧ cap * 2 ≤ want ≤ 2 ^ 63) as Hw.
  { unfold want. destruct (Z.ltb_spec (cap * 2) 16); lia. }
  destruct (next_pow2_loop_spec 64 0 want) as (j & Hj & Hr & Hn & _); [lia..|].
  exists j. split_and!; [done| |lia|lia].
  apply Z.nlt_ge. intros Hlt. pose proof (Z.pow_le_mono_r 2 j 3). lia.
Qed.
