(* ===== verification/StmtCacheTheorems.v ===== *)
(** * The properties of the statement cache

    The refinement of StmtCacheRefine.v against the driver interface: the
    operations are defined on every reachable cache, and every statement that
    is handed to the cache is finalized exactly once. *)

From Stdlib Require Import String.
From S2P Require Import Prelude Types Driver MemDriver StmtCache StmtCacheSpec StmtCacheProofs.
From S2P Require Import StmtCacheRefine.

(** The statements an abstract cache holds. *)
Definition held (a : AbsCache) : list ptr := (a_entries a).*2.

Section laws.
Context {D : Type} (drv : SqlRDBDriver D) `{!DriverLaws drv}.

(** The statements in the cache are distinct and open. *)
Definition cache_inv (a : AbsCache) (d : D) : Prop :=
  NoDup (held a) ∧ ∀ p, p ∈ held a → p ∈ stmts d.

(** Finalizing distinct open statements closes exactly them. *)
Lemma fin_all_laws l d :
  NoDup l → (∀ p, p ∈ l → p ∈ stmts d) →
  ∃ d', fin_all (Some drv) l d = Some (tt, d') ∧ stmts d' = stmts d ∖ list_to_set l ∧
    calm view d d'.
Proof.
  revert d. induction l as [|p l IH]; intros d Hnd Hin; simpl.
  - exists d. split; [done|]. split; [set_solver|apply calm_refl].
  - apply NoDup_cons in Hnd as [Hp Hnd].
    destruct (finalize_law p d) as (r & d1 & E & Hs & Hc & _); [set_solver|].
    unfold mbind, M_bind. rewrite E. simpl.
    destruct (IH d1 Hnd) as (d' & -> & Hs' & Hc').
    { intros q Hq. rewrite Hs. set_solver. }
    exists d'. split; [done|]. split; [rewrite Hs', Hs; set_solver|by eapply calm_trans].
Qed.

Lemma a_lookup_split sql l old :
  a_lookup sql l = Some old → ∃ l1 l2, l = l1 ++ (sql, old) :: l2 ∧ a_lookup sql l1 = None.
Proof.
  induction l as [|[k s] l IH]; simpl; [done|]. destruct (decide (k = sql)) as [->|Hne].
  - intros [= ->]. by exists [], l.
  - intros (l1 & l2 & -> & Hl1)%IH. exists ((k, s) :: l1), l2. simpl. by rewrite decide_False.
Qed.

(** The statements [put] finalizes are distinct and open, and those it keeps
    are distinct and were not finalized. *)
Lemma abs_put_ownership sql stmt e_ok s_ok a d :
  NoDup (a_entries a).*1 → cache_inv a d → stmt ∈ stmts d → (stmt ∉ held a) →
  let out := abs_put sql stmt e_ok s_ok a in
  NoDup (out.1.2 ++ held out.2) ∧ ∀ p, p ∈ out.1.2 ++ held out.2 ↔ p = stmt ∨ p ∈ held a.
Proof.
  intros Hk [Hnd Hin] Hs Hns. unfold abs_put. cbv zeta. destruct (a_capacity a =? 0); simpl.
  { split; [|set_solver]. by apply NoDup_cons. }
  destruct (a_lookup sql (a_entries a)) as [old|] eqn:El; simpl.
  - apply a_lookup_split in El as (l1 & l2 & E & _). unfold held in *. rewrite E in *.
    rewrite (proj2 (a_remove_split _ _ _ _ ltac:(done))). simpl in *. rewrite !fmap_app in *. simpl in *.
    rewrite NoDup_cons, NoDup_cons, !elem_of_app in *.
    rewrite NoDup_app, NoDup_cons in Hnd. rewrite NoDup_app. split; [|set_solver].
    destruct Hnd as (H1 & H2 & H3 & H4). split_and!; try done; set_solver.
  - set (n := if a_capacity a <=? _ then _ else _).
    assert (snd <$> a_entries a = take n (held a) ++ drop n (held a)) as E by (by rewrite take_drop).
    assert (NoDup (take n (held a) ++ drop n (held a))) as Hnd' by (by rewrite take_drop).
    assert (∀ p, p ∈ held a ↔ p ∈ take n (held a) ∨ p ∈ drop n (held a)) as Hel.
    { intros p. rewrite <-elem_of_app, take_drop. done. }
    rewrite NoDup_app in Hnd'. destruct Hnd' as (N1 & N2 & N3).
    destruct (e_ok && s_ok); simpl; rewrite fmap_drop; unfold held at 1 2; simpl;
      rewrite ?fmap_take; fold (held a).
    + split; [|intros p; rewrite Hel, elem_of_app, elem_of_cons; naive_solver].
      apply NoDup_app. split_and!; [done| |].
      * intros p Hp. rewrite elem_of_cons. intros [->|Hp']; [apply Hns, Hel; by right|].
        by apply (N2 _ Hp').
      * apply NoDup_cons. split; [|done]. intros Hp. apply Hns, Hel. by left.
    + split; [|intros p; rewrite Hel, !elem_of_app, list_elem_of_singleton; naive_solver].
      rewrite <-app_assoc. apply NoDup_app. split_and!; [done| |].
      * intros p Hp. simpl. rewrite elem_of_cons. intros [->|Hp']; [apply Hns, Hel; by right|].
        by apply (N2 _ Hp').
      * simpl. apply NoDup_cons. split; [|done]. intros Hp. apply Hns, Hel. by left.
Qed.

(** What is left open after the listed statements are finalized. *)
Lemma ownership_after fin kept d d' :
  NoDup (fin ++ kept) → (∀ p, p ∈ fin ++ kept → p ∈ stmts d) →
  stmts d' = stmts d ∖ list_to_set fin →
  NoDup kept ∧ ∀ p, p ∈ kept → p ∈ stmts d'.
Proof.
  intros Hnd Hin ->. apply NoDup_app in Hnd as (_ & Hd & Hk). split; [done|].
  intros p Hp. apply elem_of_difference. split; [apply Hin; set_solver|].
  rewrite elem_of_list_to_set. intros Hf. by apply (Hd p).
Qed.

Lemma cache_put_owned c d al ps a sql stmt :
  rep c ps a → cache_inv a d → stmt ∈ stmts d → (stmt ∉ held a) →
  let out := abs_put sql stmt (malloc_ok al).1 (malloc_ok (malloc_ok al).2).1 a in
  ∃ c' ps' d' n, c2sql_internal_cache_put (Some sql) stmt (Some drv) (MkCState c d al) =
      Some (out.1.1, MkCState c' d' (drop n al)) ∧
    rep c' ps' out.2 ∧ cache_inv out.2 d' ∧ stmts d' = stmts d ∖ list_to_set out.1.2 ∧
    calm view d d'.
Proof.
  intros Hr Hinv Hs Hns out.
  destruct (abs_put_ownership sql stmt (malloc_ok al).1 (malloc_ok (malloc_ok al).2).1 a d
    (rep_keys _ _ _ Hr) Hinv Hs Hns) as [Hnd Hel]. fold out in Hnd, Hel.
  assert (∀ p, p ∈ out.1.2 ++ held out.2 → p ∈ stmts d) as Hop.
  { intros p [->|Hp]%Hel; [done|]. by apply Hinv. }
  destruct (fin_all_laws out.1.2 d) as (d' & Hfin & Hd' & Hc').
  { by apply NoDup_app in Hnd as (? & _). } { intros p Hp. apply Hop. set_solver. }
  destruct (cache_put_refines (Some drv) c d al ps a sql stmt d' Hr Hfin) as (c' & ps' & n & E & Hr').
  exists c', ps', d', n. split_and!; try done; by eapply ownership_after.
Qed.

(** [rebuild] for a capacity that the bucket table can be sized for. *)
Lemma cache_rebuild_owned c d al ps a cap :
  rep c ps a → cache_inv a d → 0 ≤ cap ≤ 2 ^ 62 →
  ∃ ok c' ps' d' n, let out := abs_rebuild cap ok a in
    c2sql_internal_cache_rebuild cap (Some drv) (MkCState c d al) =
      Some (out.1.1, MkCState c' d' (drop n al)) ∧
    rep c' ps' out.2 ∧ cache_inv out.2 d' ∧ stmts d' = stmts d ∖ list_to_set out.1.2 ∧
    calm view d d' ∧ (no_oom al → ok = true).
Proof.
  intros Hr [Hnd Hin] Hcap.
  assert (∃ want k, if cap =? 0 then True
    else bucket_count_for cap = Some want ∧ want = 2 ^ k ∧ 0 ≤ k ≤ 63) as (want & k & Hw).
  { destruct (Z.eqb_spec cap 0); [by exists 0, 0|].
    destruct (bucket_count_for_spec cap) as (k & E & Hk & _); [lia|].
    exists (2 ^ k), k. split_and!; [done|done|lia|lia]. }
  set (out := abs_rebuild cap (rebuild_ok cap want c al) a).
  assert (out.1.2 = reverse (drop (Z.to_nat cap) (held a))) as E1.
  { unfold out, abs_rebuild. rewrite fmap_drop. by destruct (rebuild_ok _ _ _ _). }
  assert (held out.2 = take (Z.to_nat cap) (held a)) as E2.
  { unfold out, abs_rebuild, held. destruct (rebuild_ok _ _ _ _); simpl; by rewrite fmap_take. }
  assert (NoDup (out.1.2 ++ held out.2)) as Hnd'.
  { rewrite E1, E2, reverse_Permutation, Permutation_app_comm. by rewrite take_drop. }
  assert (∀ p, p ∈ out.1.2 ++ held out.2 → p ∈ stmts d) as Hop.
  { intros p. rewrite E1, E2, reverse_Permutation, Permutation_app_comm, take_drop. apply Hin. }
  destruct (fin_all_laws out.1.2 d) as (d' & Hfin & Hd' & Hc').
  { by apply NoDup_app in Hnd' as (? & _). } { intros p Hp. apply Hop. set_solver. }
  destruct (cache_rebuild_refines (Some drv) c d al ps a cap want k d' Hr) as (c' & ps' & n & E & Hr').
  { unfold SIZE_MOD. lia. } { done. } { done. }
  exists (rebuild_ok cap want c al), c', ps', d', n. cbv zeta. fold out.
  split; [exact E|]. split; [exact Hr'|]. split; [by eapply ownership_after|]. split; [done|]. split; [done|].
  intros Hal. unfold rebuild_ok. destruct Hal as [|b al ->]; simpl; by rewrite ?orb_true_r.
Qed.

(** ** Histories *)

(** What the library does with its cache: a lookup, a statement that is
    prepared and handed over, a change of capacity. *)
Inductive cache_op : Type :=
  | OpGet (sql : string)
  | OpPut (sql : string)
  | OpRebuild (capacity : Z).

Definition op_ok (o : cache_op) : Prop :=
  match o with
  | OpGet _ => True
  | OpPut sql => sql_text (drv_dialect drv) sql
  | OpRebuild cap => 0 ≤ cap ≤ 2 ^ 62
  end.

Definition run_op (ctx : ptr) (o : cache_op) : M (CState D) unit :=
  match o with
  | OpGet sql => c2sql_internal_cache_get (Some sql);; mret tt
  | OpPut sql =>
      out ← on_db (drv_prepare drv ctx sql);
      let '(r, stmt) := out in
      if res_ok r then c2sql_internal_cache_put (Some sql) stmt (Some drv);; mret tt
      else mret tt
  | OpRebuild cap => c2sql_internal_cache_rebuild cap (Some drv);; mret tt
  end.

Fixpoint run_ops (ctx : ptr) (l : list cache_op) : M (CState D) unit :=
  match l with
  | [] => mret tt
  | o :: l => run_op ctx o;; run_ops ctx l
  end.

(** The statements open in the driver are those of the cache. *)
Definition cache_closed (s : CState D) : Prop :=
  ∃ ps a, rep (cs_cache s) ps a ∧ NoDup (held a) ∧ stmts (cs_db s) = list_to_set (held a).

Lemma closed_inv a d :
  NoDup (held a) → stmts d = list_to_set (held a) → cache_inv a d.
Proof. intros Hnd E. split; [done|]. intros p. rewrite E. set_solver. Qed.

Lemma abs_get_held sql a p :
  NoDup (a_entries a).*1 → NoDup (held a) →
  NoDup (held (abs_get sql a).2) ∧ (p ∈ held (abs_get sql a).2 ↔ p ∈ held a).
Proof.
  intros Hk Hnd. unfold abs_get. destruct (a_lookup sql (a_entries a)) as [s|] eqn:El; simpl; [|done].
  apply a_lookup_split in El as (l1 & l2 & E & _). unfold held in *. rewrite E in *. simpl.
  rewrite (proj2 (a_remove_split _ _ _ _ ltac:(done))). rewrite !fmap_app in *. simpl in *.
  rewrite <-Permutation_middle in Hnd. split; [done|]. set_solver.
Qed.

Lemma run_op_closed ctx o s :
  op_ok o → ctx ∈ conns (cs_db s) → cache_closed s →
  ∃ s', run_op ctx o s = Some (tt, s') ∧ cache_closed s' ∧ conns (cs_db s') = conns (cs_db s).
Proof.
  destruct s as [c d al]. intros Ho Hctx (ps & a & Hr & Hnd & Hs). simpl in *.
  destruct o as [sql|sql|cap]; simpl.
  - destruct (cache_get_refines c d al ps a sql Hr) as (c' & ps' & E & Hr').
    rewrite (bind_run _ _ _ _ _ E). eexists; split; [done|]. split; [|done].
    exists ps', (abs_get sql a).2. split_and!; [done| |].
    + exact (proj1 (abs_get_held sql a NULL (rep_keys _ _ _ Hr) Hnd)).
    + simpl. rewrite Hs. apply set_eq. intros p. rewrite !elem_of_list_to_set.
      by rewrite (proj2 (abs_get_held sql a p (rep_keys _ _ _ Hr) Hnd)).
  - destruct (prepare_law (drv := drv) ctx sql d Hctx Ho) as (r & p & d1 & E & Hp).
    rewrite (bind_run _ _ _ (r, p) (MkCState c d1 al)) by (unfold on_db, zoom; simpl; by rewrite E).
    destruct (res_ok r).
    + destruct Hp as (Hp0 & Hpn & Hd1 & Hcn & _).
      assert (cache_inv a d1) as Hinv by (split; [done|]; intros q Hq; rewrite Hd1, Hs; set_solver).
      assert (p ∉ held a) as Hpa by (intros Hq; apply Hpn; rewrite Hs; set_solver).
      destruct (cache_put_owned c d1 al ps a sql p Hr Hinv) as (c' & ps' & d' & n & E' & Hr' & [Hnd' Hin'] & Hd' & [Hcn' _]);
        [rewrite Hd1; set_solver|done|].
      rewrite (bind_run _ _ _ _ _ E'). eexists; split; [done|]. split; [|simpl; congruence].
      eexists ps', _. split_and!; [done|done|]. simpl. apply set_eq. intros q.
      rewrite elem_of_list_to_set. split; [|apply Hin'].
      destruct (abs_put_ownership sql p (malloc_ok al).1 (malloc_ok (malloc_ok al).2).1 a d1
        (rep_keys _ _ _ Hr) Hinv ltac:(rewrite Hd1; set_solver) Hpa) as [_ Hel].
      rewrite Hd', Hd1, Hs. intros Hq. specialize (Hel q). rewrite elem_of_app in Hel. set_solver.
    + destruct Hp as (Hp & Hcn & _). eexists; split; [done|]. split; [|done]. exists ps, a. simpl. by rewrite Hp.
  - destruct (cache_rebuild_owned c d al ps a cap Hr (closed_inv a d Hnd Hs) Ho)
      as (ok & c' & ps' & d' & n & E & Hr' & [Hnd' Hin'] & Hd' & [Hcn _] & _).
    rewrite (bind_run _ _ _ _ _ E). eexists; split; [done|]. split; [|done].
    eexists ps', _. split_and!; [done|done|]. simpl. apply set_eq. intros q.
    rewrite elem_of_list_to_set. split; [|apply Hin'].
    rewrite Hd', Hs. rewrite elem_of_difference, !elem_of_list_to_set.
    unfold abs_rebuild, held. destruct ok; simpl; rewrite fmap_drop, fmap_take, elem_of_reverse;
      fold (held a); intros [Hq Hn]; rewrite <-(take_drop (Z.to_nat cap) (held a)), elem_of_app in Hq; tauto.
Qed.

Lemma run_ops_closed ctx l s :
  Forall op_ok l → ctx ∈ conns (cs_db s) → cache_closed s → ∃ s', run_ops ctx l s = Some (tt, s') ∧ cache_closed s'.
Proof.
  intros Hl. revert s. induction Hl as [|o l Ho Hl IH]; intros s Hctx Hs; simpl; [by exists s|].
  destruct (run_op_closed ctx o s Ho Hctx Hs) as (s1 & E & Hs1 & Hcn). rewrite (bind_run _ _ _ _ _ E).
  apply IH; [by rewrite Hcn|done].
Qed.
End laws.

(** ** Example inputs *)

(** A cache of capacity 2 after initialisation. *)
Definition ex_cache : SqlRDBStmtCache := MkCache 2 0 NULL NULL (replicate 16 NULL) 16 ∅.

Lemma ex_rep : rep ex_cache [] (MkAbs 2 []).
Proof.
  destruct (cache_init_spec (D := Mem) zero_cache mem0 [] 2 16 4) as (c' & n & E & Hr).
  - done.
  - simpl. split_and!; done.
  - assert (c' = ex_cache) as -> by (vm_compute in E; by injection E as <-). exact Hr.
Qed.

Definition ex_open : Mem := MkMem [7%N] [] [] [] [] [] [1%N].

Lemma ex_inv : cache_inv mem_driver (MkAbs 2 []) ex_open.
Proof. split; [constructor|]. set_solver. Qed.

(** ** Properties *)

(** C32: lookup.  On every well-formed cache, cache_get returns the statement
    cached for the text and makes it the most recently used, or NOT_FOUND; it
    terminates, follows no dangling link of the list or of the hash chains,
    and leaves a well-formed cache. *)
Theorem cache_get_correct {D} c (d : D) al ps a sql :
  rep c ps a →
  ∃ c' ps', c2sql_internal_cache_get (Some sql) (MkCState c d al) =
      Some ((abs_get sql a).1, MkCState c' d al) ∧
    rep c' ps' (abs_get sql a).2.
Proof. apply cache_get_refines. Qed.

Lemma cache_get_correct_witness :
  ∃ c' ps', c2sql_internal_cache_get (Some "q"%string) (MkCState ex_cache mem0 []) =
      Some ((SQL_RDB_ERR_NOT_FOUND, NULL), MkCState c' mem0 []) ∧ rep c' ps' (MkAbs 2 []).
Proof. apply (cache_get_correct ex_cache mem0 [] [] (MkAbs 2 []) "q"%string). exact ex_rep. Defined.

(** C16: insertion and ownership.  Handing an open statement to the cache is
    refined by the abstract put: it replaces the statement under the same text,
    or evicts the least recently used entry when the cache is full, or, when
    the cache is disabled or memory runs out, is finalized at once.  In every
    case the statements finalized are exactly those the cache gave up, each
    once, and the statements left in the cache are distinct and open. *)
Theorem cache_put_correct {D} (drv : SqlRDBDriver D) `{!DriverLaws drv} c d al ps a sql stmt :
  rep c ps a → cache_inv drv a d → stmt ∈ stmts d → (stmt ∉ held a) →
  let out := abs_put sql stmt (malloc_ok al).1 (malloc_ok (malloc_ok al).2).1 a in
  ∃ c' ps' d' n, c2sql_internal_cache_put (Some sql) stmt (Some drv) (MkCState c d al) =
      Some (out.1.1, MkCState c' d' (drop n al)) ∧
    rep c' ps' out.2 ∧ cache_inv drv out.2 d' ∧ stmts d' = stmts d ∖ list_to_set out.1.2 ∧
    calm view d d'.
Proof. apply cache_put_owned. Qed.

Lemma cache_put_correct_witness :
  let out := abs_put "q" 7%N true false (MkAbs 2 []) in
  ∃ c' ps' d' n, c2sql_internal_cache_put (Some "q"%string) 7%N (Some mem_driver)
      (MkCState ex_cache ex_open [true; false]) = Some (out.1.1, MkCState c' d' (drop n [true; false])) ∧
    rep c' ps' out.2 ∧ cache_inv mem_driver out.2 d' ∧
    stmts d' = stmts ex_open ∖ list_to_set out.1.2 ∧ calm view ex_open d'.
Proof.
  apply (cache_put_correct mem_driver ex_cache ex_open [true; false] [] (MkAbs 2 []) "q"%string 7%N).
  - exact ex_rep.
  - exact ex_inv.
  - apply elem_of_list_to_set. left.
  - apply not_elem_of_nil.
Defined.

(** C33: change of capacity.  For a capacity up to 2^62 the rebuild ends,
    finalizes exactly the entries beyond the new capacity, least recently used
    first, keeps the order of the others and leaves a well-formed cache.  When
    the new bucket table cannot be allocated the result is NO_MEMORY and the old
    capacity stays, but the entries beyond the new one are finalized all the
    same. *)
Theorem cache_rebuild_correct {D} (drv : SqlRDBDriver D) `{!DriverLaws drv} c d al ps a cap :
  rep c ps a → cache_inv drv a d → 0 ≤ cap ≤ 2 ^ 62 →
  ∃ ok c' ps' d' n, let out := abs_rebuild cap ok a in
    c2sql_internal_cache_rebuild cap (Some drv) (MkCState c d al) =
      Some (out.1.1, MkCState c' d' (drop n al)) ∧
    rep c' ps' out.2 ∧ cache_inv drv out.2 d' ∧ stmts d' = stmts d ∖ list_to_set out.1.2 ∧
    calm view d d' ∧ (no_oom al → ok = true).
Proof. apply cache_rebuild_owned. Qed.

Lemma cache_rebuild_correct_witness :
  ∃ ok c' ps' d' n, let out := abs_rebuild 100 ok (MkAbs 2 []) in
    c2sql_internal_cache_rebuild 100 (Some mem_driver) (MkCState ex_cache ex_open []) =
      Some (out.1.1, MkCState c' d' (drop n [])) ∧
    rep c' ps' out.2 ∧ cache_inv mem_driver out.2 d' ∧
    stmts d' = stmts ex_open ∖ list_to_set out.1.2 ∧ calm view ex_open d' ∧ (no_oom [] → ok = true).
Proof.
  apply (cache_rebuild_correct mem_driver ex_cache ex_open [] [] (MkAbs 2 []) 100).
  - exact ex_rep.
  - exact ex_inv.
  - split; discriminate.
Defined.

(** C34: no statement leaks.  Start from a driver with no open statement and
    initialise the cache; then any history of lookups, insertions of freshly
    prepared statements and capacity changes, with allocations and prepares
    failing at will, is free of undefined behaviour, keeps the statements open
    in the driver equal to those in the cache, and destroying the cache
    finalizes every one of them. *)
Theorem cache_history_safe {D} (drv : SqlRDBDriver D) `{!DriverLaws drv} ctx c0 d al cap ops :
  stmts d = ∅ → ctx ∈ conns d → 0 ≤ cap ≤ 2 ^ 62 → Forall (op_ok drv) ops →
  ∃ r s1 s2 d3 al3, c2sql_internal_cache_init cap (MkCState c0 d al) = Some (r, s1) ∧
    run_ops drv ctx ops s1 = Some (tt, s2) ∧ cache_closed drv s2 ∧
    c2sql_internal_cache_destroy (Some drv) s2 = Some (tt, MkCState zero_cache d3 al3) ∧
    stmts d3 = ∅.
Proof.
  intros Hd Hctx Hcap Hops.
  assert (∃ want k, if cap =? 0 then True
    else bucket_count_for cap = Some want ∧ want = 2 ^ k ∧ 0 ≤ k ≤ 63) as (want & k & Hw).
  { destruct (Z.eqb_spec cap 0); [by exists 0, 0|].
    destruct (bucket_count_for_spec cap) as (k & E & Hk & _); [lia|].
    exists (2 ^ k), k. split_and!; [done|done|lia|lia]. }
  destruct (cache_init_spec c0 d al cap want k) as (c1 & n & E1 & Hr1); [unfold SIZE_MOD; lia|done|].
  destruct (run_ops_closed drv ctx ops (MkCState c1 d (drop n al)) Hops) as (s2 & E2 & Hcl).
  { done. }
  { eexists [], _. split_and!; [exact Hr1|constructor|]. simpl. by rewrite Hd. }
  pose proof Hcl as (ps & a & Hr & Hnd & Hs). destruct s2 as [c2 d2 al2]. simpl in *.
  destruct (fin_all_laws drv (held a) d2 Hnd) as (d3 & Hfin & Hd3 & _).
  { intros p. rewrite Hs. set_solver. }
  eexists _, _, _, d3, al2. split_and!; [exact E1|exact E2|done| |].
  - by apply (cache_destroy_refines (Some drv) c2 d2 al2 ps a d3).
  - rewrite Hd3, Hs. set_solver.
Qed.

Lemma cache_history_safe_witness :
  ∃ r s1 s2 d3 al3, c2sql_internal_cache_init 1 (MkCState zero_cache mem0 []) = Some (r, s1) ∧
    run_ops mem_driver 1%N [OpPut "a"; OpPut "b"; OpGet "b"; OpRebuild 0] s1 = Some (tt, s2) ∧
    cache_closed mem_driver s2 ∧
    c2sql_internal_cache_destroy (Some mem_driver) s2 = Some (tt, MkCState zero_cache d3 al3) ∧
    stmts d3 = ∅.
Proof.
  apply (cache_history_safe mem_driver 1%N zero_cache mem0 [] 1
    [OpPut "a"; OpPut "b"; OpGet "b"; OpRebuild 0]).
  - reflexivity.
  - simpl. set_solver.
  - split; discriminate.
  - repeat constructor; discriminate.
Defined.

(** The size of the bucket table.  For a capacity from 1 to 2^62 the loop
    that doubles the size ends within its 64 steps, with a power of two of at
    least 16 and at least twice the capacity; above 2^63 buckets it never ends,
    however long it runs: the size wraps around to 0 and stays there. *)
Theorem bucket_count_terminates cap n fuel :
  (0 < cap ≤ 2 ^ 62 →
   ∃ k, bucket_count_for cap = Some (2 ^ k) ∧ 4 ≤ k ≤ 63 ∧ 2 * cap ≤ 2 ^ k) ∧
  (2 ^ 63 < n → next_pow2_loop fuel 1 n = None).
Proof.
  split; [apply bucket_count_for_spec|]. intros Hn. apply next_pow2_loop_diverges; [|done].
  right. by exists 0.
Qed.

Lemma bucket_count_terminates_witness :
  (∃ k, bucket_count_for 64 = Some (2 ^ k) ∧ 4 ≤ k ≤ 63 ∧ 2 * 64 ≤ 2 ^ k) ∧
  next_pow2_loop 1000 1 (2 ^ 63 + 1) = None.
Proof.
  split.
  - apply (proj1 (bucket_count_terminates 64 0 0)). split; [reflexivity|discriminate].
  - apply (proj2 (bucket_count_terminates 64 (2 ^ 63 + 1) 1000)). reflexivity.
Defined.
