(* ===== verification/Condition.v ===== *)
(** * Search conditions (src/condition_ast.c, src/condition_ast.h)

    The constructors and the recursive free, on a heap of nodes; and the tree
    a pointer stands for, which the query builder and the API read. *)

From Stdlib Require Import Strings.Byte.
From S2P Require Import Prelude Types.

(** ** Data *)

(** The union [v] of a leaf: the member that was written.  A blob is the
    memory its pointer designates and the length. *)
Inductive CondValue : Type :=
  | VInt (i : Z)
  | VReal (r : Z)
  | VText (t : string)
  | VBlob (p : list byte) (n : Z).

(** A node in memory. *)
Inductive CondNode : Type :=
  | NLeaf (col : string) (op : SqlRDBOp) (value_type : SqlRDBType) (v : CondValue)
  | NAnd (left right : ptr)
  | NOr (left right : ptr)
  | NAll.

(** The tree of a condition. *)
Inductive SqlRDBCondition : Type :=
  | COND_LEAF (col : string) (op : SqlRDBOp) (value_type : SqlRDBType) (v : CondValue)
  | COND_AND (left right : SqlRDBCondition)
  | COND_OR (left right : SqlRDBCondition)
  | COND_ALL.

Record CondMem : Type := MkCondMem {
  cm_heap : gmap ptr CondNode;
  cm_alloc : list bool;
}.

(** ** Operations *)

(** The address of a new node: not NULL, not in use. *)
Definition fresh_node (h : gmap ptr CondNode) : ptr := fresh ({[NULL]} ∪ dom h).

(** calloc, then the member writes: the node [n]; NULL when it fails. *)
Definition alloc_node (n : CondNode) : M CondMem ptr := λ m,
  let '(ok, al) := malloc_ok (cm_alloc m) in
  if ok : bool then
    let p := fresh_node (cm_heap m) in
    Some (p, MkCondMem (<[p := n]> (cm_heap m)) al)
  else Some (NULL, MkCondMem (cm_heap m) al).

Definition SqlRDBCondInt (col : option string) (op value : Z) : M CondMem ptr :=
  match col with
  | None => mret NULL
  | Some col => alloc_node (NLeaf col (SqlRDBOp_of_int op) SQL_TYPE_INT64 (VInt value))
  end.

Definition SqlRDBCondText (col : option string) (op : Z) (value : option string) :
    M CondMem ptr :=
  match col, value with
  | Some col, Some value =>
      alloc_node (NLeaf col (SqlRDBOp_of_int op) SQL_TYPE_TEXT (VText value))
  | _, _ => mret NULL
  end.

Definition SqlRDBCondReal (col : option string) (op value : Z) : M CondMem ptr :=
  match col with
  | None => mret NULL
  | Some col => alloc_node (NLeaf col (SqlRDBOp_of_int op) SQL_TYPE_REAL (VReal value))
  end.

Definition SqlRDBCondBlob (col : option string) (op : Z) (bytes : option (list byte))
    (len : Z) : M CondMem ptr :=
  match col, bytes with
  | Some col, Some bytes =>
      alloc_node (NLeaf col (SqlRDBOp_of_int op) SQL_TYPE_BLOB (VBlob bytes len))
  | _, _ => mret NULL
  end.

Definition SqlRDBCondAnd (a b : ptr) : M CondMem ptr :=
  if (a =? NULL)%N || (b =? NULL)%N then mret NULL else alloc_node (NAnd a b).

Definition SqlRDBCondOr (a b : ptr) : M CondMem ptr :=
  if (a =? NULL)%N || (b =? NULL)%N then mret NULL else alloc_node (NOr a b).

Definition SqlRDBCondAll : M CondMem ptr := alloc_node NAll.

(** free(cond): undefined on a pointer that is not an allocated node. *)
Definition free_node (p : ptr) : M CondMem unit := λ m,
  match cm_heap m !! p with
  | Some _ => Some (tt, MkCondMem (delete p (cm_heap m)) (cm_alloc m))
  | None => None
  end.

Definition node_at (p : ptr) : M CondMem CondNode := λ m,
  match cm_heap m !! p with Some n => Some (n, m) | None => None end.

(** The recursion of SqlRDBCondFree, its depth bounded by [fuel]. *)
Fixpoint cond_free (fuel : nat) (p : ptr) : M CondMem unit :=
  if (p =? NULL)%N then mret tt
  else
    match fuel with
    | O => ub
    | S fuel =>
        n ← node_at p;
        match n with
        | NAnd l r | NOr l r => cond_free fuel l;; cond_free fuel r
        | _ => mret tt
        end;;
        free_node p
    end.

(** A tree is not deeper than the number of nodes in memory. *)
Definition SqlRDBCondFree (p : ptr) : M CondMem unit := λ m,
  cond_free (S (size (cm_heap m))) p m.

(** ** Trees in memory

    [cond_at h p t F]: the node at [p] is the root of the tree [t], and [F] is
    the set of its nodes; the two subtrees of a composite share no node. *)
Fixpoint cond_at (h : gmap ptr CondNode) (p : ptr) (t : SqlRDBCondition) (F : gset ptr) : Prop :=
  p ≠ NULL ∧
  match t with
  | COND_LEAF c o ty v => h !! p = Some (NLeaf c o ty v) ∧ F = {[p]}
  | COND_ALL => h !! p = Some NAll ∧ F = {[p]}
  | COND_AND a b => ∃ l r Fl Fr, h !! p = Some (NAnd l r) ∧
      cond_at h l a Fl ∧ cond_at h r b Fr ∧ (p ∉ Fl ∪ Fr) ∧ Fl ## Fr ∧ F = {[p]} ∪ Fl ∪ Fr
  | COND_OR a b => ∃ l r Fl Fr, h !! p = Some (NOr l r) ∧
      cond_at h l a Fl ∧ cond_at h r b Fr ∧ (p ∉ Fl ∪ Fr) ∧ Fl ## Fr ∧ F = {[p]} ∪ Fl ∪ Fr
  end.

(** The depth of a tree. *)
Fixpoint depth (t : SqlRDBCondition) : nat :=
  match t with
  | COND_AND a b | COND_OR a b => S (Nat.max (depth a) (depth b))
  | _ => 1
  end.

(** What a reader of the pointer sees; [fuel] bounds the depth. *)
Fixpoint cond_tree (fuel : nat) (h : gmap ptr CondNode) (p : ptr) : option SqlRDBCondition :=
  match fuel with
  | O => None
  | S fuel =>
      n ← h !! p;
      match n with
      | NLeaf c o ty v => Some (COND_LEAF c o ty v)
      | NAll => Some COND_ALL
      | NAnd l r => a ← cond_tree fuel h l; b ← cond_tree fuel h r; Some (COND_AND a b)
      | NOr l r => a ← cond_tree fuel h l; b ← cond_tree fuel h r; Some (COND_OR a b)
      end
  end.

(** ** Lemmas *)

Lemma cond_at_frame h h' t : ∀ p F,
  (∀ q, q ∈ F → h' !! q = h !! q) → cond_at h p t F → cond_at h' p t F.
Proof.
  induction t as [| | |]; simpl; intros p F HF [Hp Hn]; split; try done.
  - destruct Hn as [Hn ->]. split; [|done]. rewrite HF by set_solver. done.
  - destruct Hn as (l & r & Fl & Fr & Hn & Hl & Hr & Hd1 & Hd2 & ->).
    exists l, r, Fl, Fr. rewrite HF by set_solver. split_and!; try done.
    + apply IHt1; [set_solver|done].
    + apply IHt2; [set_solver|done].
  - destruct Hn as (l & r & Fl & Fr & Hn & Hl & Hr & Hd1 & Hd2 & ->).
    exists l, r, Fl, Fr. rewrite HF by set_solver. split_and!; try done.
    + apply IHt1; [set_solver|done].
    + apply IHt2; [set_solver|done].
  - destruct Hn as [Hn ->]. split; [|done]. rewrite HF by set_solver. done.
Qed.

Lemma cond_at_dom h t : ∀ p F, cond_at h p t F → F ⊆ dom h ∧ p ∈ F ∧ (depth t ≤ size F)%nat.
Proof.
  induction t as [c o ty v|a IHa b IHb|a IHa b IHb|]; simpl; intros p F [Hp Hn].
  1, 4: destruct Hn as [Hn ->]; rewrite size_singleton;
    split_and!; [|set_solver|lia]; intros q ->%elem_of_singleton; apply elem_of_dom; eauto.
  all: destruct Hn as (l & r & Fl & Fr & Hn & Hl & Hr & Hd1 & Hd2 & ->);
    destruct (IHa _ _ Hl) as (? & ? & ?); destruct (IHb _ _ Hr) as (? & ? & ?);
    assert (p ∈ dom h) by (apply elem_of_dom; eauto);
    rewrite <-union_assoc_L, size_union by set_solver; rewrite size_singleton, size_union by done;
    split_and!; [set_solver|set_solver|lia].
Qed.

Lemma cond_tree_at h t : ∀ fuel p F,
  cond_at h p t F → (depth t ≤ fuel)%nat → cond_tree fuel h p = Some t.
Proof.
  induction t as [c o ty v|a IHa b IHb|a IHa b IHb|]; simpl; intros fuel p F [_ Hn] Hf;
    (destruct fuel as [|fuel]; [lia|]); simpl.
  1, 4: by destruct Hn as [-> _].
  all: destruct Hn as (l & r & Fl & Fr & -> & Hl & Hr & _); simpl.
  all: by rewrite (IHa fuel l Fl), (IHb fuel r Fr) by (done || lia).
Qed.

(** Removing a set of nodes from the heap. *)
Definition without (h : gmap ptr CondNode) (F : gset ptr) : gmap ptr CondNode :=
  filter (λ x, x.1 ∉ F) h.

Lemma lookup_without_in h F q : q ∈ F → without h F !! q = None.
Proof. intros. unfold without. apply map_lookup_filter_None. right. naive_solver. Qed.
Lemma lookup_without h F q : q ∉ F → without h F !! q = h !! q.
Proof.
  intros HF. unfold without. destruct (h !! q) as [n|] eqn:E.
  - apply map_lookup_filter_Some. done.
  - apply map_lookup_filter_None. by left.
Qed.
Lemma without_union h F G : without (without h F) G = without h (F ∪ G).
Proof.
  apply map_eq. intros q. destruct (decide (q ∈ G)).
  { rewrite !lookup_without_in; set_solver. }
  rewrite lookup_without by done. destruct (decide (q ∈ F)).
  { rewrite !lookup_without_in; set_solver. }
  rewrite !lookup_without; set_solver.
Qed.
Lemma delete_without h p F : delete p (without h F) = without h ({[p]} ∪ F).
Proof.
  apply map_eq. intros q. destruct (decide (p = q)) as [->|].
  { rewrite lookup_delete_eq, lookup_without_in; set_solver. }
  rewrite lookup_delete_ne by done. destruct (decide (q ∈ F)).
  { rewrite !lookup_without_in; set_solver. }
  rewrite !lookup_without; set_solver.
Qed.

Lemma node_at_run p n h al : h !! p = Some n → node_at p (MkCondMem h al) = Some (n, MkCondMem h al).
Proof. intros H. unfold node_at. simpl. by rewrite H. Qed.
Lemma free_node_run p h al :
  is_Some (h !! p) → free_node p (MkCondMem h al) = Some (tt, MkCondMem (delete p h) al).
Proof. intros [n H]. unfold free_node. simpl. by rewrite H. Qed.

Lemma without_singleton h p : without h {[p]} = delete p h.
Proof.
  apply map_eq. intros q. destruct (decide (p = q)) as [->|].
  - rewrite lookup_delete_eq, lookup_without_in; set_solver.
  - rewrite lookup_delete_ne, lookup_without; set_solver.
Qed.

(** The composite case: both subtrees, then the node itself. *)
Lemma cond_free_composite fuel h al p l r Fl Fr :
  is_Some (h !! p) → p ∉ Fl ∪ Fr →
  cond_free fuel l (MkCondMem h al) = Some (tt, MkCondMem (without h Fl) al) →
  cond_free fuel r (MkCondMem (without h Fl) al) =
    Some (tt, MkCondMem (without (without h Fl) Fr) al) →
  ((cond_free fuel l;; cond_free fuel r);; free_node p) (MkCondMem h al) =
    Some (tt, MkCondMem (without h ({[p]} ∪ Fl ∪ Fr)) al).
Proof.
  intros Hp HF Hl Hr. erewrite bind_run; [|run Hl; done || apply Hr].
  rewrite free_node_run; rewrite without_union.
  - by rewrite delete_without, union_assoc_L.
  - by rewrite lookup_without.
Qed.

(** Freeing a tree frees its nodes and no other. *)
Lemma cond_free_spec t : ∀ fuel h al p F,
  cond_at h p t F → (depth t ≤ fuel)%nat →
  cond_free fuel p (MkCondMem h al) = Some (tt, MkCondMem (without h F) al).
Proof.
  induction t as [c o ty v|a IHa b IHb|a IHa b IHb|]; simpl; intros fuel h al p F [Hp Hn] Hf;
    (destruct fuel as [|fuel]; [lia|]); simpl; rewrite (proj2 (N.eqb_neq _ _) Hp).
  1, 4: destruct Hn as [Hn ->]; run (node_at_run _ _ _ al Hn); rewrite (bind_run _ _ _ _ _ eq_refl);
    rewrite free_node_run by eauto; by rewrite without_singleton.
  all: destruct Hn as (l & r & Fl & Fr & Hn & Hl & Hr & Hd1 & Hd2 & ->);
    run (node_at_run _ _ _ al Hn); apply cond_free_composite; [eauto|done|apply IHa; [done|lia]|];
    apply IHb; [|lia]; eapply cond_at_frame; [|done];
    intros q Hq; apply lookup_without; set_solver.
Qed.

(** The constructors add one node at a fresh address. *)
Lemma alloc_node_spec n h al :
  ∃ p, alloc_node n (MkCondMem h al) =
    Some (if (malloc_ok al).1 then p else NULL,
          MkCondMem (if (malloc_ok al).1 then <[p := n]> h else h) (malloc_ok al).2) ∧
    p ≠ NULL ∧ h !! p = None.
Proof.
  exists (fresh_node h). unfold alloc_node. simpl.
  pose proof (is_fresh ({[NULL]} ∪ dom h : gset ptr)) as Hf.
  rewrite not_elem_of_union, not_elem_of_singleton in Hf. destruct Hf as [Hn Hd].
  destruct (malloc_ok al) as [[] al']; split_and!; try done; by apply not_elem_of_dom.
Qed.

Lemma cond_at_insert h p n t q F :
  h !! p = None → cond_at h q t F → cond_at (<[p := n]> h) q t F ∧ p ∉ F.
Proof.
  intros Hp Ht. destruct (cond_at_dom _ _ _ _ Ht) as (HF & _ & _).
  assert (p ∉ F) by (intros Hin; apply HF, elem_of_dom in Hin as [x Hx]; congruence).
  split; [|done]. eapply cond_at_frame; [|done]. intros r Hr. apply lookup_insert_ne. set_solver.
Qed.

(** ** Composition *)

(** The two composites. *)
Definition join_tree (conj : bool) (a b : SqlRDBCondition) : SqlRDBCondition :=
  if conj then COND_AND a b else COND_OR a b.
Definition join_op (conj : bool) (a b : ptr) : M CondMem ptr :=
  if conj then SqlRDBCondAnd a b else SqlRDBCondOr a b.

Lemma join_op_spec conj h al a b ta tb Fa Fb :
  cond_at h a ta Fa → cond_at h b tb Fb → Fa ## Fb →
  ∃ p h', join_op conj a b (MkCondMem h al) =
      Some (if (malloc_ok al).1 then p else NULL, MkCondMem h' (malloc_ok al).2) ∧
    (if (malloc_ok al).1 then
       cond_at h' p (join_tree conj ta tb) ({[p]} ∪ Fa ∪ Fb) ∧ (p ∉ dom h) ∧ delete p h' = h
     else h' = h).
Proof.
  intros Ha Hb Hd.
  assert (a ≠ NULL) as Ha0 by (by destruct ta, Ha).
  assert (b ≠ NULL) as Hb0 by (by destruct tb, Hb).
  assert (∀ n, (if (a =? NULL)%N || (b =? NULL)%N then mret NULL else alloc_node n) (MkCondMem h al) =
    alloc_node n (MkCondMem h al)) as E
    by (intros n; by rewrite (proj2 (N.eqb_neq _ _) Ha0), (proj2 (N.eqb_neq _ _) Hb0)).
  set (n := if conj then NAnd a b else NOr a b).
  destruct (alloc_node_spec n h al) as (p & En & Hp & Hfresh).
  exists p, (if (malloc_ok al).1 then <[p := n]> h else h). split.
  - unfold join_op, SqlRDBCondAnd, SqlRDBCondOr. destruct conj; rewrite E; apply En.
  - destruct (malloc_ok al).1; [|done].
    destruct (cond_at_insert h p n ta a Fa Hfresh Ha) as [Ha' HpA].
    destruct (cond_at_insert h p n tb b Fb Hfresh Hb) as [Hb' HpB].
    split_and!.
    + unfold n in *. destruct conj; (split; [done|]); exists a, b, Fa, Fb;
        rewrite lookup_insert_eq; split_and!; done || set_solver.
    + by apply not_elem_of_dom.
    + by apply delete_insert_id.
Qed.

(** ** Example: two leaves *)

Definition ex_heap : gmap ptr CondNode :=
  {[1%N := NLeaf "a"%string SQL_OP_EQ SQL_TYPE_INT64 (VInt 1);
    2%N := NLeaf "b"%string SQL_OP_LT SQL_TYPE_INT64 (VInt 2)]}.

(** ** Properties *)

(** AND and OR.  Two valid conditions that share no node are combined
    into one node at a fresh address above the two, which are not touched; if
    the allocation fails the result is NULL and memory is as it was, so that
    the caller still owns both. *)
Theorem cond_join_correct conj h al a b ta tb Fa Fb :
  cond_at h a ta Fa → cond_at h b tb Fb → Fa ## Fb →
  ∃ p h', join_op conj a b (MkCondMem h al) =
      Some (if (malloc_ok al).1 then p else NULL, MkCondMem h' (malloc_ok al).2) ∧
    (if (malloc_ok al).1 then
       cond_at h' p (join_tree conj ta tb) ({[p]} ∪ Fa ∪ Fb) ∧ (p ∉ dom h) ∧ delete p h' = h
     else h' = h).
Proof. apply join_op_spec. Qed.

Lemma cond_join_correct_witness :
  ∃ p h', join_op true 1%N 2%N (MkCondMem ex_heap [false]) = Some (p, MkCondMem h' []) ∧ h' = ex_heap.
Proof.
  destruct (cond_join_correct true ex_heap [false] 1%N 2%N
    (COND_LEAF "a"%string SQL_OP_EQ SQL_TYPE_INT64 (VInt 1))
    (COND_LEAF "b"%string SQL_OP_LT SQL_TYPE_INT64 (VInt 2)) {[1%N]} {[2%N]}) as (p & h' & H1 & H2).
  - split; [discriminate|]. split; reflexivity.
  - split; [discriminate|]. split; reflexivity.
  - apply disjoint_singleton_l. intros H. apply elem_of_singleton in H. discriminate.
  - exists NULL, h'. split; [exact H1|exact H2].
Defined.

(** Freeing.  SqlRDBCondFree of a condition frees every node of its tree
    once and no other node, for trees of any depth; NULL is a no-op. *)
Theorem cond_free_correct h al p t F :
  cond_at h p t F →
  SqlRDBCondFree p (MkCondMem h al) = Some (tt, MkCondMem (without h F) al) ∧
  SqlRDBCondFree NULL (MkCondMem h al) = Some (tt, MkCondMem h al).
Proof.
  intros Ht. split; [|done]. destruct (cond_at_dom _ _ _ _ Ht) as (HF & _ & Hdep).
  apply (cond_free_spec t); [done|]. cbn [cm_heap].
  pose proof (subseteq_size _ _ HF). rewrite size_dom in *. lia.
Qed.

Lemma cond_free_correct_witness :
  SqlRDBCondFree 1%N (MkCondMem ex_heap []) = Some (tt, MkCondMem (without ex_heap {[1%N]}) []) ∧
  SqlRDBCondFree NULL (MkCondMem ex_heap []) = Some (tt, MkCondMem ex_heap []).
Proof.
  apply (cond_free_correct ex_heap [] 1%N (COND_LEAF "a"%string SQL_OP_EQ SQL_TYPE_INT64 (VInt 1)) {[1%N]}).
  split; [discriminate|]. split; reflexivity.
Defined.
