(* ===== verification/QueryBuilder.v ===== *)
(** * The query builder (src/query_builder.c)

    Definitions: the growable buffer and the builders of the nine kinds of
    statement.  The reference text and the proofs are in QueryBuilderProofs.v. *)

From Stdlib Require Import String.
From S2P Require Import Prelude Types Driver Condition.

(** ** Data *)

Inductive C2SqlQBOp : Type :=
  | C2SQL_QB_CREATE
  | C2SQL_QB_INSERT
  | C2SQL_QB_UPSERT
  | C2SQL_QB_SELECT
  | C2SQL_QB_COUNT
  | C2SQL_QB_DELETE
  | C2SQL_QB_ALTER_ADD
  | C2SQL_QB_UPDATE_FIELD
  | C2SQL_QB_SELECT_FIELD
  | C2SQL_QB_other (n : Z).

#[global] Instance C2SqlQBOp_eq_dec : EqDecision C2SqlQBOp.
Proof. solve_decision. Defined.

(** NULL pointers are [None]. *)
Record SqlRDBQuerySpec : Type := MkSpec {
  q_op : C2SqlQBOp;
  q_schema : option SqlRDBSchema;
  q_cond : option SqlRDBCondition;
  q_new_col : option SqlRDBColumnDef;
  q_target_col : option string;
  q_dialect : C2SqlDialect;
}.

(** [b_data] is the text before the NUL of the array of [b_cap] bytes. *)
Record Buf : Type := MkBuf {
  b_data : string;
  b_len : Z;
  b_cap : Z;
}.

(** The state of a builder: the buffer, [*bind_count], the allocations. *)
Record QState : Type := MkQ {
  q_buf : Buf;
  q_bind_count : Z;
  q_alloc : list bool;
}.

(** [if (!m) return false; k] and [if (!m) return SQL_RDB_ERR_NO_MEMORY; k] *)
Notation "'req' m ; k" := (mbind (λ b : bool, if b then k else mret false) m)
  (at level 20, m at level 100, k at level 200, right associativity) : c_scope.
Notation "'oom' m ; k" := (mbind (λ b : bool, if b then k else mret SQL_RDB_ERR_NO_MEMORY) m)
  (at level 20, m at level 100, k at level 200, right associativity) : c_scope.

(** ** Dynamic string buffer *)

Definition buf_init : M (list bool) (option Buf) :=
  ok ← malloc;
  mret (if ok : bool then Some (MkBuf EmptyString 0 256) else None).

(** [while (new_cap < need) new_cap *= 2;] *)
Fixpoint grow_loop (fuel : nat) (new_cap need : Z) : option Z :=
  if new_cap <? need then
    match fuel with
    | O => None
    | S fuel => grow_loop fuel (size_t (new_cap * 2)) need
    end
  else Some new_cap.

Definition buf_grow (extra : Z) : M QState bool := λ q,
  let b := q_buf q in
  let need := size_t (b_len b + extra + 1) in
  if need <=? b_cap b then Some (true, q)
  else
    match grow_loop 64 (b_cap b) need with
    | None => None
    | Some new_cap =>
        let '(ok, al) := malloc_ok (q_alloc q) in
        if ok : bool then Some (true, MkQ (MkBuf (b_data b) (b_len b) new_cap) (q_bind_count q) al)
        else Some (false, MkQ b (q_bind_count q) al)
    end.

(** [memcpy(b->data + b->len, s, n + 1)] must stay inside the array. *)
Definition buf_copy (s : string) : M QState unit := λ q,
  let b := q_buf q in
  let n := slen s in
  if b_len b + n + 1 <=? b_cap b then
    Some (tt, MkQ (MkBuf (substring 0 (Z.to_nat (b_len b)) (b_data b) +:+ s)
                         (size_t (b_len b + n)) (b_cap b))
                  (q_bind_count q) (q_alloc q))
  else None.

Definition buf_append (s : string) : M QState bool :=
  req buf_grow (slen s);
  buf_copy s;; mret true.

(** ** Type and operator names *)

Definition type_to_sql_str (t : SqlRDBType) (d : C2SqlDialect) : string :=
  match d with
  | C2SQL_DIALECT_POSTGRES =>
      match t with
      | SQL_TYPE_INT32 => "INTEGER"
      | SQL_TYPE_INT64 => "BIGINT"
      | SQL_TYPE_REAL => "DOUBLE PRECISION"
      | SQL_TYPE_TEXT => "TEXT"
      | SQL_TYPE_BLOB => "BYTEA"
      | SQL_TYPE_other _ => "TEXT"
      end
  | C2SQL_DIALECT_SQLITE =>
      match t with
      | SQL_TYPE_INT32 | SQL_TYPE_INT64 => "INTEGER"
      | SQL_TYPE_REAL => "REAL"
      | SQL_TYPE_TEXT => "TEXT"
      | SQL_TYPE_BLOB => "BLOB"
      | SQL_TYPE_other _ => "ANY"
      end
  end.

Definition incr_bind_count : M QState Z := λ q,
  let n := size_t (q_bind_count q + 1) in
  Some (n, MkQ (q_buf q) n (q_alloc q)).

(** The text of the [n]-th placeholder; PostgreSQL's goes through tmp[16]. *)
Definition placeholder (d : C2SqlDialect) (n : Z) : string :=
  match d with
  | C2SQL_DIALECT_POSTGRES => vsnprintf 16 ("$" +:+ dec n)
  | C2SQL_DIALECT_SQLITE => "?"
  end.

Definition append_placeholder (d : C2SqlDialect) : M QState bool :=
  n ← incr_bind_count;
  buf_append (placeholder d n).

Definition op_to_sql_str (op : SqlRDBOp) : string :=
  match op with
  | SQL_OP_EQ => "="
  | SQL_OP_NE => "!="
  | SQL_OP_LT => "<"
  | SQL_OP_LE => "<="
  | SQL_OP_GT => ">"
  | SQL_OP_GE => ">="
  | SQL_OP_other _ => "="
  end.

(** ** Column constraints *)

Definition append_col_constraints (col : SqlRDBColumnDef) : M QState bool :=
  let nullable := has_flag (col_flags col) SQL_COL_FLAG_NULLABLE in
  let pk := has_flag (col_flags col) SQL_COL_FLAG_PRIMARY_KEY in
  let unique := has_flag (col_flags col) SQL_COL_FLAG_UNIQUE in
  req (if nullable then mret true else buf_append " NOT NULL");
  req (if pk then buf_append " PRIMARY KEY" else mret true);
  req (if unique && negb pk then buf_append " UNIQUE" else mret true);
  mret true.

(** ** WHERE clauses *)

(** The loop of schema_has_column; the index stays in the array. *)
Fixpoint has_column_loop (cols : list SqlRDBColumnDef) (i n : nat) (col : string) :
    option bool :=
  match n with
  | O => Some false
  | S n =>
      match cols !! i with
      | None => None
      | Some c => if decide (col_name c = col) then Some true
                  else has_column_loop cols (S i) n col
      end
  end.

Definition schema_has_column (schema : SqlRDBSchema) (col : string) : option bool :=
  has_column_loop (sch_cols schema) 0 (Z.to_nat (sch_col_count schema)) col.

Fixpoint validate_cond_columns (cond : SqlRDBCondition) (schema : SqlRDBSchema) :
    option SqlRDBResult :=
  match cond with
  | COND_ALL => Some SQL_RDB_OK
  | COND_LEAF col _ _ _ =>
      b ← schema_has_column schema col;
      Some (if b : bool then SQL_RDB_OK else SQL_RDB_ERR_UNKNOWN_COLUMN)
  | COND_AND l r | COND_OR l r =>
      res ← validate_cond_columns l schema;
      if res_ok res then validate_cond_columns r schema else Some res
  end.

Fixpoint append_cond (cond : SqlRDBCondition) (d : C2SqlDialect) : M QState bool :=
  match cond with
  | COND_ALL => mret true
  | COND_LEAF col op _ _ =>
      req buf_append DQ;
      req buf_append col;
      req buf_append (DQ +:+ " ");
      req buf_append (op_to_sql_str op);
      req buf_append " ";
      append_placeholder d
  | COND_AND l r =>
      req buf_append "(";
      req append_cond l d;
      req buf_append " AND ";
      req append_cond r d;
      buf_append ")"
  | COND_OR l r =>
      req buf_append "(";
      req append_cond l d;
      req buf_append " OR ";
      req append_cond r d;
      buf_append ")"
  end.

Definition cond_needs_where (cond : option SqlRDBCondition) : bool :=
  match cond with
  | None | Some COND_ALL => false
  | Some _ => true
  end.

(** The WHERE block every DML builder ends with. *)
Definition build_where (cond : option SqlRDBCondition) (s : SqlRDBSchema) (d : C2SqlDialect) :
    M QState SqlRDBResult :=
  if cond_needs_where cond then
    match cond with
    | None => mret SQL_RDB_OK
    | Some c =>
        vr ← mdef (validate_cond_columns c s);
        if negb (res_ok vr) then mret vr
        else
          oom buf_append " WHERE ";
          oom append_cond c d;
          mret SQL_RDB_OK
    end
  else mret SQL_RDB_OK.

(** ** Loops over the columns of a schema

    [for (i = 0; i < s->col_count; i++) if (!body(i, s->cols[i])) return false;] *)
Fixpoint for_cols (cols : list SqlRDBColumnDef) (i n : nat)
    (body : nat → SqlRDBColumnDef → M QState bool) : M QState bool :=
  match n with
  | O => mret true
  | S n =>
      col ← mdef (cols !! i);
      req body i col;
      for_cols cols (S i) n body
  end.

Definition for_schema (s : SqlRDBSchema) (body : nat → SqlRDBColumnDef → M QState bool) :
    M QState bool :=
  for_cols (sch_cols s) 0 (Z.to_nat (sch_col_count s)) body.

(** [if (i > 0 && !buf_append(b, ",")) ...] *)
Definition comma (i : nat) : M QState bool :=
  match i with O => mret true | S _ => buf_append "," end.

(** ** DDL builders *)

Definition build_create (s : SqlRDBSchema) (d : C2SqlDialect) : M QState SqlRDBResult :=
  oom buf_append ("CREATE TABLE IF NOT EXISTS " +:+ DQ);
  oom buf_append (sch_name s);
  oom buf_append (DQ +:+ " (");
  oom for_schema s (λ i col,
    req comma i;
    req buf_append DQ;
    req buf_append (col_name col);
    req buf_append (DQ +:+ " ");
    req buf_append (type_to_sql_str (col_type col) d);
    append_col_constraints col);
  match d with
  | C2SQL_DIALECT_POSTGRES => oom buf_append ")"; mret SQL_RDB_OK
  | C2SQL_DIALECT_SQLITE => oom buf_append ") STRICT"; mret SQL_RDB_OK
  end.

Definition build_alter_add (s : SqlRDBSchema) (col : SqlRDBColumnDef) (d : C2SqlDialect) :
    M QState SqlRDBResult :=
  oom buf_append ("ALTER TABLE " +:+ DQ);
  oom buf_append (sch_name s);
  oom buf_append (DQ +:+ " ADD COLUMN " +:+ DQ);
  oom buf_append (col_name col);
  oom buf_append (DQ +:+ " ");
  oom buf_append (type_to_sql_str (col_type col) d);
  oom append_col_constraints col;
  mret SQL_RDB_OK.

(** ** DML builders *)

(** The quoted column list of INSERT and SELECT. *)
Definition append_col_list (s : SqlRDBSchema) : M QState bool :=
  for_schema s (λ i col,
    req comma i;
    req buf_append DQ;
    req buf_append (col_name col);
    buf_append DQ).

Definition build_insert (s : SqlRDBSchema) (d : C2SqlDialect) : M QState SqlRDBResult :=
  oom buf_append ("INSERT INTO " +:+ DQ);
  oom buf_append (sch_name s);
  oom buf_append (DQ +:+ " (");
  oom append_col_list s;
  oom buf_append ") VALUES (";
  oom for_schema s (λ i _, req comma i; append_placeholder d);
  oom buf_append ")";
  mret SQL_RDB_OK.

(** The SET list of an upsert: [first] is the flag of the code. *)
Fixpoint upsert_loop (cols : list SqlRDBColumnDef) (pk : Z) (i n : nat) (first : bool) :
    M QState bool :=
  match n with
  | O => mret true
  | S n =>
      if to_signed 32 (Z.of_nat i) =? pk then upsert_loop cols pk (S i) n first
      else
        req (if first then mret true else buf_append ",");
        col ← mdef (cols !! i);
        req buf_append DQ;
        req buf_append (col_name col);
        req buf_append (DQ +:+ "=excluded." +:+ DQ);
        req buf_append (col_name col);
        req buf_append DQ;
        upsert_loop cols pk (S i) n false
  end.

Definition build_upsert (s : SqlRDBSchema) (d : C2SqlDialect) : M QState SqlRDBResult :=
  r ← build_insert s d;
  if negb (res_ok r) then mret r
  else
    pk ← mdef (if sch_pk_index s <? 0 then None else sch_cols s !! Z.to_nat (sch_pk_index s));
    oom buf_append (" ON CONFLICT(" +:+ DQ);
    oom buf_append (col_name pk);
    oom buf_append (DQ +:+ ") DO UPDATE SET ");
    oom upsert_loop (sch_cols s) (sch_pk_index s) 0 (Z.to_nat (sch_col_count s)) true;
    mret SQL_RDB_OK.

Definition build_select (s : SqlRDBSchema) (cond : option SqlRDBCondition) (d : C2SqlDialect) :
    M QState SqlRDBResult :=
  oom buf_append "SELECT ";
  oom append_col_list s;
  oom buf_append (" FROM " +:+ DQ);
  oom buf_append (sch_name s);
  oom buf_append DQ;
  build_where cond s d.

Definition build_count (s : SqlRDBSchema) (cond : option SqlRDBCondition) (d : C2SqlDialect) :
    M QState SqlRDBResult :=
  oom buf_append ("SELECT COUNT(*) FROM " +:+ DQ);
  oom buf_append (sch_name s);
  oom buf_append DQ;
  build_where cond s d.

Definition build_update_field (s : SqlRDBSchema) (cond : option SqlRDBCondition)
    (col : string) (d : C2SqlDialect) : M QState SqlRDBResult :=
  has ← mdef (schema_has_column s col);
  if negb has then mret SQL_RDB_ERR_UNKNOWN_COLUMN
  else
    oom buf_append ("UPDATE " +:+ DQ);
    oom buf_append (sch_name s);
    oom buf_append (DQ +:+ " SET " +:+ DQ);
    oom buf_append col;
    oom buf_append (DQ +:+ "=");
    oom append_placeholder d;
    build_where cond s d.

Definition build_select_field (s : SqlRDBSchema) (cond : option SqlRDBCondition)
    (col : string) (d : C2SqlDialect) : M QState SqlRDBResult :=
  has ← mdef (schema_has_column s col);
  if negb has then mret SQL_RDB_ERR_UNKNOWN_COLUMN
  else
    oom buf_append ("SELECT " +:+ DQ);
    oom buf_append col;
    oom buf_append (DQ +:+ " FROM " +:+ DQ);
    oom buf_append (sch_name s);
    oom buf_append DQ;
    build_where cond s d.

Definition build_delete (s : SqlRDBSchema) (cond : option SqlRDBCondition) (d : C2SqlDialect) :
    M QState SqlRDBResult :=
  oom buf_append ("DELETE FROM " +:+ DQ);
  oom buf_append (sch_name s);
  oom buf_append DQ;
  build_where cond s d.

(** ** Entry point *)

(** The switch on the operation; [new_col] and [target_col] were checked. *)
Definition build_op (spec : SqlRDBQuerySpec) (s : SqlRDBSchema) : M QState SqlRDBResult :=
  let d := q_dialect spec in
  match q_op spec with
  | C2SQL_QB_CREATE => build_create s d
  | C2SQL_QB_ALTER_ADD => col ← mdef (q_new_col spec); build_alter_add s col d
  | C2SQL_QB_INSERT => build_insert s d
  | C2SQL_QB_UPSERT => build_upsert s d
  | C2SQL_QB_SELECT => build_select s (q_cond spec) d
  | C2SQL_QB_COUNT => build_count s (q_cond spec) d
  | C2SQL_QB_DELETE => build_delete s (q_cond spec) d
  | C2SQL_QB_UPDATE_FIELD =>
      col ← mdef (q_target_col spec); build_update_field s (q_cond spec) col d
  | C2SQL_QB_SELECT_FIELD =>
      col ← mdef (q_target_col spec); build_select_field s (q_cond spec) col d
  | C2SQL_QB_other _ => mret SQL_RDB_ERR_INVALID_ARG
  end.

(** Run the builder of the operation on the fresh buffer; the text of the
    buffer is handed over on success, and freed otherwise. *)
Definition qb_run (spec : SqlRDBQuerySpec) (s : SqlRDBSchema) (b : Buf) :
    M (list bool) (SqlRDBResult * option string * option Z) := λ al,
  match build_op spec s (MkQ b 0 al) with
  | None => None
  | Some (r, q) =>
      if negb (res_ok r) then Some ((r, None, Some 0), q_alloc q)
      else Some ((SQL_RDB_OK, Some (b_data (q_buf q)), Some (q_bind_count q)), q_alloc q)
  end.

(** The result code, [*out_sql] and what is stored in [*out_bind_count]
    ([None]: it is left as it was).  The callers pass both out-parameters. *)
Definition c2sql_internal_qb_build (spec : option SqlRDBQuerySpec) :
    M (list bool) (SqlRDBResult * option string * option Z) :=
  match spec with
  | None => mret (SQL_RDB_ERR_INVALID_ARG, None, None)
  | Some spec =>
      match q_schema spec with
      | None => mret (SQL_RDB_ERR_INVALID_ARG, None, None)
      | Some s =>
          if bool_decide (q_op spec = C2SQL_QB_ALTER_ADD) && bool_decide (q_new_col spec = None)
          then mret (SQL_RDB_ERR_INVALID_ARG, None, None)
          else if (bool_decide (q_op spec = C2SQL_QB_UPDATE_FIELD)
                   || bool_decide (q_op spec = C2SQL_QB_SELECT_FIELD))
                  && bool_decide (q_target_col spec = None)
          then mret (SQL_RDB_ERR_INVALID_ARG, None, None)
          else
            b ← buf_init;
            match b : option Buf with
            | None => mret (SQL_RDB_ERR_NO_MEMORY, None, Some 0)
            | Some b => qb_run spec s b
            end
      end
  end.
