(* ===== verification/QueryBuilderProofs.v ===== *)
(** * Correctness of the query builder

    A reference definition of the text of every statement ([qb_text]), written
    on whole strings, and the proof that the builders, which append piece by
    piece to a buffer that grows by realloc, produce exactly it. *)

From Stdlib Require Import Ascii String.
From S2P Require Import Prelude Types Driver Condition QueryBuilder.

(** ** The reference text *)

Definition quoted (s : string) : string := DQ +:+ s +:+ DQ.

Fixpoint join (sep : string) (l : list string) : string :=
  match l with
  | [] => EmptyString
  | [s] => s
  | s :: l' => s +:+ sep +:+ join sep l'
  end.

Definition hole (d : C2SqlDialect) (n : Z) : string :=
  match d with
  | C2SQL_DIALECT_POSTGRES => "$" +:+ dec n
  | C2SQL_DIALECT_SQLITE => "?"
  end.

(** [k] placeholders, the first of which has number [n + 1]. *)
Fixpoint holes (d : C2SqlDialect) (n : Z) (k : nat) : list string :=
  match k with
  | O => []
  | S k => hole d (n + 1) :: holes d (n + 1) k
  end.

(** The number of leaves of a condition: the values it binds. *)
Fixpoint leaves (c : SqlRDBCondition) : Z :=
  match c with
  | COND_ALL => 0
  | COND_LEAF _ _ _ _ => 1
  | COND_AND l r | COND_OR l r => leaves l + leaves r
  end.

(** The text of a condition after [n] placeholders. *)
Fixpoint cond_text (d : C2SqlDialect) (n : Z) (c : SqlRDBCondition) : string :=
  match c with
  | COND_ALL => EmptyString
  | COND_LEAF col op _ _ => quoted col +:+ " " +:+ op_to_sql_str op +:+ " " +:+ hole d (n + 1)
  | COND_AND l r => "(" +:+ cond_text d n l +:+ " AND " +:+ cond_text d (n + leaves l) r +:+ ")"
  | COND_OR l r => "(" +:+ cond_text d n l +:+ " OR " +:+ cond_text d (n + leaves l) r +:+ ")"
  end.

(** The columns a condition names. *)
Fixpoint cond_cols (c : SqlRDBCondition) : list string :=
  match c with
  | COND_ALL => []
  | COND_LEAF col _ _ _ => [col]
  | COND_AND l r | COND_OR l r => cond_cols l ++ cond_cols r
  end.

Definition constraints_text (col : SqlRDBColumnDef) : string :=
  let pk := has_flag (col_flags col) SQL_COL_FLAG_PRIMARY_KEY in
  (if has_flag (col_flags col) SQL_COL_FLAG_NULLABLE then EmptyString else " NOT NULL") +:+
  (if pk then " PRIMARY KEY" else EmptyString) +:+
  (if has_flag (col_flags col) SQL_COL_FLAG_UNIQUE && negb pk then " UNIQUE" else EmptyString).

Definition column_text (d : C2SqlDialect) (col : SqlRDBColumnDef) : string :=
  quoted (col_name col) +:+ " " +:+ type_to_sql_str (col_type col) d +:+ constraints_text col.

Definition col_list_text (s : SqlRDBSchema) : string :=
  join "," (quoted <$> col_names s).

Definition insert_text (d : C2SqlDialect) (s : SqlRDBSchema) : string :=
  "INSERT INTO " +:+ quoted (sch_name s) +:+ " (" +:+ col_list_text s +:+ ") VALUES (" +:+
  join "," (holes d 0 (length (sch_cols s))) +:+ ")".

(** The columns other than the primary key. *)
Definition other_cols (s : SqlRDBSchema) : list SqlRDBColumnDef :=
  delete (Z.to_nat (sch_pk_index s)) (sch_cols s).

Definition set_text (col : SqlRDBColumnDef) : string :=
  quoted (col_name col) +:+ "=excluded." +:+ quoted (col_name col).

Definition pk_name (s : SqlRDBSchema) : string :=
  match sch_cols s !! Z.to_nat (sch_pk_index s) with
  | Some c => col_name c
  | None => EmptyString
  end.

Definition where_text (d : C2SqlDialect) (n : Z) (c : option SqlRDBCondition) : string :=
  match c with
  | None | Some COND_ALL => EmptyString
  | Some c => " WHERE " +:+ cond_text d n c
  end.

Definition where_leaves (c : option SqlRDBCondition) : Z :=
  match c with None => 0 | Some c => leaves c end.

Definition where_cols (c : option SqlRDBCondition) : list string :=
  match c with None => [] | Some c => cond_cols c end.

Definition the_target (spec : SqlRDBQuerySpec) : string :=
  default EmptyString (q_target_col spec).

(** The statement an operation stands for. *)
Definition qb_text (spec : SqlRDBQuerySpec) (s : SqlRDBSchema) : string :=
  let d := q_dialect spec in
  let table := quoted (sch_name s) in
  match q_op spec with
  | C2SQL_QB_CREATE =>
      "CREATE TABLE IF NOT EXISTS " +:+ table +:+ " (" +:+
      join "," (column_text d <$> sch_cols s) +:+
      match d with C2SQL_DIALECT_POSTGRES => ")" | C2SQL_DIALECT_SQLITE => ") STRICT" end
  | C2SQL_QB_ALTER_ADD =>
      "ALTER TABLE " +:+ table +:+ " ADD COLUMN " +:+
      match q_new_col spec with Some col => column_text d col | None => EmptyString end
  | C2SQL_QB_INSERT => insert_text d s
  | C2SQL_QB_UPSERT =>
      insert_text d s +:+ " ON CONFLICT(" +:+ quoted (pk_name s) +:+ ") DO UPDATE SET " +:+
      join "," (set_text <$> other_cols s)
  | C2SQL_QB_SELECT =>
      "SELECT " +:+ col_list_text s +:+ " FROM " +:+ table +:+ where_text d 0 (q_cond spec)
  | C2SQL_QB_COUNT =>
      "SELECT COUNT(*) FROM " +:+ table +:+ where_text d 0 (q_cond spec)
  | C2SQL_QB_DELETE =>
      "DELETE FROM " +:+ table +:+ where_text d 0 (q_cond spec)
  | C2SQL_QB_UPDATE_FIELD =>
      "UPDATE " +:+ table +:+ " SET " +:+ quoted (the_target spec) +:+ "=" +:+ hole d 1 +:+
      where_text d 1 (q_cond spec)
  | C2SQL_QB_SELECT_FIELD =>
      "SELECT " +:+ quoted (the_target spec) +:+ " FROM " +:+ table +:+ where_text d 0 (q_cond spec)
  | C2SQL_QB_other _ => EmptyString
  end.

(** The number of values a statement binds. *)
Definition qb_binds (spec : SqlRDBQuerySpec) (s : SqlRDBSchema) : Z :=
  match q_op spec with
  | C2SQL_QB_INSERT | C2SQL_QB_UPSERT => sch_col_count s
  | C2SQL_QB_SELECT | C2SQL_QB_COUNT | C2SQL_QB_DELETE | C2SQL_QB_SELECT_FIELD =>
      where_leaves (q_cond spec)
  | C2SQL_QB_UPDATE_FIELD => 1 + where_leaves (q_cond spec)
  | C2SQL_QB_CREATE | C2SQL_QB_ALTER_ADD | C2SQL_QB_other _ => 0
  end.

(** The columns an operation refers to beside the schema's own. *)
Definition qb_cols (spec : SqlRDBQuerySpec) : list string :=
  match q_op spec with
  | C2SQL_QB_SELECT | C2SQL_QB_COUNT | C2SQL_QB_DELETE => where_cols (q_cond spec)
  | C2SQL_QB_UPDATE_FIELD | C2SQL_QB_SELECT_FIELD => the_target spec :: where_cols (q_cond spec)
  | _ => []
  end.

(** The result when no allocation fails. *)
Definition qb_result (spec : SqlRDBQuerySpec) (s : SqlRDBSchema) : SqlRDBResult :=
  match q_op spec with
  | C2SQL_QB_other _ => SQL_RDB_ERR_INVALID_ARG
  | _ => if forallb (λ c, bool_decide (c ∈ col_names s)) (qb_cols spec)
         then SQL_RDB_OK else SQL_RDB_ERR_UNKNOWN_COLUMN
  end.

(** What the registry guarantees of a schema; an upsert is only built for one
    with a primary key. *)
Definition cols_counted (s : SqlRDBSchema) : Prop :=
  sch_col_count s = Z.of_nat (length (sch_cols s)) ∧ (length (sch_cols s) ≤ 64)%nat.

Definition schema_wf (op : C2SqlQBOp) (s : SqlRDBSchema) : Prop :=
  cols_counted s ∧ (op = C2SQL_QB_UPSERT → 0 ≤ sch_pk_index s < sch_col_count s).

(** ** The buffer *)

(** The capacity stays a power of two; [len] is the length of the text. *)
Definition buf_wf (b : Buf) : Prop :=
  b_len b = slen (b_data b) ∧ b_len b < b_cap b ∧
  ∃ k, 8 ≤ k ≤ 63 ∧ b_cap b = 2 ^ k.

(** [m] appends the text [f n] after [n] placeholders and [k] placeholders,
    or fails for want of memory; it never leaves the array. *)
Definition MAX_TEXT : Z := 2 ^ 62.
Definition MAX_BINDS : Z := 10 ^ 14.

Definition fits (f : Z → string) (k : Z) (q : QState) : Prop :=
  buf_wf (q_buf q) ∧ slen (b_data (q_buf q) +:+ f (q_bind_count q)) < MAX_TEXT ∧
  0 ≤ q_bind_count q ∧ q_bind_count q + k < MAX_BINDS.

Definition appended (f : Z → string) (k : Z) (q q' : QState) : Prop :=
  buf_wf (q_buf q') ∧
  b_data (q_buf q') = b_data (q_buf q) +:+ f (q_bind_count q) ∧
  q_bind_count q' = q_bind_count q + k.

Definition appends (m : M QState bool) (f : Z → string) (k : Z) : Prop :=
  0 ≤ k ∧ ∀ q, fits f k q →
  ∃ ok q', m q = Some (ok, q') ∧
    (no_oom (q_alloc q) → ok = true ∧ no_oom (q_alloc q')) ∧
    (ok = true → appended f k q q').

(** The same for a builder that returns a code: [good] when memory lasts. *)
Definition builds (m : M QState SqlRDBResult) (good : SqlRDBResult) (f : Z → string) (k : Z) :
    Prop :=
  0 ≤ k ∧ ∀ q, fits f k q →
  ∃ r q', m q = Some (r, q') ∧ (r = good ∨ r = SQL_RDB_ERR_NO_MEMORY) ∧
    (no_oom (q_alloc q) → r = good ∧ no_oom (q_alloc q')) ∧
    (r = SQL_RDB_OK → appended f k q q').

Lemma grow_loop_spec fuel k need :
  0 ≤ k ≤ 63 → need ≤ 2 ^ 63 → 63 - k ≤ Z.of_nat fuel →
  ∃ j, k ≤ j ≤ 63 ∧ grow_loop fuel (2 ^ k) need = Some (2 ^ j) ∧ need ≤ 2 ^ j.
Proof.
  revert k. induction fuel as [|fuel IH]; intros k Hk Hn Hf; simpl;
    destruct (Z.ltb_spec (2 ^ k) need) as [Hlt|]; try (exists k; split_and!; done || lia).
  - assert (k = 63) as -> by lia. lia.
  - assert (k ≠ 63) by (intros ->; lia).
    assert (2 ^ k * 2 = 2 ^ (k + 1)) as E by (rewrite Z.pow_add_r; lia).
    rewrite size_t_small, E.
    + destruct (IH (k + 1)) as (j & ? & ? & ?); [lia..|]. exists j; split_and!; done || lia.
    + rewrite E. unfold SIZE_MOD. split; [lia|]. apply Z.pow_lt_mono_r; lia.
Qed.

Lemma buf_append_spec s : appends (buf_append s) (λ _, s) 0.
Proof.
  split; [lia|]. intros [[data len cap] n al] ((Hlen & Hcap & k & Hk & Ek) & Hfit & Hn & _).
  simpl in *. subst len cap. rewrite slen_app in Hfit. unfold MAX_TEXT in Hfit.
  pose proof (slen_nonneg data). pose proof (slen_nonneg s).
  assert (∀ j al', 8 ≤ j ≤ 63 → slen data + slen s + 1 ≤ 2 ^ j →
    ∃ q', buf_copy s (MkQ (MkBuf data (slen data) (2 ^ j)) n al') = Some (tt, q') ∧
      q_alloc q' = al' ∧ appended (λ _, s) 0 (MkQ (MkBuf data (slen data) (2 ^ k)) n al) q')
    as Hcopy.
  { intros j al' Hj Hle. unfold buf_copy. simpl. rewrite (proj2 (Z.leb_le _ _)) by lia.
    eexists; split; [done|]. split; [done|].
    assert (substring 0 (Z.to_nat (slen data)) data = data) as E
      by (apply substring_all; unfold slen; lia).
    split_and!; simpl; rewrite ?E; try lia; try done.
    split_and!; simpl; rewrite ?slen_app, ?size_t_small; unfold SIZE_MOD; try lia; eauto. }
  unfold buf_append, mbind, M_bind, buf_grow. cbv zeta. cbn [q_buf b_len b_cap b_data q_bind_count q_alloc].
  rewrite size_t_small by (unfold SIZE_MOD; lia).
  destruct (Z.leb_spec (slen data + slen s + 1) (2 ^ k)) as [Hle|Hgt].
  - destruct (Hcopy k al Hk Hle) as (q' & -> & <- & Happ). by exists true, q'.
  - destruct (grow_loop_spec 64 k (slen data + slen s + 1)) as (j & Hj & -> & Hle); [lia..|].
    unfold malloc_ok. destruct al as [|b al]; [|destruct b].
    + destruct (Hcopy j [] ltac:(lia) Hle) as (q' & -> & <- & Happ). by exists true, q'.
    + destruct (Hcopy j al ltac:(lia) Hle) as (q' & -> & <- & Happ).
      exists true, q'. split_and!; [done| |done]. intros Ha. by inversion Ha.
    + eexists false, _. split_and!; [done| |done]. intros Ha. by inversion Ha.
Qed.

(** ** Composition *)

Lemma appends_ext m f k f' k' :
  appends m f k → (∀ n, 0 ≤ n → f n = f' n) → k = k' → appends m f' k'.
Proof.
  intros [Hk H] Hf <-. split; [done|]. intros q (Hq & Hfit & Hn & Hb).
  unfold appended. rewrite <-Hf in Hfit |- * by done. by apply H.
Qed.

Lemma appends_ret : appends (mret true) (λ _, EmptyString) 0.
Proof.
  split; [done|]. intros q (Hq & _). exists true, q. split_and!; [done..|].
  intros _. split_and!; [done| |lia]. by rewrite sapp_nil_r.
Qed.

Lemma fits_app f1 k1 f2 k2 q :
  0 ≤ k1 → 0 ≤ k2 →
  fits (λ n, f1 n +:+ f2 (n + k1)) (k1 + k2) q →
  fits f1 k1 q ∧ ∀ q', appended f1 k1 q q' → fits f2 k2 q'.
Proof.
  intros ?? (Hq & Hfit & Hn & Hb). rewrite !slen_app in Hfit.
  pose proof (slen_nonneg (f2 (q_bind_count q + k1))). split.
  - split_and!; [done| |lia|lia]. rewrite slen_app. lia.
  - intros q' (Hq' & Hd & Hc). split_and!; [done| |lia|lia].
    rewrite Hd, Hc, !slen_app. lia.
Qed.

Lemma appended_app f1 k1 f2 k2 q q1 q2 :
  appended f1 k1 q q1 → appended f2 k2 q1 q2 →
  appended (λ n, f1 n +:+ f2 (n + k1)) (k1 + k2) q q2.
Proof.
  intros (? & E1 & C1) (? & E2 & C2). split_and!; [done| |lia].
  by rewrite E2, E1, C1, sapp_assoc.
Qed.

Lemma appends_req m1 m2 f1 k1 f2 k2 :
  appends m1 f1 k1 → appends m2 f2 k2 →
  appends (req m1; m2) (λ n, f1 n +:+ f2 (n + k1)) (k1 + k2).
Proof.
  intros [? H1] [? H2]. split; [lia|]. intros q Hq.
  apply fits_app in Hq as [Hq1 Hq2]; [|done..].
  destruct (H1 q Hq1) as (ok & q1 & E1 & N1 & A1). unfold mbind, M_bind. rewrite E1.
  destruct ok; [|eexists false, _; naive_solver].
  destruct (H2 q1 (Hq2 _ (A1 eq_refl))) as (ok & q2 & -> & N2 & A2).
  exists ok, q2. split_and!; [done|naive_solver|]. intros ->.
  eapply appended_app; naive_solver.
Qed.

Lemma builds_oom m1 m2 g f1 k1 f2 k2 :
  appends m1 f1 k1 → builds m2 g f2 k2 →
  builds (oom m1; m2) g (λ n, f1 n +:+ f2 (n + k1)) (k1 + k2).
Proof.
  intros [? H1] [? H2]. split; [lia|]. intros q Hq.
  apply fits_app in Hq as [Hq1 Hq2]; [|done..].
  destruct (H1 q Hq1) as (ok & q1 & E1 & N1 & A1). unfold mbind, M_bind. rewrite E1.
  destruct ok; [|eexists SQL_RDB_ERR_NO_MEMORY, _; naive_solver].
  destruct (H2 q1 (Hq2 _ (A1 eq_refl))) as (r & q2 & -> & G2 & N2 & A2).
  exists r, q2. split_and!; [done|done|naive_solver|]. intros ->.
  eapply appended_app; naive_solver.
Qed.

Lemma builds_ret r : builds (mret r) r (λ _, EmptyString) 0.
Proof.
  split; [done|]. intros q (Hq & _). exists r, q. split_and!; [done|by left|done|].
  intros _. split_and!; [done| |lia]. by rewrite sapp_nil_r.
Qed.

Lemma builds_ext m g f k f' k' :
  builds m g f k → (∀ n, 0 ≤ n → f n = f' n) → k = k' → builds m g f' k'.
Proof.
  intros [Hk H] Hf <-. split; [done|]. intros q (Hq & Hfit & Hn & Hb).
  unfold appended. rewrite <-Hf in Hfit |- * by done. by apply H.
Qed.

Lemma builds_seq m1 m2 g f1 k1 f2 k2 :
  builds m1 SQL_RDB_OK f1 k1 → builds m2 g f2 k2 →
  builds (r ← m1; if negb (res_ok r) then mret r else m2) g
    (λ n, f1 n +:+ f2 (n + k1)) (k1 + k2).
Proof.
  intros [? H1] [? H2]. split; [lia|]. intros q Hq.
  apply fits_app in Hq as [Hq1 Hq2]; [|done..].
  destruct (H1 q Hq1) as (r & q1 & E1 & [->| ->] & N1 & A1); unfold mbind, M_bind; rewrite E1; simpl.
  - destruct (H2 q1 (Hq2 _ (A1 eq_refl))) as (r & q2 & -> & G2 & N2 & A2).
    exists r, q2. split_and!; [done|done|naive_solver|]. intros ->.
    eapply appended_app; naive_solver.
  - eexists SQL_RDB_ERR_NO_MEMORY, _. naive_solver.
Qed.

(** A builder that stops with an error does so whatever text was meant. *)
Lemma builds_error m g f k f' k' :
  g ≠ SQL_RDB_OK → 0 ≤ k' →
  (∀ n, 0 ≤ n → slen (f n) ≤ slen (f' n)) → k ≤ k' →
  builds m g f k → builds m g f' k'.
Proof.
  intros Hg Hk' Hf Hkk [Hk H]. split; [done|]. intros q (Hq & Hfit & Hn & Hb).
  specialize (Hf _ Hn). destruct (H q) as (r & q' & E & Hr & N & A).
  { split_and!; [done| |done|lia]. rewrite slen_app in *. lia. }
  exists r, q'. split_and!; [done..|]. naive_solver.
Qed.

#[export] Hint Resolve buf_append_spec appends_ret : c2sql.

(** ** Loops *)

(** The items of a list, each after a comma. *)
Definition commas (l : list string) : string := sconcat ((λ s, "," +:+ s) <$> l).

Lemma join_cons s l : join "," (s :: l) = s +:+ commas l.
Proof.
  revert s. induction l as [|s' l IH]; intros s.
  - unfold commas. simpl. by rewrite sapp_nil_r.
  - change (join "," (s :: s' :: l)) with (s +:+ "," +:+ join "," (s' :: l)).
    rewrite IH. unfold commas. simpl. by rewrite sapp_assoc.
Qed.

(** The texts of a list of columns, each of which has [k] placeholders. *)
Fixpoint texts (f : SqlRDBColumnDef → Z → string) (k n : Z) (l : list SqlRDBColumnDef) :
    list string :=
  match l with
  | [] => []
  | c :: l => f c n :: texts f k (n + k) l
  end.

Lemma texts_const f g k n l : (∀ c n, f c n = g c) → texts f k n l = g <$> l.
Proof. intros E. revert n. induction l as [|c l IH]; intros n; simpl; by rewrite ?IH, ?E. Qed.

Lemma texts_holes d n l : texts (λ _ n, hole d (n + 1)) 1 n l = holes d n (length l).
Proof. revert n. induction l as [|c l IH]; intros n; simpl; by rewrite ?IH. Qed.

Lemma comma_spec i :
  appends (comma i) (λ _, match i with O => EmptyString | S _ => "," end) 0.
Proof. destruct i; simpl; auto with c2sql. Qed.

Lemma for_cols_spec cols i n inner f k :
  0 ≤ k → (i + n)%nat = length cols → (∀ col, appends (inner col) (f col) k) →
  appends (for_cols cols i n (λ i col, req comma i; inner col))
    (λ m, match i with
          | O => join "," (texts f k m (drop i cols))
          | S _ => commas (texts f k m (drop i cols))
          end) (Z.of_nat n * k).
Proof.
  intros Hk. revert i. induction n as [|n IH]; intros i Hi Hin.
  - rewrite drop_ge by lia. eapply appends_ext; [apply appends_ret| |lia].
    by destruct i.
  - destruct (lookup_lt_is_Some_2 cols i ltac:(lia)) as [c Hc].
    rewrite (drop_S _ _ _ Hc). cbn [for_cols]. rewrite Hc. cbn [mdef].
    eapply appends_ext with (k := k + Z.of_nat n * k);
      [apply (appends_req _ _ _ _ _ _
        (appends_req _ _ _ _ _ _ (comma_spec i) (Hin c)) (IH (S i) ltac:(lia) Hin))| |lia].
    intros m _. cbn [texts]. rewrite Z.add_0_r. destruct i; [by rewrite join_cons|done].
Qed.

Lemma for_schema_spec s inner f k :
  0 ≤ k → sch_col_count s = Z.of_nat (length (sch_cols s)) →
  (∀ col, appends (inner col) (f col) k) →
  appends (for_schema s (λ i col, req comma i; inner col))
    (λ m, join "," (texts f k m (sch_cols s))) (sch_col_count s * k).
Proof.
  intros Hk Hs H. eapply appends_ext; [apply (for_cols_spec _ 0 _ _ f k Hk)|done|].
  - rewrite Hs. lia.
  - done.
  - lia.
Qed.

(** ** Placeholders *)

Lemma length_dec_loop fuel n acc k :
  0 ≤ n < 10 ^ Z.of_nat k → (0 < k)%nat →
  (String.length (dec_loop fuel n acc) ≤ String.length acc + k)%nat.
Proof.
  revert n acc k. induction fuel as [|fuel IH]; intros n acc k Hn Hk; simpl; [lia|].
  destruct (Z.eqb_spec (n / 10) 0); [simpl; lia|].
  destruct k as [|[|k]]; [lia| |].
  - change (10 ^ Z.of_nat 1) with 10 in Hn. rewrite Z.div_small in * by lia. done.
  - rewrite (IH (n / 10) _ (S k)); [simpl; lia| |lia].
    split; [apply Z.div_pos; lia|]. apply Z.div_lt_upper_bound; [lia|].
    rewrite <-Z.pow_succ_r by lia. rewrite <-Nat2Z.inj_succ. lia.
Qed.

Lemma placeholder_hole d n : 0 ≤ n ≤ MAX_BINDS - 1 → placeholder d n = hole d n.
Proof.
  unfold MAX_BINDS. intros Hn. destruct d; [done|]. simpl. unfold vsnprintf. apply substring_all.
  rewrite length_sapp. unfold dec. rewrite (proj2 (Z.ltb_ge _ _)) by lia.
  pose proof (length_dec_loop 20 n EmptyString 14 ltac:(lia) ltac:(lia)) as H.
  change (Z.to_nat (16 - 1)) with 15%nat. cbn [String.length] in *. lia.
Qed.

Lemma append_placeholder_spec d : appends (append_placeholder d) (λ n, hole d (n + 1)) 1.
Proof.
  split; [lia|]. intros [b n al] (Hb & Hfit & Hn & Hm). simpl in *.
  unfold append_placeholder, mbind, M_bind, incr_bind_count. simpl.
  rewrite size_t_small by (unfold SIZE_MOD, MAX_BINDS in *; lia).
  rewrite placeholder_hole by lia.
  destruct (buf_append_spec (hole d (n + 1))) as [_ H].
  destruct (H (MkQ b (n + 1) al)) as (ok & q' & -> & N & A).
  { split_and!; simpl in *; try done; lia. }
  exists ok, q'. split_and!; [done..|]. intros Hok. destruct (A Hok) as (? & ? & ?).
  split_and!; simpl in *; done || lia.
Qed.

#[export] Hint Resolve comma_spec append_placeholder_spec : c2sql.

(** ** Conditions *)

(** The fragments of a builder, composed with [appends_req] and [builds_oom],
    against the text of the reference definition. *)
Ltac frag :=
  repeat first
    [ eassumption
    | solve [eauto with c2sql nocore]
    | apply builds_ret
    | eapply appends_req
    | eapply builds_oom ].

Ltac text_eq :=
  intros; cbn beta; unfold quoted; rewrite ?sapp_assoc, ?Z.add_0_r, ?sapp_nil_r; try done.

Ltac frags := (eapply appends_ext || eapply builds_ext); [frag| |]; [text_eq|try lia].

Lemma append_cond_spec c d : appends (append_cond c d) (λ n, cond_text d n c) (leaves c).
Proof. induction c; cbn [append_cond cond_text leaves]; frags. Qed.

Lemma append_col_constraints_spec col :
  appends (append_col_constraints col) (λ _, constraints_text col) 0.
Proof.
  unfold append_col_constraints, constraints_text.
  destruct (has_flag _ SQL_COL_FLAG_NULLABLE), (has_flag _ SQL_COL_FLAG_PRIMARY_KEY),
    (has_flag _ SQL_COL_FLAG_UNIQUE); simpl; frags.
Qed.

#[export] Hint Resolve append_cond_spec append_col_constraints_spec : c2sql.

Lemma has_column_loop_spec cols i n col :
  (i + n)%nat = length cols →
  has_column_loop cols i n col =
  Some (bool_decide (col ∈ (col_name <$> drop i cols))).
Proof.
  revert i. induction n as [|n IH]; intros i Hi; simpl.
  - by rewrite drop_ge by lia.
  - destruct (lookup_lt_is_Some_2 cols i ltac:(lia)) as [c Hc].
    rewrite Hc, (drop_S _ _ _ Hc). destruct (decide (col_name c = col)) as [<-|Hne].
    + by rewrite bool_decide_true by set_solver.
    + rewrite IH by lia. f_equal. apply bool_decide_ext. set_solver.
Qed.

Lemma schema_has_column_spec s col :
  sch_col_count s = Z.of_nat (length (sch_cols s)) →
  schema_has_column s col = Some (bool_decide (col ∈ col_names s)).
Proof.
  intros Hs. unfold schema_has_column. rewrite has_column_loop_spec; [done|].
  rewrite Hs. lia.
Qed.

(** Whether all the columns of a list belong to the schema. *)
Definition known (s : SqlRDBSchema) (l : list string) : bool :=
  forallb (λ c, bool_decide (c ∈ col_names s)) l.

Lemma validate_cond_columns_spec c s :
  sch_col_count s = Z.of_nat (length (sch_cols s)) →
  validate_cond_columns c s =
  Some (if known s (cond_cols c) then SQL_RDB_OK else SQL_RDB_ERR_UNKNOWN_COLUMN).
Proof.
  intros Hs. unfold known.
  induction c as [col op vt v|l IHl r IHr|l IHl r IHr|]; simpl; try done.
  - rewrite schema_has_column_spec by done. simpl. by rewrite andb_true_r.
  - rewrite IHl, IHr, forallb_app. simpl. by destruct (forallb _ (cond_cols l)).
  - rewrite IHl, IHr, forallb_app. simpl. by destruct (forallb _ (cond_cols l)).
Qed.

Definition where_result (s : SqlRDBSchema) (l : list string) : SqlRDBResult :=
  if known s l then SQL_RDB_OK else SQL_RDB_ERR_UNKNOWN_COLUMN.

Lemma leaves_nonneg c : 0 ≤ leaves c.
Proof. induction c; simpl; lia. Qed.

Lemma build_where_spec c s d :
  sch_col_count s = Z.of_nat (length (sch_cols s)) →
  builds (build_where c s d) (where_result s (where_cols c))
    (λ n, where_text d n c) (where_leaves c).
Proof.
  intros Hs. unfold build_where, where_result.
  destruct c as [c|]; [|apply builds_ret].
  assert (c = COND_ALL ∨ c ≠ COND_ALL) as [->|Hc] by (destruct c; by (left + right));
    [apply builds_ret|].
  assert (cond_needs_where (Some c) = true) as -> by by destruct c.
  assert (∀ n, where_text d n (Some c) = " WHERE " +:+ cond_text d n c) as E by by destruct c.
  rewrite (validate_cond_columns_spec c s Hs). cbn [mdef mbind M_bind where_cols where_leaves].
  unfold mbind at 1, M_bind at 1. cbn [mdef].
  destruct (known s (cond_cols c)); cbn [res_ok negb].
  - eapply builds_ext; [eapply builds_oom, builds_oom; [apply buf_append_spec|apply append_cond_spec|apply builds_ret]| |lia].
    intros n _. by rewrite E, sapp_nil_r, Z.add_0_r.
  - eapply builds_error; [done|apply leaves_nonneg| |apply leaves_nonneg|apply builds_ret].
    intros n _. apply slen_nonneg.
Qed.

(** ** The builders *)

Lemma build_create_spec s d :
  cols_counted s →
  builds (build_create s d) SQL_RDB_OK (λ _, qb_text (MkSpec C2SQL_QB_CREATE None None None None d) s) 0.
Proof.
  intros (Hs & _). unfold build_create.
  assert (∀ col, appends (req buf_append DQ; req buf_append (col_name col);
    req buf_append (DQ +:+ " "); req buf_append (type_to_sql_str (col_type col) d);
    append_col_constraints col) (λ _, column_text d col) 0) as Hcol.
  { intros col. eapply appends_ext;
      [frag|unfold column_text; text_eq|lia]. }
  pose proof (for_schema_spec s _ _ 0 ltac:(lia) Hs Hcol) as Hloop.
  eapply builds_ext; [| |].
  - repeat (eapply builds_oom; [first [apply buf_append_spec|exact Hloop]|]).
    instantiate (2 := λ _, match d with C2SQL_DIALECT_POSTGRES => ")" | _ => ") STRICT" end).
    instantiate (1 := 0). destruct d; (eapply builds_ext; [frag| |]); [text_eq|lia|text_eq|lia].
  - intros n _. cbn [qb_text q_op q_dialect].
    rewrite (texts_const _ (column_text d)) by done. text_eq.
  - lia.
Qed.

Lemma append_col_list_spec s :
  cols_counted s → appends (append_col_list s) (λ _, col_list_text s) 0.
Proof.
  intros (Hs & _). unfold append_col_list.
  assert (∀ col : SqlRDBColumnDef, appends (req buf_append DQ; req buf_append (col_name col);
    buf_append DQ) (λ _, quoted (col_name col)) 0) as Hcol by (intros; frags).
  eapply appends_ext; [apply (for_schema_spec s _ _ 0 ltac:(lia) Hs Hcol)| |lia].
  intros n _. cbn beta. rewrite (texts_const _ (λ c, quoted (col_name c))) by done.
  unfold col_list_text, col_names. by rewrite <-list_fmap_compose.
Qed.

Lemma build_insert_spec s d :
  cols_counted s →
  builds (build_insert s d) SQL_RDB_OK
    (λ n, "INSERT INTO " +:+ quoted (sch_name s) +:+ " (" +:+ col_list_text s +:+
          ") VALUES (" +:+ join "," (holes d n (length (sch_cols s))) +:+ ")")
    (sch_col_count s).
Proof.
  intros Hwf. pose proof (append_col_list_spec s Hwf) as Hlist. destruct Hwf as (Hs & _).
  pose proof (for_schema_spec s (λ _, append_placeholder d) _ 1 ltac:(lia) Hs
    (λ _, append_placeholder_spec d)) as Hloop.
  unfold build_insert. eapply builds_ext; [frag| |lia].
  text_eq. by rewrite texts_holes.
Qed.

(** The columns from index [i] on, without the one at index [pk]. *)
Fixpoint others (pk i : nat) (l : list SqlRDBColumnDef) : list SqlRDBColumnDef :=
  match l with
  | [] => []
  | c :: l => if decide (i = pk) then others pk (S i) l else c :: others pk (S i) l
  end.

Lemma others_delete pk i l :
  others pk i l = if decide (i ≤ pk)%nat then delete (pk - i)%nat l else l.
Proof.
  revert i. induction l as [|c l IH]; intros i; simpl; [by destruct (decide _)|].
  rewrite IH. destruct (decide (i = pk)) as [->|Hne].
  - rewrite decide_False, decide_True by lia. by rewrite Nat.sub_diag.
  - destruct (decide (i ≤ pk)%nat).
    + rewrite decide_True by lia. by replace (pk - i)%nat with (S (pk - S i)) by lia.
    + by rewrite decide_False by lia.
Qed.

Lemma upsert_loop_spec cols (pk i n : nat) first :
  (i + n)%nat = length cols → (length cols ≤ 64)%nat →
  appends (upsert_loop cols (Z.of_nat pk) i n first)
    (λ _, let l := set_text <$> others pk i (drop i cols) in
          if first : bool then join "," l else commas l) 0.
Proof.
  intros Hi Hl. revert i first Hi. induction n as [|n IH]; intros i first Hi; cbn [upsert_loop].
  - rewrite drop_ge by lia. eapply appends_ext; [apply appends_ret|by destruct first|done].
  - destruct (lookup_lt_is_Some_2 cols i ltac:(lia)) as [c Hc].
    rewrite to_signed_small by lia. rewrite (drop_S _ _ _ Hc). cbn [others].
    destruct (Z.eqb_spec (Z.of_nat i) (Z.of_nat pk)).
    { rewrite decide_True by lia. apply (IH (S i)). lia. }
    rewrite decide_False by lia. rewrite Hc. cbn [mdef].
    assert (appends (if first then mret true else buf_append ",")
      (λ _, if first : bool then EmptyString else ",") 0) as Hf
      by (destruct first; auto with c2sql).
    pose proof (IH (S i) false ltac:(lia)) as Hrest.
    eapply appends_ext; [eapply appends_req; [exact Hf|]; frag| |lia].
    intros m _. cbn beta zeta. rewrite !fmap_cons, join_cons.
    change (commas (set_text c :: ?l)) with (("," +:+ set_text c) +:+ commas l).
    destruct first; unfold set_text at 2; text_eq.
Qed.

Lemma build_upsert_spec s d :
  schema_wf C2SQL_QB_UPSERT s →
  builds (build_upsert s d) SQL_RDB_OK
    (λ n, "INSERT INTO " +:+ quoted (sch_name s) +:+ " (" +:+ col_list_text s +:+
          ") VALUES (" +:+ join "," (holes d n (length (sch_cols s))) +:+ ")" +:+
          " ON CONFLICT(" +:+ quoted (pk_name s) +:+ ") DO UPDATE SET " +:+
          join "," (set_text <$> other_cols s))
    (sch_col_count s).
Proof.
  intros [Hwf Hpk]. pose proof (build_insert_spec s d Hwf) as Hins.
  destruct Hwf as (Hs & Hl). specialize (Hpk eq_refl). unfold build_upsert.
  destruct (lookup_lt_is_Some_2 (sch_cols s) (Z.to_nat (sch_pk_index s)) ltac:(lia)) as [c Hc].
  rewrite (proj2 (Z.ltb_ge _ _)) by lia. rewrite Hc. unfold pk_name. rewrite Hc.
  pose proof (upsert_loop_spec (sch_cols s) (Z.to_nat (sch_pk_index s)) 0
    (Z.to_nat (sch_col_count s)) true ltac:(lia) Hl) as Hloop.
  rewrite Z2Nat.id, drop_0, others_delete, decide_True, Nat.sub_0_r in Hloop by lia.
  change (delete (Z.to_nat (sch_pk_index s)) (sch_cols s)) with (other_cols s) in Hloop.
  eapply builds_ext; [eapply builds_seq; [exact Hins|]; cbn [mdef]; frag| |lia].
  text_eq.
Qed.

Lemma known_cons s c l : known s (c :: l) = bool_decide (c ∈ col_names s) && known s l.
Proof. done. Qed.

(** The four statements with a WHERE clause after a fixed text. *)
Lemma build_field_spec s col m g f k :
  cols_counted s → builds m (where_result s g) f k →
  builds (has ← mdef (schema_has_column s col);
          if negb has then mret SQL_RDB_ERR_UNKNOWN_COLUMN else m)
    (where_result s (col :: g)) f k.
Proof.
  intros (Hs & _) Hm. rewrite schema_has_column_spec by done. unfold where_result in *.
  rewrite known_cons. cbn [mbind M_bind mdef].
  destruct (bool_decide (col ∈ col_names s)); [done|].
  destruct Hm as [Hk _]. eapply builds_error; [done|done| |exact Hk|apply builds_ret].
  intros. apply slen_nonneg.
Qed.

Ltac built :=
  eexists; split; cycle 1; [eapply builds_ext; [frag|intros; reflexivity|lia]|text_eq].

Lemma build_op_spec spec s :
  schema_wf (q_op spec) s →
  (q_op spec = C2SQL_QB_ALTER_ADD → q_new_col spec ≠ None) →
  (q_op spec = C2SQL_QB_UPDATE_FIELD ∨ q_op spec = C2SQL_QB_SELECT_FIELD →
    q_target_col spec ≠ None) →
  ∃ f, f 0 = qb_text spec s ∧ builds (build_op spec s) (qb_result spec s) f (qb_binds spec s).
Proof.
  intros Hwfop Hnew Htgt. pose proof Hwfop as [Hwf Hpk]. pose proof Hwf as (Hs & _).
  assert (∀ n, where_text (q_dialect spec) (n + 0) (q_cond spec) =
    where_text (q_dialect spec) n (q_cond spec)) as E0 by (intros; by rewrite Z.add_0_r).
  pose proof (build_where_spec (q_cond spec) s (q_dialect spec) Hs) as Hw.
  pose proof (append_col_list_spec s Hwf) as Hlist.
  destruct spec as [op sch cond nc tc d].
  unfold build_op, qb_result, qb_text, qb_binds, qb_cols, the_target.
  cbn [q_op q_new_col q_target_col q_cond q_dialect] in *. destruct op; cbn [forallb].
  - eexists (λ _, _); split; [|apply (build_create_spec s d Hwf)]. done.
  - eexists; split; [|apply (build_insert_spec s d Hwf)]. done.
  - eexists; split; [|apply (build_upsert_spec s d Hwfop)]. unfold insert_text. text_eq.
  - unfold build_select. built.
  - unfold build_count. built.
  - unfold build_delete. built.
  - destruct nc as [col|]; [|naive_solver]. cbn [mdef]. unfold build_alter_add, column_text. built.
  - destruct tc as [col|]; [|naive_solver]. cbn [mdef default]. unfold build_update_field.
    eexists; split; cycle 1;
      [apply build_field_spec; [done|];
       eapply builds_ext; [frag|intros; reflexivity|lia]|text_eq].
  - destruct tc as [col|]; [|naive_solver]. cbn [mdef default]. unfold build_select_field.
    eexists; split; cycle 1;
      [apply build_field_spec; [done|];
       eapply builds_ext; [frag|intros; reflexivity|lia]|text_eq].
  - eexists; split; [|apply builds_ret]. done.
Qed.

(** ** The entry point *)

Lemma buf_init_wf al :
  match buf_init al with
  | Some (Some b, al') => buf_wf b ∧ b_data b = EmptyString ∧ (no_oom al → no_oom al')
  | Some (None, _) => ¬ no_oom al
  | None => False
  end.
Proof.
  assert (buf_wf (MkBuf EmptyString 0 256)) by (split_and!; [done..|exists 8; done]).
  destruct al as [|b al]; [done|]. destruct b; simpl.
  - split_and!; [done..|]. by inversion 1.
  - by inversion 1.
Qed.

(** The arguments the entry point accepts. *)
Definition spec_ok (spec : SqlRDBQuerySpec) : Prop :=
  (q_op spec = C2SQL_QB_ALTER_ADD → q_new_col spec ≠ None) ∧
  (q_op spec = C2SQL_QB_UPDATE_FIELD ∨ q_op spec = C2SQL_QB_SELECT_FIELD →
    q_target_col spec ≠ None).

Lemma qb_build_run spec s al :
  q_schema spec = Some s → spec_ok spec →
  c2sql_internal_qb_build (Some spec) al =
  match buf_init al with
  | Some (Some b, al') => qb_run spec s b al'
  | Some (None, al') => Some ((SQL_RDB_ERR_NO_MEMORY, None, Some 0), al')
  | None => None
  end.
Proof.
  intros Hs [Ha Ht]. unfold c2sql_internal_qb_build. rewrite Hs.
  assert (bool_decide (q_op spec = C2SQL_QB_ALTER_ADD) && bool_decide (q_new_col spec = None)
          = false) as ->.
  { apply andb_false_iff. rewrite !bool_decide_eq_false.
    destruct (decide (q_op spec = C2SQL_QB_ALTER_ADD)); auto. }
  assert ((bool_decide (q_op spec = C2SQL_QB_UPDATE_FIELD)
     || bool_decide (q_op spec = C2SQL_QB_SELECT_FIELD))
     && bool_decide (q_target_col spec = None) = false) as ->.
  { apply andb_false_iff. rewrite orb_false_iff, !bool_decide_eq_false.
    destruct (decide (q_op spec = C2SQL_QB_UPDATE_FIELD)); [auto|].
    destruct (decide (q_op spec = C2SQL_QB_SELECT_FIELD)); auto. }
  unfold mbind, M_bind. destruct (buf_init al) as [[[b|] al']|]; done.
Qed.

(** What the call promises of its result [(r, sql, n)]. *)
Definition qb_promise (spec : SqlRDBQuerySpec) (s : SqlRDBSchema) (al : list bool)
    (r : SqlRDBResult) (sql : option string) (n : option Z) : Prop :=
  (r = qb_result spec s ∨ r = SQL_RDB_ERR_NO_MEMORY) ∧
  (no_oom al → r = qb_result spec s) ∧
  (if res_ok r then sql = Some (qb_text spec s) ∧ n = Some (qb_binds spec s)
   else sql = None ∧ n = Some 0).

Lemma qb_build_promise spec s al :
  q_schema spec = Some s → spec_ok spec → schema_wf (q_op spec) s →
  slen (qb_text spec s) < MAX_TEXT → qb_binds spec s < MAX_BINDS →
  ∃ r sql n al', c2sql_internal_qb_build (Some spec) al = Some ((r, sql, n), al') ∧
    qb_promise spec s al r sql n ∧ (no_oom al → no_oom al').
Proof.
  intros Hs Hok Hwf Ht Hb. rewrite (qb_build_run _ s) by done.
  pose proof (buf_init_wf al) as Hi. unfold qb_promise.
  destruct (buf_init al) as [[[b|] al']|]; [| |done].
  - destruct Hi as (Hbw & Hbe & Hal). destruct Hok as [Ha Hg].
    destruct (build_op_spec spec s Hwf Ha Hg) as (f & Hf & _ & H).
    destruct (H (MkQ b 0 al')) as (r & q' & E & Hr & N & A).
    { split_and!; simpl; [done| |lia|lia]. by rewrite Hbe, Hf. }
    unfold qb_run. rewrite E. simpl in *. destruct (res_ok r) eqn:Er; simpl.
    + apply res_ok_true in Er as ->. destruct (A eq_refl) as (_ & Ed & Ec). simpl in *.
      eexists _, _, _, _; split; [done|]. simpl. split_and!; [done|naive_solver| | |naive_solver].
      * by rewrite Ed, Hbe, Hf.
      * f_equal. lia.
    + eexists _, _, _, _; split; [done|]. rewrite Er. split_and!; naive_solver.
  - eexists _, _, _, _; split; [done|]. simpl. split_and!; try done. by right.
Qed.

(** ** Example inputs *)

Definition ex_cols : list SqlRDBColumnDef :=
  [MkColumnDef "id" SQL_TYPE_INT64 0 8 SQL_COL_FLAG_PRIMARY_KEY;
   MkColumnDef "name" SQL_TYPE_TEXT 8 32 SQL_COL_FLAG_NULLABLE].
Definition ex_schema : SqlRDBSchema := MkSchema "persons" ex_cols 2 0.
Definition ex_cond : SqlRDBCondition :=
  COND_AND (COND_LEAF "id" SQL_OP_GE SQL_TYPE_INT64 (VInt 3))
           (COND_LEAF "name" SQL_OP_NE SQL_TYPE_TEXT (VText "x' OR 1=1")).
Definition ex_spec (op : C2SqlQBOp) (d : C2SqlDialect) : SqlRDBQuerySpec :=
  MkSpec op (Some ex_schema) (Some ex_cond) None None d.

Lemma ex_schema_wf op : schema_wf op ex_schema.
Proof. unfold schema_wf, cols_counted. simpl. lia. Qed.

Example ex_select_text :
  qb_text (ex_spec C2SQL_QB_SELECT C2SQL_DIALECT_POSTGRES) ex_schema =
  "SELECT " +:+ DQ +:+ "id" +:+ DQ +:+ "," +:+ DQ +:+ "name" +:+ DQ +:+ " FROM " +:+ DQ +:+
  "persons" +:+ DQ +:+ " WHERE (" +:+ DQ +:+ "id" +:+ DQ +:+ " >= $1 AND " +:+ DQ +:+ "name" +:+
  DQ +:+ " != $2)".
Proof. vm_compute. done. Qed.

(** ** Placeholders and values *)

Fixpoint count_char (c : ascii) (s : string) : Z :=
  match s with
  | EmptyString => 0
  | String c' s => (if decide (c' = c) then 1 else 0) + count_char c s
  end.

Abbreviation qmarks := (count_char "?").

Lemma count_char_app c s1 s2 : count_char c (s1 +:+ s2) = count_char c s1 + count_char c s2.
Proof.
  induction s1 as [|c' s1 IH]; [done|]. rewrite sapp_cons. simpl. rewrite IH. lia.
Qed.

Lemma qmarks_join l : qmarks (join "," l) = foldr (λ s n, qmarks s + n) 0 l.
Proof.
  assert (∀ l, qmarks (commas l) = foldr (λ s n, qmarks s + n) 0 l) as Hc.
  { clear l. induction l as [|s l IH]; [done|]. unfold commas in *.
    rewrite fmap_cons. cbn [sconcat foldr]. rewrite !count_char_app, IH. done. }
  destruct l as [|s l]; [done|]. by rewrite join_cons, count_char_app, Hc.
Qed.

Lemma qmarks_none l : Forall (λ s, qmarks s = 0) l → foldr (λ s n, qmarks s + n) 0 l = 0.
Proof. induction 1 as [|s l Hs _ IH]; simpl; lia. Qed.

Lemma qmarks_quoted s : qmarks (quoted s) = qmarks s.
Proof. unfold quoted. rewrite !count_char_app. simpl. lia. Qed.

Lemma qmarks_holes n k :
  foldr (λ s n, qmarks s + n) 0 (holes C2SQL_DIALECT_SQLITE n k) = Z.of_nat k.
Proof. revert n. induction k as [|k IH]; intros n; cbn [holes foldr]; [done|]. rewrite IH. simpl. lia. Qed.

Lemma qmarks_cond n c :
  Forall (λ s, qmarks s = 0) (cond_cols c) →
  qmarks (cond_text C2SQL_DIALECT_SQLITE n c) = leaves c.
Proof.
  revert n. induction c as [col op vt v|l IHl r IHr|l IHl r IHr|]; intros n H; cbn [cond_text leaves];
    rewrite ?count_char_app, ?qmarks_quoted; try done.
  - apply Forall_cons in H as [-> _]. by destruct op.
  - apply Forall_app in H as [??]. rewrite IHl, IHr by done. simpl. lia.
  - apply Forall_app in H as [??]. rewrite IHl, IHr by done. simpl. lia.
Qed.

Lemma qmarks_where n c :
  Forall (λ s, qmarks s = 0) (where_cols c) →
  qmarks (where_text C2SQL_DIALECT_SQLITE n c) = where_leaves c.
Proof.
  destruct c as [c|]; [|done]. intros H.
  assert (where_text C2SQL_DIALECT_SQLITE n (Some c) = EmptyString ∧ c = COND_ALL ∨
    where_text C2SQL_DIALECT_SQLITE n (Some c) = " WHERE " +:+ cond_text C2SQL_DIALECT_SQLITE n c)
    as [[-> ->]| ->] by (destruct c; auto); [done|].
  rewrite count_char_app, qmarks_cond by done. done.
Qed.

Lemma qmarks_column col :
  qmarks (col_name col) = 0 → qmarks (column_text C2SQL_DIALECT_SQLITE col) = 0.
Proof.
  intros H. unfold column_text, constraints_text. rewrite !count_char_app, qmarks_quoted, H.
  destruct (col_type col), (has_flag _ SQL_COL_FLAG_NULLABLE), (has_flag _ SQL_COL_FLAG_PRIMARY_KEY),
    (has_flag _ SQL_COL_FLAG_UNIQUE); done.
Qed.

(** No identifier of the statement contains a question mark, which holds of
    every identifier the registry accepts. *)
Definition plain_names (spec : SqlRDBQuerySpec) (s : SqlRDBSchema) : Prop :=
  qmarks (sch_name s) = 0 ∧ Forall (λ n, qmarks n = 0) (col_names s) ∧
  ∀ c, q_new_col spec = Some c → qmarks (col_name c) = 0.

Lemma known_plain s l :
  Forall (λ n, qmarks n = 0) (col_names s) → known s l = true → Forall (λ n, qmarks n = 0) l.
Proof.
  intros Hn. induction l as [|c l IH]; [done|]. rewrite known_cons, andb_true_iff.
  intros [Hc%bool_decide_eq_true Hl]. rewrite Forall_forall in Hn. auto.
Qed.

Lemma qmarks_insert s :
  cols_counted s → qmarks (sch_name s) = 0 → Forall (λ n, qmarks n = 0) (col_names s) →
  qmarks (insert_text C2SQL_DIALECT_SQLITE s) = sch_col_count s.
Proof.
  intros (Hs & _) Hn Hc. unfold insert_text, col_list_text.
  rewrite !count_char_app, !qmarks_join, qmarks_quoted, qmarks_holes, qmarks_none, Hn, Hs;
    [simpl; lia|].
  apply Forall_fmap. eapply Forall_impl; [exact Hc|]. intros n E. by transitivity (qmarks n); [apply qmarks_quoted|].
Qed.

Lemma plain_col_names (f : SqlRDBColumnDef → string) (l : list SqlRDBColumnDef) :
  (∀ c, qmarks (col_name c) = 0 → qmarks (f c) = 0) →
  Forall (λ n, qmarks n = 0) (col_name <$> l) → qmarks (join "," (f <$> l)) = 0.
Proof.
  intros Hf H. rewrite qmarks_join. apply qmarks_none, Forall_fmap.
  apply Forall_fmap in H. eapply Forall_impl; [exact H|]. exact Hf.
Qed.

#[local] Opaque insert_text join column_text quoted.

Lemma qmarks_qb_text spec s :
  schema_wf (q_op spec) s → plain_names spec s → q_dialect spec = C2SQL_DIALECT_SQLITE →
  qb_result spec s = SQL_RDB_OK → qmarks (qb_text spec s) = qb_binds spec s.
Proof.
  intros [Hwf Hpk] (Hn & Hc & Hnew) Hd Hr.
  assert (known s (qb_cols spec) = true) as Hk.
  { unfold qb_result, known in *. by destruct (q_op spec), (forallb _ _). }
  apply (known_plain _ _ Hc) in Hk.
  assert (qmarks (col_list_text s) = 0) as Hl.
  { unfold col_list_text, col_names. rewrite <-list_fmap_compose. apply plain_col_names; [|done].
    intros c E. by transitivity (qmarks (col_name c)); [apply qmarks_quoted|]. }
  destruct spec as [op sch cond nc tc d]. simpl in *. subst d.
  unfold qb_text, qb_binds, qb_cols, qb_result in *.
  destruct op; cbn [q_op q_dialect q_cond the_target q_new_col q_target_col] in *;
    rewrite ?count_char_app, ?qmarks_quoted, ?Hn, ?qmarks_where, ?Hl by
      (done || by apply Forall_cons in Hk as [??]); simpl; try lia.
  - rewrite plain_col_names; [done|apply qmarks_column|done].
  - by apply qmarks_insert.
  - rewrite qmarks_insert by done. rewrite (plain_col_names set_text).
    + unfold pk_name. destruct (sch_cols s !! _) as [c|] eqn:E; simpl; [|lia].
      rewrite Forall_forall in Hc. rewrite Hc; [lia|]. unfold col_names.
      apply list_elem_of_fmap. eexists; split; [done|]. by eapply list_elem_of_lookup_2.
    + intros c E. unfold set_text. by rewrite !count_char_app, qmarks_quoted, E.
    + unfold other_cols, col_names in *. rewrite list_fmap_delete. by apply Forall_delete.
  - destruct nc as [c|]; [|done]. by apply qmarks_column, Hnew.
  - apply Forall_cons in Hk as [-> _]. lia.
  - apply Forall_cons in Hk as [-> _]. lia.
Qed.

#[local] Transparent insert_text join column_text quoted.

(** A condition without its values. *)
Fixpoint cond_shape (c : SqlRDBCondition) : SqlRDBCondition :=
  match c with
  | COND_LEAF col op _ _ => COND_LEAF col op SQL_TYPE_INT32 (VInt 0)
  | COND_AND l r => COND_AND (cond_shape l) (cond_shape r)
  | COND_OR l r => COND_OR (cond_shape l) (cond_shape r)
  | COND_ALL => COND_ALL
  end.

Definition spec_shape (spec : SqlRDBQuerySpec) : SqlRDBQuerySpec :=
  MkSpec (q_op spec) (q_schema spec) (cond_shape <$> q_cond spec) (q_new_col spec)
    (q_target_col spec) (q_dialect spec).

Lemma append_cond_shape c d : append_cond (cond_shape c) d = append_cond c d.
Proof. induction c as [| ? IHl ? IHr| ? IHl ? IHr|]; simpl; by rewrite ?IHl, ?IHr. Qed.

Lemma validate_shape c s : validate_cond_columns (cond_shape c) s = validate_cond_columns c s.
Proof. induction c as [| ? IHl ? IHr| ? IHl ? IHr|]; simpl; by rewrite ?IHl, ?IHr. Qed.

Lemma build_where_shape c s d : build_where (cond_shape <$> c) s d = build_where c s d.
Proof.
  destruct c as [c|]; [|done]. unfold build_where. simpl.
  rewrite validate_shape, append_cond_shape. by destruct c.
Qed.

Lemma qb_build_shape spec al :
  c2sql_internal_qb_build (Some (spec_shape spec)) al = c2sql_internal_qb_build (Some spec) al.
Proof.
  assert (∀ s, build_op (spec_shape spec) s = build_op spec s) as E.
  { intros s. unfold build_op, build_select, build_count, build_delete, build_update_field,
      build_select_field. cbn [spec_shape q_op q_cond q_dialect q_new_col q_target_col].
    by rewrite !build_where_shape. }
  assert (∀ s, qb_run (spec_shape spec) s = qb_run spec s) as E'
    by (intros s; unfold qb_run; by rewrite E).
  unfold c2sql_internal_qb_build. cbn [q_schema q_op q_new_col q_target_col].
  change (q_schema (spec_shape spec)) with (q_schema spec).
  destruct (q_schema spec) as [s|]; [|done]. by rewrite E'.
Qed.

(** ** Properties *)

(** C13: refinement.  On a registered schema, whatever allocations fail, the
    builder stays inside its buffer, terminates and returns either exactly the
    reference text of the statement with the number of its placeholders, or
    the error the reference definition gives (UNKNOWN_COLUMN for a column the
    schema does not have, INVALID_ARG for an operation that is none), or
    NO_MEMORY; NO_MEMORY only when an allocation failed; and no text on an error.
    The text is below 2^62 bytes and has fewer than 10^14 placeholders. *)
Theorem qb_build_correct spec s al :
  q_schema spec = Some s → spec_ok spec → schema_wf (q_op spec) s →
  slen (qb_text spec s) < MAX_TEXT → qb_binds spec s < MAX_BINDS →
  ∃ r sql n al', c2sql_internal_qb_build (Some spec) al = Some ((r, sql, n), al') ∧
    qb_promise spec s al r sql n.
Proof. intros. edestruct qb_build_promise as (? & ? & ? & ? & ? & ? & ?); naive_solver. Qed.

Lemma qb_build_correct_witness :
  ∃ r sql n al', c2sql_internal_qb_build (Some (ex_spec C2SQL_QB_UPSERT C2SQL_DIALECT_SQLITE)) [true; false]
      = Some ((r, sql, n), al') ∧
    qb_promise (ex_spec C2SQL_QB_UPSERT C2SQL_DIALECT_SQLITE) ex_schema [true; false] r sql n.
Proof.
  apply (qb_build_correct (ex_spec C2SQL_QB_UPSERT C2SQL_DIALECT_SQLITE) ex_schema [true; false]).
  - reflexivity.
  - split; intros H; [discriminate|destruct H; discriminate].
  - apply ex_schema_wf.
  - vm_compute. reflexivity.
  - vm_compute. reflexivity.
Defined.

(** No value reaches the SQL text.  Two calls whose conditions differ only
    in the values (and value types) of their leaves do the same steps and
    return the same text, count and code: a value cannot inject SQL. *)
Theorem qb_build_value_independent spec1 spec2 al :
  spec_shape spec1 = spec_shape spec2 →
  c2sql_internal_qb_build (Some spec1) al = c2sql_internal_qb_build (Some spec2) al.
Proof. intros E. by rewrite <-(qb_build_shape spec1), <-(qb_build_shape spec2), E. Qed.

Lemma qb_build_value_independent_witness :
  c2sql_internal_qb_build (Some (ex_spec C2SQL_QB_DELETE C2SQL_DIALECT_SQLITE)) [] =
  c2sql_internal_qb_build (Some (MkSpec C2SQL_QB_DELETE (Some ex_schema)
    (Some (COND_AND (COND_LEAF "id" SQL_OP_GE SQL_TYPE_INT64 (VInt 77))
                    (COND_LEAF "name" SQL_OP_NE SQL_TYPE_TEXT (VText "bob"))))
    None None C2SQL_DIALECT_SQLITE)) [].
Proof. apply qb_build_value_independent. reflexivity. Defined.

(** On SQLite the statement has as many question marks as the bind count
    the builder reports, so that every placeholder is one of the values bound:
    the identifiers the registry accepts bring no further one in. *)
Theorem qb_build_placeholders spec s al sql n al' :
  q_schema spec = Some s → spec_ok spec → schema_wf (q_op spec) s → plain_names spec s →
  slen (qb_text spec s) < MAX_TEXT → qb_binds spec s < MAX_BINDS →
  q_dialect spec = C2SQL_DIALECT_SQLITE →
  c2sql_internal_qb_build (Some spec) al = Some ((SQL_RDB_OK, Some sql, Some n), al') →
  count_char "?" sql = n.
Proof.
  intros Hs Hok Hwf Hp Ht Hb Hd E.
  destruct (qb_build_promise spec s al Hs Hok Hwf Ht Hb) as (r & sql' & n' & al2 & E' & Hr & _).
  rewrite E in E'. destruct Hr as (Hr & _ & Hsql). injection E' as <- <- <- <-.
  destruct Hr as [Hr|Hr]; [|done]. destruct Hsql as [[= ->] [= ->]]. by apply qmarks_qb_text.
Qed.

Lemma qb_build_placeholders_witness : count_char "?"
  (qb_text (ex_spec C2SQL_QB_SELECT C2SQL_DIALECT_SQLITE) ex_schema) = 2.
Proof.
  apply (qb_build_placeholders (ex_spec C2SQL_QB_SELECT C2SQL_DIALECT_SQLITE) ex_schema [] _ _ []).
  - reflexivity.
  - split; intros H; [discriminate|destruct H; discriminate].
  - apply ex_schema_wf.
  - split; [reflexivity|]. split; [repeat constructor|]. intros c H. discriminate.
  - vm_compute. reflexivity.
  - vm_compute. reflexivity.
  - reflexivity.
  - vm_compute. reflexivity.
Defined.

(** Guards.  A NULL spec, a NULL schema, an ALTER without its column or a
    field statement without its column is INVALID_ARG; nothing is allocated,
    no text is returned and the caller's bind count is not touched. *)
Theorem qb_build_invalid_args spec al :
  match spec with
  | None => True
  | Some spec => q_schema spec = None ∨ ¬ spec_ok spec
  end →
  c2sql_internal_qb_build spec al = Some ((SQL_RDB_ERR_INVALID_ARG, None, None), al).
Proof.
  destruct spec as [spec|]; [|done]. unfold c2sql_internal_qb_build, spec_ok.
  destruct (q_schema spec) as [s|]; [|done]. intros [?|Hno]; [done|].
  destruct spec as [op sch cond [nc|] [tc|] d]; destruct op; simpl in *; try done; exfalso; apply Hno;
    naive_solver.
Qed.

Lemma qb_build_invalid_args_witness :
  c2sql_internal_qb_build (Some (MkSpec C2SQL_QB_ALTER_ADD (Some ex_schema) None None None
    C2SQL_DIALECT_SQLITE)) [false] = Some ((SQL_RDB_ERR_INVALID_ARG, None, None), [false]).
Proof.
  apply qb_build_invalid_args. right. intros [H _]. apply (H eq_refl). reflexivity.
Defined.
