(* ===== verification/Registry.v ===== *)
(** * The schema registry (src/schema_registry.c)

    Validation of identifiers and column definitions, the growable array of
    schemas, and the operations on it.  The blocks the registry owns are
    counted, so that a leak or a double free on an error path shows. *)

From Stdlib Require Import Ascii String.
From S2P Require Import Prelude Types Support.
Import ErrorCtx.

(** ** Identifiers *)

Definition RESERVED_WORDS : list string :=
  ["ABORT"; "ACTION"; "ADD"; "AFTER"; "ALL"; "ALTER"; "ALWAYS";
   "ANALYZE"; "AND"; "AS"; "ASC"; "ATTACH"; "AUTOINCREMENT";
   "BEFORE"; "BEGIN"; "BETWEEN"; "BY";
   "CASCADE"; "CASE"; "CAST"; "CHECK"; "COLLATE"; "COLUMN";
   "COMMIT"; "CONFLICT"; "CONSTRAINT"; "CREATE"; "CROSS";
   "CURRENT"; "CURRENT_DATE"; "CURRENT_TIME"; "CURRENT_TIMESTAMP";
   "DATABASE"; "DEFAULT"; "DEFERRABLE"; "DEFERRED"; "DELETE";
   "DETACH"; "DISTINCT"; "DO"; "DROP";
   "EACH"; "ELSE"; "END"; "ESCAPE"; "EXCEPT"; "EXCLUDE";
   "EXCLUSIVE"; "EXISTS"; "EXPLAIN";
   "FAIL"; "FILTER"; "FIRST"; "FOLLOWING"; "FOR"; "FOREIGN";
   "FROM"; "FULL";
   "GENERATED"; "GLOB"; "GROUP"; "GROUPS";
   "HAVING";
   "IF"; "IGNORE"; "IMMEDIATE"; "IN"; "INDEX"; "INDEXED";
   "INITIALLY"; "INNER"; "INSERT"; "INSTEAD"; "INTERSECT"; "INTO";
   "IS"; "ISNULL";
   "JOIN"; "KEY";
   "LAST"; "LEFT"; "LIKE"; "LIMIT";
   "MATCH"; "MATERIALIZED";
   "NATURAL"; "NO"; "NOT"; "NOTHING"; "NOTNULL"; "NULL"; "NULLS";
   "OF"; "OFFSET"; "ON"; "OR"; "ORDER"; "OTHERS"; "OUTER"; "OVER";
   "PARTITION"; "PLAN"; "PRAGMA"; "PRECEDING"; "PRIMARY";
   "QUERY";
   "RAISE"; "RANGE"; "RECURSIVE"; "REFERENCES"; "REGEXP";
   "REINDEX"; "RELEASE"; "RENAME"; "REPLACE"; "RESTRICT";
   "RETURNING"; "RIGHT"; "ROLLBACK"; "ROW"; "ROWS";
   "SAVEPOINT"; "SELECT"; "SET";
   "TABLE"; "TEMP"; "TEMPORARY"; "THEN"; "TIES"; "TO";
   "TRANSACTION"; "TRIGGER";
   "UNBOUNDED"; "UNION"; "UNIQUE"; "UPDATE"; "USING";
   "VACUUM"; "VALUES"; "VIEW"; "VIRTUAL";
   "WHEN"; "WHERE"; "WINDOW"; "WITH"; "WITHOUT"].

Definition MAX_IDENT_LEN : Z := 128.

Definition is_underscore (c : ascii) : bool := bool_decide (c = "_"%char).

(** The loop over the characters from index [len]: the length of the string,
    or [None] where the code returns false. *)
Fixpoint ident_scan (s : string) (len : Z) : option Z :=
  match s with
  | EmptyString => Some len
  | String c s' =>
      if MAX_IDENT_LEN <=? len then None
      else if negb (isalnum c) && negb (is_underscore c) then None
      else ident_scan s' (len + 1)
  end.

Definition identifier_valid (name : option string) : bool :=
  match name with
  | None | Some EmptyString => false
  | Some (String first s as name) =>
      if negb (isalpha first) && negb (is_underscore first) then false
      else
        match ident_scan s 1 with
        | None => false
        | Some len =>
            let upper := string_map toupper name in
            negb (existsb (λ w, bool_decide (upper = w)) RESERVED_WORDS)
        end
  end.

(** ** State *)

(** [reg_entries] are the [count] initialised slots of the array of
    [reg_capacity] slots; [reg_block] names the array, a new one after each
    realloc (0: NULL). *)
Record SqlRDBSchemaRegistry : Type := MkReg {
  reg_entries : list SqlRDBSchema;
  reg_capacity : Z;
  reg_block : N;
}.

(** The parts of a handle the registry works on; [r_live] is the number of
    blocks the registry has allocated and not freed. *)
Record RState : Type := MkR {
  r_reg : SqlRDBSchemaRegistry;
  r_err : SqlRDBErrorCtx;
  r_alloc : list bool;
  r_live : Z;
}.

Definition reg_count (reg : SqlRDBSchemaRegistry) : Z := Z.of_nat (length (reg_entries reg)).

(** A pointer into the array: the array it points into and the index. *)
Definition schema_ptr : Type := N * nat.

(** Dereferencing it: only while the array is the current one. *)
Definition schema_at (reg : SqlRDBSchemaRegistry) (p : schema_ptr) : option SqlRDBSchema :=
  if decide (p.1 = reg_block reg) then reg_entries reg !! p.2 else None.

Definition r_malloc : M RState bool := λ s,
  let '(ok, al) := malloc_ok (r_alloc s) in
  Some (ok, MkR (r_reg s) (r_err s) al (if ok : bool then r_live s + 1 else r_live s)).

Definition r_free : M RState unit := λ s,
  Some (tt, MkR (r_reg s) (r_err s) (r_alloc s) (r_live s - 1)).

Definition set_reg (reg : SqlRDBSchemaRegistry) : M RState unit :=
  mmodify (λ s, MkR reg (r_err s) (r_alloc s) (r_live s)).

(** [c2sql_internal_err_set(&h->error, code, ...); return code;] *)
Definition fail (code : SqlRDBResult) (msg : string) : M RState SqlRDBResult := λ s,
  Some (code, MkR (r_reg s) (c2sql_internal_err_set code (Some msg) (r_err s))
                  (r_alloc s) (r_live s)).

(** ** Helpers *)

(** The strdup of one column after the other; the names copied so far are
    freed, and then the array, when one fails. *)
Fixpoint copy_loop (src : list RawColumnDef) (i n : nat) (dst : list SqlRDBColumnDef) :
    M RState (option (list SqlRDBColumnDef)) :=
  match n with
  | O => mret (Some dst)
  | S n =>
      c ← mdef (src !! i);
      name ← mdef (col_name c);
      ok ← r_malloc;
      if ok : bool then
        copy_loop src (S i) n
          (dst ++ [MkColumnDef name (col_type c) (col_offset c) (col_size c) (col_flags c)])
      else
        Nat.iter i (λ m, r_free;; m) (mret tt);;
        r_free;; mret None
  end.

Definition deep_copy_cols (src : list RawColumnDef) (n : Z) :
    M RState (SqlRDBResult * list SqlRDBColumnDef) :=
  ok ← r_malloc;
  if negb ok then mret (SQL_RDB_ERR_NO_MEMORY, [])
  else
    out ← copy_loop src 0 (Z.to_nat n) [];
    match out : option (list SqlRDBColumnDef) with
    | None => mret (SQL_RDB_ERR_NO_MEMORY, [])
    | Some dst => mret (SQL_RDB_OK, dst)
    end.

(** realloc(reg->entries, ...): a block more when there was none. *)
Definition r_realloc (reg : SqlRDBSchemaRegistry) : M RState bool := λ s,
  let '(ok, al) := malloc_ok (r_alloc s) in
  Some (ok, MkR (r_reg s) (r_err s) al
    (if (ok : bool) && bool_decide (reg_block reg = 0%N) then r_live s + 1 else r_live s)).

Definition registry_grow : M RState SqlRDBResult :=
  reg ← mgets r_reg;
  let new_cap := if reg_capacity reg =? 0 then 8 else size_t (reg_capacity reg * 2) in
  ok ← r_realloc reg;
  if negb ok then
    fail SQL_RDB_ERR_NO_MEMORY
      ("schema registry: out of memory growing to " +:+ dec new_cap +:+ " entries")
  else
    set_reg (MkReg (reg_entries reg) new_cap (reg_block reg + 1)%N);;
    mret SQL_RDB_OK.

(** The names of the columns, the array, the name. *)
Definition schema_free (s : SqlRDBSchema) : M RState unit :=
  Nat.iter (Z.to_nat (sch_col_count s)) (λ m, r_free;; m) (mret tt);;
  r_free;;
  r_free.

(** ** Operations *)

Definition c2sql_internal_schema_registry_init : M RState SqlRDBResult :=
  set_reg (MkReg [] 0 0%N);; mret SQL_RDB_OK.

Fixpoint free_entries (l : list SqlRDBSchema) : M RState unit :=
  match l with
  | [] => mret tt
  | s :: l => schema_free s;; free_entries l
  end.

Definition c2sql_internal_schema_registry_destroy : M RState unit :=
  reg ← mgets r_reg;
  free_entries (reg_entries reg);;
  (if bool_decide (reg_block reg = 0%N) then mret tt else r_free);;
  set_reg (MkReg [] 0 0%N).

(** The index of the entry with a name. *)
Fixpoint find_entry (l : list SqlRDBSchema) (i : nat) (name : string) : option nat :=
  match l with
  | [] => None
  | s :: l => if decide (sch_name s = name) then Some i else find_entry l (S i) name
  end.

(** The inner loop of the column validation: [cols[j].name] is [name]. *)
Fixpoint dup_column (cols : list RawColumnDef) (j n : nat) (name : string) : option bool :=
  match n with
  | O => Some false
  | S n =>
      c ← cols !! j;
      nm ← col_name c;
      if decide (nm = name) then Some true else dup_column cols (S j) n name
  end.

Fixpoint validate_cols (cols : list RawColumnDef) (i n : nat) : M RState SqlRDBResult :=
  match n with
  | O => mret SQL_RDB_OK
  | S n =>
      col ← mdef (cols !! i);
      match col_name col with
      | None =>
          fail SQL_RDB_ERR_INVALID_ARG
            ("schema_register: cols[" +:+ dec (Z.of_nat i) +:+ "].name is NULL")
      | Some name =>
          if negb (identifier_valid (Some name)) then
            fail SQL_RDB_ERR_INVALID_NAME
              ("schema_register: invalid column name '" +:+ name +:+ "'")
          else
            dup ← mdef (dup_column cols 0 i name);
            if dup : bool then
              fail SQL_RDB_ERR_DUPLICATE_COLUMN
                ("schema_register: duplicate column name '" +:+ name +:+ "'")
            else if bool_decide (col_type col = SQL_TYPE_INT32) && negb (col_size col =? 4) then
              fail SQL_RDB_ERR_INVALID_ARG
                ("schema_register: INT32 column '" +:+ name +:+ "' must have size 4, got " +:+
                 dec (col_size col))
            else if bool_decide (col_type col = SQL_TYPE_INT64) && negb (col_size col =? 8) then
              fail SQL_RDB_ERR_INVALID_ARG
                ("schema_register: INT64 column '" +:+ name +:+ "' must have size 8, got " +:+
                 dec (col_size col))
            else validate_cols cols (S i) n
      end
  end.

(** The first column with the primary-key flag, or -1. *)
Fixpoint find_pk (cols : list RawColumnDef) (i n : nat) : option Z :=
  match n with
  | O => Some (-1)
  | S n =>
      c ← cols !! i;
      if has_flag (col_flags c) SQL_COL_FLAG_PRIMARY_KEY
      then Some (to_signed 32 (Z.of_nat i)) else find_pk cols (S i) n
  end.

(** The slot [reg->entries[reg->count]] is written and counted. *)
Definition push_entry (e : SqlRDBSchema) : M RState unit :=
  reg ← mgets r_reg;
  if reg_count reg <? reg_capacity reg then
    set_reg (MkReg (reg_entries reg ++ [e]) (reg_capacity reg) (reg_block reg))
  else ub.

(** The new entry is built in its slot, after the checks. *)
Definition add_entry (name : string) (cols : list RawColumnDef) (col_count : Z) :
    M RState SqlRDBResult :=
  reg ← mgets r_reg;
  r ← (if reg_count reg =? reg_capacity reg then registry_grow else mret SQL_RDB_OK);
  if negb (res_ok r) then mret r
  else
    ok ← r_malloc;
    if negb ok then
      fail SQL_RDB_ERR_NO_MEMORY "schema_register: out of memory duplicating name"
    else
      out ← deep_copy_cols cols col_count;
      let '(r, dst) := out in
      if negb (res_ok r) then
        r_free;; fail r "schema_register: out of memory copying columns"
      else
        pk ← mdef (find_pk cols 0 (Z.to_nat col_count));
        push_entry (MkSchema name dst col_count pk);;
        mret SQL_RDB_OK.

(** [valid] is [c2sql_handle_valid(h)]; the array [cols] has at least
    [col_count] elements, or the call reads outside of it. *)
Definition c2sql_internal_schema_register (valid : bool) (name : option string)
    (cols : option (list RawColumnDef)) (col_count : Z) : M RState SqlRDBResult :=
  if negb valid then mret SQL_RDB_ERR_INVALID_HANDLE
  else
    match name, cols with
    | Some name, Some cols =>
        if col_count =? 0 then
          fail SQL_RDB_ERR_INVALID_ARG "schema_register: col_count must be > 0"
        else if C2SQL_MAX_COLUMNS <? col_count then
          fail SQL_RDB_ERR_TOO_MANY_COLUMNS
            ("schema_register: col_count " +:+ dec col_count +:+ " exceeds maximum " +:+
             dec C2SQL_MAX_COLUMNS)
        else if negb (identifier_valid (Some name)) then
          fail SQL_RDB_ERR_INVALID_NAME
            ("schema_register: invalid struct name '" +:+ name +:+ "'")
        else
          reg ← mgets r_reg;
          match find_entry (reg_entries reg) 0 name with
          | Some _ =>
              fail SQL_RDB_ERR_DUPLICATE_SCHEMA
                ("schema_register: struct '" +:+ name +:+ "' already registered")
          | None =>
              r ← validate_cols cols 0 (Z.to_nat col_count);
              if negb (res_ok r) then mret r else add_entry name cols col_count
          end
    | _, _ => fail SQL_RDB_ERR_INVALID_ARG "schema_register: name and cols must be non-NULL"
    end.

Definition c2sql_internal_schema_lookup (valid : bool) (reg : SqlRDBSchemaRegistry)
    (name : option string) : option schema_ptr :=
  match name with
  | Some name =>
      if valid then (λ i, (reg_block reg, i)) <$> find_entry (reg_entries reg) 0 name else None
  | None => None
  end.

(** The entries after the removed one move down by one slot. *)
Definition c2sql_internal_schema_unregister (valid : bool) (name : option string) :
    M RState SqlRDBResult :=
  match name with
  | Some name =>
      if valid then
        reg ← mgets r_reg;
        match find_entry (reg_entries reg) 0 name with
        | None => mret SQL_RDB_ERR_UNKNOWN_STRUCT
        | Some i =>
            e ← mdef (reg_entries reg !! i);
            schema_free e;;
            set_reg (MkReg (take i (reg_entries reg) ++ drop (S i) (reg_entries reg))
                           (reg_capacity reg) (reg_block reg));;
            mret SQL_RDB_OK
        end
      else mret SQL_RDB_ERR_INVALID_ARG
  | None => mret SQL_RDB_ERR_INVALID_ARG
  end.
