(* ===== verification/RegistryProofs.v ===== *)
(** * Correctness of the schema registry

    The invariant of a registry, the functional behaviour of the operations on
    every branch, and the round trips between them. *)

From Stdlib Require Import Ascii String.
From S2P Require Import Prelude Types Support QueryBuilder QueryBuilderProofs Registry.
Import ErrorCtx.

#[local] Opaque RESERVED_WORDS.

(** ** Identifiers *)

Definition ident_char (c : ascii) : bool := isalnum c || is_underscore c.

(** What an identifier is: 1 to 128 letters, digits and underscores, not
    beginning with a digit, and no reserved word in any case. *)
Definition valid_ident (s : string) : Prop :=
  1 ≤ slen s ≤ MAX_IDENT_LEN ∧ string_forall ident_char s = true ∧
  (∃ c s', s = String c s' ∧ isdigit c = false) ∧
  (string_map toupper s ∉ RESERVED_WORDS).

Lemma ident_scan_spec s len :
  0 ≤ len ≤ MAX_IDENT_LEN →
  ident_scan s len =
  if string_forall ident_char s && (slen s + len <=? MAX_IDENT_LEN) then Some (slen s + len) else None.
Proof.
  revert len. induction s as [|c s IH]; intros len Hlen; simpl.
  - unfold slen. simpl. by rewrite (proj2 (Z.leb_le _ _)) by lia.
  - assert (slen (String c s) = slen s + 1) as -> by (unfold slen; simpl; lia).
    pose proof (slen_nonneg s). rewrite <-negb_orb. fold (ident_char c).
    destruct (Z.leb_spec MAX_IDENT_LEN len).
    + rewrite (proj2 (Z.leb_gt _ _)) by lia. by rewrite andb_false_r.
    + destruct (ident_char c); simpl; [|done]. rewrite IH by lia.
      by replace (slen s + (len + 1)) with (slen s + 1 + len) by lia.
Qed.

Lemma not_reserved s :
  negb (existsb (λ w, bool_decide (s = w)) RESERVED_WORDS) = true ↔ s ∉ RESERVED_WORDS.
Proof.
  rewrite negb_true_iff. generalize RESERVED_WORDS as l. intros l.
  induction l as [|w l IH]; simpl; [set_solver|].
  rewrite orb_false_iff, bool_decide_eq_false, IH. set_solver.
Qed.

Lemma digit_not_start c :
  (isalpha c || is_underscore c) = ident_char c && negb (isdigit c).
Proof. by destruct c as [[] [] [] [] [] [] [] []]. Qed.

Lemma identifier_valid_spec s : identifier_valid (Some s) = true ↔ valid_ident s.
Proof.
  unfold valid_ident. destruct s as [|c s]; simpl.
  { split; [done|]. intros ([H _] & _). by unfold slen in H. }
  assert (slen (String c s) = slen s + 1) as -> by (unfold slen; simpl; lia).
  rewrite ident_scan_spec by (unfold MAX_IDENT_LEN; lia).
  rewrite <-negb_orb, digit_not_start. pose proof (slen_nonneg s).
  transitivity ((ident_char c = true ∧ isdigit c = false) ∧ string_forall ident_char s = true ∧
    slen s + 1 ≤ MAX_IDENT_LEN ∧
    (String (toupper c) (string_map toupper s) ∉ RESERVED_WORDS)).
  - rewrite <-not_reserved, <-(Z.leb_le (slen s + 1)).
    generalize (negb (existsb (λ w, bool_decide (String (toupper c) (string_map toupper s) = w))
      RESERVED_WORDS)) as b. intros b.
    destruct (ident_char c), (isdigit c), (string_forall ident_char s),
      (slen s + 1 <=? MAX_IDENT_LEN), b; naive_solver.
  - rewrite andb_true_iff. split.
    + intros ((? & ?) & ? & ? & ?). split_and!; [lia|lia|done|done| |done]. eauto.
    + intros ([? ?] & (? & ?) & (c' & s' & [= <- <-] & ?) & ?). split_and!; try done; lia.
Qed.

(** ** Definitions and schemas *)

(** The registry's copy of a definition. *)
Definition def_of (c : RawColumnDef) : option SqlRDBColumnDef :=
  name ← col_name c;
  Some (MkColumnDef name (col_type c) (col_offset c) (col_size c) (col_flags c)).

Definition col_wf (c : SqlRDBColumnDef) : Prop :=
  valid_ident (col_name c) ∧
  (col_type c = SQL_TYPE_INT32 → col_size c = 4) ∧
  (col_type c = SQL_TYPE_INT64 → col_size c = 8).

Definition cols_wf (ds : list SqlRDBColumnDef) : Prop :=
  NoDup (col_name <$> ds) ∧ Forall col_wf ds.

Definition is_pk {T} (c : ColumnDef T) : bool := has_flag (col_flags c) SQL_COL_FLAG_PRIMARY_KEY.

(** [pk_index] is the first column with the flag, -1 when there is none. *)
Definition pk_ok {T} (cols : list (ColumnDef T)) (pk : Z) : Prop :=
  (pk = -1 ∧ ∀ i c, cols !! i = Some c → is_pk c = false) ∨
  ∃ i c, pk = Z.of_nat i ∧ cols !! i = Some c ∧ is_pk c = true ∧
    ∀ j c', (j < i)%nat → cols !! j = Some c' → is_pk c' = false.

Definition schema_ok (s : SqlRDBSchema) : Prop :=
  valid_ident (sch_name s) ∧
  sch_col_count s = Z.of_nat (length (sch_cols s)) ∧
  1 ≤ sch_col_count s ≤ C2SQL_MAX_COLUMNS ∧
  cols_wf (sch_cols s) ∧ pk_ok (sch_cols s) (sch_pk_index s).

Definition schema_blocks (s : SqlRDBSchema) : Z := sch_col_count s + 2.

(** The blocks the registry should own. *)
Definition owned (reg : SqlRDBSchemaRegistry) : Z :=
  foldr (λ s n, schema_blocks s + n) 0 (reg_entries reg) +
  (if decide (reg_block reg = 0%N) then 0 else 1).

Definition reg_names (reg : SqlRDBSchemaRegistry) : list string := sch_name <$> reg_entries reg.

(** The invariant of the registry. *)
Definition reg_wf (s : RState) : Prop :=
  NoDup (reg_names (r_reg s)) ∧ Forall schema_ok (reg_entries (r_reg s)) ∧
  reg_count (r_reg s) ≤ reg_capacity (r_reg s) ∧
  (reg_block (r_reg s) = 0%N ↔ reg_capacity (r_reg s) = 0) ∧
  r_live s = owned (r_reg s).

(** The array of definitions describes the columns [ds]. *)
Definition describes (cols : list RawColumnDef) (n : nat) (ds : list SqlRDBColumnDef) : Prop :=
  Forall2 (λ c d, def_of c = Some d) (take n cols) ds.

(** A schema that may be added. *)
Definition registrable (reg : SqlRDBSchemaRegistry) (name : string) (cols : list RawColumnDef)
    (col_count : Z) : Prop :=
  1 ≤ col_count ≤ C2SQL_MAX_COLUMNS ∧ valid_ident name ∧ (name ∉ reg_names reg) ∧
  ∃ ds, describes cols (Z.to_nat col_count) ds ∧ cols_wf ds.

(** ** The validation of the columns *)

Lemma cols_wf_snoc ds d :
  cols_wf (ds ++ [d]) ↔ cols_wf ds ∧ (col_name d ∉ (col_name <$> ds)) ∧ col_wf d.
Proof.
  unfold cols_wf. rewrite fmap_app, NoDup_app, Forall_app, Forall_singleton. simpl.
  split.
  - intros ((? & H & _) & ? & ?). split_and!; try done. intros Hin. apply (H _ Hin). set_solver.
  - intros ((? & ?) & ? & ?). split_and!; try done; [|apply NoDup_singleton].
    intros x Hx Hx'. set_solver.
Qed.

Lemma describes_snoc cols i c ds d :
  cols !! i = Some c → describes cols i ds → def_of c = Some d → describes cols (S i) (ds ++ [d]).
Proof.
  intros Hc Hds Hd. unfold describes. rewrite (take_S_r _ _ _ Hc).
  by apply Forall2_app; [|constructor].
Qed.

Lemma describes_length cols n ds :
  (n ≤ length cols)%nat → describes cols n ds → length ds = n.
Proof. intros Hn H%Forall2_length. rewrite length_take in H. lia. Qed.

(** Two descriptions agree. *)
Lemma describes_prefix cols i n ds ds' :
  describes cols i ds → describes cols (i + n) ds' → take (length ds) ds' = ds.
Proof.
  intros H H'. apply Forall2_take with (n := i) in H'.
  rewrite take_take, Nat.min_l in H' by lia.
  assert (∀ l l1 l2, Forall2 (λ c d, def_of c = Some d) l l1 →
    Forall2 (λ c d, def_of c = Some d) l l2 → l1 = l2) as Hfun.
  { intros l l1 l2 H1. revert l2. induction H1; inversion 1; simplify_eq; f_equal; eauto. }
  assert (take i ds' = ds) as E by eauto. rewrite <-E at 1. rewrite length_take, <-E.
  destruct (Nat.le_ge_cases i (length ds')).
  - by rewrite Nat.min_l.
  - rewrite Nat.min_r by done. by rewrite !take_ge by lia.
Qed.

Lemma cols_wf_take n ds : cols_wf ds → cols_wf (take n ds).
Proof.
  intros [H1 H2]. split; [|by apply Forall_take]. rewrite <-(take_drop n ds), fmap_app in H1.
  by apply NoDup_app in H1 as (? & _).
Qed.

Lemma describes_impossible cols i c n :
  cols !! i = Some c → col_name c = None → (0 < n)%nat →
  ¬ ∃ ds, describes cols (i + n) ds.
Proof.
  intros Hc Hnone Hn [ds H]. unfold describes in H.
  eapply Forall2_lookup_l with (i := i) (x := c) in H as (d & _ & Hd).
  - unfold def_of in Hd. by rewrite Hnone in Hd.
  - rewrite lookup_take_lt by lia. done.
Qed.

Lemma dup_column_spec cols i ds name :
  (i ≤ length cols)%nat → describes cols i ds →
  dup_column cols 0 i name = Some (bool_decide (name ∈ (col_name <$> ds))).
Proof.
  intros Hi H.
  assert (∀ j n ds', (j + n = i)%nat → Forall2 (λ c d, def_of c = Some d) (drop j (take i cols)) ds' →
    dup_column cols j n name = Some (bool_decide (name ∈ (col_name <$> ds')))) as G.
  { intros j n. revert j. induction n as [|n IH]; intros j ds' Hj Hds; simpl.
    - rewrite drop_ge in Hds by (rewrite length_take; lia). by apply Forall2_nil_inv_l in Hds as ->.
    - destruct (lookup_lt_is_Some_2 cols j ltac:(lia)) as [c Hc].
      rewrite (drop_S _ c) in Hds by (rewrite lookup_take_lt by lia; done).
      apply Forall2_cons_inv_l in Hds as (d & ds'' & Hd & Hds & ->). rewrite Hc. simpl.
      unfold def_of in Hd. destruct (col_name c) as [nm|]; [|done]. simpl in *. simplify_eq. simpl.
      destruct (decide (nm = name)) as [->|Hne].
      + by rewrite bool_decide_true by set_solver.
      + rewrite (IH (S j) ds'') by (done || lia). f_equal. apply bool_decide_ext. set_solver. }
  apply (G 0%nat i ds); [lia|]. by rewrite drop_0.
Qed.

(** A step that failed with code [r]: the error context records it, and
    nothing else changed. *)
Definition failed (r : SqlRDBResult) (s s' : RState) : Prop :=
  r ≠ SQL_RDB_OK ∧ err_code (r_err s') = r ∧ r_reg s' = r_reg s ∧
  r_alloc s' = r_alloc s ∧ r_live s' = r_live s.

Lemma fail_spec r msg s :
  r ≠ SQL_RDB_OK → ∃ s', fail r msg s = Some (r, s') ∧ failed r s s'.
Proof. intros Hr. by eexists. Qed.

Lemma validate_cols_spec cols n i ds s :
  (i + n ≤ length cols)%nat → describes cols i ds → cols_wf ds →
  (∃ ds', validate_cols cols i n s = Some (SQL_RDB_OK, s) ∧
     describes cols (i + n) ds' ∧ cols_wf ds') ∨
  (∃ r s', validate_cols cols i n s = Some (r, s') ∧ failed r s s' ∧ r ≠ SQL_RDB_ERR_NO_MEMORY ∧
     ¬ ∃ ds', describes cols (i + n) ds' ∧ cols_wf ds').
Proof.
  revert i ds. induction n as [|n IH]; intros i ds Hi Hds Hwf; cbn [validate_cols].
  { left. exists ds. by rewrite Nat.add_0_r. }
  destruct (lookup_lt_is_Some_2 cols i ltac:(lia)) as [c Hc].
  unfold mbind, M_bind. rewrite Hc. cbn [mdef].
  destruct (col_name c) as [name|] eqn:Hname.
  2:{ right. eexists _, _. split_and!; [done|done|done|].
      intros (ds' & H & _). by eapply describes_impossible; [| |by eapply Nat.lt_0_succ|eauto]. }
  assert (def_of c = Some (MkColumnDef name (col_type c) (col_offset c) (col_size c) (col_flags c)))
    as Hd by (unfold def_of; by rewrite Hname).
  set (d := MkColumnDef _ _ _ _ _) in Hd.
  pose proof (describes_snoc _ _ _ _ _ Hc Hds Hd) as Hds'.
  assert (∀ ds', describes cols (i + S n) ds' → cols_wf ds' → cols_wf (ds ++ [d])) as Hpre.
  { intros ds' H1 H2. rewrite Nat.add_succ_r in H1. rewrite <-(describes_prefix _ (S i) n _ _ Hds' H1).
    by apply cols_wf_take. }
  assert (¬ cols_wf (ds ++ [d]) → ¬ ∃ ds', describes cols (i + S n) ds' ∧ cols_wf ds') as Hno
    by naive_solver.
  rewrite cols_wf_snoc in Hno. unfold col_wf in Hno. cbn in Hno.
  destruct (identifier_valid (Some name)) eqn:Hv; cbn [negb].
  2:{ right. eexists _, _. split_and!; [done|done|done|]. apply Hno.
      rewrite <-identifier_valid_spec, Hv. naive_solver. }
  rewrite (dup_column_spec _ _ ds) by (done || lia). cbn [mdef].
  case_bool_decide as Hdup.
  { right. eexists _, _. split_and!; [done|done|done|]. naive_solver. }
  destruct (bool_decide (col_type c = SQL_TYPE_INT32) && negb (col_size c =? 4)) eqn:H4.
  { right. apply andb_true_iff in H4 as [?%bool_decide_eq_true ?%negb_true_iff%Z.eqb_neq].
    eexists _, _. split_and!; [done|done|done|]. naive_solver. }
  destruct (bool_decide (col_type c = SQL_TYPE_INT64) && negb (col_size c =? 8)) eqn:H8.
  { right. apply andb_true_iff in H8 as [?%bool_decide_eq_true ?%negb_true_iff%Z.eqb_neq].
    eexists _, _. split_and!; [done|done|done|]. naive_solver. }
  rewrite Nat.add_succ_r. apply (IH (S i) (ds ++ [d])); [lia|done|].
  apply cols_wf_snoc. split_and!; [done|done|]. split; [by apply identifier_valid_spec|].
  apply andb_false_iff in H4, H8.
  rewrite bool_decide_eq_false, negb_false_iff, Z.eqb_eq in H4, H8. naive_solver.
Qed.

(** ** Copies *)

(** The state after [k] more blocks were allocated, with the outcomes left. *)
Definition grown (k : Z) (al : list bool) (s : RState) : RState :=
  MkR (r_reg s) (r_err s) al (r_live s + k).

Lemma grown_grown k al k' al' s : grown k al (grown k' al' s) = grown (k' + k) al s.
Proof. unfold grown. simpl. by rewrite Z.add_assoc. Qed.

Lemma grown_0 s : grown 0 (r_alloc s) s = s.
Proof. destruct s. unfold grown. simpl. by rewrite Z.add_0_r. Qed.

Lemma r_free_run s : r_free s = Some (tt, grown (-1) (r_alloc s) s).
Proof. done. Qed.

Lemma r_malloc_spec s :
  ∃ ok al, r_malloc s = Some (ok, grown (if ok : bool then 1 else 0) al s) ∧
    (no_oom (r_alloc s) → ok = true ∧ no_oom al).
Proof.
  unfold r_malloc, grown. destruct (r_alloc s) as [|[] al] eqn:E; simpl.
  - exists true, []. done.
  - exists true, al. split; [done|]. by inversion 1.
  - exists false, al. split; [by rewrite Z.add_0_r|]. by inversion 1.
Qed.

Lemma free_iter k (m : M RState unit) s :
  Nat.iter k (λ m, r_free;; m) m s =
  m (grown (- Z.of_nat k) (r_alloc s) s).
Proof.
  revert s. induction k as [|k IH]; intros s; simpl; [by rewrite grown_0|].
  unfold mbind, M_bind. rewrite r_free_run, IH, grown_grown. f_equal. f_equal. lia.
Qed.

(** Two states that differ by the same number of blocks. *)
Ltac grown_eq := unfold mret, M_ret; rewrite ?grown_grown; do 3 f_equal; lia.

Lemma copy_loop_spec src n i dst s ds :
  describes src (i + n) ds → (i + n ≤ length src)%nat → dst = take i ds →
  ∃ out al, copy_loop src i n dst s =
      Some (out, grown (match out with
                        | Some _ => Z.of_nat n
                        | None => - (Z.of_nat i + 1)
                        end) al s) ∧
    (no_oom (r_alloc s) → out ≠ None ∧ no_oom al) ∧
    (out = None ∨ out = Some ds).
Proof.
  revert i dst s. induction n as [|n IH]; intros i dst s Hds Hi ->; cbn [copy_loop].
  - exists (Some (take i ds)), (r_alloc s). split_and!; [|done|right].
    + by rewrite grown_0.
    + f_equal. apply take_ge. rewrite (describes_length _ _ _ Hi Hds). lia.
  - destruct (lookup_lt_is_Some_2 src i ltac:(lia)) as [c Hc].
    assert (∃ d, ds !! i = Some d ∧ def_of c = Some d) as (d & Hdi & Hd).
    { eapply Forall2_lookup_l in Hds; [exact Hds|]. rewrite lookup_take_lt by lia. done. }
    unfold def_of in Hd. destruct (col_name c) as [nm|] eqn:Hnm; [|done]. simpl in Hd.
    unfold mbind, M_bind. rewrite Hc. cbn [mdef]. rewrite Hnm. cbn [mdef].
    destruct (r_malloc_spec s) as (ok & al & -> & Hok). destruct ok.
    + simplify_eq Hd. intros Hd'.
      destruct (IH (S i) (take i ds ++ [d]) (grown 1 al s)) as (out & al' & E & Hal & Hout).
      * by replace (S i + n)%nat with (i + S n)%nat by lia.
      * lia.
      * by rewrite (take_S_r _ _ _ Hdi).
      * rewrite Hd', E. exists out, al'. split_and!; [|naive_solver|done].
        rewrite grown_grown. do 3 f_equal. destruct out; lia.
    + rewrite free_iter. exists None, al. split_and!; [|naive_solver|by left].
      unfold mret, M_ret. rewrite r_free_run. cbn [r_alloc grown]. grown_eq.
Qed.

Lemma deep_copy_cols_spec src n s ds :
  describes src (Z.to_nat n) ds → (Z.to_nat n ≤ length src)%nat →
  ∃ r dst al, deep_copy_cols src n s =
      Some ((r, dst), grown (if res_ok r then Z.of_nat (Z.to_nat n) + 1 else 0) al s) ∧
    (no_oom (r_alloc s) → r = SQL_RDB_OK ∧ no_oom al) ∧
    (r = SQL_RDB_OK ∧ dst = ds ∨ r = SQL_RDB_ERR_NO_MEMORY).
Proof.
  intros Hds Hn. unfold deep_copy_cols, mbind, M_bind.
  destruct (r_malloc_spec s) as (ok & al & -> & Hok). destruct ok; cbn [negb].
  - destruct (copy_loop_spec src (Z.to_nat n) 0 [] (grown 1 al s) ds) as (out & al' & -> & Hal & Hout);
      [done..|]. destruct out as [dst|].
    + destruct Hout as [|[= ->]]; [done|]. eexists _, _, al'. split_and!; [|naive_solver|by left].
      cbn [res_ok negb]. grown_eq.
    + eexists _, _, al'. split_and!; [|naive_solver|by right].
      cbn [res_ok negb]. grown_eq.
  - exists SQL_RDB_ERR_NO_MEMORY, [], al. split_and!; [done|naive_solver|by right].
Qed.

Lemma find_pk_spec cols n i :
  (i + n ≤ length cols)%nat → Z.of_nat (i + n) < 2 ^ 31 →
  (∀ j c, (j < i)%nat → cols !! j = Some c → is_pk c = false) →
  ∃ pk, find_pk cols i n = Some pk ∧ pk_ok (take (i + n) cols) pk.
Proof.
  revert i. induction n as [|n IH]; intros i Hi Hb Hpre; simpl.
  - exists (-1). split; [done|]. left. split; [done|]. intros j c Hj.
    rewrite Nat.add_0_r in Hj. apply lookup_take_Some in Hj as [??]. eauto.
  - destruct (lookup_lt_is_Some_2 cols i ltac:(lia)) as [c Hc]. rewrite Hc. simpl.
    destruct (has_flag (col_flags c) SQL_COL_FLAG_PRIMARY_KEY) eqn:Hpk.
    + rewrite to_signed_small by lia. eexists; split; [done|]. right. exists i, c.
      split_and!; [done| |done|].
      * by rewrite lookup_take_lt by lia.
      * intros j c' Hj Hc'. apply lookup_take_Some in Hc' as [??]. eauto.
    + rewrite Nat.add_succ_r. apply (IH (S i)); [lia|lia|]. intros j c' Hj Hc'.
      destruct (decide (j = i)) as [->|]; [by simplify_eq|]. eapply Hpre; [|done]. lia.
Qed.

Lemma describes_pk cols ds pk :
  Forall2 (λ c d, def_of c = Some d) cols ds → pk_ok cols pk → pk_ok ds pk.
Proof.
  intros Hds.
  assert (∀ i d, ds !! i = Some d → ∃ c, cols !! i = Some c ∧ is_pk c = is_pk d) as Hb.
  { intros i d Hd. eapply Forall2_lookup_r in Hds as (c & Hc & Hcd); [|done].
    exists c. split; [done|]. unfold def_of in Hcd. destruct (col_name c); by simplify_eq/=. }
  intros [[-> H]|(i & c & -> & Hc & Hpk & H)].
  - left. split; [done|]. intros i d Hd. destruct (Hb _ _ Hd) as (c & Hc & <-). eauto.
  - right. pose proof Hds as Hds'. eapply Forall2_lookup_l in Hds' as (d & Hd & Hcd); [|done].
    exists i, d. destruct (Hb _ _ Hd) as (c' & Hc' & Hpk'). split_and!; [done|done|congruence|].
    intros j d' Hj Hd'. destruct (Hb _ _ Hd') as (c'' & Hc'' & <-). eauto.
Qed.

(** ** Registration *)

(** The array is below 2^62 slots. *)
Definition room (s : RState) : Prop := reg_capacity (r_reg s) < 2 ^ 62.

(** [s'] is [s] after a step that kept the entries. *)
Definition same_entries (s s' : RState) : Prop :=
  reg_wf s' ∧ reg_entries (r_reg s') = reg_entries (r_reg s).

Lemma make_room_spec s :
  reg_wf s → room s →
  ∃ r s', (if reg_count (r_reg s) =? reg_capacity (r_reg s) then registry_grow
           else mret SQL_RDB_OK) s = Some (r, s') ∧ same_entries s s' ∧
    (no_oom (r_alloc s) → r = SQL_RDB_OK ∧ no_oom (r_alloc s')) ∧
    (r = SQL_RDB_OK ∧ reg_count (r_reg s') < reg_capacity (r_reg s') ∨
     r = SQL_RDB_ERR_NO_MEMORY ∧ err_code (r_err s') = r).
Proof.
  unfold room. intros (Hnd & Hok & Hcap & Hblk & Hlive) Hroom.
  destruct (Z.eqb_spec (reg_count (r_reg s)) (reg_capacity (r_reg s))) as [Heq|Hne].
  2:{ exists SQL_RDB_OK, s. split_and!; try done. left. split; [done|]. lia. }
  unfold registry_grow, mbind, M_bind, r_realloc, mgets.
  assert (∀ b, same_entries s (MkR (r_reg s) b [] (r_live s))) as Hsame by (by intros).
  assert (0 ≤ reg_count (r_reg s)) as Hpos by (unfold reg_count; lia).
  assert (no_oom (r_alloc s) → no_oom (malloc_ok (r_alloc s)).2 ∧ (malloc_ok (r_alloc s)).1 = true)
    as Hal by (destruct (r_alloc s) as [|b al]; [done|]; by inversion 1).
  destruct (malloc_ok (r_alloc s)) as [ok al]. destruct ok; cbn [negb andb].
  - eexists _, _. split; [done|]. split_and!; [|naive_solver|].
    + split; [|done]. split_and!; simpl; try done.
      * destruct (Z.eqb_spec (reg_capacity (r_reg s)) 0); unfold reg_count in *; simpl; [lia|].
        rewrite size_t_small by (unfold SIZE_MOD; lia). lia.
      * destruct (Z.eqb_spec (reg_capacity (r_reg s)) 0); [lia|].
        rewrite size_t_small by (unfold SIZE_MOD; lia). lia.
      * rewrite Hlive. unfold owned. simpl. rewrite (decide_False (P := (_ + 1)%N = 0%N)) by lia.
        case_bool_decide; [rewrite decide_True by done|rewrite decide_False by done]; lia.
    + left. split; [done|]. unfold reg_count. simpl. unfold reg_count in *.
      destruct (Z.eqb_spec (reg_capacity (r_reg s)) 0); [lia|].
      rewrite size_t_small by (unfold SIZE_MOD; lia). lia.
  - eexists _, _. split; [done|]. split_and!; [done|naive_solver|]. by right.
Qed.

Lemma owned_push reg e :
  owned (MkReg (reg_entries reg ++ [e]) (reg_capacity reg) (reg_block reg)) =
  owned reg + schema_blocks e.
Proof.
  unfold owned. simpl.
  assert (∀ l, foldr (λ s n, schema_blocks s + n) 0 (l ++ [e]) =
    foldr (λ s n, schema_blocks s + n) 0 l + schema_blocks e) as -> by
    (induction l; simpl; lia).
  lia.
Qed.

(** The outcome of a registration: the entry was added, or the call failed
    with a code the error context has and the entries are what they were. *)
Definition registered (name : string) (cols : list RawColumnDef) (n : Z)
    (s : RState) (r : SqlRDBResult) (s' : RState) : Prop :=
  reg_wf s' ∧
  if res_ok r then
    ∃ e, reg_entries (r_reg s') = reg_entries (r_reg s) ++ [e] ∧ sch_name e = name ∧
      describes cols (Z.to_nat n) (sch_cols e) ∧ sch_col_count e = n
  else reg_entries (r_reg s') = reg_entries (r_reg s) ∧ err_code (r_err s') = r.

Lemma push_entry_spec s e al :
  reg_wf s → reg_count (r_reg s) < reg_capacity (r_reg s) → schema_ok e →
  (sch_name e ∉ reg_names (r_reg s)) →
  ∃ s', push_entry e (grown (schema_blocks e) al s) = Some (tt, s') ∧ reg_wf s' ∧
    reg_entries (r_reg s') = reg_entries (r_reg s) ++ [e] ∧ r_alloc s' = al.
Proof.
  intros (Hnd & Hok & Hcap & Hblk & Hlive) Hlt He Hnew.
  unfold push_entry, mbind, M_bind, mgets. cbn [r_reg grown].
  rewrite (proj2 (Z.ltb_lt _ _)) by done. eexists; split; [done|]. unfold reg_wf. split_and!; try done.
  - unfold reg_names in *. cbn [r_reg reg_entries]. rewrite fmap_app. apply NoDup_app. split_and!; [done| |apply NoDup_singleton].
    intros x Hx Hx'. apply list_elem_of_singleton in Hx' as ->. done.
  - simpl. by apply Forall_app; split; [|apply Forall_singleton].
  - unfold reg_count in *. simpl. rewrite length_app. simpl. lia.
  - simpl. by rewrite owned_push, Hlive.
Qed.

Lemma add_entry_spec name cols n s :
  reg_wf s → room s → registrable (r_reg s) name cols n → n ≤ Z.of_nat (length cols) →
  ∃ r s', add_entry name cols n s = Some (r, s') ∧
    (no_oom (r_alloc s) → r = SQL_RDB_OK ∧ no_oom (r_alloc s')) ∧
    (r = SQL_RDB_OK ∨ r = SQL_RDB_ERR_NO_MEMORY) ∧ registered name cols n s r s'.
Proof.
  intros Hwf Hroom (Hn & Hname & Hnew & ds & Hds & Hdswf) Hlen.
  unfold C2SQL_MAX_COLUMNS in Hn.
  destruct (make_room_spec s Hwf Hroom) as (r & s1 & E1 & (Hwf1 & He1) & Hal1 & Hr1).
  unfold add_entry, mbind, M_bind, mgets. rewrite E1.
  destruct Hr1 as [[-> Hlt]|[-> Herr]]; simpl.
  2:{ eexists _, _. split; [done|]. split_and!; [naive_solver|by right|]. by split. }
  destruct (r_malloc_spec s1) as (ok & al & -> & Hok). destruct ok; cbn [negb].
  2:{ eexists _, _. split; [done|]. split_and!; [naive_solver|by right|]. simpl. split; [|by split].
      destruct Hwf1 as (?&?&?&?&?). split_and!; try done. simpl. lia. }
  destruct (deep_copy_cols_spec cols n (grown 1 al s1) ds) as (r & dst & al2 & -> & Hal2 & Hr2);
    [done|lia|]. rewrite Z2Nat.id by lia.
  destruct Hr2 as [[-> ->]| ->]; cbn [res_ok negb].
  2:{ eexists _, _. split; [done|]. split_and!; [naive_solver|by right|]. simpl. split; [|by split].
      destruct Hwf1 as (?&?&?&?&?). split_and!; try done. simpl. lia. }
  destruct (find_pk_spec cols (Z.to_nat n) 0) as (pk & -> & Hpk); [lia|lia|intros; lia|]. cbn [mdef].
  pose proof (describes_pk _ _ _ Hds Hpk) as Hpk'.
  pose proof (describes_length cols (Z.to_nat n) ds ltac:(lia) Hds) as Hdl.
  set (e := MkSchema name ds n pk).
  assert (schema_ok e) as Heok.
  { unfold schema_ok, C2SQL_MAX_COLUMNS; simpl. split_and!; try done; try lia; apply Hdswf. }
  rewrite grown_grown. replace (1 + (n + 1)) with (schema_blocks e) by (unfold schema_blocks; simpl; lia).
  destruct (push_entry_spec s1 e al2 Hwf1 Hlt Heok) as (s' & -> & Hwf' & He' & Hal').
  { unfold reg_names in *. by rewrite He1. }
  eexists _, _. split; [done|]. split_and!; [|by left|].
  - subst al2. naive_solver.
  - split; [done|]. simpl. exists e. by rewrite He', He1.
Qed.

(** ** Lookup *)

Lemma find_entry_None l i name : find_entry l i name = None ↔ name ∉ (sch_name <$> l).
Proof.
  revert i. induction l as [|s l IH]; intros i; simpl; [set_solver|].
  destruct (decide (sch_name s = name)); [set_solver|]. rewrite IH. set_solver.
Qed.

Lemma find_entry_Some l i name k :
  find_entry l i name = Some k →
  ∃ j s, k = (i + j)%nat ∧ l !! j = Some s ∧ sch_name s = name.
Proof.
  revert i. induction l as [|s l IH]; intros i H; simpl in H; [done|].
  destruct (decide (sch_name s = name)) as [<-|].
  - exists 0%nat, s. simplify_eq. split_and!; [lia|done..].
  - destruct (IH _ H) as (j & s' & -> & ? & ?). exists (S j), s'. split_and!; [lia|done..].
Qed.

(** With distinct names the entry found is the one at hand. *)
Lemma find_entry_at l j s :
  NoDup (sch_name <$> l) → l !! j = Some s → find_entry l 0 (sch_name s) = Some j.
Proof.
  intros Hnd Hj. destruct (find_entry l 0 (sch_name s)) as [k|] eqn:E.
  - apply find_entry_Some in E as (j' & s' & -> & Hj' & Hs'). f_equal.
    eapply NoDup_lookup; [exact Hnd| |]; rewrite list_lookup_fmap_Some; eauto.
  - apply find_entry_None in E. exfalso. apply E, list_elem_of_fmap.
    eexists; split; [done|]. by eapply list_elem_of_lookup_2.
Qed.

Lemma lookup_name reg name p :
  c2sql_internal_schema_lookup true reg (Some name) = Some p →
  ∃ s, schema_at reg p = Some s ∧ sch_name s = name ∧ s ∈ reg_entries reg.
Proof.
  simpl. destruct (find_entry (reg_entries reg) 0 name) as [k|] eqn:E; [|done].
  intros [= <-]. apply find_entry_Some in E as (j & s & -> & Hj & Hs). simpl in Hj.
  exists s. unfold schema_at. simpl. rewrite decide_True by done.
  split_and!; [done|done|]. by eapply list_elem_of_lookup_2.
Qed.

Lemma lookup_None reg name :
  c2sql_internal_schema_lookup true reg (Some name) = None ↔ name ∉ reg_names reg.
Proof.
  unfold reg_names. rewrite <-(find_entry_None _ 0). simpl. by destruct (find_entry _ _ _).
Qed.

Lemma lookup_entry reg j s :
  NoDup (reg_names reg) → reg_entries reg !! j = Some s →
  c2sql_internal_schema_lookup true reg (Some (sch_name s)) = Some (reg_block reg, j).
Proof. intros Hnd Hj. simpl. by rewrite (find_entry_at _ _ _ Hnd Hj). Qed.

(** ** The operations *)

Lemma register_spec name cols n s :
  reg_wf s → room s → 0 ≤ n < SIZE_MOD →
  (n ≤ C2SQL_MAX_COLUMNS → n ≤ Z.of_nat (length cols)) →
  ∃ r s', c2sql_internal_schema_register true (Some name) (Some cols) n s = Some (r, s') ∧
    registered name cols n s r s' ∧
    (r = SQL_RDB_OK → registrable (r_reg s) name cols n) ∧
    (registrable (r_reg s) name cols n →
      (r = SQL_RDB_OK ∨ r = SQL_RDB_ERR_NO_MEMORY) ∧
      (no_oom (r_alloc s) → r = SQL_RDB_OK ∧ no_oom (r_alloc s'))).
Proof.
  intros Hwf Hroom Hn Hlen. unfold c2sql_internal_schema_register. cbn [negb].
  assert (∀ r msg, r ≠ SQL_RDB_OK → ¬ registrable (r_reg s) name cols n →
    ∃ r' s', fail r msg s = Some (r', s') ∧ registered name cols n s r' s' ∧
    (r' = SQL_RDB_OK → registrable (r_reg s) name cols n) ∧
    (registrable (r_reg s) name cols n →
      (r' = SQL_RDB_OK ∨ r' = SQL_RDB_ERR_NO_MEMORY) ∧
      (no_oom (r_alloc s) → r' = SQL_RDB_OK ∧ no_oom (r_alloc s')))) as Hfail.
  { intros r msg Hr Hno. eexists r, _. split; [done|]. split_and!; [|done|done].
    split; [by destruct s|]. rewrite (proj2 (res_ok_false r)) by done. done. }
  destruct (Z.eqb_spec n 0); [apply Hfail; [done|]; intros (? & _); lia|].
  destruct (Z.ltb_spec C2SQL_MAX_COLUMNS n); [apply Hfail; [done|]; intros (? & _); lia|].
  destruct (identifier_valid (Some name)) eqn:Hv; cbn [negb].
  2:{ apply Hfail; [done|]. intros (_ & Hv' & _).
      apply identifier_valid_spec in Hv'. congruence. }
  unfold mbind, M_bind, mgets.
  destruct (find_entry (reg_entries (r_reg s)) 0 name) as [k|] eqn:Hf.
  { apply Hfail; [done|]. intros (_ & _ & Hnew & _).
    apply (find_entry_None _ 0) in Hnew. congruence. }
  apply find_entry_None in Hf. apply identifier_valid_spec in Hv.
  destruct (validate_cols_spec cols (Z.to_nat n) 0 [] s) as
    [(ds & -> & Hds & Hdswf)|(r & s' & -> & (Hr & Herr & Hreg & Hal & Hlive) & Hnm & Hno)].
  { lia. } { constructor. } { split; constructor. }
  - assert (registrable (r_reg s) name cols n) as Hreg by
      (split_and!; [lia|lia|done|done|by exists ds]). cbn [res_ok negb].
    destruct (add_entry_spec name cols n s Hwf Hroom Hreg ltac:(lia)) as (r & s' & -> & ? & ? & ?).
    eexists _, _. split; [done|]. naive_solver.
  - rewrite (proj2 (res_ok_false r)) by done. cbn [negb]. eexists _, _. split; [done|].
    split_and!; [|done|].
    + split; [|rewrite (proj2 (res_ok_false r)) by done; by rewrite Hreg].
      unfold reg_wf in *. by rewrite Hreg, Hlive.
    + intros (_ & _ & _ & ds & ? & ?). naive_solver.
Qed.

(** ** The first error

    The reference: the code of the first condition that is not met, in the
    order of the code, over the arguments alone. *)

Definition column_error (before : list RawColumnDef) (c : RawColumnDef) : option SqlRDBResult :=
  match col_name c with
  | None => Some SQL_RDB_ERR_INVALID_ARG
  | Some nm =>
      if negb (identifier_valid (Some nm)) then Some SQL_RDB_ERR_INVALID_NAME
      else if bool_decide (Some nm ∈ (col_name <$> before)) then Some SQL_RDB_ERR_DUPLICATE_COLUMN
      else match col_type c with
           | SQL_TYPE_INT32 => if col_size c =? 4 then None else Some SQL_RDB_ERR_INVALID_ARG
           | SQL_TYPE_INT64 => if col_size c =? 8 then None else Some SQL_RDB_ERR_INVALID_ARG
           | _ => None
           end
  end.

Fixpoint columns_error (before cols : list RawColumnDef) : option SqlRDBResult :=
  match cols with
  | [] => None
  | c :: cols =>
      match column_error before c with
      | Some r => Some r
      | None => columns_error (before ++ [c]) cols
      end
  end.

Definition register_error (reg : SqlRDBSchemaRegistry) (name : string) (cols : list RawColumnDef) (n : Z) :
    option SqlRDBResult :=
  if n =? 0 then Some SQL_RDB_ERR_INVALID_ARG
  else if C2SQL_MAX_COLUMNS <? n then Some SQL_RDB_ERR_TOO_MANY_COLUMNS
  else if negb (identifier_valid (Some name)) then Some SQL_RDB_ERR_INVALID_NAME
  else if bool_decide (name ∈ reg_names reg) then Some SQL_RDB_ERR_DUPLICATE_SCHEMA
  else columns_error [] (take (Z.to_nat n) cols).

Lemma dup_column_names cols i ds nm :
  (i ≤ length cols)%nat → describes cols i ds →
  dup_column cols 0 i nm = Some (bool_decide (Some nm ∈ (col_name <$> take i cols))).
Proof.
  intros Hi Hds. rewrite (dup_column_spec _ _ _ _ Hi Hds). f_equal. apply bool_decide_ext.
  assert (Some <$> (col_name <$> ds) = col_name <$> take i cols) as <-; [|set_solver].
  clear Hi. unfold describes in Hds. induction Hds as [|c d l ds Hd _ IH]; [done|]. cbn [fmap list_fmap]. rewrite IH. f_equal.
  unfold def_of in Hd. destruct (col_name c); [|done]. by injection Hd as <-.
Qed.

Lemma validate_cols_error cols n : ∀ i ds s,
  (i + n ≤ length cols)%nat → describes cols i ds →
  match columns_error (take i cols) (take n (drop i cols)) with
  | None => validate_cols cols i n s = Some (SQL_RDB_OK, s)
  | Some r => ∃ s', validate_cols cols i n s = Some (r, s') ∧ failed r s s'
  end.
Proof.
  induction n as [|n IH]; intros i ds s Hi Hds; [done|].
  destruct (lookup_lt_is_Some_2 cols i ltac:(lia)) as [c Hc]. rewrite (drop_S _ _ _ Hc).
  cbn [take columns_error validate_cols]. unfold mbind, M_bind. rewrite Hc. cbn [mdef]. unfold column_error.
  destruct (col_name c) as [nm|] eqn:Hnm; [|by apply fail_spec].
  destruct (identifier_valid (Some nm)); cbn [negb]; [|by apply fail_spec].
  rewrite (dup_column_names cols i ds nm ltac:(lia) Hds). cbn [mdef].
  case_bool_decide; [by apply fail_spec|].
  assert (describes cols (S i) (ds ++ [MkColumnDef nm (col_type c) (col_offset c) (col_size c) (col_flags c)])) as Hds'
    by (eapply describes_snoc; [done|done|]; unfold def_of; by rewrite Hnm).
  specialize (IH (S i) _ s ltac:(lia) Hds'). rewrite (take_S_r _ _ _ Hc) in IH.
  destruct (col_type c); cbn; try exact IH; [destruct (col_size c =? 4)|destruct (col_size c =? 8)]; cbn; try exact IH; by apply fail_spec.
Qed.

(** The reference has no allocation that could fail. *)
Lemma columns_error_not_oom cols : ∀ before, columns_error before cols ≠ Some SQL_RDB_ERR_NO_MEMORY.
Proof.
  induction cols as [|c cols IH]; intros before; cbn [columns_error]; [done|].
  destruct (column_error before c) as [r|] eqn:E; [|apply IH]. revert E. unfold column_error.
  repeat case_match; congruence.
Qed.

Lemma register_error_not_oom reg name cols n : register_error reg name cols n ≠ Some SQL_RDB_ERR_NO_MEMORY.
Proof. unfold register_error. pose proof (columns_error_not_oom (take (Z.to_nat n) cols) []). repeat case_match; congruence. Qed.

(** A registration that the reference refuses. *)
Lemma register_refused name cols n s r :
  0 ≤ n < SIZE_MOD → (n ≤ C2SQL_MAX_COLUMNS → n ≤ Z.of_nat (length cols)) →
  register_error (r_reg s) name cols n = Some r →
  ∃ s', c2sql_internal_schema_register true (Some name) (Some cols) n s = Some (r, s') ∧ failed r s s'.
Proof.
  intros Hn Hlen. unfold register_error, c2sql_internal_schema_register. cbn [negb].
  destruct (n =? 0); [intros [= <-]; by apply fail_spec|].
  destruct (Z.ltb_spec C2SQL_MAX_COLUMNS n); [intros [= <-]; by apply fail_spec|].
  destruct (identifier_valid (Some name)); cbn [negb]; [|intros [= <-]; by apply fail_spec].
  unfold mbind, M_bind, mgets. destruct (find_entry (reg_entries (r_reg s)) 0 name) as [k|] eqn:Hf.
  - rewrite bool_decide_true; [intros [= <-]; by apply fail_spec|].
    destruct (decide (name ∈ reg_names (r_reg s))) as [|Hni]; [done|]. apply (find_entry_None _ 0) in Hni. congruence.
  - apply find_entry_None in Hf. rewrite bool_decide_false by done. intros E.
    pose proof (validate_cols_error cols (Z.to_nat n) 0 [] s ltac:(lia) ltac:(constructor)) as Hve. rewrite drop_0 in Hve.
    change (take 0 cols) with (@nil RawColumnDef) in Hve. rewrite E in Hve. destruct Hve as (s' & -> & Hs').
    rewrite (proj2 (res_ok_false r)) by apply Hs'. cbn [negb]. by exists s'.
Qed.

(** What the reference lets pass satisfies the documented conditions. *)
Lemma columns_error_None cols n : ∀ i ds,
  (i + n ≤ length cols)%nat → describes cols i ds → cols_wf ds →
  columns_error (take i cols) (take n (drop i cols)) = None →
  ∃ ds', describes cols (i + n) ds' ∧ cols_wf ds'.
Proof.
  intros i ds Hi Hds Hwf E. set (s := MkR (MkReg [] 0 0%N) (MkErr SQL_RDB_OK "") [] 0).
  pose proof (validate_cols_error cols n i ds s Hi Hds) as H. rewrite E in H.
  destruct (validate_cols_spec cols n i ds s Hi Hds Hwf) as [(ds' & _ & Hd)|(r & s' & E' & Hf & _)]; [by exists ds'|].
  rewrite H in E'. injection E' as <- _. by destruct Hf.
Qed.

Lemma register_error_None reg name cols n :
  0 ≤ n → (n ≤ C2SQL_MAX_COLUMNS → n ≤ Z.of_nat (length cols)) →
  register_error reg name cols n = None → registrable reg name cols n.
Proof.
  intros Hn Hlen. unfold register_error, registrable. destruct (Z.eqb_spec n 0); [done|].
  destruct (Z.ltb_spec C2SQL_MAX_COLUMNS n); [done|].
  destruct (identifier_valid (Some name)) eqn:Hv; cbn [negb]; [|done]. case_bool_decide as Hin; [done|]. intros E.
  split; [lia|]. split; [by apply identifier_valid_spec|]. split; [done|].
  apply (columns_error_None cols (Z.to_nat n) 0 []); [lia|constructor|split; constructor|by rewrite drop_0].
Qed.

(** ** The capacity

    The array grows when it is full, to twice its size. *)

Definition reg_grown (R R' : SqlRDBSchemaRegistry) : Prop :=
  reg_capacity R' ≤ Z.max (reg_capacity R) (Z.max 8 (2 * reg_count R)).

Lemma reg_grown_refl R : reg_grown R R.
Proof. unfold reg_grown. lia. Qed.
#[export] Hint Resolve reg_grown_refl : core.

Lemma silent_fail code msg : silent r_reg (fail code msg).
Proof. by intros s a s' [= _ <-]. Qed.
Lemma silent_r_malloc : silent r_reg r_malloc.
Proof. intros s a s' H. unfold r_malloc in H. destruct (malloc_ok _). by injection H as _ <-. Qed.
Lemma silent_r_free : silent r_reg r_free.
Proof. by intros s a s' [= _ <-]. Qed.
#[local] Hint Resolve silent_fail silent_r_malloc silent_r_free : silent.

Lemma silent_copy_loop src n : ∀ i dst, silent r_reg (copy_loop src i n dst).
Proof.
  induction n as [|n IH]; intros i dst; simpl; silence.
  induction i; simpl; silence.
Qed.

Lemma silent_deep_copy src n : silent r_reg (deep_copy_cols src n).
Proof. unfold deep_copy_cols. pose proof silent_copy_loop. silence. Qed.

Lemma silent_validate_cols cols n : ∀ i, silent r_reg (validate_cols cols i n).
Proof. induction n as [|n IH]; intros i; cbn [validate_cols]; silence. Qed.

(** Room for one more entry. *)
Lemma make_room_grown s r s' :
  (if reg_count (r_reg s) =? reg_capacity (r_reg s) then registry_grow else mret SQL_RDB_OK) s = Some (r, s') →
  reg_grown (r_reg s) (r_reg s').
Proof.
  unfold reg_grown. destruct (Z.eqb_spec (reg_count (r_reg s)) (reg_capacity (r_reg s))) as [Hc|]; [|intros [= _ <-]; lia].
  assert (0 ≤ reg_count (r_reg s)) as H0 by (unfold reg_count; lia).
  intros (reg & s1 & [= <- <-] & (ok & s2 & E2 & E)%bind_Some)%bind_Some.
  assert (r_reg s2 = r_reg s) as Hs2 by (unfold r_realloc in E2; destruct (malloc_ok _); by injection E2 as _ <-).
  destruct ok; cbn [negb] in E.
  - apply bind_Some in E as (u & s3 & [= _ <-] & [= _ <-]). simpl.
    destruct (reg_capacity (r_reg s) =? 0); [lia|]. unfold size_t. pose proof (Z.mod_le (reg_capacity (r_reg s) * 2) SIZE_MOD).
    unfold SIZE_MOD in *. lia.
  - injection E as _ <-. simpl. rewrite Hs2. lia.
Qed.

Lemma register_grown name cols n s r s' :
  c2sql_internal_schema_register true (Some name) (Some cols) n s = Some (r, s') → reg_grown (r_reg s) (r_reg s').
Proof.
  assert (∀ s', r_reg s' = r_reg s → reg_grown (r_reg s) (r_reg s')) as Hsame by (by intros s1 ->).
  unfold c2sql_internal_schema_register. cbn [negb]. destruct (n =? 0); [intros E; by eapply Hsame, silent_fail|].
  destruct (_ <? n); [intros E; by eapply Hsame, silent_fail|]. destruct (negb _); [intros E; by eapply Hsame, silent_fail|].
  intros (reg & s1 & [= <- <-] & E)%bind_Some. destruct (find_entry _ _ _); [by eapply Hsame, silent_fail|].
  apply bind_Some in E as (r1 & s2 & E2%silent_validate_cols & E). destruct (negb _); [injection E as _ <-; by apply Hsame|].
  apply bind_Some in E as (reg & s3 & [= <- <-] & E). apply bind_Some in E as (r3 & s4 & E4%make_room_grown & E).
  rewrite E2 in E4. enough (reg_capacity (r_reg s') = reg_capacity (r_reg s4)) as Hc by (unfold reg_grown in *; lia).
  destruct (negb _); [by injection E as _ <-|].
  apply bind_Some in E as ([|] & s5 & E5%silent_r_malloc & E); cbn [negb] in E; [|apply silent_fail in E; congruence].
  apply bind_Some in E as ([r6 dst] & s6 & E6%silent_deep_copy & E). destruct (negb _).
  { apply bind_Some in E as (u & s7 & E7%silent_r_free & E%silent_fail). congruence. }
  apply bind_Some in E as (pk & s7 & E7%(silent_def r_reg) & E). apply bind_Some in E as (u & s8 & E8 & [= _ <-]).
  apply bind_Some in E8 as (reg & s9 & [= <- <-] & E8). destruct (_ <? _); [|done]. injection E8 as _ <-. simpl. congruence.
Qed.

Lemma unregister_grown name s r s' :
  c2sql_internal_schema_unregister true (Some name) s = Some (r, s') → reg_capacity (r_reg s') = reg_capacity (r_reg s).
Proof.
  intros (reg & s1 & [= <- <-] & E)%bind_Some. destruct (find_entry _ _ _); [|by injection E as _ <-].
  apply bind_Some in E as (e & s2 & _ & E). apply bind_Some in E as (u & s3 & _ & E).
  apply bind_Some in E as (u2 & s4 & [= _ <-] & [= _ <-]). done.
Qed.

Lemma schema_free_run e s :
  0 ≤ sch_col_count e →
  schema_free e s = Some (tt, grown (- schema_blocks e) (r_alloc s) s).
Proof.
  intros He. unfold schema_free, mbind, M_bind. rewrite free_iter. unfold mret, M_ret.
  rewrite !r_free_run. cbn [r_alloc grown].
  rewrite !grown_grown. unfold schema_blocks. do 3 f_equal. lia.
Qed.

Lemma free_entries_run l s :
  Forall (λ e, 0 ≤ sch_col_count e) l →
  free_entries l s =
  Some (tt, grown (- foldr (λ s n, schema_blocks s + n) 0 l) (r_alloc s) s).
Proof.
  intros Hl. revert s. induction Hl as [|e l He Hl IH]; intros s; simpl; [by rewrite grown_0|].
  unfold mbind, M_bind. rewrite schema_free_run by done. rewrite IH, grown_grown. do 3 f_equal. lia.
Qed.

Lemma schema_ok_count l : Forall schema_ok l → Forall (λ e, 0 ≤ sch_col_count e) l.
Proof. intros H. eapply Forall_impl; [exact H|]. intros e (_ & _ & ? & _). lia. Qed.

Lemma destroy_spec s :
  reg_wf s →
  c2sql_internal_schema_registry_destroy s =
  Some (tt, MkR (MkReg [] 0 0%N) (r_err s) (r_alloc s) 0).
Proof.
  intros (_ & Hok & _ & _ & Hlive).
  unfold c2sql_internal_schema_registry_destroy, mbind, M_bind, mgets.
  rewrite free_entries_run by (by apply schema_ok_count).
  unfold owned in Hlive. case_bool_decide as Hb; [rewrite decide_True in Hlive by done|
    rewrite decide_False in Hlive by done]; simpl; unfold set_reg, mmodify, grown; simpl; do 3 f_equal; lia.
Qed.

Lemma owned_remove reg i e :
  reg_entries reg !! i = Some e →
  owned (MkReg (take i (reg_entries reg) ++ drop (S i) (reg_entries reg))
    (reg_capacity reg) (reg_block reg)) = owned reg - schema_blocks e.
Proof.
  intros Hi. unfold owned. simpl. rewrite <-(take_drop_middle _ _ _ Hi) at 3.
  assert (∀ l1 l2, foldr (λ s n, schema_blocks s + n) 0 (l1 ++ l2) =
    foldr (λ s n, schema_blocks s + n) 0 l1 + foldr (λ s n, schema_blocks s + n) 0 l2) as Happ by
    (intros l1 l2; induction l1; simpl; lia).
  rewrite !Happ. simpl. lia.
Qed.

Lemma unregister_spec name s i e :
  reg_wf s → reg_entries (r_reg s) !! i = Some e → sch_name e = name →
  ∃ s', c2sql_internal_schema_unregister true (Some name) s = Some (SQL_RDB_OK, s') ∧ reg_wf s' ∧
    reg_entries (r_reg s') = delete i (reg_entries (r_reg s)) ∧
    r_alloc s' = r_alloc s ∧ r_err s' = r_err s.
Proof.
  intros (Hnd & Hok & Hcap & Hblk & Hlive) Hi <-.
  unfold c2sql_internal_schema_unregister, mbind, M_bind, mgets.
  rewrite (find_entry_at _ _ _ Hnd Hi), Hi. cbn [mdef].
  rewrite schema_free_run.
  2:{ pose proof (schema_ok_count _ Hok) as H. by eapply Forall_lookup_1 in H. }
  eexists; split; [done|]. cbn [r_reg r_alloc r_err grown]. unfold reg_wf. cbn.
  rewrite <-delete_take_drop. split_and!; try done.
  - unfold reg_names in *. cbn. rewrite list_fmap_delete. eapply sublist_NoDup; [exact Hnd|apply sublist_delete].
  - by apply Forall_delete.
  - unfold reg_count in *. cbn. rewrite length_delete by eauto. lia.
  - rewrite delete_take_drop, (owned_remove _ _ e) by done. lia.
Qed.

(** ** What the other components get from a registered schema *)

Lemma schema_ok_wf op s :
  schema_ok s → (op = C2SQL_QB_UPSERT → 0 ≤ sch_pk_index s) → schema_wf op s.
Proof.
  intros (_ & Hc & Hn & _ & Hpk) Hop. unfold C2SQL_MAX_COLUMNS in Hn.
  split; [split; [done|lia]|]. intros ->. specialize (Hop eq_refl).
  destruct Hpk as [[? _]|(i & c & E & Hi & _)]; [lia|]. apply lookup_lt_Some in Hi. lia.
Qed.

Lemma ident_char_qmark s : string_forall ident_char s = true → count_char "?" s = 0.
Proof.
  induction s as [|c s IH]; simpl; [done|]. rewrite andb_true_iff. intros [Hc Hs].
  rewrite IH by done. destruct (decide (c = "?"%char)) as [->|]; [|done]. by vm_compute in Hc.
Qed.

(** The statements the builder makes of registered schemas meet the
    conditions of its theorem on placeholders. *)
Lemma schema_ok_plain spec s :
  schema_ok s → (∀ c, q_new_col spec = Some c → c ∈ sch_cols s) → plain_names spec s.
Proof.
  intros (Hn & _ & _ & [_ Hc] & _) Hnew.
  assert (Forall (λ c : SqlRDBColumnDef, count_char "?" (col_name c) = 0) (sch_cols s)) as Hall.
  { eapply Forall_impl; [exact Hc|]. intros c ((_ & Hi & _) & _). by apply ident_char_qmark. }
  split_and!.
  - destruct Hn as (_ & Hi & _). by apply ident_char_qmark.
  - unfold col_names. by apply Forall_fmap.
  - intros c Hin%Hnew. by eapply Forall_forall in Hall.
Qed.

(** ** Histories of a registry *)

(** A call the program may make on a registry; the array of definitions is as
    long as the count says whenever the count is admissible. *)
Inductive reg_step : RState → RState → Prop :=
  | step_register valid name cols n r s s' :
      room s → 0 ≤ n < SIZE_MOD →
      (∀ cs, cols = Some cs → n ≤ C2SQL_MAX_COLUMNS → n ≤ Z.of_nat (length cs)) →
      c2sql_internal_schema_register valid name cols n s = Some (r, s') → reg_step s s'
  | step_unregister valid name r s s' :
      c2sql_internal_schema_unregister valid name s = Some (r, s') → reg_step s s'.

Inductive reg_reachable (s0 : RState) : RState → Prop :=
  | reach_init s : c2sql_internal_schema_registry_init s0 = Some (SQL_RDB_OK, s) →
      reg_reachable s0 s
  | reach_step s s' : reg_reachable s0 s → reg_step s s' → reg_reachable s0 s'.

Lemma reg_wf_err s e : reg_wf s → reg_wf (MkR (r_reg s) e (r_alloc s) (r_live s)).
Proof. done. Qed.

Lemma reg_step_wf s s' : reg_wf s → reg_step s s' → reg_wf s'.
Proof.
  intros Hwf Hstep. revert Hwf.
  destruct Hstep as [valid name cols n r s1 s2 Hroom Hn Hlen E|valid name r s1 s2 E]; intros Hwf.
  - destruct valid; [|by injection E as _ <-].
    destruct name as [name|], cols as [cols|]; try (injection E as _ <-; by apply reg_wf_err).
    destruct (register_spec name cols n s1) as (r' & s' & E' & (? & _) & _); [by eauto..|].
    congruence.
  - unfold c2sql_internal_schema_unregister in E. destruct name as [name|]; [|by injection E as _ <-].
    destruct valid; [|by injection E as _ <-].
    destruct (find_entry (reg_entries (r_reg s1)) 0 name) as [k|] eqn:Hf.
    + pose proof Hf as (j & e & -> & Hj & Hname)%find_entry_Some.
      destruct (unregister_spec name s1 j e Hwf Hj Hname) as (s' & E' & ? & _).
      unfold c2sql_internal_schema_unregister in E'. congruence.
    + unfold mbind, M_bind, mgets in E. rewrite Hf in E. by injection E as _ <-.
Qed.

(** ** Example inputs *)

Definition ex_raw : list RawColumnDef :=
  [MkColumnDef (Some "id") SQL_TYPE_INT64 0 8 SQL_COL_FLAG_PRIMARY_KEY;
   MkColumnDef (Some "label") SQL_TYPE_TEXT 8 32 0].
Definition ex_r0 (al : list bool) : RState := MkR (MkReg [] 0 0%N) (MkErr SQL_RDB_OK EmptyString) al 0.

Lemma ex_r0_wf al : reg_wf (ex_r0 al).
Proof. split_and!; try done; constructor. Qed.

Definition ex_raw_e : SqlRDBSchema :=
  MkSchema "item" [MkColumnDef "id" SQL_TYPE_INT64 0 8 SQL_COL_FLAG_PRIMARY_KEY;
   MkColumnDef "label" SQL_TYPE_TEXT 8 32 0] 2 0.
Definition ex_r1 : RState := MkR (MkReg [ex_raw_e] 8 1%N) (MkErr SQL_RDB_OK EmptyString) [] 5.

Lemma ex_register :
  c2sql_internal_schema_register true (Some "item") (Some ex_raw) 2 (ex_r0 []) = Some (SQL_RDB_OK, ex_r1).
Proof. vm_compute. reflexivity. Qed.

Lemma ex_r1_wf : reg_wf ex_r1.
Proof.
  eapply reg_step_wf; [apply (ex_r0_wf [])|].
  eapply step_register; [| | |apply ex_register].
  - done.
  - done.
  - intros cs [= <-] _. simpl. lia.
Qed.

(** ** Properties *)

(** Identifier_valid accepts exactly the identifiers of 1 to 128 letters,
    digits and underscores that do not begin with a digit and are no reserved
    word in upper or lower case; in particular no quote, space or question
    mark can reach the SQL text through a registered name.  NULL is refused. *)
Theorem identifier_valid_correct name :
  identifier_valid name = true ↔ ∃ s, name = Some s ∧ valid_ident s.
Proof.
  destruct name as [s|]; [|split; [done|by intros (? & [=] & _)]].
  rewrite identifier_valid_spec. split; [by eauto|]. by intros (? & [= <-] & ?).
Qed.

(** C23: registration on every branch.  The call never reads outside of the
    caller's array or of its own; it keeps the invariant of the registry
    (distinct valid names, 1 to 64 distinct valid columns, integer sizes, a
    right primary-key index, no leaked block).  When a condition on the
    arguments is not met, the result is the code of the first one in the order
    of the code - no columns, too many, an invalid name, a duplicate struct,
    then for each column no name, an invalid one, a duplicate, a wrong integer
    size - the error context has that code, and registry, allocator and blocks
    are what they were.  When all are met they are the documented ones, and the
    call appends its copy and returns OK, or, only when an allocation fails,
    returns NO_MEMORY, with the code in the error context and the entries what
    they were. *)
Theorem schema_register_correct name cols n s :
  reg_wf s → room s → 0 ≤ n < SIZE_MOD →
  (n ≤ C2SQL_MAX_COLUMNS → n ≤ Z.of_nat (length cols)) →
  ∃ r s', c2sql_internal_schema_register true (Some name) (Some cols) n s = Some (r, s') ∧
    registered name cols n s r s' ∧
    match register_error (r_reg s) name cols n with
    | Some e => r = e ∧ failed e s s' ∧ ¬ registrable (r_reg s) name cols n
    | None => registrable (r_reg s) name cols n ∧ (r = SQL_RDB_OK ∨ r = SQL_RDB_ERR_NO_MEMORY) ∧
        (no_oom (r_alloc s) → r = SQL_RDB_OK)
    end.
Proof.
  intros Hwf Hroom Hn Hlen.
  destruct (register_spec name cols n s Hwf Hroom Hn Hlen) as (r & s' & E & Hr & _ & Hok).
  exists r, s'. split; [done|]. split; [done|]. destruct (register_error _ _ _ _) as [e|] eqn:He.
  - destruct (register_refused name cols n s e Hn Hlen He) as (s2 & E2 & Hf). rewrite E in E2. injection E2 as <- <-.
    split; [done|]. split; [done|]. intros Hreg. pose proof Hf as (Hne & _ & _ & Hal & _).
    destruct (Hok Hreg) as [[->| ->] _]; [done|]. by apply register_error_not_oom in He.
  - apply register_error_None in He; [|lia|done]. split; [done|]. destruct (Hok He) as [Hc Hno].
    split; [done|]. intros Ha. by apply Hno.
Qed.

Lemma schema_register_correct_witness :
  ∃ r s', c2sql_internal_schema_register true (Some "item") (Some ex_raw) 2 (ex_r0 [true; false])
      = Some (r, s') ∧ registered "item" ex_raw 2 (ex_r0 [true; false]) r s'.
Proof.
  destruct (schema_register_correct "item" ex_raw 2 (ex_r0 [true; false])) as (r & s' & H1 & H2 & _).
  - apply ex_r0_wf.
  - reflexivity.
  - split; [discriminate|reflexivity].
  - intros _. simpl. discriminate.
  - exists r, s'. split; [exact H1|exact H2].
Defined.

(** Register, then look up.  A schema that was registered is found under
    its name, with the columns that were given; every schema found before is
    found with the same contents, and no other name is found. *)
Theorem schema_register_lookup name cols n s s' :
  reg_wf s → room s → 0 ≤ n < SIZE_MOD →
  (n ≤ C2SQL_MAX_COLUMNS → n ≤ Z.of_nat (length cols)) →
  c2sql_internal_schema_register true (Some name) (Some cols) n s = Some (SQL_RDB_OK, s') →
  (∃ p e, c2sql_internal_schema_lookup true (r_reg s') (Some name) = Some p ∧
     schema_at (r_reg s') p = Some e ∧ describes cols (Z.to_nat n) (sch_cols e)) ∧
  ∀ other, other ≠ name →
    (c2sql_internal_schema_lookup true (r_reg s') (Some other) ≫= schema_at (r_reg s')) =
    (c2sql_internal_schema_lookup true (r_reg s) (Some other) ≫= schema_at (r_reg s)).
Proof.
  intros Hwf Hroom Hn Hlen E.
  destruct (register_spec name cols n s Hwf Hroom Hn Hlen) as (r & s2 & E' & (Hwf' & He) & _).
  rewrite E in E'. simplify_eq. destruct He as (e & He & <- & Hds & _).
  assert (reg_entries (r_reg s2) !! length (reg_entries (r_reg s)) = Some e) as Hlast
    by (rewrite He; by apply list_lookup_middle).
  destruct Hwf' as (Hnd & _). split.
  - exists (reg_block (r_reg s2), length (reg_entries (r_reg s))), e.
    rewrite (lookup_entry _ _ _ Hnd Hlast). unfold schema_at. simpl. by rewrite decide_True.
  - intros other Hne.
    destruct (c2sql_internal_schema_lookup true (r_reg s) (Some other)) as [p|] eqn:El.
    + pose proof El as (e0 & Hp & <- & Hin)%lookup_name.
      apply list_elem_of_lookup in Hin as (j & Hj).
      assert (reg_entries (r_reg s2) !! j = Some e0) as Hj2
        by (rewrite He; by apply lookup_app_l_Some).
      rewrite (lookup_entry _ _ _ Hnd Hj2). simpl. rewrite Hp. unfold schema_at. simpl.
      by rewrite decide_True.
    + apply lookup_None in El. rewrite (proj2 (lookup_None _ _)); [done|].
      unfold reg_names in *. rewrite He, fmap_app. set_solver.
Qed.

Lemma schema_register_lookup_witness :
  ∃ p e, c2sql_internal_schema_lookup true (r_reg ex_r1) (Some "item") = Some p ∧
     schema_at (r_reg ex_r1) p = Some e ∧ describes ex_raw 2 (sch_cols e).
Proof.
  apply (schema_register_lookup "item" ex_raw 2 (ex_r0 []) ex_r1).
  - apply ex_r0_wf.
  - reflexivity.
  - split; [discriminate|reflexivity].
  - intros _. simpl. discriminate.
  - exact ex_register.
Defined.

(** Unregistering undoes a registration, as the rollback of a failed
    CREATE TABLE or migration needs: the entries are again the ones before the
    call, the name is unknown again, and the blocks of the entry are freed. *)
Theorem schema_register_unregister name cols n s s1 :
  reg_wf s → room s → 0 ≤ n < SIZE_MOD →
  (n ≤ C2SQL_MAX_COLUMNS → n ≤ Z.of_nat (length cols)) →
  c2sql_internal_schema_register true (Some name) (Some cols) n s = Some (SQL_RDB_OK, s1) →
  ∃ s2, c2sql_internal_schema_unregister true (Some name) s1 = Some (SQL_RDB_OK, s2) ∧
    reg_entries (r_reg s2) = reg_entries (r_reg s) ∧
    r_live s2 = r_live s1 - (n + 2) ∧
    c2sql_internal_schema_lookup true (r_reg s2) (Some name) = None.
Proof.
  intros Hwf Hroom Hn Hlen E.
  destruct (register_spec name cols n s Hwf Hroom Hn Hlen) as (r & s' & E' & (Hwf1 & He) & Hreg & _).
  rewrite E in E'. simplify_eq. destruct He as (e & He & <- & _ & <-).
  assert (reg_entries (r_reg s') !! length (reg_entries (r_reg s)) = Some e) as Hlast
    by (rewrite He; by apply list_lookup_middle).
  pose proof Hwf1 as (Hnd & Hok & _ & _ & _).
  unfold c2sql_internal_schema_unregister, mbind, M_bind, mgets.
  rewrite (find_entry_at _ _ _ Hnd Hlast), Hlast. cbn [mdef].
  rewrite schema_free_run.
  2:{ pose proof (schema_ok_count _ Hok) as H. by eapply Forall_lookup_1 in H. }
  eexists; split; [done|]. cbn [r_reg r_live reg_entries grown].
  rewrite <-delete_take_drop, He, delete_middle, app_nil_r. split_and!; [done| |].
  - unfold schema_blocks. simpl. lia.
  - apply lookup_None. unfold reg_names. simpl. by destruct (Hreg eq_refl) as (_ & _ & Hnew & _).
Qed.

Lemma schema_register_unregister_witness :
  ∃ s2, c2sql_internal_schema_unregister true (Some "item") ex_r1 = Some (SQL_RDB_OK, s2) ∧
    reg_entries (r_reg s2) = [] ∧ r_live s2 = 1 ∧
    c2sql_internal_schema_lookup true (r_reg s2) (Some "item") = None.
Proof.
  apply (schema_register_unregister "item" ex_raw 2 (ex_r0 []) ex_r1).
  - apply ex_r0_wf.
  - reflexivity.
  - split; [discriminate|reflexivity].
  - intros _. simpl. discriminate.
  - exact ex_register.
Defined.

(** C36: every registry the program can reach, by any sequence of
    registrations and removals that may fail for any reason, satisfies the
    invariant, and destroying it frees every block: nothing leaks and nothing
    is freed twice. *)
Theorem schema_registry_reachable s0 s :
  r_live s0 = 0 → reg_reachable s0 s →
  reg_wf s ∧ ∃ s', c2sql_internal_schema_registry_destroy s = Some (tt, s') ∧ r_live s' = 0 ∧
    reg_entries (r_reg s') = [].
Proof.
  intros H0 Hr.
  assert (reg_wf s) as Hwf.
  { induction Hr as [s E|s s' Hr IH Hstep]; [|by eapply reg_step_wf].
    unfold c2sql_internal_schema_registry_init, mbind, M_bind, set_reg, mmodify in E.
    injection E as <-. split_and!; try done; constructor. }
  split; [done|]. rewrite destroy_spec by done. by eexists.
Qed.

Lemma schema_registry_reachable_witness :
  reg_wf ex_r1 ∧ ∃ s', c2sql_internal_schema_registry_destroy ex_r1 = Some (tt, s') ∧ r_live s' = 0 ∧
    reg_entries (r_reg s') = [].
Proof.
  apply (schema_registry_reachable (ex_r0 [])).
  - reflexivity.
  - apply (reach_step _ (ex_r0 [])); [apply reach_init; reflexivity|].
    apply (step_register true (Some "item") (Some ex_raw) 2 SQL_RDB_OK).
    + reflexivity.
    + split; [discriminate|reflexivity].
    + intros cs H _. injection H as <-. simpl. discriminate.
    + exact ex_register.
Defined.

(** Registering several structs of the same columns. *)
Fixpoint register_each (names : list string) : M RState unit :=
  match names with
  | [] => mret tt
  | nm :: names =>
      c2sql_internal_schema_register true (Some nm) (Some ex_raw) 2;; register_each names
  end.

(** Schema pointers.  A pointer that lookup returned does not outlive the
    registration of another struct: after the eighth, the ninth registration
    moves the array, and the pointer to the first is no longer valid, although
    neither the registry was destroyed nor the struct unregistered.  (The
    iterator of a multi-row read keeps such a pointer.) *)
Example lookup_pointer_dangles :
  ∃ s8 p s9, register_each ["t1"; "t2"; "t3"; "t4"; "t5"; "t6"; "t7"; "t8"] (ex_r0 []) = Some (tt, s8) ∧
    c2sql_internal_schema_lookup true (r_reg s8) (Some "t1") = Some p ∧
    is_Some (schema_at (r_reg s8) p) ∧
    c2sql_internal_schema_register true (Some "t9") (Some ex_raw) 2 s8 = Some (SQL_RDB_OK, s9) ∧
    schema_at (r_reg s9) p = None.
Proof. eexists _, _, _. split; [by vm_compute|]. split; [by vm_compute|]. split; [by eexists; vm_compute|]. by vm_compute. Qed.
