(* ===== verification/PgParams.v ===== *)
(** * The parameters of the statements for PostgreSQL

    The query builder numbers its placeholders [$1], [$2], ...; the PostgreSQL
    driver finds the number of parameters of a statement by scanning its text
    for the largest of them.  The two agree on every statement of the builder. *)

From Stdlib Require Import String Strings.Byte Strings.Ascii.
From S2P Require Import Prelude PgText Types Support Driver Condition QueryBuilder.
From S2P Require Import QueryBuilderProofs Registry RegistryProofs.

(** ** Text without parameters *)

Lemma no_dollar_app s1 s2 : no_dollar (s1 +:+ s2) = no_dollar s1 && no_dollar s2.
Proof. apply string_forall_app. Qed.

Lemma ident_no_dollar s : string_forall ident_char s = true → no_dollar s = true.
Proof.
  unfold no_dollar. induction s as [|c s IH]; [done|]. cbn [string_forall]. intros [Hc Hs]%andb_true_iff.
  rewrite IH by done. case_bool_decide as E; [|done]. subst. by vm_compute in Hc.
Qed.

Lemma quoted_no_dollar s : no_dollar s = true → no_dollar (quoted s) = true.
Proof. intros H. unfold quoted. by rewrite !no_dollar_app, H. Qed.

Lemma join_no_dollar l : Forall (λ s, no_dollar s = true) l → no_dollar (join "," l) = true.
Proof.
  induction 1 as [|s l Hs Hl IH]; [done|]. destruct l as [|s' l]; [done|].
  change (no_dollar (s +:+ "," +:+ join "," (s' :: l)) = true). by rewrite !no_dollar_app, Hs, IH.
Qed.

(** The names of a schema that the registry accepted. *)
Definition plain_schema (s : SqlRDBSchema) : Prop :=
  no_dollar (sch_name s) = true ∧ Forall (λ c : SqlRDBColumnDef, no_dollar (col_name c) = true) (sch_cols s).

Lemma schema_ok_no_dollar s : schema_ok s → plain_schema s.
Proof.
  intros ((_ & Hn & _) & _ & _ & [_ Hc] & _). split; [by apply ident_no_dollar|].
  eapply Forall_impl; [exact Hc|]. intros c ((_ & Hi & _) & _). by apply ident_no_dollar.
Qed.

Lemma column_no_dollar d c : no_dollar (col_name c) = true → no_dollar (column_text d c) = true.
Proof.
  intros H. unfold column_text, constraints_text. rewrite !no_dollar_app, quoted_no_dollar by done.
  destruct (col_type c), d; repeat case_match; done.
Qed.

Lemma columns_no_dollar (f : SqlRDBColumnDef → string) l :
  (∀ c, no_dollar (col_name c) = true → no_dollar (f c) = true) →
  Forall (λ c : SqlRDBColumnDef, no_dollar (col_name c) = true) l → no_dollar (join "," (f <$> l)) = true.
Proof. intros Hf Hl. apply join_no_dollar, Forall_fmap. eapply Forall_impl; [exact Hl|]. auto. Qed.

(** ** Text with parameters *)

Local Abbreviation PG := C2SQL_DIALECT_POSTGRES.

Lemma piece_num s n m : piece s n → n = m → piece s m.
Proof. by intros H <-. Qed.

(** A text that ends in a piece which does not start with a digit. *)
Lemma piece_end s1 s2 n : piece s1 n → 0 ≤ n → no_dollar s2 = true → starts_digit s2 = false → piece (s1 +:+ s2) n.
Proof.
  intros H1 Hn H2 Hd. eapply piece_num; [apply piece_app; [exact H1|by apply piece_plain|done]|lia].
Qed.

Lemma piece_holes n k : 0 ≤ n → n + Z.of_nat k ≤ INT_MAX → (0 < k)%nat →
  piece (join "," (holes PG n k)) (n + Z.of_nat k).
Proof.
  revert n. induction k as [|k IH]; intros n H0 Hle Hk; [lia|]. cbn [holes]. destruct k as [|k].
  - cbn [holes join]. eapply piece_num; [apply piece_hole; lia|lia].
  - change (join "," (hole PG (n + 1) :: holes PG (n + 1) (S k)))
      with (("$" +:+ dec (n + 1)) +:+ "," +:+ join "," (holes PG (n + 1) (S k))).
    eapply piece_num.
    + apply piece_app; [apply piece_hole; lia|apply piece_plain_app; [done|]; apply IH; lia|done].
    + lia.
Qed.

(** The largest parameter of a condition after [n] of them. *)
Definition last_hole (n : Z) (c : SqlRDBCondition) : Z := if leaves c =? 0 then 0 else n + leaves c.

Lemma cond_text_start n c : starts_digit (cond_text PG n c) = false.
Proof. by destruct c. Qed.

Lemma op_no_dollar op : no_dollar (op_to_sql_str op) = true.
Proof. by destruct op. Qed.

Lemma piece_cond n c :
  0 ≤ n → n + leaves c ≤ INT_MAX → Forall (λ s, no_dollar s = true) (cond_cols c) →
  piece (cond_text PG n c) (last_hole n c).
Proof.
  revert n. assert (∀ l r n word, no_dollar word = true → starts_digit (word +:+ cond_text PG (n + leaves l) r +:+ ")") = false →
    0 ≤ n → piece (cond_text PG n l) (last_hole n l) → piece (cond_text PG (n + leaves l) r) (last_hole (n + leaves l) r) →
    piece ("(" +:+ cond_text PG n l +:+ word +:+ cond_text PG (n + leaves l) r +:+ ")")
      (if leaves l + leaves r =? 0 then 0 else n + (leaves l + leaves r))) as Hbin.
  { intros l r n word Hw Hd Hn Hl Hr. apply piece_plain_app; [done|].
    pose proof (leaves_nonneg l). pose proof (leaves_nonneg r).
    eapply piece_num.
    - apply piece_app; [exact Hl| |done]. apply piece_plain_app; [done|]. apply piece_end; [exact Hr| |done|done].
      unfold last_hole. destruct (_ =? _); lia.
    - unfold last_hole. destruct (Z.eqb_spec (leaves l) 0), (Z.eqb_spec (leaves r) 0), (Z.eqb_spec (leaves l + leaves r) 0); lia. }
  induction c as [col op vt v|l IHl r IHr|l IHl r IHr|]; intros n H0 Hle Hc; cbn [cond_text leaves cond_cols] in *.
  - apply Forall_cons in Hc as [Hc _]. apply piece_plain_app; [by apply quoted_no_dollar|].
    apply piece_plain_app; [done|]. apply piece_plain_app; [apply op_no_dollar|]. apply piece_plain_app; [done|].
    eapply piece_num; [apply piece_hole; lia|done].
  - apply Forall_app in Hc as [Hc1 Hc2]. pose proof (leaves_nonneg l). pose proof (leaves_nonneg r).
    apply Hbin; [done|done|done|apply IHl; [lia|lia|done]|apply IHr; [lia|lia|done]].
  - apply Forall_app in Hc as [Hc1 Hc2]. pose proof (leaves_nonneg l). pose proof (leaves_nonneg r).
    apply Hbin; [done|done|done|apply IHl; [lia|lia|done]|apply IHr; [lia|lia|done]].
  - by apply piece_plain.
Qed.

Lemma piece_where n c :
  0 ≤ n → n + where_leaves c ≤ INT_MAX → Forall (λ s, no_dollar s = true) (where_cols c) →
  piece (where_text PG n c) (if where_leaves c =? 0 then 0 else n + where_leaves c) ∧
  starts_digit (where_text PG n c) = false.
Proof.
  intros H0 Hle Hc. destruct c as [c|]; [|split; [by apply piece_plain|done]].
  assert (c = COND_ALL ∨ where_text PG n (Some c) = " WHERE " +:+ cond_text PG n c) as [->| ->]
    by (destruct c; auto); [split; [by apply piece_plain|done]|].
  split; [|done]. apply piece_plain_app; [done|]. by apply piece_cond.
Qed.

Lemma piece_insert s :
  plain_schema s → 0 < Z.of_nat (length (sch_cols s)) ≤ INT_MAX →
  piece (insert_text PG s) (Z.of_nat (length (sch_cols s))).
Proof.
  intros [Hn Hc] Hl. unfold insert_text. apply piece_plain_app; [done|].
  apply piece_plain_app; [by apply quoted_no_dollar|]. apply piece_plain_app; [done|].
  apply piece_plain_app.
  { unfold col_list_text, col_names. rewrite <-list_fmap_compose. apply columns_no_dollar; [|done].
    intros c. apply quoted_no_dollar. }
  apply piece_plain_app; [done|]. apply piece_end; [|lia|done|done].
  eapply piece_num; [apply piece_holes; lia|lia].
Qed.

Lemma pk_no_dollar s : plain_schema s → no_dollar (pk_name s) = true.
Proof.
  intros [_ Hc]. unfold pk_name. destruct (sch_cols s !! _) as [c|] eqn:E; [|done].
  by eapply Forall_lookup_1 in Hc.
Qed.

Lemma known_no_dollar s l :
  plain_schema s → forallb (λ c, bool_decide (c ∈ col_names s)) l = true → Forall (λ x, no_dollar x = true) l.
Proof.
  intros [_ Hc] Hk. apply Forall_forall. intros x Hx. rewrite forallb_forall in Hk.
  specialize (Hk x ltac:(by apply list_elem_of_In)). apply bool_decide_eq_true in Hk.
  unfold col_names in Hk. apply list_elem_of_fmap in Hk as (c & -> & Hin). by eapply Forall_forall in Hc.
Qed.

(** The statements of the builder: the largest parameter is the number of the
    values that are bound. *)
Lemma piece_qb_text spec s :
  schema_ok s → q_dialect spec = PG → (∀ c, q_new_col spec = Some c → c ∈ sch_cols s) →
  qb_result spec s = SQL_RDB_OK → qb_binds spec s ≤ INT_MAX →
  piece (qb_text spec s) (qb_binds spec s).
Proof.
  intros Hs Hd Hnew Hres Hle. pose proof (schema_ok_no_dollar s Hs) as Hp. pose proof Hp as [Hn Hc].
  destruct Hs as (_ & Hcnt & Hrange & _). unfold qb_result in Hres.
  assert (no_dollar (quoted (sch_name s)) = true) as Hq by (by apply quoted_no_dollar).
  assert (no_dollar (col_list_text s) = true) as Hcl.
  { unfold col_list_text, col_names. rewrite <-list_fmap_compose. apply columns_no_dollar; [|done].
    intros c. apply quoted_no_dollar. }
  assert (∀ l, (if forallb (λ c, bool_decide (c ∈ col_names s)) l then SQL_RDB_OK else SQL_RDB_ERR_UNKNOWN_COLUMN) = SQL_RDB_OK →
    Forall (λ x, no_dollar x = true) l) as Hk.
  { intros l E. destruct (forallb _ l) eqn:Ef; [|done]. by eapply known_no_dollar. }
  unfold qb_text, qb_binds, qb_cols in *. rewrite Hd in *.
  assert (∀ pre, no_dollar pre = true → Forall (λ x, no_dollar x = true) (where_cols (q_cond spec)) →
    where_leaves (q_cond spec) ≤ INT_MAX → piece (pre +:+ where_text PG 0 (q_cond spec)) (where_leaves (q_cond spec))) as Hwhere.
  { intros pre Hpre Hcols Hlv. destruct (piece_where 0 (q_cond spec)) as [H _]; [lia|lia|done|].
    apply piece_plain_app; [done|]. eapply piece_num; [exact H|]. destruct (Z.eqb_spec (where_leaves (q_cond spec)) 0); lia. }
  destruct (q_op spec); try done.
  - apply piece_plain. rewrite !no_dollar_app, Hq, columns_no_dollar; [done|apply column_no_dollar|done].
  - rewrite Hcnt. apply piece_insert; [done|]. unfold C2SQL_MAX_COLUMNS, INT_MAX in *. lia.
  - rewrite Hcnt. apply piece_end; [apply piece_insert; [done|unfold C2SQL_MAX_COLUMNS, INT_MAX in *; lia]|lia| |done].
    rewrite !no_dollar_app, quoted_no_dollar, (columns_no_dollar set_text); [done| | |by apply pk_no_dollar].
    + intros c E. unfold set_text. by rewrite !no_dollar_app, quoted_no_dollar.
    + unfold other_cols. by apply Forall_delete.
  - rewrite <-!sapp_assoc. apply Hwhere; [by rewrite !no_dollar_app, Hcl, Hq|by apply Hk|done].
  - rewrite <-!sapp_assoc. apply Hwhere; [by rewrite !no_dollar_app, Hq|by apply Hk|done].
  - rewrite <-!sapp_assoc. apply Hwhere; [by rewrite !no_dollar_app, Hq|by apply Hk|done].
  - apply piece_plain. rewrite !no_dollar_app, Hq. destruct (q_new_col spec) as [c|] eqn:E; [|done].
    rewrite column_no_dollar; [done|]. specialize (Hnew c eq_refl). by eapply Forall_forall in Hc.
  - apply Hk in Hres as [Ht Hcols]%Forall_cons.
    assert (0 ≤ where_leaves (q_cond spec)) as Hw0 by (destruct (q_cond spec); [apply leaves_nonneg|done]).
    destruct (piece_where 1 (q_cond spec)) as [H Hst]; [lia|lia|done|].
    do 3 (apply piece_plain_app; [first [done|by apply quoted_no_dollar]|]).
    apply piece_plain_app; [by apply quoted_no_dollar|]. apply piece_plain_app; [done|].
    eapply piece_num; [apply piece_app; [apply piece_hole; unfold INT_MAX; lia|exact H|done]|].
    destruct (Z.eqb_spec (where_leaves (q_cond spec)) 0); lia.
  - apply Hk in Hres as [Ht Hcols]%Forall_cons.
    rewrite <-!sapp_assoc. apply Hwhere; [|done|done]. by rewrite !no_dollar_app, Hq, quoted_no_dollar.
Qed.
