(* ===== verification/SqlTextProofs.v ===== *)
(** * Reading a statement gives it back

    The tokens of the text of a statement, and the proof that the reader of
    SqlText finds them and the statement again. *)

From Stdlib Require Import Ascii String.
From S2P Require Import Prelude Types Driver MemDriver PgText Condition QueryBuilder QueryBuilderProofs.
From S2P Require Import Registry RegistryProofs SqlText.

(** ** Tokens *)

(** A name without a quote. *)
Definition plain_name (n : string) : bool :=
  string_forall (λ c, negb (bool_decide (c = DQC))) n.

(** The text does not go on with the word before it. *)
Definition stops (r : string) : Prop :=
  match r with String c _ => isalnum c = false | EmptyString => True end.

Definition starts (s : string) : Prop := ∀ r, stops (s +:+ r).

Definition lexes (s : string) (ts : list Tok) : Prop :=
  ∀ r, stops r → lex LIdle (s +:+ r) = ts ++ lex LIdle r.

Lemma lex_in_name w acc r :
  plain_name w = true → lex (LName acc) (w +:+ String DQC r) = TName (acc +:+ w) :: lex LIdle r.
Proof.
  revert acc. induction w as [|c w IH]; intros acc Hw; [by rewrite sapp_nil_r|].
  apply andb_true_iff in Hw as [Hc Hw]. rewrite sapp_cons. cbn [lex].
  destruct (bool_decide (c = DQC)); [done|]. rewrite (IH _ Hw). do 2 f_equal. by rewrite sapp_assoc.
Qed.

Lemma quoted_dq n r : quoted n +:+ r = String DQC (n +:+ String DQC r).
Proof. unfold quoted. change DQ with (String DQC EmptyString). by rewrite !sapp_assoc. Qed.

Lemma lexes_quoted n : plain_name n = true → lexes (quoted n) [TName n].
Proof. intros Hn r _. rewrite quoted_dq. cbn [lex]. by apply (lex_in_name n EmptyString). Qed.

Lemma starts_quoted n : starts (quoted n).
Proof. intros r. by rewrite quoted_dq. Qed.

Lemma lex_in_word w acc r :
  string_forall isalnum w = true → stops r →
  lex (LWord acc) (w +:+ r) = TWord (acc +:+ w) :: lex LIdle r.
Proof.
  intros Hw Hr. revert acc Hw. induction w as [|c w IH]; intros acc Hw.
  - rewrite sapp_nil_r. change (EmptyString +:+ r) with r. destruct r as [|c r]; [done|].
    simpl in Hr. cbn [lex]. by rewrite Hr.
  - apply andb_true_iff in Hw as [Hc Hw]. rewrite sapp_cons. cbn [lex]. rewrite Hc, (IH _ Hw).
    do 2 f_equal. by rewrite sapp_assoc.
Qed.

Lemma digits_alnum s : all_digits s = true → string_forall isalnum s = true.
Proof.
  induction s as [|c s IH]; [done|]. cbn [all_digits string_forall]. intros [Hc Hs]%andb_true_iff.
  rewrite (IH Hs), andb_true_r. unfold isalnum. by rewrite Hc, orb_true_r.
Qed.

Definition hole_toks (d : C2SqlDialect) (n : Z) : list Tok :=
  match d with
  | C2SQL_DIALECT_SQLITE => [TSym "?"]
  | C2SQL_DIALECT_POSTGRES => [TSym "$"; TWord (dec n)]
  end.

Lemma lexes_hole d n : 0 ≤ n < 10 ^ 14 → lexes (hole d n) (hole_toks d n).
Proof.
  intros Hn r Hr. destruct d; [done|]. cbn [hole hole_toks]. rewrite sapp_assoc.
  change (lex LIdle ("$" +:+ dec n +:+ r)) with (TSym "$" :: lex LIdle (dec n +:+ r)).
  unfold dec. rewrite (proj2 (Z.ltb_ge n 0)) by lia.
  destruct (dec_loop_digits 20 n EmptyString) as (ds & -> & Hall & Hne & _); [lia| |].
  { change (10 ^ Z.of_nat 20) with 100000000000000000000. lia. }
  rewrite sapp_nil_r. apply digits_alnum in Hall. destruct ds as [|c ds]; [done|].
  apply andb_true_iff in Hall as [Hc Hall]. rewrite sapp_cons. cbn [lex]. rewrite Hc.
  cbn [app]. f_equal. by apply (lex_in_word ds (String c EmptyString)).
Qed.

Lemma starts_hole d n : starts (hole d n).
Proof. by intros r; destruct d. Qed.

Lemma lexes_app s1 s2 t1 t2 :
  lexes s1 t1 → lexes s2 t2 → starts s2 → lexes (s1 +:+ s2) (t1 ++ t2).
Proof. intros H1 H2 Hs r Hr. rewrite sapp_assoc, H1, H2, (assoc_L app) by done. done. Qed.

(** A piece that ends in a separator. *)
Lemma lexes_lit s1 s2 t1 t2 :
  (∀ r, lex LIdle (s1 +:+ r) = t1 ++ lex LIdle r) → lexes s2 t2 → lexes (s1 +:+ s2) (t1 ++ t2).
Proof. intros H1 H2 r Hr. by rewrite sapp_assoc, H1, H2, (assoc_L app). Qed.

Lemma starts_app s1 s2 : starts s1 → s1 ≠ EmptyString → starts (s1 +:+ s2).
Proof. intros H Hne r. rewrite sapp_assoc. apply H. Qed.

(** Lists with commas. *)
Fixpoint commas_toks (l : list (list Tok)) : list Tok :=
  match l with
  | [] => []
  | [t] => t
  | t :: l => t ++ TSym "," :: commas_toks l
  end.

Lemma join_cons2 sep s1 s2 l : join sep (s1 :: s2 :: l) = s1 +:+ sep +:+ join sep (s2 :: l).
Proof. done. Qed.

Lemma lexes_join l tl :
  Forall2 lexes l tl → lexes (join "," l) (commas_toks tl).
Proof.
  induction 1 as [|s t l tl Hs Hl IH]; [by intros r Hr|].
  destruct Hl as [|s2 t2 l tl Hs2 Hl]; [done|]. rewrite join_cons2.
  change (commas_toks (t :: t2 :: tl)) with (t ++ TSym "," :: commas_toks (t2 :: tl)).
  apply lexes_app; [done| |by intros r].
  by apply (lexes_lit "," _ [TSym ","]).
Qed.

Lemma starts_join s l : starts s → starts (join "," (s :: l)).
Proof.
  intros Hs r. destruct l as [|s2 l]; [apply Hs|]. rewrite join_cons2, !sapp_assoc. apply Hs.
Qed.

(** ** The tokens of a statement *)

Definition op_toks (op : SqlRDBOp) : list Tok :=
  match op with
  | SQL_OP_NE => [TSym "!"; TSym "="]
  | SQL_OP_LT => [TSym "<"]
  | SQL_OP_LE => [TSym "<"; TSym "="]
  | SQL_OP_GT => [TSym ">"]
  | SQL_OP_GE => [TSym ">"; TSym "="]
  | SQL_OP_EQ | SQL_OP_other _ => [TSym "="]
  end.

Fixpoint pred_toks (d : C2SqlDialect) (n : Z) (p : Pred) : list Tok :=
  match p with
  | PCmp col op => TName col :: op_toks op ++ hole_toks d (n + 1)
  | PAnd l r => TSym "(" :: pred_toks d n l ++ TWord "AND" :: pred_toks d (n + pred_holes l) r ++ [TSym ")"]
  | POr l r => TSym "(" :: pred_toks d n l ++ TWord "OR" :: pred_toks d (n + pred_holes l) r ++ [TSym ")"]
  end.

Definition where_toks (d : C2SqlDialect) (n : Z) (w : option Pred) : list Tok :=
  match w with None => [] | Some p => TWord "WHERE" :: pred_toks d n p end.

Definition names_toks (cols : list string) : list Tok := commas_toks ((λ c, [TName c]) <$> cols).

Fixpoint holes_toks (d : C2SqlDialect) (n : Z) (k : nat) : list (list Tok) :=
  match k with O => [] | S k => hole_toks d (n + 1) :: holes_toks d (n + 1) k end.

Definition set_toks (c : string) : list Tok :=
  [TName c; TSym "="; TWord "excluded"; TSym "."; TName c].

Definition insert_toks (d : C2SqlDialect) (t : string) (cols : list string) : list Tok :=
  TWord "INSERT" :: TWord "INTO" :: TName t :: TSym "(" :: names_toks cols ++
  TSym ")" :: TWord "VALUES" :: TSym "(" :: commas_toks (holes_toks d 0 (length cols)) ++ [TSym ")"].

Definition sql_toks (d : C2SqlDialect) (q : Sql) : list Tok :=
  match q with
  | SInsert t cols => insert_toks d t cols
  | SUpsert t cols key sets =>
      insert_toks d t cols ++ TWord "ON" :: TWord "CONFLICT" :: TSym "(" :: TName key :: TSym ")" ::
      TWord "DO" :: TWord "UPDATE" :: TWord "SET" :: commas_toks (set_toks <$> sets)
  | SSelect t cols w =>
      TWord "SELECT" :: names_toks cols ++ TWord "FROM" :: TName t :: where_toks d 0 w
  | SCount t w =>
      TWord "SELECT" :: TWord "COUNT" :: TSym "(" :: TSym "*" :: TSym ")" :: TWord "FROM" :: TName t ::
      where_toks d 0 w
  | SDelete t w => TWord "DELETE" :: TWord "FROM" :: TName t :: where_toks d 0 w
  | SUpdate t col w =>
      TWord "UPDATE" :: TName t :: TWord "SET" :: TName col :: TSym "=" :: hole_toks d 1 ++ where_toks d 1 w
  end.

(** Names without quotes, one of the six operators. *)
Fixpoint pred_ok (p : Pred) : Prop :=
  match p with
  | PCmp col op => plain_name col = true ∧ (∀ n, op ≠ SQL_OP_other n)
  | PAnd l r | POr l r => pred_ok l ∧ pred_ok r
  end.

Definition where_ok (w : option Pred) : Prop := from_option pred_ok True w.

Definition names_ok (l : list string) : Prop := l ≠ [] ∧ Forall (λ n, plain_name n = true) l.

Definition sql_ok (q : Sql) : Prop :=
  sql_holes q < 10 ^ 14 - 1 ∧
  match q with
  | SInsert t cols => plain_name t = true ∧ names_ok cols
  | SUpsert t cols key sets => plain_name t = true ∧ names_ok cols ∧ plain_name key = true ∧ names_ok sets
  | SSelect t cols w => plain_name t = true ∧ names_ok cols ∧ where_ok w
  | SCount t w | SDelete t w => plain_name t = true ∧ where_ok w
  | SUpdate t col w => plain_name t = true ∧ plain_name col = true ∧ where_ok w
  end.

Lemma pred_holes_pos p : 1 ≤ pred_holes p.
Proof. induction p; simpl; lia. Qed.

Lemma lexes_names cols : Forall (λ n, plain_name n = true) cols → lexes (names_print cols) (names_toks cols).
Proof.
  intros H. apply lexes_join. induction H as [|c cols Hc _ IH]; constructor; [by apply lexes_quoted|done].
Qed.

Lemma starts_names cols : cols ≠ [] → starts (names_print cols).
Proof. destruct cols as [|c cols]; [done|]. intros _. apply starts_join, starts_quoted. Qed.

Lemma lexes_holes d n k :
  0 ≤ n → n + Z.of_nat k < 10 ^ 14 → Forall2 lexes (holes d n k) (holes_toks d n k).
Proof.
  revert n. induction k as [|k IH]; intros n Hn Hk; cbn [holes holes_toks]; constructor.
  - apply lexes_hole. lia.
  - apply IH; lia.
Qed.

Lemma lexes_sets sets :
  Forall (λ n, plain_name n = true) sets →
  lexes (join "," (set_print <$> sets)) (commas_toks (set_toks <$> sets)).
Proof.
  intros H. apply lexes_join. induction H as [|c cols Hc _ IH]; constructor; [|done].
  unfold set_print. apply (lexes_app _ _ [TName c]); [by apply lexes_quoted| |by intros r].
  apply (lexes_lit _ _ [TSym "="; TWord "excluded"; TSym "."]); [done|]. by apply lexes_quoted.
Qed.

(** ** The text has these tokens *)

Lemma lexes_op op r : lex LIdle (op_to_sql_str op +:+ r) = op_toks op ++ lex LIdle r.
Proof. by destruct op. Qed.

Lemma starts_pred d n p : starts (pred_print d n p).
Proof.
  destruct p as [c op|p q|p q]; cbn [pred_print]; [|by intros r..]. apply starts_app; [apply starts_quoted|done].
Qed.

(** Both connectives. *)
Lemma lexes_pair w s1 s2 t1 t2 :
  (∀ r, lex LIdle ((" " +:+ w +:+ " ") +:+ r) = TWord w :: lex LIdle r) →
  lexes s1 t1 → lexes s2 t2 →
  lexes ("(" +:+ s1 +:+ (" " +:+ w +:+ " ") +:+ s2 +:+ ")") (TSym "(" :: t1 ++ TWord w :: t2 ++ [TSym ")"]).
Proof.
  intros Hw H1 H2. apply (lexes_lit "(" _ [TSym "("]); [done|].
  apply lexes_app; [done| |by intros r].
  apply (lexes_lit _ _ [TWord w]); [done|]. by apply lexes_app.
Qed.

Lemma lexes_pred d n p :
  pred_ok p → 0 ≤ n → n + pred_holes p < 10 ^ 14 → lexes (pred_print d n p) (pred_toks d n p).
Proof.
  revert n. induction p as [c op|p IHp q IHq|p IHp q IHq]; intros n Hok Hn Hb;
    cbn [pred_ok pred_holes pred_print pred_toks] in *.
  - destruct Hok as [Hc _]. apply (lexes_app _ _ [TName c]); [by apply lexes_quoted| |by intros r].
    apply (lexes_lit " " _ []); [done|]. apply lexes_lit; [apply lexes_op|].
    apply (lexes_lit " " _ []); [done|]. apply lexes_hole. lia.
  - pose proof (pred_holes_pos p). pose proof (pred_holes_pos q). destruct Hok.
    apply (lexes_pair "AND"); [done|apply IHp; (done || lia)|apply IHq; (done || lia)].
  - pose proof (pred_holes_pos p). pose proof (pred_holes_pos q). destruct Hok.
    apply (lexes_pair "OR"); [done|apply IHp; (done || lia)|apply IHq; (done || lia)].
Qed.

Lemma lexes_where d n w :
  where_ok w → 0 ≤ n → n + where_holes w < 10 ^ 14 → lexes (where_print d n w) (where_toks d n w).
Proof.
  intros Hok Hn Hb. destruct w as [p|]; [|by intros r]. cbn [where_print where_toks].
  apply (lexes_lit " WHERE " _ [TWord "WHERE"]); [done|]. by apply lexes_pred.
Qed.

Lemma starts_where d n w r : stops r → stops (where_print d n w +:+ r).
Proof. by destruct w. Qed.

(** A table's name and the end of the statement. *)
Lemma lexes_table d n t w :
  plain_name t = true → where_ok w → 0 ≤ n → n + where_holes w < 10 ^ 14 →
  lexes (quoted t +:+ where_print d n w) (TName t :: where_toks d n w).
Proof.
  intros Ht Hok Hn Hb r Hr. rewrite sapp_assoc, lexes_quoted by (try done; by apply starts_where).
  cbn [app]. f_equal. by apply lexes_where.
Qed.

Lemma lexes_insert d t cols :
  plain_name t = true → names_ok cols → Z.of_nat (length cols) < 10 ^ 14 →
  lexes (insert_print d t cols) (insert_toks d t cols).
Proof.
  intros Ht [Hne Hcols] Hb. unfold insert_print, insert_toks.
  apply (lexes_lit "INSERT INTO " _ [TWord "INSERT"; TWord "INTO"]); [done|].
  apply (lexes_app _ _ [TName t]); [by apply lexes_quoted| |by intros r].
  apply (lexes_lit " (" _ [TSym "("]); [done|].
  apply lexes_app; [by apply lexes_names| |by intros r].
  apply (lexes_lit ") VALUES (" _ [TSym ")"; TWord "VALUES"; TSym "("]); [done|].
  apply lexes_app; [apply lexes_join, lexes_holes; lia|done|by intros r].
Qed.

Lemma lexes_sql d q : sql_ok q → lexes (sql_print d q) (sql_toks d q).
Proof.
  intros [Hb Hok]. destruct q as [t cols|t cols key sets|t cols w|t w|t w|t col w];
    cbn [sql_holes sql_print sql_toks] in *.
  - destruct Hok. apply lexes_insert; (done || lia).
  - destruct Hok as (Ht & Hc & Hk & Hs & Hsets). apply lexes_app; [apply lexes_insert; (done || lia)| |by intros r].
    apply (lexes_lit " ON CONFLICT(" _ [TWord "ON"; TWord "CONFLICT"; TSym "("]); [done|].
    apply (lexes_app _ _ [TName key]); [by apply lexes_quoted| |by intros r].
    apply (lexes_lit ") DO UPDATE SET " _ [TSym ")"; TWord "DO"; TWord "UPDATE"; TWord "SET"]); [done|].
    by apply lexes_sets.
  - destruct Hok as (Ht & [Hne Hc] & Hw). apply (lexes_lit "SELECT " _ [TWord "SELECT"]); [done|].
    apply lexes_app; [by apply lexes_names| |by intros r].
    apply (lexes_lit " FROM " _ [TWord "FROM"]); [done|]. apply lexes_table; (done || lia).
  - destruct Hok as (Ht & Hw).
    apply (lexes_lit "SELECT COUNT(*) FROM " _
      [TWord "SELECT"; TWord "COUNT"; TSym "("; TSym "*"; TSym ")"; TWord "FROM"]); [done|].
    apply lexes_table; (done || lia).
  - destruct Hok as (Ht & Hw). apply (lexes_lit "DELETE FROM " _ [TWord "DELETE"; TWord "FROM"]); [done|].
    apply lexes_table; (done || lia).
  - destruct Hok as (Ht & Hc & Hw). apply (lexes_lit "UPDATE " _ [TWord "UPDATE"]); [done|].
    apply (lexes_app _ _ [TName t]); [by apply lexes_quoted| |by intros r].
    apply (lexes_lit " SET " _ [TWord "SET"]); [done|].
    apply (lexes_app _ _ [TName col]); [by apply lexes_quoted| |by intros r].
    apply (lexes_lit "=" _ [TSym "="]); [done|]. intros r Hr.
    rewrite sapp_assoc, lexes_hole by (try (by apply starts_where); lia).
    rewrite lexes_where by (done || lia). by rewrite (assoc_L app).
Qed.

(** ** Reading the tokens *)

Lemma p_hole_toks d n ts : p_hole (hole_toks d n ++ ts) = Some ts.
Proof. by destruct d. Qed.

Lemma p_op_toks op d n ts :
  (∀ k, op ≠ SQL_OP_other k) → p_op (op_toks op ++ hole_toks d n ++ ts) = Some (op, hole_toks d n ++ ts).
Proof. intros H. destruct op, d; try done; by destruct (H n0). Qed.

Lemma p_names_toks cols ts :
  cols ≠ [] → (∀ ts', ts ≠ TSym "," :: ts') → p_names (names_toks cols ++ ts) = Some (cols, ts).
Proof.
  intros Hne Hts. destruct cols as [|c cols]; [done|]. clear Hne. unfold names_toks.
  revert c. induction cols as [|c2 cols IH]; intros c.
  - simpl. destruct ts as [|[n|w|s] ts]; try done. destruct (decide (s = ","%char)) as [->|Hs].
    + by destruct (Hts ts).
    + destruct s as [[] [] [] [] [] [] [] []]; done.
  - rewrite fmap_cons. cbn [commas_toks fmap list_fmap app].
    change (p_names (TName c :: TSym "," :: commas_toks ((λ c0, [TName c0]) <$> c2 :: cols) ++ ts) =
      Some (c :: c2 :: cols, ts)). cbn [p_names]. by rewrite IH.
Qed.

Lemma p_sets_toks sets : sets ≠ [] → p_sets (commas_toks (set_toks <$> sets)) = Some sets.
Proof.
  intros Hne. destruct sets as [|c sets]; [done|]. clear Hne. revert c.
  induction sets as [|c2 sets IH]; intros c.
  - simpl. by rewrite decide_True.
  - change (commas_toks (set_toks <$> c :: c2 :: sets)) with
      (TName c :: TSym "=" :: TWord "excluded" :: TSym "." :: TName c :: TSym "," ::
       commas_toks (set_toks <$> c2 :: sets)).
    cbn [p_sets]. rewrite decide_True by done. by rewrite IH.
Qed.

Lemma p_holes_toks d n k ts : p_holes k (commas_toks (holes_toks d n k) ++ ts) = Some ts.
Proof.
  revert n. induction k as [|k IH]; intros n; [done|]. destruct k as [|k]; [apply p_hole_toks|].
  change (commas_toks (holes_toks d n (S (S k)))) with
    (hole_toks d (n + 1) ++ TSym "," :: commas_toks (holes_toks d (n + 1) (S k))).
  cbn [p_holes]. rewrite <-(assoc_L app), p_hole_toks. apply IH.
Qed.

Lemma p_pred_toks d n p fuel ts :
  pred_ok p → (length (pred_toks d n p) ≤ fuel)%nat → p_pred fuel (pred_toks d n p ++ ts) = Some (p, ts).
Proof.
  revert n fuel ts. induction p as [c op|p IHp q IHq|p IHp q IHq]; intros n fuel ts Hok Hf;
    cbn [pred_ok pred_toks] in *; cbn [length] in Hf; rewrite ?length_app in Hf; cbn [length] in Hf;
    rewrite ?length_app in Hf; (destruct fuel as [|fuel]; [lia|]).
  - destruct Hok as [_ Hop]. cbn [app p_pred]. rewrite <-(assoc_L app), p_op_toks by done.
    cbn [mbind option_bind]. by rewrite p_hole_toks.
  - destruct Hok as [Hp Hq]. cbn [app p_pred]. rewrite <-(assoc_L app), IHp by (done || lia).
    cbn [mbind option_bind app]. rewrite <-(assoc_L app), IHq by (done || (simpl in *; lia)). done.
  - destruct Hok as [Hp Hq]. cbn [app p_pred]. rewrite <-(assoc_L app), IHp by (done || lia).
    cbn [mbind option_bind app]. rewrite <-(assoc_L app), IHq by (done || (simpl in *; lia)). done.
Qed.

Lemma p_where_toks d n w : where_ok w → p_where (where_toks d n w) = Some w.
Proof.
  intros Hw. destruct w as [p|]; [|done]. cbn [where_toks p_where].
  rewrite <-(app_nil_r (pred_toks d n p)) at 2. by rewrite p_pred_toks.
Qed.

Lemma p_insert_toks d t cols ts :
  names_ok cols →
  p_insert (TName t :: TSym "(" :: names_toks cols ++ TSym ")" :: TWord "VALUES" :: TSym "(" ::
    commas_toks (holes_toks d 0 (length cols)) ++ TSym ")" :: ts) =
  match ts with
  | [] => Some (SInsert t cols)
  | TWord "ON" :: TWord "CONFLICT" :: TSym "(" :: TName key :: TSym ")" ::
      TWord "DO" :: TWord "UPDATE" :: TWord "SET" :: ts => sets ← p_sets ts; Some (SUpsert t cols key sets)
  | _ => None
  end.
Proof.
  intros [Hne _]. cbn [p_insert]. rewrite p_names_toks by done. cbn [mbind option_bind].
  by rewrite p_holes_toks.
Qed.

Lemma p_sql_toks d q : sql_ok q → p_sql (sql_toks d q) = Some q.
Proof.
  intros [_ Hok]. destruct q as [t cols|t cols key sets|t cols w|t w|t w|t col w]; cbn [sql_toks].
  - destruct Hok as [_ Hc]. unfold insert_toks. cbn [p_sql]. by rewrite p_insert_toks.
  - destruct Hok as (_ & Hc & _ & [Hs _]). unfold insert_toks. cbn [app p_sql].
    rewrite <-(assoc_L app). cbn [app]. rewrite <-(assoc_L app). cbn [app].
    rewrite p_insert_toks by done. by rewrite p_sets_toks.
  - destruct Hok as (_ & [Hne _] & Hw).
    assert (p_sql (TWord "SELECT" :: names_toks cols ++ TWord "FROM" :: TName t :: where_toks d 0 w) =
      '(cols, ts) ← p_names (names_toks cols ++ TWord "FROM" :: TName t :: where_toks d 0 w);
      match ts with
      | TWord "FROM" :: TName t :: ts => SSelect t cols <$> p_where ts
      | _ => None
      end) as -> by (by destruct cols as [|c [|c2 cols]]).
    rewrite p_names_toks by done. cbn [mbind option_bind]. by rewrite p_where_toks.
  - destruct Hok as [_ Hw]. cbn [p_sql]. by rewrite p_where_toks.
  - destruct Hok as [_ Hw]. cbn [p_sql]. by rewrite p_where_toks.
  - destruct Hok as (_ & _ & Hw). cbn [p_sql]. rewrite p_hole_toks. cbn [mbind option_bind].
    by rewrite p_where_toks.
Qed.

Lemma sql_read_print_ok d q : sql_ok q → sql_read (sql_print d q) = Some q.
Proof.
  intros Hq. unfold sql_read. rewrite <-(sapp_nil_r (sql_print d q)), lexes_sql by done.
  cbn [lex flush]. rewrite app_nil_r. by apply p_sql_toks.
Qed.

(** ** The texts of the builder *)

Lemma ident_plain s : string_forall ident_char s = true → plain_name s = true.
Proof.
  unfold plain_name. induction s as [|c s IH]; [done|]. cbn [string_forall]. intros [Hc Hs]%andb_true_iff.
  rewrite IH by done. case_bool_decide as E; [|done]. subst. by vm_compute in Hc.
Qed.

Lemma schema_plain s :
  schema_ok s → plain_name (sch_name s) = true ∧ Forall (λ n, plain_name n = true) (col_names s) ∧
  col_names s ≠ [].
Proof.
  intros ((_ & Hn & _) & Hcount & Hpos & [_ Hc] & _). split; [by apply ident_plain|]. split.
  - apply Forall_fmap. eapply Forall_impl; [exact Hc|]. intros c ((_ & Hi & _) & _). by apply ident_plain.
  - unfold col_names. destruct (sch_cols s); [simpl in *; lia|done].
Qed.

Lemma known_where s c p :
  Forall (λ n, plain_name n = true) (col_names s) →
  Forall (λ n, n ∈ col_names s) (cond_cols c) → pred_of c = Some p → pred_ok p.
Proof.
  intros Hn. revert p. induction c as [col op ty v|l IHl r IHr|l IHl r IHr|]; intros p Hk H; simpl in H; [| | |done].
  - injection H as <-. split; [|by destruct op]. apply Forall_inv in Hk.
    rewrite Forall_forall in Hn. by apply Hn.
  - apply option.bind_Some in H as (pl & Hl & (pr & Hr & [= <-])%option.bind_Some).
    apply Forall_app in Hk as [Hk1 Hk2]. split; [by apply IHl|by apply IHr].
  - apply option.bind_Some in H as (pl & Hl & (pr & Hr & [= <-])%option.bind_Some).
    apply Forall_app in Hk as [Hk1 Hk2]. split; [by apply IHl|by apply IHr].
Qed.

Lemma known_where_ok s c :
  Forall (λ n, plain_name n = true) (col_names s) →
  Forall (λ n, n ∈ col_names s) (where_cols c) → where_ok (where_of c).
Proof.
  intros Hn Hk. destruct c as [c|]; [|done]. unfold where_of. cbn [mbind option_bind].
  destruct (pred_of c) as [p|] eqn:E; [|done]. by eapply known_where.
Qed.

(** A specification with a text that is a statement on rows. *)
Definition spec_proper (spec : SqlRDBQuerySpec) (s : SqlRDBSchema) : Prop :=
  row_op (q_op spec) = true ∧ where_proper (q_cond spec) ∧
  (q_op spec = C2SQL_QB_UPSERT → other_cols s ≠ []).

Lemma qb_sql_holes spec s :
  schema_ok s → spec_proper spec s → sql_holes (qb_sql spec s) = qb_binds spec s.
Proof.
  intros (_ & Hc & _) (Hop & Hw & _). pose proof (where_of_print C2SQL_DIALECT_SQLITE _ 0 Hw) as [_ E].
  unfold qb_sql, qb_binds, col_names. destruct (q_op spec); try done; simpl; rewrite ?length_fmap; lia.
Qed.

Lemma qb_sql_ok spec s :
  schema_ok s → spec_proper spec s → qb_result spec s = SQL_RDB_OK → qb_binds spec s < 10 ^ 14 - 1 →
  sql_ok (qb_sql spec s).
Proof.
  intros Hs Hp Hres Hb. pose proof (schema_plain s Hs) as (Hn & Hc & Hne).
  split; [by rewrite qb_sql_holes|]. destruct Hp as (Hop & _ & Hset).
  assert (Forall (λ n, n ∈ col_names s) (qb_cols spec)) as Hk.
  { unfold qb_result in Hres. destruct (forallb _ _) eqn:E; [|by destruct (q_op spec)].
    apply Forall_forall. intros n Hin. rewrite forallb_forall in E.
    specialize (E n). apply list_elem_of_In in Hin. by apply E, bool_decide_eq_true in Hin. }
  assert (plain_name (pk_name s) = true) as Hpk.
  { unfold pk_name. destruct (sch_cols s !! _) as [c|] eqn:E; [|done]. rewrite Forall_forall in Hc.
    apply Hc. unfold col_names. apply list_elem_of_fmap. exists c. split; [done|]. by eapply list_elem_of_lookup_2. }
  assert (Forall (λ n, plain_name n = true) (col_name <$> other_cols s)) as Ho.
  { unfold other_cols, col_names in *. rewrite Forall_fmap in Hc |- *. by apply Forall_delete. }
  unfold qb_sql, qb_cols in *. destruct (q_op spec); try done.
  - split_and!; try done. split; [|done]. intros E%fmap_nil_inv. by apply Hset.
  - split_and!; try done. by eapply known_where_ok.
  - split_and!; try done. by eapply known_where_ok.
  - split_and!; try done. by eapply known_where_ok.
  - inversion Hk as [|x l Ht Hw]; subst. split_and!; try done.
    + rewrite Forall_forall in Hc. auto.
    + by eapply known_where_ok.
  - inversion Hk as [|x l Ht Hw]; subst. split_and!; try done.
    + split; [done|]. constructor; [|done]. rewrite Forall_forall in Hc. auto.
    + by eapply known_where_ok.
Qed.

Lemma qb_text_read spec s :
  schema_ok s → spec_proper spec s → qb_result spec s = SQL_RDB_OK → qb_binds spec s < 10 ^ 14 - 1 →
  sql_read (qb_text spec s) = Some (qb_sql spec s).
Proof.
  intros Hs Hp Hres Hb. pose proof Hp as (Hop & Hw & _). rewrite qb_text_print by done.
  by apply sql_read_print_ok, qb_sql_ok.
Qed.

(** ** Properties *)

(** C14: the texts of the builder can be read back.  For a registered schema, a
    condition in which COND_ALL stands alone and an upsert that has a column to
    set, a text that qb_build returns is read back as the statement of the
    specification: its table, its columns, its operators in their order and
    grouping.  So a text stands for one statement only, and no name of a struct
    or a column can change what the statement is. *)
Theorem qb_build_readable spec s al r sql n al' :
  q_schema spec = Some s → schema_ok s → spec_ok spec → spec_proper spec s →
  schema_wf (q_op spec) s → slen (qb_text spec s) < MAX_TEXT → qb_binds spec s < 10 ^ 14 - 1 →
  c2sql_internal_qb_build (Some spec) al = Some ((r, Some sql, n), al') →
  sql_read sql = Some (qb_sql spec s) ∧ n = Some (sql_holes (qb_sql spec s)).
Proof.
  intros Hsch Hs Hok Hp Hwf Ht Hb E.
  destruct (qb_build_promise spec s al Hsch Hok Hwf Ht) as (r' & sql' & n' & al2 & E' & (Hres & _ & Hv) & _).
  { unfold MAX_BINDS. lia. }
  rewrite E in E'. injection E' as <- <- <- <-. destruct (res_ok r) eqn:Er; [|by destruct Hv].
  destruct Hv as [[= ->] ->]. apply res_ok_true in Er as ->. rewrite qb_sql_holes by done. split; [|done].
  apply qb_text_read; try done. by destruct Hres as [<-|].
Qed.

Lemma ex_schema_ok : schema_ok ex_schema.
Proof.
  assert (∀ x, identifier_valid (Some x) = true → valid_ident x) as Hi by (intros x; by apply identifier_valid_spec).
  split_and!; [by apply Hi|done|simpl; unfold C2SQL_MAX_COLUMNS; lia|simpl; unfold C2SQL_MAX_COLUMNS; lia| |].
  - split; [by apply (bool_decide_unpack _); vm_compute|].
    repeat constructor; try done; by apply identifier_valid_spec.
  - right. exists 0%nat. eexists. split_and!; [done|done|done|]. intros j c Hj. lia.
Qed.

Lemma qb_build_readable_witness :
  sql_read (qb_text (ex_spec C2SQL_QB_SELECT C2SQL_DIALECT_POSTGRES) ex_schema) =
    Some (SSelect "persons" ["id"; "name"]%string
      (Some (PAnd (PCmp "id" SQL_OP_GE) (PCmp "name" SQL_OP_NE)))).
Proof.
  destruct (c2sql_internal_qb_build (Some (ex_spec C2SQL_QB_SELECT C2SQL_DIALECT_POSTGRES)) [])
    as [[[[r [sql|]] n] al']|] eqn:E; [|vm_compute in E; discriminate..].
  destruct (qb_build_readable (ex_spec C2SQL_QB_SELECT C2SQL_DIALECT_POSTGRES) ex_schema [] r sql n al') as [H _].
  - reflexivity.
  - exact ex_schema_ok.
  - split; [discriminate|]. intros [H|H]; discriminate.
  - split; [reflexivity|]. split; [eexists; reflexivity|discriminate].
  - apply ex_schema_wf.
  - vm_compute. reflexivity.
  - vm_compute. reflexivity.
  - exact E.
  - vm_compute in E. injection E as _ <- _ _. exact H.
Defined.
