(* ===== verification/TypeMapping.v ===== *)
(** * Type mapping (src/type_mapping.c, src/type_mapping.h)

    Binding the members of a caller's struct to a statement and reading a
    result row back into one.  A struct is the list of its bytes; integers are
    stored little-endian, as on the platforms the project builds for.  Every
    access outside of the struct, of the NULL bitmap or of a buffer the driver
    returns is undefined behaviour. *)

From Stdlib Require Import Strings.Byte.
From coqutil Require Import Word.LittleEndianList Byte.
From S2P Require Import Prelude Types Driver.

(** ** Memory *)

(** The [n] bytes at offset [off]. *)
Definition bytes_at (row : list byte) (off n : Z) : option (list byte) :=
  if (0 <=? off) && (0 <=? n) && (off + n <=? Z.of_nat (length row))
  then Some (take (Z.to_nat n) (drop (Z.to_nat off) row)) else None.

(** memcpy to offset [off]. *)
Definition write_at (row : list byte) (off : Z) (bs : list byte) : option (list byte) :=
  if (0 <=? off) && (off + Z.of_nat (length bs) <=? Z.of_nat (length row))
  then Some (take (Z.to_nat off) row ++ bs ++ drop (Z.to_nat off + length bs) row) else None.

(** ** NULL bitmap *)

Definition c2sql_internal_null_bit_get (map : option (list byte)) (col_idx : Z) : option bool :=
  match map with
  | None => Some false
  | Some m =>
      b ← m !! Z.to_nat (Z.shiftr col_idx 3);
      Some (negb (Z.land (Z.shiftr (byte.unsigned b) (Z.land col_idx 7)) 1 =? 0))
  end.

Definition c2sql_internal_null_bit_set (map : option (list byte)) (col_idx : Z) :
    option (option (list byte)) :=
  match map with
  | None => Some None
  | Some m =>
      let i := Z.to_nat (Z.shiftr col_idx 3) in
      b ← m !! i;
      Some (Some (<[i := byte.of_Z (Z.lor (byte.unsigned b) (Z.shiftl 1 (Z.land col_idx 7)))]> m))
  end.

(** ** Binding *)

(** [s] is the memory from the member on; reading past it is undefined. *)
Fixpoint bounded_strlen_loop (fuel : nat) (s : list byte) (n maxlen : Z) : option Z :=
  match fuel with
  | O => None
  | S fuel =>
      if n <? maxlen then
        match s with
        | [] => None
        | c :: s' => if byte.unsigned c =? 0 then Some n
                     else bounded_strlen_loop fuel s' (n + 1) maxlen
        end
      else Some n
  end.

Definition bounded_strlen (s : list byte) (maxlen : Z) : option Z :=
  bounded_strlen_loop (S (length s)) s 0 maxlen.

Section driver.
Context {D : Type} (drv : SqlRDBDriver D).

Definition bind_one (stmt : ptr) (bind_idx : Z) (col : SqlRDBColumnDef) (row : list byte) :
    M D SqlRDBResult :=
  match col_type col with
  | SQL_TYPE_INT32 =>
      v ← mdef (bytes_at row (col_offset col) 4);
      drv_bind_int32 drv stmt bind_idx (to_signed 32 (le_combine v))
  | SQL_TYPE_INT64 =>
      v ← mdef (bytes_at row (col_offset col) 8);
      drv_bind_int64 drv stmt bind_idx (to_signed 64 (le_combine v))
  | SQL_TYPE_REAL =>
      v ← mdef (bytes_at row (col_offset col) 8);
      drv_bind_real drv stmt bind_idx (le_combine v)
  | SQL_TYPE_TEXT =>
      n ← mdef (bounded_strlen (drop (Z.to_nat (col_offset col)) row) (col_size col));
      let n := if INT_MAX <? n then INT_MAX else n in
      s ← mdef (bytes_at row (col_offset col) n);
      drv_bind_text drv stmt bind_idx (Some s) n
  | SQL_TYPE_BLOB =>
      s ← mdef (bytes_at row (col_offset col) (col_size col));
      drv_bind_blob drv stmt bind_idx (Some s) (col_size col)
  | SQL_TYPE_other _ => mret SQL_RDB_ERR_INTERNAL
  end.

Fixpoint bind_row_loop (stmt : ptr) (cols : list SqlRDBColumnDef) (i n : nat)
    (row : list byte) (null_map : option (list byte)) : M D SqlRDBResult :=
  match n with
  | O => mret SQL_RDB_OK
  | S n =>
      col ← mdef (cols !! i);
      let bind_idx := to_signed 32 (Z.of_nat i) + 1 in
      is_null ← mdef (c2sql_internal_null_bit_get null_map (Z.of_nat i));
      if is_null : bool then
        if negb (has_flag (col_flags col) SQL_COL_FLAG_NULLABLE)
        then mret SQL_RDB_ERR_NOT_NULL_VIOLATION
        else
          r ← drv_bind_null drv stmt bind_idx;
          if negb (res_ok r) then mret r else bind_row_loop stmt cols (S i) n row null_map
      else
        r ← bind_one stmt bind_idx col row;
        if negb (res_ok r) then mret r else bind_row_loop stmt cols (S i) n row null_map
  end.

(** NULL arguments are [None]; [drv] is not NULL. *)
Definition c2sql_internal_tm_bind_row (stmt : ptr) (schema : option SqlRDBSchema)
    (row : option (list byte)) (null_map : option (list byte)) : M D SqlRDBResult :=
  match schema, row with
  | Some schema, Some row =>
      if bool_decide (stmt = NULL) then mret SQL_RDB_ERR_INVALID_ARG
      else bind_row_loop stmt (sch_cols schema) 0 (Z.to_nat (sch_col_count schema)) row null_map
  | _, _ => mret SQL_RDB_ERR_INVALID_ARG
  end.

(** ** Reading *)

(** The caller's row and bitmap, and the driver. *)
Record TState : Type := MkT {
  t_row : list byte;
  t_nulls : option (list byte);
  t_db : D;
}.

Definition t_drv {A} (m : M D A) : M TState A :=
  zoom t_db (λ d t, MkT (t_row t) (t_nulls t) d) m.

Definition t_write (off : Z) (bs : list byte) : M TState unit := λ t,
  row ← write_at (t_row t) off bs;
  Some (tt, MkT row (t_nulls t) (t_db t)).

Definition t_set_null (i : Z) : M TState unit := λ t,
  m ← c2sql_internal_null_bit_set (t_nulls t) i;
  Some (tt, MkT (t_row t) m (t_db t)).

(** [if (to_copy > 0 && p) memcpy(base, p, to_copy);] *)
Definition t_copy (off : Z) (p : option (list byte)) (to_copy : Z) : M TState unit :=
  match p with
  | Some p =>
      if 0 <? to_copy then
        bs ← mdef (bytes_at p 0 to_copy);
        t_write off bs
      else mret tt
  | None => mret tt
  end.

Definition read_one (stmt : ptr) (col_idx : Z) (col : SqlRDBColumnDef) : M TState SqlRDBResult :=
  let base := col_offset col in
  match col_type col with
  | SQL_TYPE_INT32 =>
      out ← t_drv (drv_column_int64 drv stmt col_idx);
      let '(r, v) := out in
      if negb (res_ok r) then mret r
      else
        let truncated := (v <? INT32_MIN) || (INT32_MAX <? v) in
        t_write base (le_split 4 (to_signed 32 v));;
        mret (if truncated then SQL_RDB_WARN_TRUNCATED else SQL_RDB_OK)
  | SQL_TYPE_INT64 =>
      out ← t_drv (drv_column_int64 drv stmt col_idx);
      let '(r, v) := out in
      if negb (res_ok r) then mret r
      else t_write base (le_split 8 v);; mret SQL_RDB_OK
  | SQL_TYPE_REAL =>
      out ← t_drv (drv_column_real drv stmt col_idx);
      let '(r, v) := out in
      if negb (res_ok r) then mret r
      else t_write base (le_split 8 v);; mret SQL_RDB_OK
  | SQL_TYPE_TEXT =>
      out ← t_drv (drv_column_text drv stmt col_idx);
      let '(r, (p, plen)) := out in
      if negb (res_ok r) then mret r
      else if col_size col =? 0 then mret SQL_RDB_WARN_TRUNCATED
      else
        let maxlen := col_size col - 1 in
        let to_copy := if plen <? maxlen then plen else maxlen in
        t_copy base p to_copy;;
        t_write (base + to_copy) [byte.of_Z 0];;
        mret (if maxlen <? plen then SQL_RDB_WARN_TRUNCATED else SQL_RDB_OK)
  | SQL_TYPE_BLOB =>
      out ← t_drv (drv_column_blob drv stmt col_idx);
      let '(r, (p, plen)) := out in
      if negb (res_ok r) then mret r
      else
        let to_copy := if plen <? col_size col then plen else col_size col in
        t_copy base p to_copy;;
        mret (if col_size col <? plen then SQL_RDB_WARN_TRUNCATED else SQL_RDB_OK)
  | SQL_TYPE_other _ => mret SQL_RDB_ERR_INTERNAL
  end.

Fixpoint read_row_loop (stmt : ptr) (cols : list SqlRDBColumnDef) (i n : nat)
    (any_truncated : bool) : M TState SqlRDBResult :=
  match n with
  | O => mret (if any_truncated then SQL_RDB_WARN_TRUNCATED else SQL_RDB_OK)
  | S n =>
      col ← mdef (cols !! i);
      let col_idx := to_signed 32 (Z.of_nat i) in
      out ← t_drv (drv_column_isnull drv stmt col_idx);
      let '(r, is_null) := out in
      if negb (res_ok r) then mret r
      else if is_null : bool then
        t_set_null (Z.of_nat i);;
        read_row_loop stmt cols (S i) n any_truncated
      else
        r ← read_one stmt col_idx col;
        match r with
        | SQL_RDB_WARN_TRUNCATED => read_row_loop stmt cols (S i) n true
        | SQL_RDB_OK => read_row_loop stmt cols (S i) n any_truncated
        | _ => mret r
        end
  end.

(** [out_row] is the row of the state, not NULL. *)
Definition c2sql_internal_tm_read_row (stmt : ptr) (schema : option SqlRDBSchema) :
    M TState SqlRDBResult :=
  match schema with
  | Some schema =>
      if bool_decide (stmt = NULL) then mret SQL_RDB_ERR_INVALID_ARG
      else read_row_loop stmt (sch_cols schema) 0 (Z.to_nat (sch_col_count schema)) false
  | None => mret SQL_RDB_ERR_INVALID_ARG
  end.

End driver.
Arguments TState D : clear implicits.
Arguments MkT {D}.
Arguments t_row {D}.
Arguments t_nulls {D}.
Arguments t_db {D}.
