(* ===== verification/TypeMappingProofs.v ===== *)
(** * Correctness of the type mapping

    Memory and bitmap lemmas, the reference view of a row as a list of cells,
    and the proofs that binding sends exactly these cells, that reading stores
    exactly the cells of the result row and nothing else, and that the two are
    inverse to each other. *)

From Stdlib Require Import Strings.Byte.
From coqutil Require Import Word.LittleEndianList Byte.
From S2P Require Import Prelude Types Driver MemDriver QueryBuilderProofs TypeMapping.

(** ** Memory *)

Definition slice (row : list byte) (off n : nat) : list byte := take n (drop off row).

Definition set_slice (row : list byte) (off : nat) (bs : list byte) : list byte :=
  take off row ++ bs ++ drop (off + length bs) row.

Lemma bytes_at_length row off n bs : bytes_at row off n = Some bs → Z.of_nat (length bs) = n.
Proof.
  unfold bytes_at. destruct (Z.leb_spec 0 off), (Z.leb_spec 0 n), (Z.leb_spec (off + n) (Z.of_nat (length row)));
    cbn [andb]; try done. intros [= <-]. rewrite length_take, length_drop. lia.
Qed.

Lemma bytes_at_slice row off n :
  0 ≤ off → 0 ≤ n → off + n ≤ Z.of_nat (length row) →
  bytes_at row off n = Some (slice row (Z.to_nat off) (Z.to_nat n)).
Proof.
  intros. unfold bytes_at. rewrite !(proj2 (Z.leb_le _ _)) by lia. done.
Qed.

Lemma write_at_slice row off bs :
  0 ≤ off → off + Z.of_nat (length bs) ≤ Z.of_nat (length row) →
  write_at row off bs = Some (set_slice row (Z.to_nat off) bs).
Proof.
  intros. unfold write_at. rewrite !(proj2 (Z.leb_le _ _)) by lia. done.
Qed.

Lemma length_slice row off n :
  (off + n ≤ length row)%nat → length (slice row off n) = n.
Proof. intros. unfold slice. rewrite length_take, length_drop. lia. Qed.

Lemma length_set_slice row off bs :
  (off + length bs ≤ length row)%nat → length (set_slice row off bs) = length row.
Proof. intros. unfold set_slice. rewrite !length_app, length_take, length_drop. lia. Qed.

Lemma lookup_set_slice row off bs k :
  (off + length bs ≤ length row)%nat →
  set_slice row off bs !! k =
  if decide (off ≤ k < off + length bs)%nat then bs !! (k - off)%nat else row !! k.
Proof.
  intros H. unfold set_slice. destruct (decide _) as [Hk|Hk].
  - rewrite lookup_app_r by (rewrite length_take; lia).
    rewrite length_take, Nat.min_l by lia. by rewrite lookup_app_l by lia.
  - destruct (decide (k < off)%nat).
    + rewrite lookup_app_l by (rewrite length_take; lia). by rewrite lookup_take_lt by lia.
    + rewrite lookup_app_r by (rewrite length_take; lia).
      rewrite length_take, Nat.min_l by lia. rewrite lookup_app_r by lia.
      rewrite lookup_drop. f_equal. lia.
Qed.

Lemma lookup_slice row off n k :
  slice row off n !! k = if decide (k < n)%nat then row !! (off + k)%nat else None.
Proof.
  unfold slice. destruct (decide (k < n)%nat).
  - by rewrite lookup_take_lt, lookup_drop by lia.
  - by rewrite lookup_take_ge by lia.
Qed.

Lemma slice_set_slice row off bs :
  (off + length bs ≤ length row)%nat → slice (set_slice row off bs) off (length bs) = bs.
Proof.
  intros H. apply list_eq. intros k. rewrite lookup_slice.
  destruct (decide (k < length bs)%nat).
  - rewrite lookup_set_slice, decide_True by lia. f_equal. lia.
  - symmetry. apply lookup_ge_None. lia.
Qed.

(** Bytes outside of what is written keep their values. *)
Lemma slice_set_slice_disjoint row off bs off' n :
  (off + length bs ≤ length row)%nat → (off' + n ≤ off ∨ off + length bs ≤ off')%nat →
  slice (set_slice row off bs) off' n = slice row off' n.
Proof.
  intros H Hd. apply list_eq. intros k. rewrite !lookup_slice.
  destruct (decide (k < n)%nat); [|done]. by rewrite lookup_set_slice, decide_False by lia.
Qed.

Lemma set_slice_set_slice row off a b :
  (off + length a + length b ≤ length row)%nat →
  set_slice (set_slice row off a) (off + length a) b = set_slice row off (a ++ b).
Proof.
  intros H. apply list_eq. intros k. rewrite !lookup_set_slice;
    rewrite ?length_app, ?length_set_slice; try lia.
  destruct (decide (off + length a ≤ k < off + length a + length b)%nat).
  - rewrite decide_True, lookup_app_r by lia. f_equal. lia.
  - destruct (decide (off ≤ k < off + length a)%nat).
    + by rewrite decide_True, lookup_app_l by lia.
    + by rewrite decide_False by lia.
Qed.

Lemma set_slice_nil row off : set_slice row off [] = row.
Proof. unfold set_slice. rewrite Nat.add_0_r. simpl. apply take_drop. Qed.

(** ** The NULL bitmap *)

(** Bit [i] of a bitmap. *)
Definition bit (m : list byte) (i : nat) : bool :=
  match m !! (i / 8)%nat with
  | Some b => Z.testbit (byte.unsigned b) (Z.of_nat (i mod 8))
  | None => false
  end.

Lemma shiftr3 i : Z.to_nat (Z.shiftr (Z.of_nat i) 3) = (i / 8)%nat.
Proof.
  rewrite Z.shiftr_div_pow2 by lia. change (2 ^ 3) with (Z.of_nat 8).
  by rewrite <-Nat2Z.inj_div, Nat2Z.id.
Qed.

Lemma land7 i : Z.land (Z.of_nat i) 7 = Z.of_nat (i mod 8).
Proof.
  change 7 with (Z.ones 3). rewrite Z.land_ones by lia. change (2 ^ 3) with (Z.of_nat 8).
  by rewrite Nat2Z.inj_mod.
Qed.

Lemma land1_testbit x k : 0 ≤ k → negb (Z.land (Z.shiftr x k) 1 =? 0) = Z.testbit x k.
Proof.
  intros Hk. change 1 with (Z.ones 1). rewrite Z.land_ones, Z.shiftr_div_pow2 by lia.
  change (2 ^ 1) with 2. destruct (Z.testbit x k) eqn:E.
  - apply Z.testbit_true in E; [|done]. by rewrite E.
  - apply Z.testbit_false in E; [|done]. by rewrite E.
Qed.

Lemma null_bit_get_spec m i :
  (i < 8 * length m)%nat → c2sql_internal_null_bit_get (Some m) (Z.of_nat i) = Some (bit m i).
Proof.
  intros Hi. unfold c2sql_internal_null_bit_get, bit. rewrite shiftr3, land7.
  destruct (lookup_lt_is_Some_2 m (i / 8)) as [b Hb].
  { apply Nat.Div0.div_lt_upper_bound. lia. }
  rewrite Hb. simpl. rewrite land1_testbit by lia. done.
Qed.

Lemma unsigned_lor_small x y :
  0 ≤ x < 256 → 0 ≤ y < 256 → byte.unsigned (byte.of_Z (Z.lor x y)) = Z.lor x y.
Proof.
  intros Hx Hy. rewrite byte.unsigned_of_Z. unfold byte.wrap. apply Z.mod_small.
  assert (∀ z, 0 ≤ z < 256 → Z.log2 z < 8) as Hlog.
  { intros z Hz. destruct (Z.eq_dec z 0) as [->|]; [done|]. apply Z.log2_lt_pow2; lia. }
  split; [apply Z.lor_nonneg; lia|].
  destruct (Z.eq_dec (Z.lor x y) 0) as [->|Hne]; [lia|]. apply Z.log2_lt_pow2.
  - pose proof (proj2 (Z.lor_nonneg x y)). lia.
  - rewrite Z.log2_lor by lia. apply Z.max_lub_lt; by apply Hlog.
Qed.

Lemma unsigned_lor b k :
  0 ≤ k < 8 → byte.unsigned (byte.of_Z (Z.lor (byte.unsigned b) (Z.shiftl 1 k))) =
  Z.lor (byte.unsigned b) (Z.shiftl 1 k).
Proof.
  intros Hk. pose proof (byte.unsigned_range b). apply unsigned_lor_small; [lia|]. rewrite Z.shiftl_1_l.
  assert (0 ≤ 2 ^ k < 2 ^ 8) by (split; [lia|apply Z.pow_lt_mono_r; lia]). lia.
Qed.

Definition set_bit (m : list byte) (i : nat) : list byte :=
  match m !! (i / 8)%nat with
  | Some b => <[(i / 8)%nat := byte.of_Z (Z.lor (byte.unsigned b) (Z.shiftl 1 (Z.of_nat (i mod 8))))]> m
  | None => m
  end.

Lemma null_bit_set_spec m i :
  (i < 8 * length m)%nat →
  c2sql_internal_null_bit_set (Some m) (Z.of_nat i) = Some (Some (set_bit m i)).
Proof.
  intros Hi. unfold c2sql_internal_null_bit_set, set_bit. rewrite shiftr3, land7.
  destruct (lookup_lt_is_Some_2 m (i / 8)) as [b Hb].
  { apply Nat.Div0.div_lt_upper_bound. lia. }
  by rewrite Hb.
Qed.

Lemma length_set_bit m i : length (set_bit m i) = length m.
Proof. unfold set_bit. destruct (m !! _); by rewrite ?length_insert. Qed.

Lemma bit_set_bit m i j :
  (i < 8 * length m)%nat → bit (set_bit m i) j = bool_decide (j = i) || bit m j.
Proof.
  intros Hi. unfold bit, set_bit.
  destruct (lookup_lt_is_Some_2 m (i / 8)) as [b Hb].
  { apply Nat.Div0.div_lt_upper_bound. lia. }
  rewrite Hb. destruct (decide (j / 8 = i / 8)%nat) as [E|E].
  - rewrite E, list_lookup_insert_eq by (by eapply lookup_lt_Some).
    rewrite Hb, unsigned_lor by (pose proof (Nat.mod_upper_bound i 8); lia).
    rewrite Z.lor_spec, Z.shiftl_1_l, Z.pow2_bits_eqb by lia. rewrite orb_comm. f_equal.
    pose proof (Nat.div_mod_eq i 8). pose proof (Nat.div_mod_eq j 8).
    destruct (Z.eqb_spec (Z.of_nat (i mod 8)) (Z.of_nat (j mod 8))); symmetry;
      [apply bool_decide_eq_true|apply bool_decide_eq_false]; lia.
  - rewrite list_lookup_insert_ne by done. rewrite bool_decide_false by (by intros ->). done.
Qed.

(** ** What a column of a row holds *)

(** The bytes before the first NUL. *)
Fixpoint take_nul (s : list byte) : list byte :=
  match s with
  | [] => []
  | c :: s' => if byte.unsigned c =? 0 then [] else c :: take_nul s'
  end.

(** The bytes a column occupies in the struct. *)
Definition width (col : SqlRDBColumnDef) : Z :=
  match col_type col with
  | SQL_TYPE_INT32 => 4
  | SQL_TYPE_INT64 | SQL_TYPE_REAL => 8
  | SQL_TYPE_TEXT | SQL_TYPE_BLOB | SQL_TYPE_other _ => col_size col
  end.

(** A column lies inside a struct of [n] bytes, and has one of the five types. *)
Definition fits_in (n : Z) (col : SqlRDBColumnDef) : Prop :=
  0 ≤ col_offset col ∧ 0 ≤ width col ∧ col_offset col + width col ≤ n ∧
  0 ≤ col_size col ≤ INT_MAX ∧ (∀ k, col_type col ≠ SQL_TYPE_other k).

Definition disjoint_cols (c1 c2 : SqlRDBColumnDef) : Prop :=
  col_offset c1 + width c1 ≤ col_offset c2 ∨ col_offset c2 + width c2 ≤ col_offset c1.

(** The layout of a C struct: every column inside, no two overlapping. *)
Definition layout (n : Z) (cols : list SqlRDBColumnDef) : Prop :=
  Forall (fits_in n) cols ∧
  ∀ i j c1 c2, i ≠ j → cols !! i = Some c1 → cols !! j = Some c2 → disjoint_cols c1 c2.

(** The member of a column. *)
Definition member (row : list byte) (col : SqlRDBColumnDef) : list byte :=
  slice row (Z.to_nat (col_offset col)) (Z.to_nat (width col)).

Definition cell_of (row : list byte) (col : SqlRDBColumnDef) : Cell :=
  match col_type col with
  | SQL_TYPE_INT32 => CInt (to_signed 32 (le_combine (member row col)))
  | SQL_TYPE_INT64 => CInt (to_signed 64 (le_combine (member row col)))
  | SQL_TYPE_REAL => CReal (le_combine (member row col))
  | SQL_TYPE_TEXT => CText (take_nul (member row col))
  | SQL_TYPE_BLOB | SQL_TYPE_other _ => CBlob (member row col)
  end.

Lemma length_take_nul s : (length (take_nul s) ≤ length s)%nat.
Proof. induction s as [|c s IH]; simpl; [done|]. destruct (_ =? _); simpl; lia. Qed.

Lemma take_nul_prefix s : take (length (take_nul s)) s = take_nul s.
Proof. induction s as [|c s IH]; simpl; [done|]. destruct (_ =? _); simpl; by f_equal. Qed.

Lemma slice_take_nul row off n :
  (length (take_nul (slice row off n)) ≤ n)%nat →
  slice row off (length (take_nul (slice row off n))) = take_nul (slice row off n).
Proof.
  intros H. rewrite <-(take_nul_prefix (slice row off n)) at 2. unfold slice at 1 4.
  by rewrite take_take, Nat.min_l.
Qed.

Lemma bounded_strlen_loop_spec fuel s n maxlen :
  (length s < fuel)%nat → n ≤ maxlen → maxlen - n ≤ Z.of_nat (length s) →
  bounded_strlen_loop fuel s n maxlen =
  Some (n + Z.of_nat (length (take_nul (take (Z.to_nat (maxlen - n)) s)))).
Proof.
  revert s n. induction fuel as [|fuel IH]; intros s n Hf Hn Hl; [lia|]. simpl.
  destruct (Z.ltb_spec n maxlen).
  - destruct s as [|c s]; simpl in *; [lia|].
    replace (Z.to_nat (maxlen - n)) with (S (Z.to_nat (maxlen - (n + 1)))) by lia. simpl.
    destruct (byte.unsigned c =? 0); [simpl; f_equal; lia|].
    rewrite IH by lia. simpl. f_equal. lia.
  - replace (maxlen - n) with 0 by lia. simpl. f_equal. lia.
Qed.

Lemma bounded_strlen_spec row col :
  fits_in (Z.of_nat (length row)) col → col_type col = SQL_TYPE_TEXT →
  bounded_strlen (drop (Z.to_nat (col_offset col)) row) (col_size col) =
  Some (Z.of_nat (length (take_nul (member row col)))).
Proof.
  intros (Ho & Hw & Hfit & Hs & _) Ht. unfold bounded_strlen, member, width in *.
  rewrite Ht in *. rewrite bounded_strlen_loop_spec; rewrite ?length_drop; try lia.
  by rewrite Z.sub_0_r.
Qed.

Section binding.
Context {D : Type} (drv : SqlRDBDriver D).

(** Binding a cell. *)
Definition bind_cell (stmt : ptr) (i : Z) (col : SqlRDBColumnDef) (c : Cell) : M D SqlRDBResult :=
  match c with
  | CNull => drv_bind_null drv stmt i
  | CInt v => if decide (col_type col = SQL_TYPE_INT32) then drv_bind_int32 drv stmt i v
              else drv_bind_int64 drv stmt i v
  | CReal v => drv_bind_real drv stmt i v
  | CText s => drv_bind_text drv stmt i (Some s) (Z.of_nat (length s))
  | CBlob s => drv_bind_blob drv stmt i (Some s) (Z.of_nat (length s))
  end.

(** What a row asks to be bound to the parameters, in order: [None] where the
    bitmap has a NULL for a column that does not allow it. *)
Definition plan_cell (nulls : option (list byte)) (row : list byte) (i : nat)
    (col : SqlRDBColumnDef) : option Cell :=
  if match nulls with Some m => bit m i | None => false end then
    if has_flag (col_flags col) SQL_COL_FLAG_NULLABLE then Some CNull else None
  else Some (cell_of row col).

(** Bind the planned cells to the parameters [i+1], [i+2], ... in order, and
    stop at the first failure. *)
Fixpoint bind_plan (nulls : option (list byte)) (row : list byte) (stmt : ptr) (i : nat)
    (cols : list SqlRDBColumnDef) : M D SqlRDBResult :=
  match cols with
  | [] => mret SQL_RDB_OK
  | col :: cols =>
      match plan_cell nulls row i col with
      | None => mret SQL_RDB_ERR_NOT_NULL_VIOLATION
      | Some c =>
          r ← bind_cell stmt (Z.of_nat i + 1) col c;
          if res_ok r then bind_plan nulls row stmt (S i) cols else mret r
      end
  end.

Lemma bind_one_spec stmt i col row d :
  fits_in (Z.of_nat (length row)) col →
  bind_one drv stmt i col row d = bind_cell stmt i col (cell_of row col) d.
Proof.
  intros Hf. pose proof Hf as (Ho & Hw & Hfit & Hs & Ht).
  unfold bind_one, bind_cell, cell_of, mbind, M_bind.
  destruct (col_type col) eqn:E; unfold width in *; rewrite E in *.
  - rewrite bytes_at_slice by lia. unfold member, width. rewrite E. by rewrite decide_True.
  - rewrite bytes_at_slice by lia. unfold member, width. rewrite E. by rewrite decide_False.
  - rewrite bytes_at_slice by lia. unfold member, width. by rewrite E.
  - rewrite bounded_strlen_spec by done. cbn [mdef].
    pose proof (length_take_nul (member row col)) as Hlen. unfold member, width in *. rewrite E in *.
    rewrite length_slice in Hlen by lia.
    rewrite (proj2 (Z.ltb_ge _ _)) by lia. rewrite bytes_at_slice by lia. cbn [mdef].
    rewrite Nat2Z.id, slice_take_nul by lia. done.
  - rewrite bytes_at_slice by lia. cbn [mdef]. unfold member, width. rewrite E.
    rewrite length_slice by lia. by rewrite Z2Nat.id by lia.
  - by destruct (Ht n).
Qed.

Lemma bind_row_loop_spec stmt cols n i row nulls d :
  Forall (fits_in (Z.of_nat (length row))) cols → (i + n)%nat = length cols →
  (length cols ≤ 64)%nat →
  (∀ m, nulls = Some m → (length cols ≤ 8 * length m)%nat) →
  bind_row_loop drv stmt cols i n row nulls d = bind_plan nulls row stmt i (drop i cols) d.
Proof.
  intros Hf Hi Hl Hm. revert i d Hi. induction n as [|n IH]; intros i d Hi; cbn [bind_row_loop].
  - by rewrite drop_ge by lia.
  - destruct (lookup_lt_is_Some_2 cols i ltac:(lia)) as [c Hc].
    rewrite (drop_S _ _ _ Hc). cbn [bind_plan]. unfold mbind, M_bind. rewrite Hc. cbn [mdef].
    rewrite to_signed_small by lia.
    assert (c2sql_internal_null_bit_get nulls (Z.of_nat i) =
      Some (match nulls with Some m => bit m i | None => false end)) as ->.
    { destruct nulls as [m|]; [|done]. apply null_bit_get_spec. specialize (Hm m eq_refl). lia. }
    cbn [mdef]. unfold plan_cell. destruct (match nulls with Some m => bit m i | None => false end).
    + destruct (has_flag _ _); cbn [negb]; [|done]. cbn [bind_cell].
      destruct (drv_bind_null drv stmt _ d) as [[r d']|]; [|done].
      destruct (res_ok r); cbn [negb]; [|done]. apply IH. lia.
    + rewrite bind_one_spec by (by eapply Forall_lookup_1 in Hf).
      destruct (bind_cell stmt _ c _ d) as [[r d']|]; [|done].
      destruct (res_ok r); cbn [negb]; [|done]. apply IH. lia.
Qed.
End binding.

(** ** Reading *)

(** The bytes a cell puts at the offset of its column. *)
Definition payload (col : SqlRDBColumnDef) (c : Cell) : list byte :=
  match c with
  | CNull => []
  | CInt v => if decide (col_type col = SQL_TYPE_INT32) then le_split 4 (to_signed 32 v)
              else le_split 8 v
  | CReal v => le_split 8 v
  | CText s => if col_size col =? 0 then []
               else take (Z.to_nat (col_size col - 1)) s ++ [byte.of_Z 0]
  | CBlob s => take (Z.to_nat (col_size col)) s
  end.

(** Whether the member is too small for the cell. *)
Definition too_big (col : SqlRDBColumnDef) (c : Cell) : bool :=
  match c with
  | CNull | CReal _ => false
  | CInt v => bool_decide (col_type col = SQL_TYPE_INT32) && ((v <? INT32_MIN) || (INT32_MAX <? v))
  | CText s => (col_size col - 1 <? Z.of_nat (length s))
  | CBlob s => (col_size col <? Z.of_nat (length s))
  end.

(** The cell is of the kind its column declares. *)
Definition cell_typed (col : SqlRDBColumnDef) (c : Cell) : Prop :=
  match c with
  | CNull => True
  | CInt _ => col_type col = SQL_TYPE_INT32 ∨ col_type col = SQL_TYPE_INT64
  | CReal _ => col_type col = SQL_TYPE_REAL
  | CText _ => col_type col = SQL_TYPE_TEXT
  | CBlob _ => col_type col = SQL_TYPE_BLOB
  end.

Definition store (row : list byte) (x : SqlRDBColumnDef * Cell) : list byte :=
  set_slice row (Z.to_nat (col_offset x.1)) (payload x.1 x.2).

(** The row after all the cells are stored. *)
Definition store_all (row : list byte) (l : list (SqlRDBColumnDef * Cell)) : list byte :=
  foldl store row l.

(** The bitmap after the NULL cells from column [i] on are marked. *)
Fixpoint mark_all (m : list byte) (i : nat) (cells : list Cell) : list byte :=
  match cells with
  | [] => m
  | c :: cells => mark_all (if is_null c then set_bit m i else m) (S i) cells
  end.

Lemma length_payload col c :
  cell_typed col c → 0 ≤ col_size col →
  Z.of_nat (length (payload col c)) ≤ Z.max 0 (width col).
Proof.
  intros Ht Hs. unfold width. destruct c as [|v|v|s|s]; cbn [payload cell_typed] in *.
  - simpl. lia.
  - destruct Ht as [E|E]; rewrite E; [rewrite decide_True by done|rewrite decide_False by done];
      rewrite length_le_split; lia.
  - rewrite Ht, length_le_split. lia.
  - rewrite Ht. destruct (Z.eqb_spec (col_size col) 0); simpl; [lia|].
    rewrite length_app, length_take. simpl. lia.
  - rewrite Ht, length_take. lia.
Qed.

Section reading.
Context {D : Type} (drv : SqlRDBDriver D).

(** The statement's current row has the cells [cells] in every state of [I],
    and reading columns stays in [I].  An empty blob may come as NULL, as
    SQLite returns it. *)
Definition serves (stmt : ptr) (cells : list Cell) (I : D → Prop) : Prop :=
  ∀ d i c, I d → cells !! i = Some c →
  (∃ d', drv_column_isnull drv stmt (Z.of_nat i) d = Some ((SQL_RDB_OK, is_null c), d') ∧ I d') ∧
  match c with
  | CNull => True
  | CInt v => ∃ d', drv_column_int64 drv stmt (Z.of_nat i) d = Some ((SQL_RDB_OK, v), d') ∧ I d'
  | CReal v => ∃ d', drv_column_real drv stmt (Z.of_nat i) d = Some ((SQL_RDB_OK, v), d') ∧ I d'
  | CText s => ∃ d' p, drv_column_text drv stmt (Z.of_nat i) d =
                 Some ((SQL_RDB_OK, (p, Z.of_nat (length s))), d') ∧ I d' ∧
                 (p = Some s ∨ s = [] ∧ p = None)
  | CBlob s => ∃ d' p, drv_column_blob drv stmt (Z.of_nat i) d =
                 Some ((SQL_RDB_OK, (p, Z.of_nat (length s))), d') ∧ I d' ∧
                 (p = Some s ∨ s = [] ∧ p = None)
  end.

Definition with_row (row : list byte) (d : D) (t : TState D) : TState D := MkT row (t_nulls t) d.

Lemma t_write_run off bs (t : TState D) :
  0 ≤ off → off + Z.of_nat (length bs) ≤ Z.of_nat (length (t_row t)) →
  t_write off bs t = Some (tt, with_row (set_slice (t_row t) (Z.to_nat off) bs) (t_db t) t).
Proof. intros. unfold t_write. rewrite write_at_slice by done. done. Qed.

(** The copy of the leading bytes of what the driver returned. *)
Lemma t_copy_run off p s m (t : TState D) :
  p = Some s ∨ s = [] ∧ p = None →
  0 ≤ off → off + Z.of_nat (length (take m s)) ≤ Z.of_nat (length (t_row t)) →
  t_copy off p (Z.of_nat (length (take m s))) t =
  Some (tt, with_row (set_slice (t_row t) (Z.to_nat off) (take m s)) (t_db t) t).
Proof.
  intros Hp Ho Hf.
  assert (take m s = [] → Some (tt, t) =
    Some (tt, with_row (set_slice (t_row t) (Z.to_nat off) (take m s)) (t_db t) t)) as Hz.
  { intros ->. unfold with_row. rewrite set_slice_nil. by destruct t. }
  destruct Hp as [->|[-> ->]]; [|by rewrite take_nil in *; apply Hz]. unfold t_copy.
  destruct (Z.ltb_spec 0 (Z.of_nat (length (take m s)))); [|apply Hz, length_zero_iff_nil; lia].
  unfold mbind, M_bind. rewrite bytes_at_slice by (rewrite ?length_take in *; lia). cbn [mdef].
  unfold slice. rewrite drop_0, Nat2Z.id.
  replace (take (length (take m s)) s) with (take m s).
  - by apply t_write_run.
  - rewrite length_take. destruct (Nat.le_ge_cases m (length s)); [by rewrite Nat.min_l|].
    rewrite Nat.min_r by done. by rewrite !take_ge.
Qed.

(** One call gives the cell of a column. *)
Definition served (stmt : ptr) (i : nat) (c : Cell) (d d' : D) : Prop :=
  match c with
  | CNull => False
  | CInt v => drv_column_int64 drv stmt (Z.of_nat i) d = Some ((SQL_RDB_OK, v), d')
  | CReal v => drv_column_real drv stmt (Z.of_nat i) d = Some ((SQL_RDB_OK, v), d')
  | CText s => ∃ p, drv_column_text drv stmt (Z.of_nat i) d =
                 Some ((SQL_RDB_OK, (p, Z.of_nat (length s))), d') ∧ (p = Some s ∨ s = [] ∧ p = None)
  | CBlob s => ∃ p, drv_column_blob drv stmt (Z.of_nat i) d =
                 Some ((SQL_RDB_OK, (p, Z.of_nat (length s))), d') ∧ (p = Some s ∨ s = [] ∧ p = None)
  end.

Lemma serves_served stmt i c cells I d :
  serves stmt cells I → I d → cells !! i = Some c → c ≠ CNull → ∃ d', served stmt i c d d' ∧ I d'.
Proof.
  intros Hserv HI Hc Hnn. destruct (Hserv _ _ _ HI Hc) as [_ Hcol].
  destruct c as [|v|v|s|s]; simpl; [done|naive_solver..].
Qed.

Lemma read_one_served stmt i col c (t : TState D) d' :
  served stmt i c (t_db t) d' → cell_typed col c → fits_in (Z.of_nat (length (t_row t))) col →
  read_one drv stmt (Z.of_nat i) col t =
    Some (if too_big col c then SQL_RDB_WARN_TRUNCATED else SQL_RDB_OK,
          with_row (store (t_row t) (col, c)) d' t).
Proof.
  intros Hcol Ht (Ho & Hw & Hfit & Hs & _). unfold read_one, store, mbind, M_bind, t_drv, zoom.
  destruct c as [|v|v|s|s]; simpl in Ht, Hcol; [done|..].
  - cbn [fst snd]. unfold payload, too_big. destruct Ht as [E|E]; unfold width in *.
    + rewrite decide_True, bool_decide_true by done. rewrite E in *. rewrite Hcol. cbn [res_ok negb].
      rewrite t_write_run by (rewrite ?length_le_split; simpl; lia). done.
    + rewrite decide_False, bool_decide_false by congruence. rewrite E in *. rewrite Hcol.
      cbn [res_ok negb]. rewrite t_write_run by (rewrite ?length_le_split; simpl; lia). done.
  - unfold width in *. rewrite Ht in *. rewrite Hcol. cbn [res_ok negb].
    rewrite t_write_run by (rewrite ?length_le_split; simpl; lia). done.
  - destruct Hcol as (p & Hcol & Hp).
    unfold width in *. rewrite Ht in *. rewrite Hcol. cbn [res_ok negb].
    unfold payload, too_big. cbn [fst snd]. destruct (Z.eqb_spec (col_size col) 0) as [E|E].
    { rewrite E, set_slice_nil. rewrite (proj2 (Z.ltb_lt _ _)) by lia. done. }
    assert ((if Z.of_nat (length s) <? col_size col - 1 then Z.of_nat (length s) else col_size col - 1) =
      Z.of_nat (length (take (Z.to_nat (col_size col - 1)) s))) as ->.
    { rewrite length_take. destruct (Z.ltb_spec (Z.of_nat (length s)) (col_size col - 1)); lia. }
    assert (Z.of_nat (length (take (Z.to_nat (col_size col - 1)) s)) ≤ col_size col - 1)
      by (rewrite length_take; lia).
    rewrite (t_copy_run _ p s) by (done || simpl; lia).
    rewrite t_write_run; simpl; rewrite ?length_set_slice by lia; try lia.
    unfold with_row. simpl. rewrite Z2Nat.inj_add, Nat2Z.id by lia.
    rewrite set_slice_set_slice by (simpl; lia). done.
  - destruct Hcol as (p & Hcol & Hp).
    unfold width in *. rewrite Ht in *. rewrite Hcol. cbn [res_ok negb].
    unfold payload, too_big. cbn [fst snd].
    assert ((if Z.of_nat (length s) <? col_size col then Z.of_nat (length s) else col_size col) =
      Z.of_nat (length (take (Z.to_nat (col_size col)) s))) as ->.
    { rewrite length_take. destruct (Z.ltb_spec (Z.of_nat (length s)) (col_size col)); lia. }
    assert (Z.of_nat (length (take (Z.to_nat (col_size col)) s)) ≤ col_size col)
      by (rewrite length_take; lia).
    rewrite (t_copy_run _ p s) by (done || simpl; lia). done.
Qed.

Lemma read_one_spec stmt i col c cells I (t : TState D) :
  serves stmt cells I → I (t_db t) → cells !! i = Some c → c ≠ CNull →
  cell_typed col c → fits_in (Z.of_nat (length (t_row t))) col →
  ∃ d', read_one drv stmt (Z.of_nat i) col t =
    Some (if too_big col c then SQL_RDB_WARN_TRUNCATED else SQL_RDB_OK,
          with_row (store (t_row t) (col, c)) d' t) ∧ I d'.
Proof.
  intros Hserv HI Hc Hnn Ht Hf. destruct (serves_served _ _ _ _ _ _ Hserv HI Hc Hnn) as (d' & Hd & HI').
  exists d'. split; [|done]. by apply read_one_served.
Qed.

(** A NULL is marked. *)
Lemma t_set_null_run i (t : TState D) :
  (∀ m, t_nulls t = Some m → (i < 8 * length m)%nat) →
  t_set_null (Z.of_nat i) t = Some (tt, MkT (t_row t) ((λ m, set_bit m i) <$> t_nulls t) (t_db t)).
Proof.
  intros Hm. unfold t_set_null.
  assert (c2sql_internal_null_bit_set (t_nulls t) (Z.of_nat i) =
    Some ((λ m, set_bit m i) <$> t_nulls t)) as ->; [|done].
  destruct (t_nulls t) as [m|]; [|done]. by apply null_bit_set_spec, Hm.
Qed.

Lemma length_store_typed n row col c :
  cell_typed col c → fits_in n col → n = Z.of_nat (length row) →
  length (store row (col, c)) = length row.
Proof.
  intros Hct (? & ? & ? & ? & _) ->. apply length_set_slice. pose proof (length_payload col c Hct). simpl. lia.
Qed.

(** The columns from [i] on are read as their cells say. *)
Lemma read_row_loop_spec stmt cols cells I n i tr (t : TState D) :
  serves stmt cells I → I (t_db t) → Forall2 cell_typed cols cells →
  Forall (fits_in (Z.of_nat (length (t_row t)))) cols →
  (i + n)%nat = length cols → (length cols ≤ 64)%nat →
  (∀ m, t_nulls t = Some m → (length cols ≤ 8 * length m)%nat) →
  ∃ d', read_row_loop drv stmt cols i n tr t =
    Some (if tr || existsb (λ x, too_big x.1 x.2) (drop i (zip cols cells))
          then SQL_RDB_WARN_TRUNCATED else SQL_RDB_OK,
          MkT (store_all (t_row t) (drop i (zip cols cells)))
              ((λ m, mark_all m i (drop i cells)) <$> t_nulls t) d') ∧ I d'.
Proof.
  intros Hserv HI Hty Hfit Hi Hl Hm. pose proof (Forall2_length _ _ _ Hty) as Hlen.
  revert i tr t HI Hfit Hi Hm. induction n as [|n IH]; intros i tr t HI Hfit Hi Hm; cbn [read_row_loop].
  { rewrite !drop_ge by (rewrite ?length_zip; lia). exists (t_db t). split; [|done].
    simpl. rewrite orb_false_r. destruct t as [row [m|] d]; done. }
  destruct (lookup_lt_is_Some_2 cols i ltac:(lia)) as [col Hcol].
  destruct (lookup_lt_is_Some_2 cells i ltac:(lia)) as [c Hc].
  assert (zip cols cells !! i = Some (col, c)) as Hz by (apply lookup_zip_Some; done).
  rewrite (drop_S _ _ _ Hz), (drop_S _ _ _ Hc). cbn [existsb store_all foldl mark_all fst snd].
  destruct (Hserv _ _ _ HI Hc) as [(d1 & Hnull & HI1) _].
  unfold mbind, M_bind, t_drv, zoom. rewrite Hcol. cbn [mdef]. rewrite to_signed_small by lia.
  rewrite Hnull. cbn [res_ok negb].
  assert (Hcf := Hfit). eapply Forall_lookup_1 in Hcf; [|done].
  assert (cell_typed col c) as Hct by (eapply Forall2_lookup_lr in Hty; done).
  assert (c = CNull ∨ c ≠ CNull) as [->|Hnn] by (destruct c; by (left + right)).
  - cbn [is_null]. rewrite t_set_null_run by (simpl; intros m Em; specialize (Hm m Em); lia).
    cbn [t_nulls t_row t_db].
    destruct (IH (S i) tr (MkT (t_row t) ((λ m, set_bit m i) <$> t_nulls t) d1)) as (d' & -> & HI'); try done.
    + lia.
    + simpl. intros m. destruct (t_nulls t) as [m'|]; [|done]. intros [= <-].
      rewrite length_set_bit. by apply Hm.
    + exists d'. split; [|done]. simpl. unfold store at 2. simpl. rewrite set_slice_nil.
      by destruct (t_nulls t).
  - assert (is_null c = false) as -> by by destruct c.
    destruct (read_one_spec stmt i col c cells I (MkT (t_row t) (t_nulls t) d1)) as (d2 & -> & HI2);
      [done..|]. simpl.
    pose proof (length_store_typed _ (t_row t) col c Hct Hcf eq_refl) as Hls.
    destruct (IH (S i) (tr || too_big col c) (with_row (store (t_row t) (col, c)) d2 t))
      as (d' & E & HI'); try done.
    + simpl. by rewrite Hls.
    + lia.
    + exists d'. split; [|done]. rewrite orb_assoc. refine (eq_trans _ E).
      destruct (too_big col c); [by rewrite orb_true_r|by rewrite orb_false_r].
Qed.
End reading.

(** ** The row after a read *)

Definition end_of (x : SqlRDBColumnDef * Cell) : Z :=
  col_offset x.1 + Z.of_nat (length (payload x.1 x.2)).

(** The columns and cells of a read fit the struct and do not overlap. *)
Definition cells_ok (n : Z) (l : list (SqlRDBColumnDef * Cell)) : Prop :=
  Forall (λ x, 0 ≤ col_offset x.1 ∧ end_of x ≤ n) l ∧
  ∀ i j x y, i ≠ j → l !! i = Some x → l !! j = Some y →
    end_of x ≤ col_offset y.1 ∨ end_of y ≤ col_offset x.1.

Lemma cells_ok_cons n x l :
  cells_ok n (x :: l) →
  0 ≤ col_offset x.1 ∧ end_of x ≤ n ∧ cells_ok n l ∧
  Forall (λ y, end_of x ≤ col_offset y.1 ∨ end_of y ≤ col_offset x.1) l.
Proof.
  intros [Hf Hd]. apply Forall_cons in Hf as [(? & ?) Hf]. split_and!; [done|done| |].
  - split; [done|]. intros i j y z Hij Hi Hj. by apply (Hd (S i) (S j)); [congruence|..].
  - apply Forall_lookup_2. intros i y Hi. by apply (Hd 0%nat (S i)).
Qed.

Lemma length_store row x :
  0 ≤ col_offset x.1 → end_of x ≤ Z.of_nat (length row) → length (store row x) = length row.
Proof. intros ? He. apply length_set_slice. unfold end_of in He. lia. Qed.

Lemma length_store_all row l :
  cells_ok (Z.of_nat (length row)) l → length (store_all row l) = length row.
Proof.
  revert row. induction l as [|x l IH]; intros row H; [done|].
  apply cells_ok_cons in H as (? & ? & Hl & _). simpl.
  pose proof (length_store row x) as E. rewrite <-E by done. apply IH. by rewrite E.
Qed.

(** What no cell is stored into keeps its value. *)
Lemma store_all_frame row l off n :
  cells_ok (Z.of_nat (length row)) l →
  Forall (λ x, Z.of_nat (off + n) ≤ col_offset x.1 ∨ end_of x ≤ Z.of_nat off) l →
  slice (store_all row l) off n = slice row off n.
Proof.
  revert row. induction l as [|x l IH]; intros row H Ho; [done|].
  apply cells_ok_cons in H as (? & Hx & Hl & _). apply Forall_cons in Ho as [Ho Hol]. simpl.
  rewrite IH; [|by rewrite length_store|done]. unfold end_of in *.
  apply slice_set_slice_disjoint; lia.
Qed.

Lemma store_all_member row l i x :
  cells_ok (Z.of_nat (length row)) l → l !! i = Some x →
  slice (store_all row l) (Z.to_nat (col_offset x.1)) (length (payload x.1 x.2)) = payload x.1 x.2.
Proof.
  revert row i. induction l as [|y l IH]; intros row [|i] H Hi; simpl in Hi; try done.
  - simplify_eq. apply cells_ok_cons in H as (? & Hx & Hl & Hd). simpl.
    rewrite store_all_frame; [|by rewrite length_store|].
    + unfold store, end_of in *. apply slice_set_slice. lia.
    + eapply Forall_impl; [exact Hd|]. intros y. unfold end_of in *. simpl. lia.
  - apply cells_ok_cons in H as (? & Hx & Hl & _). simpl. apply (IH _ i); [|done].
    by rewrite length_store.
Qed.

Lemma layout_cells_ok n cols cells :
  layout n cols → Forall2 cell_typed cols cells → cells_ok n (zip cols cells).
Proof.
  intros [Hf Hd] Hty.
  assert (∀ i x, zip cols cells !! i = Some x →
    cols !! i = Some x.1 ∧ fits_in n x.1 ∧ end_of x ≤ col_offset x.1 + width x.1) as Hz.
  { intros i [col c] (Hi & Hc)%lookup_zip_Some. simpl. pose proof Hf as Hfi.
    eapply Forall_lookup_1 in Hfi; [|done]. split_and!; [done..|]. unfold end_of. simpl.
    pose proof Hfi as (? & ? & ? & ? & _).
    pose proof (length_payload col c ltac:(by eapply Forall2_lookup_lr in Hty)). lia. }
  split.
  - apply Forall_lookup_2. intros i x (_ & (? & ? & ? & ? & _) & ?)%Hz. lia.
  - intros i j x y Hij (Hi & _ & ?)%Hz (Hj & _ & ?)%Hz.
    destruct (Hd i j _ _ Hij Hi Hj); lia.
Qed.

Lemma length_mark_all m i cells : length (mark_all m i cells) = length m.
Proof.
  revert m i. induction cells as [|c cells IH]; intros m i; simpl; [done|].
  rewrite IH. destruct (is_null c); [apply length_set_bit|done].
Qed.

Lemma bit_mark_all m i cells j :
  (i + length cells ≤ 8 * length m)%nat →
  bit (mark_all m i cells) j =
  bit m j || (if decide (i ≤ j)%nat then default false (is_null <$> cells !! (j - i)%nat) else false).
Proof.
  revert m i. induction cells as [|c cells IH]; intros m i Hm; simpl in *.
  - destruct (decide _); by rewrite orb_false_r.
  - rewrite IH by (destruct (is_null c); rewrite ?length_set_bit; lia).
    destruct (decide (j = i)) as [->|Hne].
    + rewrite decide_False, decide_True, Nat.sub_diag by lia. simpl.
      destruct (is_null c); [rewrite bit_set_bit, bool_decide_true by (done || lia)|];
        destruct (bit m i); done.
    + assert (bit (if is_null c then set_bit m i else m) j = bit m j) as ->.
      { destruct (is_null c); [|done]. rewrite bit_set_bit, bool_decide_false by (done || lia). done. }
      f_equal. destruct (decide (i ≤ j)%nat).
      * rewrite decide_True by lia. by replace (j - i)%nat with (S (j - S i)) by lia.
      * by rewrite decide_False by lia.
Qed.

(** ** Round trip *)

Lemma to_signed_of_mod w z : 0 < w → to_signed w (z mod 2 ^ w) = to_signed w z.
Proof. intros. unfold to_signed. by rewrite Z.mod_mod by lia. Qed.

Lemma to_signed_twice w z : 0 < w → to_signed w (to_signed w z) = to_signed w z.
Proof. intros. apply to_signed_small; [done|]. by apply to_signed_range. Qed.

Lemma take_nul_app s r : take_nul s = s → take_nul (s ++ byte.of_Z 0 :: r) = s.
Proof.
  induction s as [|c s IH]; simpl; [done|]. destruct (byte.unsigned c =? 0); [done|].
  intros [= E]. by rewrite IH.
Qed.

Lemma take_nul_twice s : take_nul (take_nul s) = take_nul s.
Proof.
  induction s as [|c s IH]; simpl; [done|]. destruct (byte.unsigned c =? 0) eqn:E; simpl; [done|].
  by rewrite E, IH.
Qed.

Lemma cell_of_typed n row col : fits_in n col → cell_typed col (cell_of row col).
Proof.
  intros (_ & _ & _ & _ & Ht). unfold cell_of. destruct (col_type col) eqn:E; simpl; auto.
  by destruct (Ht n0).
Qed.

Lemma slice_split row off n k :
  (k ≤ n)%nat → slice row off n = slice row off k ++ slice row (off + k) (n - k).
Proof.
  intros. unfold slice. rewrite <-(take_drop k (take n (drop off row))).
  rewrite take_take, Nat.min_l by lia. f_equal.
  rewrite skipn_firstn_comm, drop_drop. do 2 f_equal. 
Qed.

(** Storing a cell of one row into another makes the members agree. *)
Lemma cell_of_stored row row' col :
  length row = length row' → fits_in (Z.of_nat (length row)) col →
  too_big col (cell_of row col) = false →
  slice row' (Z.to_nat (col_offset col)) (length (payload col (cell_of row col))) =
    payload col (cell_of row col) →
  cell_of row' col = cell_of row col.
Proof.
  intros Hlen (Ho & Hw & Hfit & Hs & Ht) Hbig Hp.
  assert (length (member row col) = Z.to_nat (width col)) as Hml
    by (apply length_slice; lia).
  unfold cell_of in *. unfold width in Hml, Hw, Hfit. destruct (col_type col) eqn:E.
  - unfold payload in Hp. rewrite decide_True in Hp by done. rewrite length_le_split in Hp.
    unfold member at 1, width. rewrite E. change (Z.to_nat 4) with 4%nat. rewrite Hp.
    rewrite le_combine_split. change (2 ^ (Z.of_nat 4 * 8)) with (2 ^ 32).
    by rewrite to_signed_of_mod, !to_signed_twice by lia.
  - unfold payload in Hp. rewrite decide_False in Hp by congruence. rewrite length_le_split in Hp.
    unfold member at 1, width. rewrite E. change (Z.to_nat 8) with 8%nat. rewrite Hp.
    rewrite le_combine_split. change (2 ^ (Z.of_nat 8 * 8)) with (2 ^ 64).
    by rewrite to_signed_of_mod, !to_signed_twice by lia.
  - unfold payload in Hp. rewrite length_le_split in Hp.
    unfold member at 1, width. rewrite E. change (Z.to_nat 8) with 8%nat. rewrite Hp.
    by rewrite split_le_combine' by (rewrite Hml; done).
  - unfold payload, too_big in *. apply Z.ltb_ge in Hbig.
    destruct (Z.eqb_spec (col_size col) 0) as [Ez|Ez]; [rewrite Ez in *; lia|].
    rewrite take_ge in Hp by lia. f_equal. unfold member at 1, width. rewrite E.
    rewrite length_app in Hp. simpl in Hp.
    rewrite (slice_split _ _ _ (length (take_nul (member row col)) + 1)), Hp by lia.
    rewrite <-app_assoc. simpl. apply take_nul_app, take_nul_twice.
  - unfold payload in Hp. rewrite take_ge in Hp by lia. f_equal.
    unfold member at 1, width. rewrite E, <-Hml. done.
  - by destruct (Ht n).
Qed.

(** ** Rows as a whole *)

(** A schema whose columns lie in a struct of [n] bytes, and a bitmap with a
    bit for each of them. *)
Definition row_ok (n : Z) (s : SqlRDBSchema) (nulls : option (list byte)) : Prop :=
  layout n (sch_cols s) ∧ sch_col_count s = Z.of_nat (length (sch_cols s)) ∧
  (length (sch_cols s) ≤ 64)%nat ∧
  ∀ m, nulls = Some m → SQL_RDB_NULL_BITMAP_BYTES (sch_col_count s) ≤ Z.of_nat (length m).

Lemma row_ok_bits n s nulls :
  row_ok n s nulls → ∀ m, nulls = Some m → (length (sch_cols s) ≤ 8 * length m)%nat.
Proof.
  intros (_ & Hc & _ & Hm) m Em. specialize (Hm m Em). unfold SQL_RDB_NULL_BITMAP_BYTES in Hm.
  pose proof (Z.div_mod (sch_col_count s + 7) 8). pose proof (Z.mod_pos_bound (sch_col_count s + 7) 8).
  lia.
Qed.

(** The cells of a row. *)
Definition row_cells (s : SqlRDBSchema) (row : list byte) (nulls : option (list byte)) : list Cell :=
  imap (λ i col, if match nulls with Some m => bit m i | None => false end then CNull
                 else cell_of row col) (sch_cols s).

Lemma row_cells_typed n s row nulls :
  row_ok n s nulls → Forall2 cell_typed (sch_cols s) (row_cells s row nulls).
Proof.
  intros ([Hf _] & _). unfold row_cells. apply Forall2_same_length_lookup. split.
  - by rewrite length_imap.
  - intros i col c Hi Hc. rewrite list_lookup_imap, Hi in Hc. simpl in Hc. simplify_eq.
    destruct (match nulls with Some m => bit m i | None => false end); [done|].
    eapply cell_of_typed. by eapply Forall_lookup_1 in Hf.
Qed.

Lemma bind_row_plan {D} (drv : SqlRDBDriver D) stmt s row nulls d :
  row_ok (Z.of_nat (length row)) s nulls → stmt ≠ NULL →
  c2sql_internal_tm_bind_row drv stmt (Some s) (Some row) nulls d =
  bind_plan drv nulls row stmt 0 (sch_cols s) d.
Proof.
  intros Hok Hs. pose proof (row_ok_bits _ _ _ Hok) as Hb. destruct Hok as ([Hf _] & Hc & Hl & _).
  unfold c2sql_internal_tm_bind_row. rewrite bool_decide_false by done.
  rewrite bind_row_loop_spec by (done || lia). by rewrite drop_0.
Qed.

Lemma bind_plan_violation {D} (drv : SqlRDBDriver D) nulls row stmt cols k i col d r d' :
  cols !! i = Some col → plan_cell nulls row (k + i) col = None →
  bind_plan drv nulls row stmt k cols d = Some (r, d') → r ≠ SQL_RDB_OK.
Proof.
  revert k i d. induction cols as [|c cols IH]; intros k [|i] d Hi Hp H; simpl in *; try done.
  - simplify_eq. rewrite Nat.add_0_r in Hp. rewrite Hp in H. by injection H as <- <-.
  - destruct (plan_cell nulls row k c) as [cell|]; [|by injection H as <- <-].
    apply bind_Some in H as (r1 & d1 & _ & H). destruct (res_ok r1) eqn:E.
    + eapply (IH (S k) i); [done| |done]. by rewrite Nat.add_succ_r in Hp.
    + injection H as <- <-. by apply res_ok_false.
Qed.

(** The whole effect of a read on the caller's memory. *)
Lemma read_row_run {D} (drv : SqlRDBDriver D) stmt s cells I (t : TState D) :
  serves drv stmt cells I → I (t_db t) → stmt ≠ NULL →
  row_ok (Z.of_nat (length (t_row t))) s (t_nulls t) → Forall2 cell_typed (sch_cols s) cells →
  ∃ d', c2sql_internal_tm_read_row drv stmt (Some s) t =
    Some (if existsb (λ x, too_big x.1 x.2) (zip (sch_cols s) cells)
          then SQL_RDB_WARN_TRUNCATED else SQL_RDB_OK,
          MkT (store_all (t_row t) (zip (sch_cols s) cells))
              ((λ m, mark_all m 0 cells) <$> t_nulls t) d') ∧ I d'.
Proof.
  intros Hserv HI Hs Hok Hty. pose proof (row_ok_bits _ _ _ Hok) as Hb.
  destruct Hok as ([Hf _] & Hc & Hl & _).
  unfold c2sql_internal_tm_read_row. rewrite bool_decide_false by done.
  destruct (read_row_loop_spec drv stmt (sch_cols s) cells I (Z.to_nat (sch_col_count s)) 0 false t)
    as (d' & E & HI'); try done; try lia. exists d'. split; [|done]. by rewrite E.
Qed.

(** ** Example: a struct of 48 bytes on the in-memory driver *)

Definition ex_row : list byte :=
  le_split 8 42 ++ [x61; x62; x00] ++ replicate 37 x7f.
Definition ex_mem (cells : list Cell) : Mem := MkMem [1%N] [] cells [] [] [] [1%N].

Lemma mem_serves cells : serves mem_driver 1%N cells (λ m, m = ex_mem cells).
Proof.
  intros d i c -> Hc. simpl. unfold mem_column, mbind, M_bind. 
  rewrite mem_use_run by (unfold mem_stmts; set_solver). unfold mem_do. cbn [mem_cur ex_mem].
  rewrite Nat2Z.id, Hc. simpl. split; [eauto|].
  destruct c as [|v|v|s|s]; try done; eauto; eexists _, _; split_and!; try done; by left.
Qed.

Lemma ex_row_ok nulls : (∀ m, nulls = Some m → 1 ≤ Z.of_nat (length m)) → row_ok 48 ex_schema nulls.
Proof.
  intros Hm. split_and!; [|done|simpl; lia|].
  - split.
    + repeat constructor; simpl; unfold width, INT_MAX; simpl; try lia; done.
    + intros [|[|i]] [|[|j]] c1 c2 Hij H1 H2; simplify_eq/=; unfold disjoint_cols, width; simpl; lia.
  - intros m Em. specialize (Hm m Em). by change (SQL_RDB_NULL_BITMAP_BYTES _) with 1.
Qed.

(** ** Properties *)

(** Binding.  For a struct whose members lie inside it and a bitmap with
    a bit per column, tm_bind_row binds to parameter 1, 2, ... the cell of each
    column in declaration order (the member's value, the text up to its NUL or
    to the end of the array, SQL NULL where the bitmap says so), stops at the
    first bind that fails, returns NOT_NULL_VIOLATION at a NULL that is not
    allowed, and reads nothing outside of the struct. *)
Theorem tm_bind_row_correct {D} (drv : SqlRDBDriver D) stmt s row nulls d :
  row_ok (Z.of_nat (length row)) s nulls → stmt ≠ NULL →
  c2sql_internal_tm_bind_row drv stmt (Some s) (Some row) nulls d =
  bind_plan drv nulls row stmt 0 (sch_cols s) d.
Proof. apply bind_row_plan. Qed.

Lemma tm_bind_row_correct_witness :
  c2sql_internal_tm_bind_row mem_driver 1%N (Some ex_schema) (Some ex_row) (Some [x02]) (ex_mem []) =
  bind_plan mem_driver (Some [x02]) ex_row 1%N 0 ex_cols (ex_mem []).
Proof.
  apply (tm_bind_row_correct mem_driver 1%N ex_schema).
  - change (Z.of_nat (length ex_row)) with 48. apply ex_row_ok. intros m H. injection H as <-. discriminate.
  - discriminate.
Defined.

(** NOT NULL.  A row with a NULL in a column that is not NULLABLE is
    never bound as a whole: whatever the driver does, the result is not OK. *)
Theorem tm_bind_row_not_null {D} (drv : SqlRDBDriver D) stmt s row m i col d r d' :
  row_ok (Z.of_nat (length row)) s (Some m) →
  sch_cols s !! i = Some col → bit m i = true →
  has_flag (col_flags col) SQL_COL_FLAG_NULLABLE = false →
  c2sql_internal_tm_bind_row drv stmt (Some s) (Some row) (Some m) d = Some (r, d') →
  r ≠ SQL_RDB_OK.
Proof.
  intros Hok Hi Hb Hn H. destruct (decide (stmt = NULL)) as [->|Hs].
  - unfold c2sql_internal_tm_bind_row in H. rewrite bool_decide_true in H by done.
    by injection H as <- <-.
  - rewrite bind_row_plan in H by done. eapply bind_plan_violation; [exact Hi| |exact H].
    unfold plan_cell. by rewrite Nat.add_0_l, Hb, Hn.
Qed.

Lemma tm_bind_row_not_null_witness : SQL_RDB_ERR_NOT_NULL_VIOLATION ≠ SQL_RDB_OK.
Proof.
  apply (tm_bind_row_not_null mem_driver 1%N ex_schema ex_row [x01] 0
    (MkColumnDef "id" SQL_TYPE_INT64 0 8 SQL_COL_FLAG_PRIMARY_KEY) (ex_mem []) _ (ex_mem [])).
  - change (Z.of_nat (length ex_row)) with 48. apply ex_row_ok. intros m H. injection H as <-. discriminate.
  - reflexivity.
  - reflexivity.
  - reflexivity.
  - reflexivity.
Defined.

(** C35: reading.  On a statement whose current row has given cells, read_row
    returns OK, or WARN_TRUNCATED exactly when a member is too small for its
    cell; each member then holds its cell (cut to the member and NUL-terminated
    for text); every byte of the struct that no cell was stored into, a
    column's with a NULL included, is unchanged; and the bits set in the bitmap
    are those that were set and those of the NULL columns. *)
Theorem tm_read_row_correct {D} (drv : SqlRDBDriver D) stmt s cells I (t : TState D) :
  serves drv stmt cells I → I (t_db t) → stmt ≠ NULL →
  row_ok (Z.of_nat (length (t_row t))) s (t_nulls t) → Forall2 cell_typed (sch_cols s) cells →
  ∃ r t', c2sql_internal_tm_read_row drv stmt (Some s) t = Some (r, t') ∧ I (t_db t') ∧
    r = (if existsb (λ x, too_big x.1 x.2) (zip (sch_cols s) cells)
         then SQL_RDB_WARN_TRUNCATED else SQL_RDB_OK) ∧
    length (t_row t') = length (t_row t) ∧
    (∀ i col c, sch_cols s !! i = Some col → cells !! i = Some c →
      slice (t_row t') (Z.to_nat (col_offset col)) (length (payload col c)) = payload col c) ∧
    (∀ off n, Forall (λ x, Z.of_nat (off + n) ≤ col_offset x.1 ∨ end_of x ≤ Z.of_nat off)
        (zip (sch_cols s) cells) → slice (t_row t') off n = slice (t_row t) off n) ∧
    (∀ m, t_nulls t = Some m → ∃ m', t_nulls t' = Some m' ∧
      ∀ j, bit m' j = bit m j || default false (is_null <$> cells !! j)).
Proof.
  intros Hserv HI Hs Hok Hty.
  destruct (read_row_run drv stmt s cells I t Hserv HI Hs Hok Hty) as (d' & E & HI').
  pose proof (row_ok_bits _ _ _ Hok) as Hb. destruct Hok as (Hlay & _ & _ & _).
  pose proof (layout_cells_ok _ _ _ Hlay Hty) as Hz.
  eexists _, _. split; [exact E|]. cbn [t_db t_row t_nulls].
  split_and!; [done|done|by apply length_store_all| |by intros; apply store_all_frame|].
  - intros i col c Hi Hc. apply (store_all_member _ _ i (col, c) Hz). by apply lookup_zip_Some.
  - intros m Em. rewrite Em. eexists; split; [done|]. intros j.
    rewrite bit_mark_all, decide_True, Nat.sub_0_r by
      (try lia; specialize (Hb m Em); apply Forall2_length in Hty; lia). done.
Qed.

Lemma tm_read_row_correct_witness :
  ∃ r t', c2sql_internal_tm_read_row mem_driver 1%N (Some ex_schema)
    (MkT ex_row (Some [x00]) (ex_mem [CInt 7; CNull])) = Some (r, t') ∧ r = SQL_RDB_OK.
Proof.
  destruct (tm_read_row_correct mem_driver 1%N ex_schema [CInt 7; CNull]
    (λ m, m = ex_mem [CInt 7; CNull]) (MkT ex_row (Some [x00]) (ex_mem [CInt 7; CNull])))
    as (r & t' & H1 & _ & H2 & _).
  - apply mem_serves.
  - reflexivity.
  - discriminate.
  - change (Z.of_nat (length (t_row _))) with 48. apply ex_row_ok. intros m H. injection H as <-. discriminate.
  - constructor; [right; reflexivity|]. constructor; [exact I|constructor].
  - exists r, t'. split; [exact H1|exact H2].
Defined.

(** A round trip.  The cells a row binds, read back into another row of the
    struct, make its members agree: if no text fills its array to the last
    byte the read returns OK; each column that was NULL is marked and its
    member is untouched; each other column has the value it had. *)
Theorem tm_roundtrip {D} (drv : SqlRDBDriver D) stmt s row nulls I (t : TState D) m :
  serves drv stmt (row_cells s row nulls) I → I (t_db t) → stmt ≠ NULL →
  row_ok (Z.of_nat (length row)) s nulls → length (t_row t) = length row →
  t_nulls t = Some m → row_ok (Z.of_nat (length row)) s (Some m) →
  existsb (λ x, too_big x.1 x.2) (zip (sch_cols s) (row_cells s row nulls)) = false →
  ∃ t' m', c2sql_internal_tm_read_row drv stmt (Some s) t = Some (SQL_RDB_OK, t') ∧
    t_nulls t' = Some m' ∧
    ∀ i col, sch_cols s !! i = Some col →
      if match nulls with Some n => bit n i | None => false end
      then bit m' i = true ∧ member (t_row t') col = member (t_row t) col
      else bit m' i = bit m i ∧ cell_of (t_row t') col = cell_of row col.
Proof.
  intros Hserv HI Hs Hok Hlen Em Hok' Hbig. pose proof (row_cells_typed _ _ row _ Hok) as Hty.
  destruct (read_row_run drv stmt s _ I t Hserv HI Hs) as (d' & E & HI'); [by rewrite Hlen, Em|done|].
  rewrite Hbig, Em in E. pose proof (row_ok_bits _ _ _ Hok' m eq_refl) as Hb.
  destruct Hok as (Hlay & _). pose proof (layout_cells_ok _ _ _ Hlay Hty) as Hz.
  pose proof (Forall2_length _ _ _ Hty) as Hcl. rewrite <-Hlen in Hz.
  eexists _, _. split; [exact E|]. split; [done|]. intros i col Hi. cbn [t_row].
  set (cells := row_cells s row nulls) in *.
  assert (cells !! i = Some (if match nulls with Some n => bit n i | None => false end
    then CNull else cell_of row col)) as Hc by (unfold cells, row_cells; by rewrite list_lookup_imap, Hi).
  rewrite bit_mark_all, decide_True, Nat.sub_0_r, Hc by lia.
  assert (zip (sch_cols s) cells !! i = Some (col, if match nulls with Some n => bit n i | None => false end
    then CNull else cell_of row col)) as Hzi by (by apply lookup_zip_Some).
  destruct (match nulls with Some n => bit n i | None => false end).
  - split; [apply orb_true_r|]. apply store_all_frame; [done|].
    apply Forall_lookup_2. intros j y Hj. destruct y as [cj y]. simpl.
    destruct Hlay as [Hfit Hdis]. pose proof Hj as (Hcj & Hyj)%lookup_zip_Some.
    pose proof Hfit as Hfi. eapply Forall_lookup_1 in Hfi as (? & ? & ? & ? & _); [|exact Hi].
    pose proof Hfit as Hfj. eapply Forall_lookup_1 in Hfj as (? & ? & ? & ? & _); [|exact Hcj].
    destruct (decide (j = i)) as [->|Hne].
    + rewrite Hzi in Hj. simplify_eq. unfold end_of. simpl. lia.
    + pose proof (length_payload cj y ltac:(by eapply Forall2_lookup_lr in Hty)).
      unfold end_of. simpl. destruct (Hdis j i _ _ Hne Hcj Hi); lia.
  - assert (is_null (cell_of row col) = false) as Hnn by (unfold cell_of; by destruct (col_type col)).
    cbn. rewrite Hnn, orb_false_r. split; [done|].
    apply cell_of_stored; [by rewrite length_store_all| | |].
    + destruct Hlay as [Hfit _]. by eapply Forall_lookup_1 in Hfit.
    + apply not_true_is_false. intros Hb'. apply not_true_iff_false in Hbig. apply Hbig, existsb_exists.
      exists (col, cell_of row col). split; [|done]. apply list_elem_of_In. by eapply list_elem_of_lookup_2.
    + by apply (store_all_member _ _ i (col, cell_of row col)).
Qed.

Lemma tm_roundtrip_witness :
  ∃ t' m', c2sql_internal_tm_read_row mem_driver 1%N (Some ex_schema)
      (MkT (replicate 48 x00) (Some [x00]) (ex_mem (row_cells ex_schema ex_row None))) = Some (SQL_RDB_OK, t') ∧
    t_nulls t' = Some m'.
Proof.
  destruct (tm_roundtrip mem_driver 1%N ex_schema ex_row None
    (λ m, m = ex_mem (row_cells ex_schema ex_row None))
    (MkT (replicate 48 x00) (Some [x00]) (ex_mem (row_cells ex_schema ex_row None))) [x00])
    as (t' & m' & H1 & H2 & _).
  - apply mem_serves.
  - reflexivity.
  - discriminate.
  - change (Z.of_nat (length ex_row)) with 48. apply ex_row_ok. discriminate.
  - reflexivity.
  - reflexivity.
  - change (Z.of_nat (length ex_row)) with 48. apply ex_row_ok. intros m H. injection H as <-. discriminate.
  - vm_compute. reflexivity.
  - exists t', m'. split; [exact H1|exact H2].
Defined.
