(* ===== verification/Relational.v ===== *)
(** * What the statements mean: tables, and the laws of a database

    The relational view of a database: tables of rows, the effect of a
    statement on them, transactions as a stack of snapshots.  [SqlLaws] is what
    the library relies on of a database behind a driver when it promises that a
    row that was written can be read: the driver's statements have the meaning
    of their text.  Only one connection uses the database. *)

From Stdlib Require Import Ascii String Strings.Byte.
From S2P Require Import Prelude Types Driver QueryBuilder SqlText SqlTextProofs TypeMapping TypeMappingProofs.

(** ** Tables *)

Abbreviation Row := (gmap string Cell).

(** The kinds of values the columns have: 32 and 64 bit integers are one. *)
Inductive Kind : Type := KInt | KReal | KText | KBlob.

#[global] Instance Kind_eq_dec : EqDecision Kind.
Proof. solve_decision. Defined.

Definition kind_of (ty : SqlRDBType) : option Kind :=
  match ty with
  | SQL_TYPE_INT32 | SQL_TYPE_INT64 => Some KInt
  | SQL_TYPE_REAL => Some KReal
  | SQL_TYPE_TEXT => Some KText
  | SQL_TYPE_BLOB => Some KBlob
  | SQL_TYPE_other _ => None
  end.

Definition of_kind (k : Kind) (c : Cell) : bool :=
  match c, k with
  | CNull, _ | CInt _, KInt | CReal _, KReal | CText _, KText | CBlob _, KBlob => true
  | _, _ => false
  end.

Record Table : Type := MkTable {
  t_kinds : gmap string Kind;   (* the columns *)
  t_key : option string;        (* the primary key *)
  t_rows : list Row;
}.

Abbreviation Tables := (gmap string Table).

#[global] Instance byte_eq_dec' : EqDecision byte := Byte.byte_eq_dec.
#[global] Instance Cell_eq_dec : EqDecision Cell.
Proof. solve_decision. Defined.

(** The tables as the connection sees them; the transaction and the savepoints
    that are open, the innermost first, with the tables at their beginning;
    whether an error has doomed the transaction, so that it can only be rolled
    back. *)
Record Db : Type := MkDb {
  db_tables : Tables;
  db_frames : list (string * Tables);
  db_doomed : bool;
}.

(** ** The meaning of a statement *)

Definition cell_at (r : Row) (c : string) : Cell := default CNull (r !! c).

(** The cells bound to the parameters 1 to [k]. *)
Definition arg_cells (args : Z → Cell) (k : nat) : list Cell := (λ i, args (Z.of_nat i + 1)) <$> seq 0 k.

Definition new_row (cols : list string) (cells : list Cell) : Row := list_to_map (zip cols cells).

(** [SET c = excluded.c] for each of the columns. *)
Definition set_cells (sets : list string) (new r : Row) : Row :=
  filter (λ x, x.1 ∈ sets) new ∪ r.

Record Effect : Type := MkEffect {
  ef_result : list (list Cell);
  ef_rows : list Row;
  ef_changed : nat;
}.

Section meaning.
Context (cmp : SqlRDBOp → Cell → Cell → bool).

(** [cmp] is false for a NULL.  The language has no NOT, so that unknown and
    false need not be told apart. *)
Fixpoint holds (args : Z → Cell) (n : Z) (p : Pred) (r : Row) : bool :=
  match p with
  | PCmp col op => cmp op (cell_at r col) (args (n + 1))
  | PAnd p q => holds args n p r && holds args (n + pred_holes p) q r
  | POr p q => holds args n p r || holds args (n + pred_holes p) q r
  end.

Definition selects (args : Z → Cell) (n : Z) (w : option Pred) (r : Row) : bool :=
  match w with None => true | Some p => holds args n p r end.

Definition same_key (key : string) (new r : Row) : bool :=
  cmp SQL_OP_EQ (cell_at r key) (cell_at new key).

Definition upsert (key : string) (sets : list string) (new : Row) (rows : list Row) : list Row :=
  if existsb (same_key key new) rows
  then (λ r, if same_key key new r then set_cells sets new r else r) <$> rows
  else rows ++ [new].

Definition sql_effect (q : Sql) (args : Z → Cell) (rows : list Row) : Effect :=
  match q with
  | SInsert _ cols => MkEffect [] (rows ++ [new_row cols (arg_cells args (length cols))]) 1
  | SUpsert _ cols key sets =>
      MkEffect [] (upsert key sets (new_row cols (arg_cells args (length cols))) rows) 1
  | SSelect _ cols w =>
      MkEffect ((λ r, cell_at r <$> cols) <$> filter (λ r, selects args 0 w r) rows) rows 0
  | SCount _ w =>
      MkEffect [[CInt (Z.of_nat (length (filter (λ r, selects args 0 w r) rows)))]] rows 0
  | SDelete _ w =>
      MkEffect [] (filter (λ r, ¬ selects args 0 w r) rows)
        (length (filter (λ r, selects args 0 w r) rows))
  | SUpdate _ col w =>
      MkEffect [] ((λ r, if selects args 1 w r then <[col := args 1]> r else r) <$> rows)
        (length (filter (λ r, selects args 1 w r) rows))
  end.
End meaning.

Definition sql_table (q : Sql) : string :=
  match q with
  | SInsert t _ | SUpsert t _ _ _ | SSelect t _ _ | SCount t _ | SDelete t _ | SUpdate t _ _ => t
  end.

Definition sql_writes (q : Sql) : bool :=
  match q with SSelect _ _ _ | SCount _ _ => false | _ => true end.

(** ** Statements that fit a table *)

(** Every column is there, and what is compared with it or stored into it is
    of its kind. *)
Fixpoint pred_typed (t : Table) (args : Z → Cell) (n : Z) (p : Pred) : Prop :=
  match p with
  | PCmp col _ => ∃ k, t_kinds t !! col = Some k ∧ of_kind k (args (n + 1)) = true
  | PAnd p q | POr p q => pred_typed t args n p ∧ pred_typed t args (n + pred_holes p) q
  end.

Definition where_typed (t : Table) (args : Z → Cell) (n : Z) (w : option Pred) : Prop :=
  from_option (pred_typed t args n) True w.

Definition cells_typed (t : Table) (cols : list string) (cells : list Cell) : Prop :=
  Forall2 (λ col c, ∃ k, t_kinds t !! col = Some k ∧ of_kind k c = true) cols cells.

(** A new row has a key, where the table has one. *)
Definition keyed (t : Table) (new : Row) : Prop :=
  ∀ key, t_key t = Some key → cell_at new key ≠ CNull.

Definition sql_typed (t : Table) (args : Z → Cell) (q : Sql) : Prop :=
  match q with
  | SInsert _ cols =>
      let cells := arg_cells args (length cols) in
      cells_typed t cols cells ∧ keyed t (new_row cols cells)
  | SUpsert _ cols key sets =>
      let cells := arg_cells args (length cols) in
      cells_typed t cols cells ∧ keyed t (new_row cols cells) ∧ t_key t = Some key ∧
      key ∈ cols ∧ sets ⊆ cols
  | SSelect _ cols w => Forall (λ c, is_Some (t_kinds t !! c)) cols ∧ where_typed t args 0 w
  | SCount _ w | SDelete _ w => where_typed t args 0 w
  | SUpdate _ col w =>
      (∃ k, t_kinds t !! col = Some k ∧ of_kind k (args 1) = true) ∧ where_typed t args 1 w
  end.

(** ** Transactions *)

(** What a rollback of everything leaves. *)
Definition undo_all (b : Db) : Db :=
  MkDb (from_option snd (db_tables b) (last (db_frames b))) [] false.

Definition doom (b : Db) : Db := MkDb (db_tables b) (db_frames b) true.

(** What a statement that fails leaves: nothing has changed; but inside of a
    transaction it may be doomed, or the database may have dropped it. *)
Definition hurt (drops : Prop) (b b' : Db) : Prop :=
  b' = b ∨ (db_frames b ≠ [] ∧ (b' = doom b ∨ (drops ∧ b' = undo_all b))).

(** The frames that are open stay, unless all are dropped. *)
Definition frames_kept (drops : Prop) (b b' : Db) : Prop :=
  db_frames b' = db_frames b ∨ (drops ∧ db_frames b' = []).

(** ** Statements in a driver *)

(** A prepared statement: its text, what is bound, and when it runs the rows
    that are left, the current one first. *)
Record Cursor : Type := MkCursor {
  cu_sql : string;
  cu_args : gmap Z Cell;
  cu_rows : option (list (list Cell));
}.

Definition args_of (cu : Cursor) : Z → Cell := λ i, default CNull (cu_args cu !! i).

(** What a driver shows of its database. *)
Record SqlView (D : Type) : Type := MkSqlView {
  sv_db : D → Db;
  sv_cursors : D → gmap ptr Cursor;
  sv_changed : D → Z;              (* rows changed by the last write *)
}.
Arguments MkSqlView {D}.
Arguments sv_db {D}.
Arguments sv_cursors {D}.
Arguments sv_changed {D}.

(** Everything but the cursors is as it was. *)
Definition idle {D} (v : SqlView D) (d d' : D) : Prop :=
  sv_db v d' = sv_db v d ∧ sv_changed v d' = sv_changed v d.

(** The cursors after a step of [p]: the others are as they were; a write may
    change what a running one will return. *)
Definition moved_one (writes : bool) (p : ptr) (cu : Cursor) (m m' : gmap ptr Cursor) : Prop :=
  m' !! p = Some cu ∧
  ∀ q c, q ≠ p → m !! q = Some c →
    if writes then ∃ rows, m' !! q = Some (MkCursor (cu_sql c) (cu_args c) rows) ∧
                           (cu_rows c = None → rows = None)
    else m' !! q = Some c.

(** No cursor starts to run. *)
Definition moved_none (m m' : gmap ptr Cursor) : Prop :=
  ∀ q c, m !! q = Some c → ∃ rows, m' !! q = Some (MkCursor (cu_sql c) (cu_args c) rows) ∧
    (cu_rows c = None → rows = None).

(** The codes the library gives a meaning of its own. *)
Definition plain_code (r : SqlRDBResult) : bool :=
  match r with
  | SQL_RDB_ERR_NOT_FOUND | SQL_RDB_ERR_MULTIPLE_ROWS | SQL_RDB_WARN_TRUNCATED
  | SQL_RDB_ERR_UNKNOWN_STRUCT | SQL_RDB_ERR_INVALID_ARG | SQL_RDB_ERR_INVALID_HANDLE
  | SQL_RDB_ERR_CAPACITY_EXCEEDED => false
  | _ => true
  end.

(** [m] binds [c] to the parameter [i] of a statement that does not run. *)
Definition binds {D} (v : SqlView D) (m : M D SqlRDBResult) (p : ptr) (i : Z) (c : Cell) : Prop :=
  ∀ d r d' sql args, sv_cursors v d !! p = Some (MkCursor sql args None) → m d = Some (r, d') →
    plain_code r = true ∧ idle v d d' ∧ ∃ args', sv_cursors v d' = <[p := MkCursor sql args' None]> (sv_cursors v d) ∧
    (r = SQL_RDB_OK → args' = <[i := c]> args).

(** [m] reads a cell [c] of the current row of [p], with a result in [φ c]. *)
Definition fetches {D A} (v : SqlView D) (m : M D (SqlRDBResult * A)) (p : ptr) (i : nat)
    (φ : Cell → A → Prop) : Prop :=
  ∀ d r x d' sql args row rows c, sv_cursors v d !! p = Some (MkCursor sql args (Some (row :: rows))) →
    row !! i = Some c → m d = Some ((r, x), d') →
    plain_code r = true ∧ idle v d d' ∧ sv_cursors v d' = sv_cursors v d ∧ (r = SQL_RDB_OK → φ c x).

(** A buffer holds the bytes; an empty one may be NULL. *)
Definition holds_bytes (s : list byte) (x : option (list byte) * Z) : Prop :=
  x.2 = Z.of_nat (length s) ∧ (x.1 = Some s ∨ s = [] ∧ x.1 = None).

(** A command on the transaction: when it succeeds it leaves [after], when it
    fails it does some [hurt]. *)
Definition tx_means {D} (v : SqlView D) (drops : Prop) (m : M D SqlRDBResult) (d : D)
    (after : Db → Db → Prop) : Prop :=
  ∀ r d', m d = Some (r, d') →
    moved_none (sv_cursors v d) (sv_cursors v d') ∧
    if res_ok r then after (sv_db v d) (sv_db v d') else hurt drops (sv_db v d) (sv_db v d').

(** ** The laws *)

(** [sql_drops]: the database may drop a transaction by itself after an error
    (SQLite after SQLITE_FULL, for example); then to end it again is an error.
    [sql_exact c]: the value goes into a column and comes back as it is. *)
Class SqlLaws {D : Type} (drv : SqlRDBDriver D) `{!DriverLaws drv} (ctx : ptr) := {
  sql_view : SqlView D;
  sql_drops : Prop;
  sql_exact : Cell → Prop;
  sql_cmp : SqlRDBOp → Cell → Cell → bool;

  cursors_open p d cu : sv_cursors sql_view d !! p = Some cu → p ∈ stmts d;

  (** Two values of a kind are equal when they are the same; reals apart. *)
  exact_null : sql_exact CNull;
  cmp_null op c : sql_cmp op CNull c = false ∧ sql_cmp op c CNull = false;
  cmp_eq k a b : k ≠ KReal → of_kind k a = true → of_kind k b = true → a ≠ CNull → b ≠ CNull →
    sql_cmp SQL_OP_EQ a b = bool_decide (a = b);

  prepare_means sql d r p d' : drv_prepare drv ctx sql d = Some ((r, p), d') →
    plain_code r = true ∧ sv_changed sql_view d' = sv_changed sql_view d ∧
    if res_ok r then
      p ≠ NULL ∧ sv_db sql_view d' = sv_db sql_view d ∧ sv_cursors sql_view d !! p = None ∧
      sv_cursors sql_view d' = <[p := MkCursor sql ∅ None]> (sv_cursors sql_view d)
    else hurt sql_drops (sv_db sql_view d) (sv_db sql_view d') ∧
      sv_cursors sql_view d' = sv_cursors sql_view d;

  bind_int64_means p i v : binds sql_view (drv_bind_int64 drv p i v) p i (CInt v);
  bind_int32_means p i v : binds sql_view (drv_bind_int32 drv p i v) p i (CInt v);
  bind_real_means p i v : binds sql_view (drv_bind_real drv p i v) p i (CReal v);
  bind_text_means p i s n : 0 ≤ n ≤ Z.of_nat (length s) → n ≤ INT_MAX →
    binds sql_view (drv_bind_text drv p i (Some s) n) p i (CText (take (Z.to_nat n) s));
  bind_cstr_means p i s : binds sql_view (drv_bind_text drv p i (Some s) (-1)) p i (CText (take_nul s));
  bind_blob_means p i s n : 0 ≤ n ≤ Z.of_nat (length s) → n ≤ INT_MAX →
    binds sql_view (drv_bind_blob drv p i (Some s) n) p i (CBlob (take (Z.to_nat n) s));
  bind_null_means p i : binds sql_view (drv_bind_null drv p i) p i CNull;

  (** The first step runs the statement.  The order of the rows is not told;
      what a query does to the count of changed rows is left open. *)
  step_runs p d r b d' q cu t : let view := sql_view in
    sv_cursors view d !! p = Some cu → cu_rows cu = None →
    cu_sql cu = sql_print (drv_dialect drv) q → sql_ok q →
    (∀ i, 1 ≤ i ≤ sql_holes q → ∃ c, cu_args cu !! i = Some c ∧ sql_exact c) →
    db_tables (sv_db view d) !! sql_table q = Some t → sql_typed t (args_of cu) q →
    drv_step drv p d = Some ((r, b), d') →
    plain_code r = true ∧
    let e := sql_effect sql_cmp q (args_of cu) (t_rows t) in
    if res_ok r then
      ∃ rows, rows ≡ₚ ef_result e ∧ b = Some (negb (bool_decide (rows = []))) ∧
        moved_one (sql_writes q) p (MkCursor (cu_sql cu) (cu_args cu) (Some rows))
          (sv_cursors view d) (sv_cursors view d') ∧
        if sql_writes q then
          sv_db view d' = MkDb (<[sql_table q := MkTable (t_kinds t) (t_key t) (ef_rows e)]>
            (db_tables (sv_db view d))) (db_frames (sv_db view d)) (db_doomed (sv_db view d)) ∧
          sv_changed view d' = Z.of_nat (ef_changed e)
        else sv_db view d' = sv_db view d
    else hurt sql_drops (sv_db view d) (sv_db view d') ∧ ∃ rows,
      moved_one (sql_writes q) p (MkCursor (cu_sql cu) (cu_args cu) rows)
        (sv_cursors view d) (sv_cursors view d');

  (** Each further step of a query takes one row. *)
  step_next p d r b d' q cu row rows : let view := sql_view in
    sv_cursors view d !! p = Some cu → cu_rows cu = Some (row :: rows) →
    cu_sql cu = sql_print (drv_dialect drv) q → sql_ok q → sql_writes q = false →
    drv_step drv p d = Some ((r, b), d') →
    plain_code r = true ∧
    if res_ok r then
      b = Some (negb (bool_decide (rows = []))) ∧ sv_db view d' = sv_db view d ∧
      moved_one false p (MkCursor (cu_sql cu) (cu_args cu) (Some rows)) (sv_cursors view d) (sv_cursors view d')
    else b ≠ Some true ∧ hurt sql_drops (sv_db view d) (sv_db view d') ∧ ∃ rows',
      moved_one false p (MkCursor (cu_sql cu) (cu_args cu) rows') (sv_cursors view d) (sv_cursors view d');

  (** No statement on rows opens or ends a transaction. *)
  step_frames p d r b d' q cu : let view := sql_view in
    sv_cursors view d !! p = Some cu → cu_sql cu = sql_print (drv_dialect drv) q →
    drv_step drv p d = Some ((r, b), d') →
    frames_kept sql_drops (sv_db view d) (sv_db view d') ∧ ∃ rows,
      moved_one true p (MkCursor (cu_sql cu) (cu_args cu) rows) (sv_cursors view d) (sv_cursors view d');

  isnull_means p i : fetches sql_view (drv_column_isnull drv p (Z.of_nat i)) p i (λ c x, x = is_null c);
  int64_means p i : fetches sql_view (drv_column_int64 drv p (Z.of_nat i)) p i
    (λ c x, ∀ v, c = CInt v → x = v);
  real_means p i : fetches sql_view (drv_column_real drv p (Z.of_nat i)) p i
    (λ c x, ∀ v, c = CReal v → x = v);
  text_means p i : fetches sql_view (drv_column_text drv p (Z.of_nat i)) p i
    (λ c x, ∀ s, c = CText s → holds_bytes s x);
  blob_means p i : fetches sql_view (drv_column_blob drv p (Z.of_nat i)) p i
    (λ c x, ∀ s, c = CBlob s → holds_bytes s x);

  reset_means p d r d' cu : sv_cursors sql_view d !! p = Some cu → drv_reset drv p d = Some (r, d') →
    idle sql_view d d' ∧ ∃ args,
    sv_cursors sql_view d' = <[p := MkCursor (cu_sql cu) args None]> (sv_cursors sql_view d);
  finalize_means p d r d' : drv_finalize drv p d = Some (r, d') →
    idle sql_view d d' ∧ sv_cursors sql_view d' = delete p (sv_cursors sql_view d);
  changes_means d n d' : drv_changes drv ctx d = Some (n, d') →
    idle sql_view d d' ∧ sv_cursors sql_view d' = sv_cursors sql_view d ∧
    (0 ≤ sv_changed sql_view d ≤ INT_MAX → n = sv_changed sql_view d);

  begin_means d : tx_means sql_view sql_drops (drv_begin drv ctx) d (λ b b',
    db_frames b = [] → b' = MkDb (db_tables b) [(EmptyString, db_tables b)] false);
  commit_means d : tx_means sql_view sql_drops (drv_commit drv ctx) d (λ b b',
    (sql_drops → db_frames b ≠ []) ∧
    (db_frames b ≠ [] → b' = if db_doomed b then undo_all b else MkDb (db_tables b) [] false));
  rollback_means d : tx_means sql_view sql_drops (drv_rollback drv ctx) d (λ b b',
    (sql_drops → db_frames b ≠ []) ∧ (db_frames b ≠ [] → b' = undo_all b));
  savepoint_means n d : tx_means sql_view sql_drops (drv_savepoint drv ctx n) d (λ b b',
    (db_frames b ≠ [] ∨ sql_drops) →
    db_doomed b = false ∧ b' = MkDb (db_tables b) ((n, db_tables b) :: db_frames b) false);
  release_means n d : tx_means sql_view sql_drops (drv_release_sp drv ctx n) d (λ b b',
    n ∈ (db_frames b).*1 ∧ db_doomed b = false ∧
    (∀ T F, db_frames b = (n, T) :: F → b' = MkDb (db_tables b) F false));
  rollback_to_means n d : tx_means sql_view sql_drops (drv_rollback_sp drv ctx n) d (λ b b',
    n ∈ (db_frames b).*1 ∧
    (∀ T F, db_frames b = (n, T) :: F → b' = MkDb T ((n, T) :: F) false));
}.

Abbreviation the_db := (sv_db sql_view).
Abbreviation cursors := (sv_cursors sql_view).
Abbreviation changed := (sv_changed sql_view).
