(* ===== verification/TableDriver.v ===== *)
(** * A driver with tables

    An instance of the driver interface that reads the statements back and runs
    them on tables in memory.  The examples of the theorems about rows run on
    it, and it shows that the laws of [DriverLaws] and [SqlLaws] can hold
    together; it stands for no backend of the repository. *)

From Stdlib Require Import String Strings.Byte.
From S2P Require Import Prelude Types Driver MemDriver SqlText SqlTextProofs TypeMappingProofs Relational.

Record Tab : Type := MkTab {
  tab_db : Db;
  tab_cursors : gmap N Cursor;
  tab_changed : Z;
  tab_conns : list N;
}.

Definition tab0 (tables : Tables) : Tab := MkTab (MkDb tables [] false) ∅ 0 [1%N].

Definition tab_cmp (op : SqlRDBOp) (a b : Cell) : bool :=
  match a, b with
  | CNull, _ | _, CNull => false
  | CInt x, CInt y =>
      match op with
      | SQL_OP_EQ | SQL_OP_other _ => bool_decide (a = b)
      | SQL_OP_NE => negb (x =? y)
      | SQL_OP_LT => x <? y
      | SQL_OP_LE => x <=? y
      | SQL_OP_GT => y <? x
      | SQL_OP_GE => y <=? x
      end
  | _, _ =>
      match op with
      | SQL_OP_EQ => bool_decide (a = b)
      | SQL_OP_NE => negb (bool_decide (a = b))
      | _ => false
      end
  end.

Definition tab_set_db (b : Db) (d : Tab) : Tab := MkTab b (tab_cursors d) (tab_changed d) (tab_conns d).
Definition tab_set_cursor (p : ptr) (cu : Cursor) (d : Tab) : Tab :=
  MkTab (tab_db d) (<[p := cu]> (tab_cursors d)) (tab_changed d) (tab_conns d).

(** Using a statement that is not prepared is undefined. *)
Definition tab_at {A} (p : ptr) (k : Cursor → Tab → A * Tab) : M Tab A := λ d,
  match tab_cursors d !! p with
  | Some cu => Some (k cu d)
  | None => None
  end.

Definition tab_prepare (sql : string) : M Tab (SqlRDBResult * ptr) := λ d,
  match sql_read sql with
  | None => Some ((SQL_RDB_ERR_DRIVER, NULL), d)
  | Some _ =>
      let p := fresh ({[NULL]} ∪ dom (tab_cursors d)) in
      Some ((SQL_RDB_OK, p), tab_set_cursor p (MkCursor sql ∅ None) d)
  end.

Definition tab_bind (p : ptr) (i : Z) (c : Cell) : M Tab SqlRDBResult :=
  tab_at p (λ cu d, (SQL_RDB_OK,
    tab_set_cursor p (MkCursor (cu_sql cu) (<[i := c]> (cu_args cu)) (cu_rows cu)) d)).

(** Run the statement: no statement fails once its table is there. *)
Definition tab_run (p : ptr) (cu : Cursor) (d : Tab) : (SqlRDBResult * option bool) * Tab :=
  match sql_read (cu_sql cu) with
  | None => ((SQL_RDB_ERR_DRIVER, None), d)
  | Some q =>
      match db_tables (tab_db d) !! sql_table q with
      | None => ((SQL_RDB_ERR_DRIVER, None), d)
      | Some t =>
          let e := sql_effect tab_cmp q (args_of cu) (t_rows t) in
          let d := tab_set_cursor p (MkCursor (cu_sql cu) (cu_args cu) (Some (ef_result e))) d in
          ((SQL_RDB_OK, Some (negb (bool_decide (ef_result e = [])))),
           if sql_writes q then
             MkTab (MkDb (<[sql_table q := MkTable (t_kinds t) (t_key t) (ef_rows e)]> (db_tables (tab_db d)))
                         (db_frames (tab_db d)) (db_doomed (tab_db d)))
                   (tab_cursors d) (Z.of_nat (ef_changed e)) (tab_conns d)
           else d)
      end
  end.

Definition tab_step (p : ptr) : M Tab (SqlRDBResult * option bool) :=
  tab_at p (λ cu d,
    match cu_rows cu with
    | None => tab_run p cu d
    | Some [] => ((SQL_RDB_OK, Some false), d)
    | Some (_ :: rows) =>
        ((SQL_RDB_OK, Some (negb (bool_decide (rows = [])))),
         tab_set_cursor p (MkCursor (cu_sql cu) (cu_args cu) (Some rows)) d)
    end).

Definition tab_column {A} (p : ptr) (i : Z) (f : Cell → A) : M Tab (SqlRDBResult * A) :=
  tab_at p (λ cu d,
    ((SQL_RDB_OK, f (default CNull (rows ← cu_rows cu; row ← head rows; row !! Z.to_nat i))), d)).

(** A command on the transaction, an error where [f] has no answer. *)
Definition tab_tx (f : Db → option Db) : M Tab SqlRDBResult := λ d,
  match f (tab_db d) with
  | Some b => Some (SQL_RDB_OK, tab_set_db b d)
  | None => Some (SQL_RDB_ERR_DRIVER, d)
  end.

Definition tab_begin (b : Db) : option Db :=
  match db_frames b with
  | [] => Some (MkDb (db_tables b) [(EmptyString, db_tables b)] false)
  | _ => None
  end.

Definition tab_commit (b : Db) : option Db :=
  match db_frames b with
  | [] => None
  | _ => Some (if db_doomed b then undo_all b else MkDb (db_tables b) [] false)
  end.

Definition tab_rollback (b : Db) : option Db :=
  match db_frames b with [] => None | _ => Some (undo_all b) end.

Definition tab_savepoint (n : string) (b : Db) : option Db :=
  match db_frames b with
  | [] => None
  | _ => if db_doomed b then None else Some (MkDb (db_tables b) ((n, db_tables b) :: db_frames b) false)
  end.

Definition tab_release (n : string) (b : Db) : option Db :=
  match db_frames b with
  | (m, _) :: F => if decide (n = m) then if db_doomed b then None else Some (MkDb (db_tables b) F false) else None
  | [] => None
  end.

Definition tab_rollback_to (n : string) (b : Db) : option Db :=
  match db_frames b with
  | (m, T) :: F => if decide (n = m) then Some (MkDb T ((n, T) :: F) false) else None
  | [] => None
  end.

Definition tab_text (s : option (list byte)) (n : Z) : Cell :=
  match s with
  | None => CNull
  | Some s => CText (if n <? 0 then take_nul s else take (Z.to_nat n) s)
  end.

Definition tab_blob (s : option (list byte)) (n : Z) : Cell :=
  match s with None => CNull | Some s => CBlob (take (Z.to_nat n) s) end.

Definition tab_driver : SqlRDBDriver Tab := {|
  drv_name := "tables";
  drv_dialect := C2SQL_DIALECT_SQLITE;
  drv_open _ := λ d, let c := (foldr N.max 0 (tab_conns d) + 1)%N in
    Some ((SQL_RDB_OK, c), MkTab (tab_db d) (tab_cursors d) (tab_changed d) (c :: tab_conns d));
  drv_close c := λ d, Some (SQL_RDB_OK,
    MkTab (tab_db d) (tab_cursors d) (tab_changed d) (filter (λ q, q ≠ c) (tab_conns d)));
  drv_exec _ _ := mret SQL_RDB_OK;
  drv_prepare _ := tab_prepare;
  drv_bind_int64 p i v := tab_bind p i (CInt v);
  drv_bind_int32 p i v := tab_bind p i (CInt v);
  drv_bind_real p i v := tab_bind p i (CReal v);
  drv_bind_text p i s n := tab_bind p i (tab_text s n);
  drv_bind_blob p i s n := tab_bind p i (tab_blob s n);
  drv_bind_null p i := tab_bind p i CNull;
  drv_step := tab_step;
  drv_column_int64 p i := tab_column p i cell_int;
  drv_column_int32 p i := tab_column p i (λ c, to_signed 32 (cell_int c));
  drv_column_real p i := tab_column p i cell_real;
  drv_column_text p i := tab_column p i cell_bytes;
  drv_column_blob p i := tab_column p i cell_bytes;
  drv_column_isnull p i := tab_column p i is_null;
  drv_reset p := tab_at p (λ cu d, (SQL_RDB_OK, tab_set_cursor p (MkCursor (cu_sql cu) (cu_args cu) None) d));
  drv_finalize p := tab_at p (λ _ d, (SQL_RDB_OK,
    MkTab (tab_db d) (delete p (tab_cursors d)) (tab_changed d) (tab_conns d)));
  drv_begin _ := tab_tx tab_begin;
  drv_commit _ := tab_tx tab_commit;
  drv_rollback _ := tab_tx tab_rollback;
  drv_savepoint _ n := tab_tx (tab_savepoint n);
  drv_release_sp _ n := tab_tx (tab_release n);
  drv_rollback_sp _ n := tab_tx (tab_rollback_to n);
  drv_changes _ := λ d, Some (tab_changed d, d);
|}.

(** ** The laws of a driver *)

Definition tab_view : View Tab :=
  MkView (λ d, dom (tab_cursors d)) (λ _ _, ∅) (λ d, list_to_set (tab_conns d)) (λ _, True).

Lemma tab_at_keeps {A} p (k : Cursor → Tab → A * Tab) d :
  p ∈ dom (tab_cursors d) →
  (∀ cu, tab_cursors d !! p = Some cu →
    dom (tab_cursors (k cu d).2) = dom (tab_cursors d) ∧ tab_conns (k cu d).2 = tab_conns d) →
  keeps tab_view (tab_at p k) d.
Proof.
  intros [cu Hp]%elem_of_dom Hk. destruct (Hk cu Hp) as [H1 H2]. unfold keeps, tab_at. rewrite Hp.
  destruct (k cu d) as [a d'] eqn:E. simpl in *. exists a, d'. split; [done|]. split; [exact H1|].
  split; [simpl; by rewrite H2|done].
Qed.

Lemma dom_set_cursor p cu d : p ∈ dom (tab_cursors d) → dom (tab_cursors (tab_set_cursor p cu d)) = dom (tab_cursors d).
Proof. intros Hp. simpl. rewrite dom_insert_L. set_solver. Qed.

Lemma tab_tx_keeps f d : keeps tab_view (tab_tx f) d.
Proof. unfold keeps, tab_tx. destruct (f (tab_db d)); by eexists _, _. Qed.

Lemma tab_step_dom p cu d :
  tab_cursors d !! p = Some cu →
  let d' := (match cu_rows cu with
    | None => tab_run p cu d
    | Some [] => ((SQL_RDB_OK, Some false), d)
    | Some (_ :: rows) =>
        ((SQL_RDB_OK, Some (negb (bool_decide (rows = [])))),
         tab_set_cursor p (MkCursor (cu_sql cu) (cu_args cu) (Some rows)) d)
    end).2 in
  dom (tab_cursors d') = dom (tab_cursors d) ∧ tab_conns d' = tab_conns d.
Proof.
  intros Hp. assert (p ∈ dom (tab_cursors d)) as Hd by (by apply elem_of_dom).
  destruct (cu_rows cu) as [[|row rows]|]; [done|split; [by apply dom_set_cursor|done]|].
  unfold tab_run. destruct (sql_read _) as [q|]; [|done]. destruct (_ !! sql_table q) as [t|]; [|done].
  destruct (sql_writes q); (split; [by apply dom_set_cursor|done]).
Qed.

Lemma tab_bytes_law p i d : p ∈ dom (tab_cursors d) →
  ∃ r q n d', tab_column p i cell_bytes d = Some ((r, (q, n)), d') ∧
    v_stmts tab_view d' = v_stmts tab_view d ∧ still tab_view d d' ∧ buffer_ok q n.
Proof.
  intros [cu Hp]%elem_of_dom. unfold tab_column, tab_at. rewrite Hp. exists SQL_RDB_OK.
  destruct (default CNull _) as [| | |s|s]; eexists _, _, d; (split; [done|]); (split; [done|]);
    (split; [done|]); (split; [lia|]); by intros bs [= <-].
Qed.

#[global] Instance tab_driver_laws : DriverLaws tab_driver.
Proof.
  refine {| view := tab_view |}; simpl; try done; intros.
  all: try (by apply tab_tx_keeps).
  all: try (by apply tab_bytes_law).
  all: try (by apply tab_at_keeps; [|intros cu Hcu; split; [by apply dom_set_cursor|]]).
  all: try (apply tab_at_keeps; [done|]; intros cu Hcu; exact (conj eq_refl eq_refl)).
  all: try (by eexists _, _).
  - unfold tab_prepare. destruct (sql_read sql); [|by eexists _, _, _].
    eexists _, _, _. split; [done|]. simpl.
    set (p := fresh _). assert (p ∉ ({[NULL]} ∪ dom (tab_cursors d))) as Hp by apply is_fresh.
    split; [set_solver|]. split; [set_solver|]. split; [by rewrite dom_insert_L|done].
  - destruct (proj1 (elem_of_dom _ _) H) as [cu Hp]. unfold tab_at. rewrite Hp. eexists _, _. split; [done|].
    simpl. split; [by rewrite dom_delete_L|done].
  - apply tab_at_keeps; [done|]. intros cu Hcu. by apply tab_step_dom.
Defined.

#[global] Instance tab_conn_laws : ConnLaws tab_driver.
Proof.
  constructor; simpl; [done| |].
  - intros dsn d _. eexists _, _, _. split; [done|]. simpl. split_and!; try done.
    + unfold NULL. lia.
    + rewrite elem_of_list_to_set. intros Hc%foldr_max. lia.
  - intros c d _. eexists _, _. split; [done|]. simpl. split_and!; try done; [|set_solver].
    apply set_eq. intros q. rewrite elem_of_difference, !elem_of_list_to_set, list_elem_of_filter, elem_of_singleton. tauto.
Qed.

(** ** The laws of a database *)

Definition tab_sql_view : SqlView Tab := MkSqlView tab_db tab_cursors tab_changed.

Lemma tab_binds p i c c' : c = c' → binds tab_sql_view (tab_bind p i c) p i c'.
Proof.
  intros -> d r d' sql args Hp E. simpl in Hp. unfold tab_bind, tab_at in E. rewrite Hp in E. injection E as <- <-.
  split_and!; [done|done|]. eexists. by split.
Qed.

Lemma tab_fetches {A} p i (f : Cell → A) (φ : Cell → A → Prop) :
  (∀ c, φ c (f c)) → fetches tab_sql_view (tab_column p (Z.of_nat i) f) p i φ.
Proof.
  intros Hf d r x d' sql args row rows c Hp Hc E. simpl in Hp. unfold tab_column, tab_at in E. rewrite Hp in E.
  injection E as <- <- <-. split_and!; try done. intros _. simpl. rewrite Nat2Z.id, Hc. apply Hf.
Qed.

Lemma tab_moved_none d : moved_none (tab_cursors d) (tab_cursors d).
Proof. intros q [sql args rows] Hq. by exists rows. Qed.

Lemma tab_tx_means f d after :
  (∀ b', f (tab_db d) = Some b' → after (tab_db d) b') →
  tx_means tab_sql_view False (tab_tx f) d after.
Proof.
  intros Hf r d' E. unfold tab_tx in E. destruct (f (tab_db d)) as [b'|] eqn:Ef; injection E as <- <-; simpl.
  - split; [apply tab_moved_none|]. by apply Hf.
  - split; [apply tab_moved_none|]. by left.
Qed.

Lemma tab_moved_one w p cu (m : gmap ptr Cursor) : moved_one w p cu m (<[p := cu]> m).
Proof.
  split; [apply lookup_insert_eq|]. intros q [sql args rows] Hq Hm. rewrite lookup_insert_ne by done.
  destruct w; [by exists rows|done].
Qed.

Lemma tab_moved_same w p cu (m : gmap ptr Cursor) : m !! p = Some cu → moved_one w p cu m m.
Proof. intros Hp. split; [done|]. intros q [sql args rows] Hq Hm. destruct w; [by exists rows|done]. Qed.

(** A step of a statement with a table. *)
Lemma tab_step_run p d cu q t :
  tab_cursors d !! p = Some cu → cu_rows cu = None → sql_read (cu_sql cu) = Some q →
  db_tables (tab_db d) !! sql_table q = Some t →
  tab_step p d = Some (tab_run p cu d) ∧
  tab_run p cu d = let e := sql_effect tab_cmp q (args_of cu) (t_rows t) in
    let d1 := tab_set_cursor p (MkCursor (cu_sql cu) (cu_args cu) (Some (ef_result e))) d in
    ((SQL_RDB_OK, Some (negb (bool_decide (ef_result e = [])))),
     if sql_writes q then
       MkTab (MkDb (<[sql_table q := MkTable (t_kinds t) (t_key t) (ef_rows e)]> (db_tables (tab_db d)))
                   (db_frames (tab_db d)) (db_doomed (tab_db d)))
             (tab_cursors d1) (Z.of_nat (ef_changed e)) (tab_conns d1)
     else d1).
Proof.
  intros Hp Hr Hq Ht. unfold tab_step, tab_at, tab_run. by rewrite Hp, Hr, Hq, Ht.
Qed.

Lemma tab_step_frames p d r b d' cu :
  tab_cursors d !! p = Some cu → tab_step p d = Some ((r, b), d') →
  db_frames (tab_db d') = db_frames (tab_db d) ∧ ∃ rows,
    moved_one true p (MkCursor (cu_sql cu) (cu_args cu) rows) (tab_cursors d) (tab_cursors d').
Proof.
  intros Hp E. unfold tab_step, tab_at in E. rewrite Hp in E. injection E as E.
  assert (moved_one true p (MkCursor (cu_sql cu) (cu_args cu) (cu_rows cu)) (tab_cursors d) (tab_cursors d)) as Hid
    by (apply tab_moved_same; by destruct cu).
  destruct (cu_rows cu) as [[|row rows]|]; [injection E as <- <- <-; eauto|injection E as <- <- <-|].
  { split; [done|]. eexists. apply tab_moved_one. }
  unfold tab_run in E. destruct (sql_read _) as [q|]; [|injection E as <- <- <-; eauto].
  destruct (_ !! sql_table q) as [t|]; [|injection E as <- <- <-; eauto].
  injection E as <- <- <-. destruct (sql_writes q); (split; [done|]); eexists; apply tab_moved_one.
Qed.

Lemma tab_cmp_eq k a b :
  k ≠ KReal → of_kind k a = true → of_kind k b = true → a ≠ CNull → b ≠ CNull →
  tab_cmp SQL_OP_EQ a b = bool_decide (a = b).
Proof. intros _ _ _ Ha Hb. by destruct a, b. Qed.

Lemma tab_step_runs p d r b d' q cu t :
  tab_cursors d !! p = Some cu → cu_rows cu = None →
  cu_sql cu = sql_print C2SQL_DIALECT_SQLITE q → sql_ok q →
  db_tables (tab_db d) !! sql_table q = Some t →
  tab_step p d = Some ((r, b), d') →
  r = SQL_RDB_OK ∧
  let e := sql_effect tab_cmp q (args_of cu) (t_rows t) in
  b = Some (negb (bool_decide (ef_result e = []))) ∧
  moved_one (sql_writes q) p (MkCursor (cu_sql cu) (cu_args cu) (Some (ef_result e)))
    (tab_cursors d) (tab_cursors d') ∧
  if sql_writes q then
    tab_db d' = MkDb (<[sql_table q := MkTable (t_kinds t) (t_key t) (ef_rows e)]> (db_tables (tab_db d)))
      (db_frames (tab_db d)) (db_doomed (tab_db d)) ∧
    tab_changed d' = Z.of_nat (ef_changed e)
  else tab_db d' = tab_db d.
Proof.
  intros Hp Hr Hsql Hok Ht E.
  assert (sql_read (cu_sql cu) = Some q) as Hq by (rewrite Hsql; by apply sql_read_print_ok).
  destruct (tab_step_run p d cu q t Hp Hr Hq Ht) as [E1 E2]. rewrite E1, E2 in E. cbv zeta in E.
  injection E as <- <- <-. split; [done|]. split; [done|].
  destruct (sql_writes q); (split; [apply tab_moved_one|]); by split.
Qed.

#[global] Instance tab_sql_laws ctx : SqlLaws tab_driver ctx.
Proof.
  refine {| sql_view := tab_sql_view; sql_drops := False; sql_exact _ := True; sql_cmp := tab_cmp |}; simpl.
  { intros p d cu Hp. by apply elem_of_dom. }
  { done. }
  { intros op c. by destruct c. }
  { exact tab_cmp_eq. }
  { intros sql d r p d' E. unfold tab_prepare in E. destruct (sql_read sql); injection E as <- <- <-; simpl.
    - set (p := fresh _). assert (p ∉ ({[NULL]} ∪ dom (tab_cursors d))) as Hp by apply is_fresh.
      split_and!; try done; [set_solver|]. apply not_elem_of_dom. set_solver.
    - split_and!; try done. by left. }
  all: try (intros; by apply tab_binds).
  { intros p i s n Hn _. apply tab_binds. simpl. by rewrite (proj2 (Z.ltb_ge _ _)) by lia. }
  { intros p d r b d' q cu t Hp Hr Hsql Hok _ Ht _ E.
    destruct (tab_step_runs p d r b d' q cu t) as (-> & Hb & Hm & Hw); try done.
    split; [done|]. cbn [res_ok]. eexists. by split_and!. }
  { intros p d r b d' q cu row rows Hp Hr Hsql Hok Hw E. unfold tab_step, tab_at in E. rewrite Hp, Hr in E.
    injection E as <- <- <-. split; [done|]. cbn [res_ok]. split_and!; try done. apply tab_moved_one. }
  { intros p d r b d' q cu Hp _ E. destruct (tab_step_frames _ _ _ _ _ _ Hp E) as [Hf Hm].
    split; [by left|done]. }
  { intros p i. apply tab_fetches. done. }
  { intros p i. apply tab_fetches. by intros c v ->. }
  { intros p i. apply tab_fetches. by intros c v ->. }
  { intros p i. apply tab_fetches. intros c s ->. split; [done|by left]. }
  { intros p i. apply tab_fetches. intros c s ->. split; [done|by left]. }
  { intros p d r d' cu Hp E. unfold tab_at in E. rewrite Hp in E. injection E as <- <-.
    split; [done|]. by eexists. }
  { intros p d r d' E. unfold tab_at in E. destruct (tab_cursors d !! p); [|done]. injection E as <- <-. done. }
  { intros d n d' E. injection E as <- <-. by split_and!. }
  { intros d. apply tab_tx_means. intros b'. unfold tab_begin. destruct (db_frames _); [|done]. by intros [= <-] _. }
  { intros d. apply tab_tx_means. intros b'. unfold tab_commit. destruct (db_frames _); [done|].
    intros [= <-]. by destruct (db_doomed _). }
  { intros d. apply tab_tx_means. intros b'. unfold tab_rollback. destruct (db_frames _); [done|].
    intros [= <-]. done. }
  { intros n d. apply tab_tx_means. intros b'. unfold tab_savepoint. destruct (db_frames _); [done|].
    destruct (db_doomed _); [done|]. intros [= <-]. done. }
  { intros n d. apply tab_tx_means. intros b'. unfold tab_release. destruct (db_frames _) as [|[m T] F]; [done|].
    destruct (decide (n = m)) as [<-|]; [|done]. destruct (db_doomed _); [done|]. intros [= <-].
    split_and!; [simpl; set_solver|done|]. by intros T' F' [= <- <-]. }
  { intros n d. apply tab_tx_means. intros b'. unfold tab_rollback_to. destruct (db_frames _) as [|[m T] F]; [done|].
    destruct (decide (n = m)) as [<-|]; [|done]. intros [= <-].
    split_and!; [simpl; set_solver|]. by intros T' F' [= <- <-]. }
Defined.
