(* ===== verification/Handle.v ===== *)
(** * The handle and the helpers of the API (src/handle_internal.h,
      src/txn_manager.h, the static functions of src/c2sql.c)

    The state of one handle with everything its operations work on, and the
    helpers the public operations share: binding the values of a condition,
    fetching a prepared statement through the cache, releasing it. *)

From Stdlib Require Import String Strings.Byte.
From S2P Require Import Prelude Types Support Driver StmtCache Condition QueryBuilder Registry.
From S2P Require Import TypeMapping.
Import ErrorCtx Logger Mutex.

(** ** Data *)

Definition C2SQL_MAX_TX_DEPTH : Z := 16.
Definition C2SQL_SP_NAME_LEN : Z := 32.

Record SqlRDBTxnState : Type := MkTxn {
  tx_depth : Z;
  tx_sp_names : list string;
}.

Definition SQL_RDB_HANDLE_MAGIC : Z := 3269136948.
Definition SQL_RDB_HANDLE_DEAD : Z := 3735928559.

(** [h->driver] is the parameter [drv] of the operations. *)
Record SqlRDBHandle : Type := MkHandle {
  h_magic : Z;
  h_config : SqlRDBConfig;
  h_driver_ctx : ptr;
  h_registry : SqlRDBSchemaRegistry;
  h_cache : SqlRDBStmtCache;
  h_txn : SqlRDBTxnState;
  h_error : SqlRDBErrorCtx;
  h_logger : SqlRDBLoggerCtx;
  h_mutex : SqlRDBMutex;
}.

Definition set_h_magic v h := MkHandle v (h_config h) (h_driver_ctx h) (h_registry h) (h_cache h)
  (h_txn h) (h_error h) (h_logger h) (h_mutex h).
Definition set_h_config v h := MkHandle (h_magic h) v (h_driver_ctx h) (h_registry h) (h_cache h)
  (h_txn h) (h_error h) (h_logger h) (h_mutex h).
Definition set_h_ctx v h := MkHandle (h_magic h) (h_config h) v (h_registry h) (h_cache h)
  (h_txn h) (h_error h) (h_logger h) (h_mutex h).
Definition set_h_registry v h := MkHandle (h_magic h) (h_config h) (h_driver_ctx h) v (h_cache h)
  (h_txn h) (h_error h) (h_logger h) (h_mutex h).
Definition set_h_cache v h := MkHandle (h_magic h) (h_config h) (h_driver_ctx h) (h_registry h) v
  (h_txn h) (h_error h) (h_logger h) (h_mutex h).
Definition set_h_txn v h := MkHandle (h_magic h) (h_config h) (h_driver_ctx h) (h_registry h)
  (h_cache h) v (h_error h) (h_logger h) (h_mutex h).
Definition set_h_error v h := MkHandle (h_magic h) (h_config h) (h_driver_ctx h) (h_registry h)
  (h_cache h) (h_txn h) v (h_logger h) (h_mutex h).
Definition set_h_logger v h := MkHandle (h_magic h) (h_config h) (h_driver_ctx h) (h_registry h)
  (h_cache h) (h_txn h) (h_error h) v (h_mutex h).
Definition set_h_mutex v h := MkHandle (h_magic h) (h_config h) (h_driver_ctx h) (h_registry h)
  (h_cache h) (h_txn h) (h_error h) (h_logger h) v.

(** The check at every entry point; [None] is a NULL pointer. *)
Definition c2sql_handle_valid (h : option SqlRDBHandle) : bool :=
  match h with
  | None => false
  | Some h => h_magic h =? SQL_RDB_HANDLE_MAGIC
  end.

(** The bytes of a C string. *)
Definition cstr (s : string) : list byte := list_byte_of_string s.

Section handle.
Context {D : Type} (drv : SqlRDBDriver D).

(** The handle, the driver, the allocator and the count of the blocks the
    registry owns. *)
Record HState : Type := MkH {
  hs_h : SqlRDBHandle;
  hs_db : D;
  hs_alloc : list bool;
  hs_live : Z;
}.

Definition h_upd (f : SqlRDBHandle → SqlRDBHandle) : M HState unit := λ s,
  Some (tt, MkH (f (hs_h s)) (hs_db s) (hs_alloc s) (hs_live s)).

Definition h_db {A} (m : M D A) : M HState A :=
  zoom hs_db (λ d s, MkH (hs_h s) d (hs_alloc s) (hs_live s)) m.

Definition h_alloc {A} (m : M (list bool) A) : M HState A :=
  zoom hs_alloc (λ al s, MkH (hs_h s) (hs_db s) al (hs_live s)) m.

Definition h_mtx {A} (m : M SqlRDBMutex A) : M HState A :=
  zoom (λ s, h_mutex (hs_h s))
       (λ x s, MkH (set_h_mutex x (hs_h s)) (hs_db s) (hs_alloc s) (hs_live s)) m.

Definition h_on_cache {A} (m : M (CState D) A) : M HState A :=
  zoom (λ s, MkCState (h_cache (hs_h s)) (hs_db s) (hs_alloc s))
       (λ c s, MkH (set_h_cache (cs_cache c) (hs_h s)) (cs_db c) (cs_alloc c) (hs_live s)) m.

Definition h_on_reg {A} (m : M RState A) : M HState A :=
  zoom (λ s, MkR (h_registry (hs_h s)) (h_error (hs_h s)) (hs_alloc s) (hs_live s))
       (λ r s, MkH (set_h_error (r_err r) (set_h_registry (r_reg r) (hs_h s)))
                   (hs_db s) (r_alloc r) (r_live r)) m.

(** Run a read into [row] and [nulls]: the result and the two buffers after. *)
Definition h_read {A} (row : list byte) (nulls : option (list byte)) (m : M (TState D) A) :
    M HState (A * list byte * option (list byte)) := λ s,
  match m (MkT row nulls (hs_db s)) with
  | Some (a, t) =>
      Some ((a, t_row t, t_nulls t), MkH (hs_h s) (t_db t) (hs_alloc s) (hs_live s))
  | None => None
  end.

Definition h_err (code : SqlRDBResult) (msg : string) : M HState unit :=
  h_upd (λ h, set_h_error (c2sql_internal_err_set code (Some msg) (h_error h)) h).

Definition h_lock : M HState unit := h_mtx c2sql_internal_mutex_lock.
Definition h_unlock : M HState unit := h_mtx c2sql_internal_mutex_unlock.

(** [c2sql_internal_mutex_unlock(&h->mutex); return r;] *)
Definition unlock_ret {A} (r : A) : M HState A := h_unlock;; mret r.

(** c2sql_internal_schema_lookup and the dereference of its result; the
    handle is valid here. *)
Definition h_lookup (name : string) : M HState (option SqlRDBSchema) :=
  reg ← mgets (λ s, h_registry (hs_h s));
  match c2sql_internal_schema_lookup true reg (Some name) with
  | None => mret None
  | Some p => s ← mdef (schema_at reg p); mret (Some s)
  end.

(** ** Binding the values of a condition *)

(** The result and [*idx]. *)
Fixpoint bind_cond_values (stmt : ptr) (cond : SqlRDBCondition) (idx : Z) :
    M D (SqlRDBResult * Z) :=
  match cond with
  | COND_ALL => mret (SQL_RDB_OK, idx)
  | COND_LEAF _ _ value_type v =>
      r ← match value_type, v with
          | (SQL_TYPE_INT32 | SQL_TYPE_INT64), VInt i => drv_bind_int64 drv stmt idx i
          | SQL_TYPE_REAL, VReal r => drv_bind_real drv stmt idx r
          | SQL_TYPE_TEXT, VText t => drv_bind_text drv stmt idx (Some (cstr t)) (-1)
          | SQL_TYPE_BLOB, VBlob p n =>
              bs ← mdef (bytes_at p 0 n);
              drv_bind_blob drv stmt idx (Some bs) n
          | SQL_TYPE_other _, _ => mret SQL_RDB_OK
          | _, _ => ub
          end;
      mret (r, idx + 1)
  | COND_AND l r | COND_OR l r =>
      out ← bind_cond_values stmt l idx;
      let '(res, idx) := out in
      if negb (res_ok res) then mret (res, idx) else bind_cond_values stmt r idx
  end.

(** [if (cond && cond->kind != COND_ALL) { int idx = i; r = bind_cond_values(...); }] *)
Definition bind_where (stmt : ptr) (cond : option SqlRDBCondition) (i : Z) : M D SqlRDBResult :=
  match cond with
  | None | Some COND_ALL => mret SQL_RDB_OK
  | Some c => out ← bind_cond_values stmt c i; mret out.1
  end.

(** ** Statements through the cache *)

(** The result, [*out_stmt] and [*out_owned]. *)
Definition get_or_prepare (sql : string) : M HState (SqlRDBResult * ptr * bool) :=
  out ← h_on_cache (c2sql_internal_cache_get (Some sql));
  let '(r, stmt) := out in
  if res_ok r then mret (SQL_RDB_OK, stmt, false)
  else
    ctx ← mgets (λ s, h_driver_ctx (hs_h s));
    out ← h_db (drv_prepare drv ctx sql);
    let '(r, stmt) := out in
    if negb (res_ok r) then mret (r, stmt, false)
    else
      cap ← mgets (λ s, c_capacity (h_cache (hs_h s)));
      if cap =? 0 then mret (SQL_RDB_OK, stmt, true)
      else
        r ← h_on_cache (c2sql_internal_cache_put (Some sql) stmt (Some drv));
        if negb (res_ok r) then mret (r, NULL, false)
        else
          out ← h_on_cache (c2sql_internal_cache_get (Some sql));
          let '(r, stmt) := out in
          if negb (res_ok r) then mret (SQL_RDB_ERR_INTERNAL, NULL, false)
          else mret (SQL_RDB_OK, stmt, false).

Definition release_cached_stmt (stmt : ptr) (owned : bool) : M HState unit :=
  if owned then h_db (drv_finalize drv stmt);; mret tt
  else h_db (drv_reset drv stmt);; mret tt.

(** The text of a statement: the result and [*out_sql]. *)
Definition h_build (spec : SqlRDBQuerySpec) : M HState (SqlRDBResult * option string) :=
  out ← h_alloc (c2sql_internal_qb_build (Some spec));
  let '(r, sql, _) := out in mret (r, sql).

End handle.
Arguments HState D : clear implicits.
Arguments MkH {D}.
Arguments hs_h {D}.
Arguments hs_db {D}.
Arguments hs_alloc {D}.
Arguments hs_live {D}.
