(* ===== verification/Api.v ===== *)
(** * The public operations on a handle (src/c2sql.c)

    Writes, reads, deletes, counts, transactions, blob fields and the
    configuration, each with its guards, its early returns and the unlocking
    before each of them.  An output parameter is a component of the result:
    what the caller's variable holds after the call, given what it held
    before. *)

From Stdlib Require Import String Strings.Byte.
From coqutil Require Import Byte.
From S2P Require Import Prelude Types Support Driver StmtCache Condition QueryBuilder Registry.
From S2P Require Import TypeMapping Handle.
Import ErrorCtx Logger Mutex.

Section api.
Context {D : Type} (drv : SqlRDBDriver D).
Implicit Types (name : string).

(** [if (!c2sql_handle_valid(h)) return bad;] on a pointer that is not NULL. *)
Definition valid_or {A} (bad : A) (k : M (HState D) A) : M (HState D) A :=
  h ← mgets hs_h;
  if c2sql_handle_valid (Some h) then k else mret bad.

(** The three blocks most operations begin with: the lookup of the struct, the
    text of the statement, the prepared statement; [ret] is what a failing one
    returns, after the unlock. *)
Definition with_schema {A} (what name : string) (ret : SqlRDBResult → A)
    (k : SqlRDBSchema → M (HState D) A) : M (HState D) A :=
  schema ← h_lookup name;
  match schema : option SqlRDBSchema with
  | None =>
      h_err SQL_RDB_ERR_UNKNOWN_STRUCT (what +:+ ": unknown struct '" +:+ name +:+ "'");;
      unlock_ret (ret SQL_RDB_ERR_UNKNOWN_STRUCT)
  | Some s => k s
  end.

Definition with_sql {A} (spec : SqlRDBQuerySpec) (ret : SqlRDBResult → A)
    (k : string → M (HState D) A) : M (HState D) A :=
  out ← h_build spec;
  let '(r, sql) := out in
  if negb (res_ok r) then unlock_ret (ret r)
  else sql ← mdef sql; k sql.

Definition with_stmt {A} (sql : string) (ret : SqlRDBResult → A)
    (k : ptr → bool → M (HState D) A) : M (HState D) A :=
  out ← get_or_prepare drv sql;
  let '(r, stmt, owned) := out in
  if negb (res_ok r) then unlock_ret (ret r) else k stmt owned.

(** An uncached statement. *)
Definition with_prepared {A} (sql : string) (ret : SqlRDBResult → A)
    (k : ptr → M (HState D) A) : M (HState D) A :=
  ctx ← mgets (λ s, h_driver_ctx (hs_h s));
  out ← h_db (drv_prepare drv ctx sql);
  let '(r, stmt) := out in
  if negb (res_ok r) then unlock_ret (ret r) else k stmt.

Definition release_ret {A} (stmt : ptr) (owned : bool) (a : A) : M (HState D) A :=
  release_cached_stmt drv stmt owned;; unlock_ret a.

Definition h_finalize (stmt : ptr) : M (HState D) unit :=
  h_db (drv_finalize drv stmt);; mret tt.

Definition finalize_ret {A} (stmt : ptr) (a : A) : M (HState D) A :=
  h_finalize stmt;; unlock_ret a.

(** [bool has_row = false; r = drv->step(stmt, &has_row);] *)
Definition h_step (stmt : ptr) : M (HState D) (SqlRDBResult * bool) :=
  out ← h_db (drv_step drv stmt);
  let '(r, b) := out in mret (r, default false b).

Definition query (op : C2SqlQBOp) (s : SqlRDBSchema) (cond : option SqlRDBCondition)
    (target : option string) : SqlRDBQuerySpec :=
  MkSpec op (Some s) cond None target (drv_dialect drv).

Definition write_op (s : SqlRDBSchema) : C2SqlQBOp :=
  if 0 <=? sch_pk_index s then C2SQL_QB_UPSERT else C2SQL_QB_INSERT.

(** ** Writing *)

Definition SqlRDBWrite (struct_name : option string) (row : option (list byte))
    (null_map : option (list byte)) : M (HState D) SqlRDBResult :=
  valid_or SQL_RDB_ERR_INVALID_HANDLE
  (match struct_name, row with
   | Some name, Some row =>
       h_lock;;
       with_schema "Write" name id (λ schema,
       with_sql (query (write_op schema) schema None None) id (λ sql,
       with_stmt sql id (λ stmt owned,
         r ← h_db (c2sql_internal_tm_bind_row drv stmt (Some schema) (Some row) null_map);
         if negb (res_ok r) then release_ret stmt owned r
         else
           out ← h_step stmt;
           let '(r, _) := out in
           release_cached_stmt drv stmt owned;;
           (if negb (res_ok r) then h_err r "Write: step failed" else mret tt);;
           unlock_ret r)))
   | _, _ => mret SQL_RDB_ERR_INVALID_ARG
   end).

(** The loop over the rows: [rows] and [null_maps] are the memory from the
    first row and the first bitmap on. *)
Fixpoint write_rows (stmt : ptr) (schema : SqlRDBSchema) (rows : list byte) (stride : Z)
    (null_maps : option (list byte)) (i n : nat) : M (HState D) SqlRDBResult :=
  match n with
  | O => mret SQL_RDB_OK
  | S n =>
      let row := drop (Z.to_nat (size_t (Z.of_nat i * stride))) rows in
      let bitmap_bytes := SQL_RDB_NULL_BITMAP_BYTES (sch_col_count schema) in
      let nm := (λ m, drop (Z.to_nat (size_t (Z.of_nat i * bitmap_bytes))) m) <$> null_maps in
      r ← h_db (c2sql_internal_tm_bind_row drv stmt (Some schema) (Some row) nm);
      if negb (res_ok r) then mret r
      else
        out ← h_step stmt;
        let '(r, _) := out in
        h_db (drv_reset drv stmt);;
        if negb (res_ok r) then mret r
        else write_rows stmt schema rows stride null_maps (S i) n
  end.

Definition SqlRDBWriteMany (struct_name : option string) (rows : option (list byte))
    (count stride : Z) (null_maps : option (list byte)) : M (HState D) SqlRDBResult :=
  valid_or SQL_RDB_ERR_INVALID_HANDLE
  (match struct_name, rows with
   | Some name, Some rows =>
       if (count =? 0) || (stride =? 0) then mret SQL_RDB_ERR_INVALID_ARG
       else
         h_lock;;
         with_schema "WriteMany" name id (λ schema,
         with_sql (query (write_op schema) schema None None) id (λ sql,
         with_stmt sql id (λ stmt owned,
           h ← mgets hs_h;
           let implicit_tx := tx_depth (h_txn h) =? 0 in
           br ← (if implicit_tx then h_db (drv_begin drv (h_driver_ctx h)) else mret SQL_RDB_OK);
           if negb (res_ok br) then release_ret stmt owned br
           else
             r ← write_rows stmt schema rows stride null_maps 0 (Z.to_nat count);
             (if implicit_tx then
                (if res_ok r then h_db (drv_commit drv (h_driver_ctx h))
                 else h_db (drv_rollback drv (h_driver_ctx h)));; mret tt
              else mret tt);;
             release_ret stmt owned r)))
   | _, _ => mret SQL_RDB_ERR_INVALID_ARG
   end).

(** ** Reading *)

(** The size of the temporary row: the largest end of a column. *)
Fixpoint buf_size_loop (cols : list SqlRDBColumnDef) (i n : nat) (buf_size : Z) : option Z :=
  match n with
  | O => Some buf_size
  | S n =>
      c ← cols !! i;
      let e := size_t (col_offset c + col_size c) in
      buf_size_loop cols (S i) n (if buf_size <? e then e else buf_size)
  end.

(** [for (i = 0; i < nm_bytes; i++) out[i] |= tmp[i];] *)
Fixpoint or_loop (out tmp : list byte) (i n : nat) : option (list byte) :=
  match n with
  | O => Some out
  | S n =>
      a ← out !! i;
      b ← tmp !! i;
      or_loop (<[i := byte.of_Z (Z.lor (byte.unsigned a) (byte.unsigned b))]> out) tmp (S i) n
  end.

(** The result with the caller's two buffers after the call. *)
Definition ReadOut : Type := SqlRDBResult * list byte * option (list byte).

(** The path that reads the first row into temporary buffers, checks that
    there is no second one, and copies.  The byte of a malloc(1) that stands
    for an empty row is never copied. *)
Definition read_single (stmt : ptr) (owned : bool) (schema : SqlRDBSchema)
    (out_row : list byte) (out_null_map : option (list byte)) : M (HState D) ReadOut :=
  let same (r : SqlRDBResult) : ReadOut := (r, out_row, out_null_map) in
  buf_size ← mdef (buf_size_loop (sch_cols schema) 0 (Z.to_nat (sch_col_count schema)) 0);
  ok ← h_alloc malloc;
  if negb ok then release_ret stmt owned (same SQL_RDB_ERR_NO_MEMORY)
  else
    let tmp_row := replicate (Z.to_nat (if buf_size =? 0 then 1 else buf_size)) (byte.of_Z 0) in
    let nm_bytes := SQL_RDB_NULL_BITMAP_BYTES (sch_col_count schema) in
    tmp_null ← match out_null_map with
               | None => mret None
               | Some _ =>
                   ok ← h_alloc malloc;
                   mret (if ok : bool
                         then Some (replicate (Z.to_nat (if nm_bytes =? 0 then 1 else nm_bytes))
                                              (byte.of_Z 0))
                         else None)
               end;
    out ← h_read tmp_row tmp_null (c2sql_internal_tm_read_row drv stmt (Some schema));
    let '(read_rc, tmp_row, tmp_null) := out in
    if negb (res_ok read_rc) && negb (bool_decide (read_rc = SQL_RDB_WARN_TRUNCATED))
    then release_ret stmt owned (same read_rc)
    else
      out ← h_step stmt;
      let '(r, has_row2) := out in
      release_cached_stmt drv stmt owned;;
      if negb (res_ok r) || has_row2 then
        unlock_ret (same (if has_row2 : bool then SQL_RDB_ERR_MULTIPLE_ROWS else r))
      else
        row ← mdef (write_at out_row 0 (take (Z.to_nat buf_size) tmp_row));
        nulls ← match out_null_map, tmp_null with
                | Some m, Some t => m ← mdef (or_loop m t 0 (Z.to_nat nm_bytes)); mret (Some m)
                | _, _ => mret out_null_map
                end;
        unlock_ret (read_rc, row, nulls).

(** [opts] is NULL or its two members. *)
Definition SqlRDBRead (struct_name : option string) (cond : option SqlRDBCondition)
    (out_row : option (list byte)) (out_null_map : option (list byte))
    (opts : option SqlRDBReadOpts) : M (HState D) ReadOut :=
  let row := default [] out_row in
  let same (r : SqlRDBResult) : ReadOut := (r, row, out_null_map) in
  valid_or (same SQL_RDB_ERR_INVALID_HANDLE)
  (match struct_name, out_row with
   | Some name, Some row =>
       h_lock;;
       with_schema "Read" name same (λ schema,
         h ← mgets hs_h;
         let multi := match opts with Some o => allow_multi o | None => false end
                      || (cfg_multirow_default (h_config h) =? 1) in
         with_sql (query C2SQL_QB_SELECT schema cond None) same (λ sql,
         with_stmt sql same (λ stmt owned,
           r ← h_db (bind_where drv stmt cond 1);
           if negb (res_ok r) then release_ret stmt owned (same r)
           else
             out ← h_step stmt;
             let '(r, has_row) := out in
             if negb (res_ok r) then release_ret stmt owned (same r)
             else if negb has_row then release_ret stmt owned (same SQL_RDB_ERR_NOT_FOUND)
             else if multi then
               out ← h_read row out_null_map (c2sql_internal_tm_read_row drv stmt (Some schema));
               release_ret stmt owned out
             else read_single stmt owned schema row out_null_map)))
   | _, _ => mret (same SQL_RDB_ERR_INVALID_ARG)
   end).

(** The iterator of a multi-row read: the handle is the one of the state, the
    schema a pointer into its registry. *)
Record SqlRDBStmt : Type := MkStmt {
  it_raw_stmt : ptr;
  it_schema : schema_ptr;
}.

(** The result and the iterator, [None] where [*out_stmt] is not written;
    [out_stmt] itself is not NULL. *)
Definition SqlRDBReadMany (struct_name : option string) (cond : option SqlRDBCondition) :
    M (HState D) (SqlRDBResult * option SqlRDBStmt) :=
  let none (r : SqlRDBResult) : SqlRDBResult * option SqlRDBStmt := (r, None) in
  valid_or (none SQL_RDB_ERR_INVALID_HANDLE)
  (match struct_name with
   | Some name =>
       h_lock;;
       with_schema "ReadMany" name none (λ schema,
       with_sql (query C2SQL_QB_SELECT schema cond None) none (λ sql,
       with_prepared sql none (λ raw,
         r ← h_db (bind_where drv raw cond 1);
         if negb (res_ok r) then finalize_ret raw (none r)
         else
           ok ← h_alloc malloc;
           if negb ok then finalize_ret raw (none SQL_RDB_ERR_NO_MEMORY)
           else
             reg ← mgets (λ s, h_registry (hs_h s));
             p ← mdef (c2sql_internal_schema_lookup true reg (Some name));
             unlock_ret (SQL_RDB_OK, Some (MkStmt raw p)))))
   | None => mret (none SQL_RDB_ERR_INVALID_ARG)
   end).

Definition SqlRDBStmtNext (stmt : option SqlRDBStmt) (out_row : option (list byte))
    (out_null_map : option (list byte)) : M (HState D) ReadOut :=
  let row := default [] out_row in
  let same (r : SqlRDBResult) : ReadOut := (r, row, out_null_map) in
  match stmt, out_row with
  | Some stmt, Some row =>
      h_lock;;
      out ← h_step (it_raw_stmt stmt);
      let '(r, has_row) := out in
      if negb (res_ok r) then unlock_ret (same r)
      else if negb has_row then unlock_ret (same SQL_RDB_ERR_NOT_FOUND)
      else
        reg ← mgets (λ s, h_registry (hs_h s));
        schema ← mdef (schema_at reg (it_schema stmt));
        out ← h_read row out_null_map
                (c2sql_internal_tm_read_row drv (it_raw_stmt stmt) (Some schema));
        unlock_ret out
  | _, _ => mret (same SQL_RDB_ERR_INVALID_ARG)
  end.

Definition SqlRDBStmtFree (stmt : option SqlRDBStmt) : M (HState D) SqlRDBResult :=
  match stmt with
  | None => mret SQL_RDB_ERR_INVALID_ARG
  | Some stmt =>
      h_lock;;
      h_finalize (it_raw_stmt stmt);;
      unlock_ret SQL_RDB_OK
  end.

(** ** Deleting and counting *)

(** The result and [*out_deleted] ([None]: not written). *)
Definition SqlRDBDelete (struct_name : option string) (cond : option SqlRDBCondition)
    (out_deleted : bool) : M (HState D) (SqlRDBResult * option Z) :=
  let none (r : SqlRDBResult) : SqlRDBResult * option Z := (r, None) in
  valid_or (none SQL_RDB_ERR_INVALID_HANDLE)
  (match struct_name, cond with
   | Some name, Some c =>
       h_lock;;
       with_schema "Delete" name none (λ schema,
       with_sql (query C2SQL_QB_DELETE schema cond None) none (λ sql,
       with_stmt sql none (λ stmt owned,
         r ← h_db (bind_where drv stmt cond 1);
         if negb (res_ok r) then release_ret stmt owned (none r)
         else
           out ← h_step stmt;
           let '(r, _) := out in
           release_cached_stmt drv stmt owned;;
           if res_ok r && out_deleted then
             ctx ← mgets (λ s, h_driver_ctx (hs_h s));
             n ← h_db (drv_changes drv ctx);
             unlock_ret (r, Some (if 0 <=? n then n else 0))
           else unlock_ret (none r))))
   | _, _ => mret (none SQL_RDB_ERR_INVALID_ARG)
   end).

(** [out_count] is not NULL. *)
Definition SqlRDBCount (struct_name : option string) (cond : option SqlRDBCondition) :
    M (HState D) (SqlRDBResult * option Z) :=
  let none (r : SqlRDBResult) : SqlRDBResult * option Z := (r, None) in
  valid_or (none SQL_RDB_ERR_INVALID_HANDLE)
  (match struct_name with
   | Some name =>
       h_lock;;
       with_schema "Count" name none (λ schema,
       with_sql (query C2SQL_QB_COUNT schema cond None) none (λ sql,
       with_stmt sql none (λ stmt owned,
         r ← h_db (bind_where drv stmt cond 1);
         if negb (res_ok r) then release_ret stmt owned (none r)
         else
           out ← h_step stmt;
           let '(r, has_row) := out in
           if res_ok r && has_row then
             out ← h_db (drv_column_int64 drv stmt 0);
             let '(r, n) := out in
             release_ret stmt owned
               (r, if res_ok r then Some (if 0 <=? n then n else 0) else None)
           else release_ret stmt owned (none r))))
   | None => mret (none SQL_RDB_ERR_INVALID_ARG)
   end).

(** ** Blob fields *)

(** The index of a column, -1 when there is none. *)
Fixpoint find_col_loop (cols : list SqlRDBColumnDef) (i n : nat) (col_name : string) : option Z :=
  match n with
  | O => Some (-1)
  | S n =>
      c ← cols !! i;
      if decide (Types.col_name c = col_name) then Some (to_signed 32 (Z.of_nat i))
      else find_col_loop cols (S i) n col_name
  end.

Definition find_col_index (schema : SqlRDBSchema) (col_name : string) : option Z :=
  find_col_loop (sch_cols schema) 0 (Z.to_nat (sch_col_count schema)) col_name.

(** The result and [*out_n]: 0, 1, or 2 for more than one.  No unlock here. *)
Definition count_matching_rows (schema : SqlRDBSchema) (target_col : string)
    (cond : option SqlRDBCondition) : M (HState D) (SqlRDBResult * Z) :=
  out ← h_build (query C2SQL_QB_SELECT_FIELD schema cond (Some target_col));
  let '(r, sql) := out in
  if negb (res_ok r) then mret (r, 0)
  else
    sql ← mdef sql;
    ctx ← mgets (λ s, h_driver_ctx (hs_h s));
    out ← h_db (drv_prepare drv ctx sql);
    let '(r, stmt) := out in
    if negb (res_ok r) then mret (r, 0)
    else
      r ← h_db (bind_where drv stmt cond 1);
      if negb (res_ok r) then h_finalize stmt;; mret (r, 0)
      else
        out ← h_step stmt;
        let '(r, has_row) := out in
        if negb (res_ok r) then h_finalize stmt;; mret (r, 0)
        else if has_row : bool then
          out ← h_step stmt;
          let '(r, has_row2) := out in
          if negb (res_ok r) then h_finalize stmt;; mret (r, 1)
          else h_finalize stmt;; mret (SQL_RDB_OK, if has_row2 : bool then 2 else 1)
        else h_finalize stmt;; mret (SQL_RDB_OK, 0).

(** The checks of both operations: the struct, the column, its type. *)
Definition with_blob_col {A} (what name col_name : string) (ret : SqlRDBResult → A)
    (k : SqlRDBSchema → M (HState D) A) : M (HState D) A :=
  with_schema what name ret (λ schema,
    col_idx ← mdef (find_col_index schema col_name);
    if col_idx <? 0 then unlock_ret (ret SQL_RDB_ERR_UNKNOWN_COLUMN)
    else
      col ← mdef (sch_cols schema !! Z.to_nat col_idx);
      if negb (bool_decide (col_type col = SQL_TYPE_BLOB)) then
        h_err SQL_RDB_ERR_INVALID_ARG (what +:+ ": column '" +:+ col_name +:+ "' is not BLOB");;
        unlock_ret (ret SQL_RDB_ERR_INVALID_ARG)
      else k schema).

(** [bytes] is the memory of [len] bytes. *)
Definition SqlRDBWriteBlobField (struct_name : option string) (key : option SqlRDBCondition)
    (col_name : option string) (bytes : option (list byte)) (len : Z) :
    M (HState D) SqlRDBResult :=
  valid_or SQL_RDB_ERR_INVALID_HANDLE
  (match struct_name, key, col_name, bytes with
   | Some name, Some _, Some col_name, Some _ =>
       h_lock;;
       with_blob_col "WriteBlobField" name col_name id (λ schema,
         out ← count_matching_rows schema col_name key;
         let '(r, matches) := out in
         if negb (res_ok r) then unlock_ret r
         else if matches =? 0 then unlock_ret SQL_RDB_ERR_NOT_FOUND
         else if 2 <=? matches then unlock_ret SQL_RDB_ERR_MULTIPLE_ROWS
         else
           with_sql (query C2SQL_QB_UPDATE_FIELD schema key (Some col_name)) id (λ sql,
           with_stmt sql id (λ stmt owned,
             r ← h_db (drv_bind_blob drv stmt 1 bytes len);
             if negb (res_ok r) then release_ret stmt owned r
             else
               r ← h_db (bind_where drv stmt key 2);
               if negb (res_ok r) then release_ret stmt owned r
               else
                 out ← h_step stmt;
                 let '(r, _) := out in
                 release_cached_stmt drv stmt owned;;
                 (if negb (res_ok r) then h_err r "WriteBlobField: step failed" else mret tt);;
                 unlock_ret r)))
   | _, _, _, _ => mret SQL_RDB_ERR_INVALID_ARG
   end).

(** The result with the buffer and length published to the caller ([None]:
    [*out_bytes] and [*out_len] are not written).  A NULL pointer with a
    positive length leaves the new buffer uninitialised: undefined here. *)
Definition SqlRDBReadBlobField (struct_name : option string) (key : option SqlRDBCondition)
    (col_name : option string) : M (HState D) (SqlRDBResult * option (list byte * Z)) :=
  let none (r : SqlRDBResult) : SqlRDBResult * option (list byte * Z) := (r, None) in
  valid_or (none SQL_RDB_ERR_INVALID_HANDLE)
  (match struct_name, key, col_name with
   | Some name, Some _, Some col_name =>
       h_lock;;
       with_blob_col "ReadBlobField" name col_name none (λ schema,
       with_sql (query C2SQL_QB_SELECT_FIELD schema key (Some col_name)) none (λ sql,
       with_prepared sql none (λ stmt,
         r ← h_db (bind_where drv stmt key 1);
         if negb (res_ok r) then finalize_ret stmt (none r)
         else
           out ← h_step stmt;
           let '(r, has_row) := out in
           if negb (res_ok r) then finalize_ret stmt (none r)
           else if negb has_row then finalize_ret stmt (none SQL_RDB_ERR_NOT_FOUND)
           else
             out ← h_db (drv_column_blob drv stmt 0);
             let '(r, (raw, raw_len)) := out in
             if negb (res_ok r) then finalize_ret stmt (none r)
             else
               ok ← h_alloc malloc;
               if negb ok then finalize_ret stmt (none SQL_RDB_ERR_NO_MEMORY)
               else
                 copy ← (if 0 <? raw_len then mdef (raw ≫= λ p, bytes_at p 0 raw_len) else mret []);
                 out ← h_step stmt;
                 let '(r, has_row2) := out in
                 h_finalize stmt;;
                 if negb (res_ok r) then unlock_ret (none r)
                 else if has_row2 : bool then unlock_ret (none SQL_RDB_ERR_MULTIPLE_ROWS)
                 else unlock_ret (SQL_RDB_OK, Some (copy, raw_len)))))
   | _, _, _ => mret (none SQL_RDB_ERR_INVALID_ARG)
   end).

(** ** Transactions *)

Definition txn_set_depth (n : Z) : M (HState D) unit :=
  h_upd (λ h, set_h_txn (MkTxn n (tx_sp_names (h_txn h))) h).

(** [snprintf(h->txn.sp_names[i], C2SQL_SP_NAME_LEN, "sp_%d", n)] *)
Definition txn_name (i n : Z) : M (HState D) string := λ s,
  let names := tx_sp_names (h_txn (hs_h s)) in
  match names !! Z.to_nat i with
  | None => None
  | Some _ =>
      let nm := vsnprintf C2SQL_SP_NAME_LEN ("sp_" +:+ dec n) in
      Some (nm, MkH (set_h_txn (MkTxn (tx_depth (h_txn (hs_h s))) (<[Z.to_nat i := nm]> names)) (hs_h s))
                    (hs_db s) (hs_alloc s) (hs_live s))
  end.

(** [h->txn.sp_names[h->txn.depth - 1]] *)
Definition txn_top : M (HState D) string :=
  h ← mgets hs_h;
  mdef (tx_sp_names (h_txn h) !! Z.to_nat (tx_depth (h_txn h) - 1)).

Definition SqlRDBBeginTx : M (HState D) SqlRDBResult :=
  valid_or SQL_RDB_ERR_INVALID_HANDLE
  (h_lock;;
   h ← mgets hs_h;
   let depth := tx_depth (h_txn h) in
   if C2SQL_MAX_TX_DEPTH <=? depth then
     h_err SQL_RDB_ERR_NESTED_TX
       ("BeginTx: nesting depth limit " +:+ dec C2SQL_MAX_TX_DEPTH +:+ " reached");;
     unlock_ret SQL_RDB_ERR_NESTED_TX
   else
     r ← (if depth =? 0 then h_db (drv_begin drv (h_driver_ctx h))
          else
            let new_depth := depth + 1 in
            name ← txn_name (new_depth - 1) new_depth;
            h_db (drv_savepoint drv (h_driver_ctx h) name));
     if negb (res_ok r) then h_err r "BeginTx: driver call failed";; unlock_ret r
     else
       txn_set_depth (depth + 1);;
       unlock_ret SQL_RDB_OK).

Definition SqlRDBCommitTx : M (HState D) SqlRDBResult :=
  valid_or SQL_RDB_ERR_INVALID_HANDLE
  (h_lock;;
   h ← mgets hs_h;
   let depth := tx_depth (h_txn h) in
   if depth =? 0 then unlock_ret SQL_RDB_ERR_NO_ACTIVE_TX
   else
     r ← (if depth =? 1 then h_db (drv_commit drv (h_driver_ctx h))
          else name ← txn_top; h_db (drv_release_sp drv (h_driver_ctx h) name));
     if negb (res_ok r) then h_err r "CommitTx: driver call failed";; unlock_ret r
     else
       txn_set_depth (depth - 1);;
       unlock_ret SQL_RDB_OK).

Definition SqlRDBRollbackTx : M (HState D) SqlRDBResult :=
  valid_or SQL_RDB_ERR_INVALID_HANDLE
  (h_lock;;
   h ← mgets hs_h;
   let depth := tx_depth (h_txn h) in
   if depth =? 0 then unlock_ret SQL_RDB_ERR_NO_ACTIVE_TX
   else
     r ← (if depth =? 1 then h_db (drv_rollback drv (h_driver_ctx h))
          else
            name ← txn_top;
            r ← h_db (drv_rollback_sp drv (h_driver_ctx h) name);
            if res_ok r then h_db (drv_release_sp drv (h_driver_ctx h) name) else mret r);
     if negb (res_ok r) then h_err r "RollbackTx: driver call failed";; unlock_ret r
     else
       txn_set_depth (depth - 1);;
       unlock_ret SQL_RDB_OK).

(** ** Configuration and diagnostics *)

(** [cfg] NULL is [None]. *)
Definition SqlRDBSetConfig (cfg : option SqlRDBConfig) : M (HState D) SqlRDBResult :=
  valid_or SQL_RDB_ERR_INVALID_HANDLE
  (match cfg with
   | None => mret SQL_RDB_ERR_INVALID_ARG
   | Some cfg =>
       h_lock;;
       h ← mgets hs_h;
       r ← (if negb (cfg_stmt_cache_size cfg =? cfg_stmt_cache_size (h_config h))
            then h_on_cache (c2sql_internal_cache_rebuild (cfg_stmt_cache_size cfg) (Some drv))
            else mret SQL_RDB_OK);
       (if res_ok r then
          let old_threadsafe := cfg_threadsafe (h_config h) in
          h_upd (set_h_config cfg);;
          (if negb (Bool.eqb (cfg_threadsafe cfg) old_threadsafe)
           then h_upd (λ h, set_h_mutex (MkMutex (cfg_threadsafe cfg) (mtx_held (h_mutex h))) h)
           else mret tt)
        else mret tt);;
       unlock_ret r
   end).

(** The message, and the code stored through [out_code]. *)
Definition SqlRDBLastError (h : option SqlRDBHandle) : string * SqlRDBResult :=
  match h with
  | Some h' =>
      if c2sql_handle_valid h then (err_message (h_error h'), err_code (h_error h'))
      else (EmptyString, SQL_RDB_OK)
  | None => (EmptyString, SQL_RDB_OK)
  end.

Definition SqlRDBSetLogger (fn user : ptr) : M (HState D) SqlRDBResult :=
  valid_or SQL_RDB_ERR_INVALID_HANDLE
  (h_lock;;
   h_upd (set_h_logger (MkLogger fn user));;
   unlock_ret SQL_RDB_OK).
End api.
