(* ===== verification/ApiProofs.v ===== *)
(** * Safety of the API: memory, mutex, statements

    A small program logic for the operations on a handle, the invariant that
    holds of a handle between two calls, and the specifications of the helpers
    of Handle.v and Api.v against the driver interface. *)

From Stdlib Require Import String Strings.Byte.
From coqutil Require Import Byte.
From S2P Require Import Prelude Types Support Driver MemDriver StmtCache StmtCacheSpec.
From S2P Require Import StmtCacheProofs StmtCacheRefine StmtCacheTheorems Condition.
From S2P Require Import QueryBuilder QueryBuilderProofs Registry RegistryProofs PgText PgParams TypeMapping.
From S2P Require Import TypeMappingProofs Handle Api.
Import ErrorCtx Logger Mutex.

(** ** Total-correctness triples

    [triple P m Q]: from a state with [P], [m] is defined and ends with a
    result and a state in [Q]. *)

Definition triple {S A} (P : S → Prop) (m : M S A) (Q : A → S → Prop) : Prop :=
  ∀ s, P s → ∃ a s', m s = Some (a, s') ∧ Q a s'.

Lemma triple_bind {S A B} (P : S → Prop) (m : M S A) Q (k : A → M S B) R :
  triple P m Q → (∀ a, triple (Q a) (k a) R) → triple P (m ≫= k) R.
Proof.
  intros Hm Hk s Hs. destruct (Hm s Hs) as (a & s1 & E & Hq).
  rewrite (bind_run _ _ _ _ _ E). by apply Hk.
Qed.

Lemma triple_ret {S A} (P : S → Prop) (a : A) Q : (∀ s, P s → Q a s) → triple P (mret a) Q.
Proof. intros H s Hs. by exists a, s; auto. Qed.

Lemma triple_conseq {S A} (P P' : S → Prop) (m : M S A) (Q Q' : A → S → Prop) :
  triple P m Q → (∀ s, P' s → P s) → (∀ a s, Q a s → Q' a s) → triple P' m Q'.
Proof. intros H HP HQ s Hs. destruct (H s (HP s Hs)) as (a & s' & E & Hq). eauto. Qed.

Lemma triple_pre {S A} (P P' : S → Prop) (m : M S A) (Q : A → S → Prop) :
  triple P m Q → (∀ s, P' s → P s) → triple P' m Q.
Proof. intros H HP s Hs. by apply H, HP. Qed.

Lemma triple_gets {S A} (P : S → Prop) (f : S → A) :
  triple P (mgets f) (λ a s, P s ∧ a = f s).
Proof. intros s Hs. by eexists _, _. Qed.

Lemma triple_def {S A} (P : S → Prop) (o : option A) a :
  o = Some a → triple P (mdef o) (λ x s, P s ∧ x = a).
Proof. intros -> s Hs. by eexists _, _. Qed.

Lemma triple_pure {S A} (P : S → Prop) (φ : Prop) (m : M S A) Q :
  (φ → triple P m Q) → triple (λ s, P s ∧ φ) m Q.
Proof. intros H s [Hs Hφ]. by apply H. Qed.

(** [P] is kept, whatever the result. *)
Definition stays {S A} (P : S → Prop) (m : M S A) : Prop := triple P m (λ _, P).

(** ** Operations that keep the open statements *)

Section laws.
Context {D : Type} (drv : SqlRDBDriver D) `{!DriverLaws drv}.

(** [m] is defined on every driver state in which [stmt] is open, and neither
    opens nor closes a statement. *)
Definition steady {A} (stmt : ptr) (m : M D A) : Prop :=
  ∀ d, stmt ∈ stmts d → keeps view m d.

Lemma steady_ret {A} stmt (a : A) : steady stmt (mret a).
Proof. intros d _. by exists a, d. Qed.

Lemma steady_bind {A B} stmt (m : M D A) (k : A → M D B) :
  steady stmt m → (∀ a, steady stmt (k a)) → steady stmt (m ≫= k).
Proof.
  intros Hm Hk d Hd. destruct (Hm d Hd) as (a & d1 & E & Hs & Hc).
  destruct (Hk a d1) as (b & d2 & E2 & Hs2 & Hc2); [by rewrite Hs|].
  exists b, d2. rewrite (bind_run _ _ _ _ _ E). split; [done|].
  split; [by rewrite Hs2|by eapply still_trans].
Qed.

Lemma steady_def {A} stmt (o : option A) (a : A) : o = Some a → steady stmt (mdef o).
Proof. intros -> d _. by exists a, d. Qed.

Lemma steady_column_text stmt i : steady stmt (drv_column_text drv stmt i).
Proof. intros d Hd. destruct (column_text_law stmt i d Hd) as (r & q & n & d' & E & Hs & Hc & _). by eexists _, _. Qed.
Lemma steady_column_blob stmt i : steady stmt (drv_column_blob drv stmt i).
Proof. intros d Hd. destruct (column_blob_law stmt i d Hd) as (r & q & n & d' & E & Hs & Hc & _). by eexists _, _. Qed.

(** The values of a condition are of the kinds the constructors give them. *)
Fixpoint cond_values_ok (c : SqlRDBCondition) : Prop :=
  match c with
  | COND_ALL => True
  | COND_LEAF _ _ ty v =>
      match ty, v with
      | (SQL_TYPE_INT32 | SQL_TYPE_INT64), VInt _ => True
      | SQL_TYPE_REAL, VReal _ => True
      | SQL_TYPE_TEXT, VText _ => True
      | SQL_TYPE_BLOB, VBlob p n => 0 ≤ n ≤ Z.of_nat (length p) ∧ n ≤ INT_MAX
      | SQL_TYPE_other _, _ => True
      | _, _ => False
      end
  | COND_AND l r | COND_OR l r => cond_values_ok l ∧ cond_values_ok r
  end.

Lemma bind_cond_values_steady stmt c i :
  cond_values_ok c → steady stmt (bind_cond_values drv stmt c i).
Proof.
  revert i. induction c as [col op ty v|l IHl r IHr|l IHl r IHr|]; intros i Hc; cbn [bind_cond_values].
  - apply steady_bind; [|intros; apply steady_ret].
    destruct ty, v; simpl in Hc; try done; cbv iota; try apply steady_ret; intros d Hd.
    all: try (by apply bind_int64_law); try (by apply bind_real_law).
    + apply bind_text_law; [done|]. intros bs _. unfold INT_MAX. lia.
    + rewrite bytes_at_slice by lia. cbn [mdef mbind M_bind]. apply bind_blob_law; [done|lia|].
      intros bs [= <-]. rewrite length_slice by lia. lia.
  - destruct Hc. apply steady_bind; [by apply IHl|]. intros [res j].
    destruct (res_ok res); cbn [negb]; [by apply IHr|apply steady_ret].
  - destruct Hc. apply steady_bind; [by apply IHl|]. intros [res j].
    destruct (res_ok res); cbn [negb]; [by apply IHr|apply steady_ret].
  - apply steady_ret.
Qed.

Definition where_values_ok (c : option SqlRDBCondition) : Prop :=
  match c with Some c => cond_values_ok c | None => True end.

Lemma bind_where_steady stmt c i :
  where_values_ok c → steady stmt (bind_where drv stmt c i).
Proof.
  intros Hc. destruct c as [c|]; [|apply steady_ret].
  assert (c = COND_ALL ∨ bind_where drv stmt (Some c) i =
    (out ← bind_cond_values drv stmt c i; mret out.1)) as [->| ->] by (destruct c; auto);
    [apply steady_ret|].
  apply steady_bind; [by apply bind_cond_values_steady|]. intros. apply steady_ret.
Qed.

(** A cell whose length an int can hold. *)
Definition cell_small (c : Cell) : Prop :=
  match c with CText s | CBlob s => Z.of_nat (length s) ≤ INT_MAX | _ => True end.

Lemma cell_of_small n row col : fits_in n col → cell_small (cell_of row col).
Proof.
  intros (_ & _ & _ & Hs & Ht). unfold cell_of.
  assert (length (member row col) ≤ Z.to_nat (width col))%nat as Hl
    by (unfold member, slice; rewrite length_take; lia).
  unfold width in Hl. destruct (col_type col) as [| | | | |k] eqn:E; simpl; try done.
  - pose proof (length_take_nul (member row col)). lia.
  - lia.
  - by destruct (Ht k).
Qed.

Lemma bind_cell_steady stmt i col c : cell_small c → steady stmt (bind_cell drv stmt i col c).
Proof.
  intros Hc d Hd. destruct c; simpl in *.
  - by apply bind_null_law.
  - destruct (decide _); [by apply bind_int32_law|by apply bind_int64_law].
  - by apply bind_real_law.
  - apply bind_text_law; [done|]. by intros bs [= <-].
  - apply bind_blob_law; [done|lia|]. by intros bs [= <-].
Qed.

Lemma plan_cell_small n nulls row i col c :
  fits_in n col → plan_cell nulls row i col = Some c → cell_small c.
Proof.
  intros Hc. unfold plan_cell. destruct (match nulls with Some m => bit m i | None => false end).
  - destruct (has_flag _ _); [|done]. by intros [= <-].
  - intros [= <-]. by eapply cell_of_small.
Qed.

Lemma bind_plan_steady n nulls row stmt i cols :
  Forall (fits_in n) cols → steady stmt (bind_plan drv nulls row stmt i cols).
Proof.
  intros Hf. revert i. induction Hf as [|col cols Hc _ IH]; intros i; cbn [bind_plan]; [apply steady_ret|].
  destruct (plan_cell nulls row i col) as [c|] eqn:E; [|apply steady_ret].
  apply steady_bind; [apply bind_cell_steady; by eapply plan_cell_small|]. intros r.
  destruct (res_ok r); [apply IH|apply steady_ret].
Qed.

Lemma bind_row_steady stmt s row nulls :
  row_ok (Z.of_nat (length row)) s nulls → stmt ≠ NULL →
  steady stmt (c2sql_internal_tm_bind_row drv stmt (Some s) (Some row) nulls).
Proof.
  intros Hok Hs d Hd. unfold keeps. rewrite bind_row_plan by done. destruct Hok as ([Hf _] & _).
  by eapply bind_plan_steady.
Qed.

(** *** Reading into a row of fixed size *)

(** The sizes of the caller's buffers; the open statements and connections are
    those of [T]. *)
Definition reading (stmt : ptr) (T : D) (n : nat) (m : option nat) (t : TState D) : Prop :=
  stmt ∈ stmts (t_db t) ∧ (stmts (t_db t) = stmts T ∧ conns (t_db t) = conns T) ∧
  length (t_row t) = n ∧ length <$> t_nulls t = m.

Lemma reading_drv {A} stmt T n m (op : M D A) :
  steady stmt op → stays (reading stmt T n m) (t_drv op).
Proof.
  intros H t (Hin & [HT HC] & Hn & Hm). destruct (H _ Hin) as (a & d' & E & Hs & Hc & _).
  exists a, (MkT (t_row t) (t_nulls t) d'). unfold t_drv, zoom. rewrite E. split; [done|].
  split_and!; simpl; congruence.
Qed.

Lemma reading_write stmt T n m off bs :
  0 ≤ off → off + Z.of_nat (length bs) ≤ Z.of_nat n →
  stays (reading stmt T n m) (t_write (D := D) off bs).
Proof.
  intros Ho Hb t (Hin & [HT HC] & Hn & Hm). rewrite t_write_run by (rewrite ?Hn; done).
  eexists _, _. split; [done|]. split_and!; simpl; try done.
  rewrite length_set_slice; [done|]. lia.
Qed.

Lemma reading_copy stmt T n m off p k :
  (∀ bs, p = Some bs → k ≤ Z.of_nat (length bs)) → 0 ≤ off → 0 ≤ k → off + k ≤ Z.of_nat n →
  stays (reading stmt T n m) (t_copy (D := D) off p k).
Proof.
  intros Hp Ho Hk Hn. unfold t_copy. destruct p as [bs|]; [|by apply triple_ret].
  specialize (Hp bs eq_refl). destruct (Z.ltb_spec 0 k); [|by apply triple_ret].
  eapply triple_bind; [apply triple_def, bytes_at_slice; lia|]. intros x. apply triple_pure. intros ->.
  apply reading_write; [done|]. rewrite length_slice by lia. lia.
Qed.

Lemma read_one_safe stmt T n m i col :
  fits_in (Z.of_nat n) col → stays (reading stmt T n m) (read_one drv stmt i col).
Proof.
  intros (Ho & Hw & Hfit & Hs & Ht). unfold read_one. unfold width in *.
  destruct (col_type col) eqn:E.
  - eapply triple_bind; [apply reading_drv; by intros d Hd; apply column_int64_law|]. intros [r v].
    destruct (res_ok r); cbn [negb]; [|by apply triple_ret].
    eapply triple_bind; [apply reading_write; [done|rewrite LittleEndianList.length_le_split; lia]|].
    intros ?. by apply triple_ret.
  - eapply triple_bind; [apply reading_drv; by intros d Hd; apply column_int64_law|]. intros [r v].
    destruct (res_ok r); cbn [negb]; [|by apply triple_ret].
    eapply triple_bind; [apply reading_write; [done|rewrite LittleEndianList.length_le_split; lia]|].
    intros ?. by apply triple_ret.
  - eapply triple_bind; [apply reading_drv; by intros d Hd; apply column_real_law|]. intros [r v].
    destruct (res_ok r); cbn [negb]; [|by apply triple_ret].
    eapply triple_bind; [apply reading_write; [done|rewrite LittleEndianList.length_le_split; lia]|].
    intros ?. by apply triple_ret.
  - eapply (triple_bind _ _ (λ x t, reading stmt T n m t ∧ buffer_ok x.2.1 x.2.2)).
    { intros t Hr. pose proof Hr as (Hin & _). destruct (column_text_law stmt i _ Hin) as (r & q & k & d' & Ec & Hsd & [Hcd _] & Hb).
      exists (r, (q, k)), (MkT (t_row t) (t_nulls t) d'). unfold t_drv, zoom. rewrite Ec.
      split; [done|]. split; [|done]. destruct Hr as (_ & [HT HC] & Hn & Hm). split_and!; simpl; congruence. }
    intros [r [q k]]. apply triple_pure. intros [Hk Hq]. simpl in *.
    destruct (res_ok r); cbn [negb]; [|by apply triple_ret].
    destruct (Z.eqb_spec (col_size col) 0); [by apply triple_ret|].
    set (tc := if k <? col_size col - 1 then k else col_size col - 1).
    assert (0 ≤ tc ≤ col_size col - 1 ∧ tc ≤ k) as Htc
      by (unfold tc; destruct (Z.ltb_spec k (col_size col - 1)); lia).
    eapply triple_bind; [apply reading_copy; [intros bs Hbs; specialize (Hq bs Hbs)|..]; lia|]. intros ?.
    eapply triple_bind; [apply reading_write; simpl; lia|]. intros ?. by apply triple_ret.
  - eapply (triple_bind _ _ (λ x t, reading stmt T n m t ∧ buffer_ok x.2.1 x.2.2)).
    { intros t Hr. pose proof Hr as (Hin & _). destruct (column_blob_law stmt i _ Hin) as (r & q & k & d' & Ec & Hsd & [Hcd _] & Hb).
      exists (r, (q, k)), (MkT (t_row t) (t_nulls t) d'). unfold t_drv, zoom. rewrite Ec.
      split; [done|]. split; [|done]. destruct Hr as (_ & [HT HC] & Hn & Hm). split_and!; simpl; congruence. }
    intros [r [q k]]. apply triple_pure. intros [Hk Hq]. simpl in *.
    destruct (res_ok r); cbn [negb]; [|by apply triple_ret].
    set (tc := if k <? col_size col then k else col_size col).
    assert (0 ≤ tc ≤ col_size col ∧ tc ≤ k) as Htc
      by (unfold tc; destruct (Z.ltb_spec k (col_size col)); lia).
    eapply triple_bind; [apply reading_copy; [intros bs Hbs; specialize (Hq bs Hbs)|..]; lia|]. intros ?.
    by apply triple_ret.
  - by apply triple_ret.
Qed.

Lemma read_row_loop_safe stmt T n m cols i k tr :
  Forall (fits_in (Z.of_nat n)) cols → (i + k)%nat = length cols →
  (∀ x, m = Some x → (length cols ≤ 8 * x)%nat) →
  stays (reading stmt T n m) (read_row_loop drv stmt cols i k tr).
Proof.
  intros Hf Hi Hm. revert i tr Hi. induction k as [|k IH]; intros i tr Hi; cbn [read_row_loop].
  { by apply triple_ret. }
  destruct (lookup_lt_is_Some_2 cols i ltac:(lia)) as [c Hc].
  eapply triple_bind; [by apply triple_def|]. intros x. apply triple_pure. intros ->.
  eapply triple_bind; [apply reading_drv; by intros d Hd; apply column_isnull_law|]. intros [r b].
  destruct (res_ok r); cbn [negb]; [|by apply triple_ret]. destruct b.
  - eapply (triple_bind _ _ (λ _, reading stmt T n m)); [|intros ?; apply IH; lia].
    intros t (Hin & [HT HC] & Hn & Hx). unfold t_set_null.
    destruct (t_nulls t) as [nm|] eqn:En; simpl in Hx.
    + rewrite null_bit_set_spec by (specialize (Hm _ (eq_sym Hx)); lia). eexists _, _.
      split; [done|]. split_and!; simpl; try done. by rewrite length_set_bit.
    + eexists _, _. split; [done|]. split_and!; done.
  - eapply triple_bind; [apply read_one_safe; by eapply Forall_lookup_1 in Hf|]. intros r'.
    destruct r'; try (by apply triple_ret); apply IH; lia.
Qed.

Lemma read_row_safe stmt T n m s :
  Forall (fits_in (Z.of_nat n)) (sch_cols s) → sch_col_count s = Z.of_nat (length (sch_cols s)) →
  (∀ x, m = Some x → (length (sch_cols s) ≤ 8 * x)%nat) → stmt ≠ NULL →
  stays (reading stmt T n m) (c2sql_internal_tm_read_row drv stmt (Some s)).
Proof.
  intros Hf Hc Hm Hs. unfold c2sql_internal_tm_read_row. rewrite bool_decide_false by done.
  apply read_row_loop_safe; [done|lia|done].
Qed.

(** ** The invariant of a handle *)

(** [tx_ok]: the depth is in range, the stack of names has its 16 slots, and
    slot k-1 holds the name of the savepoint of depth k. *)
Definition sp_name (k : Z) : string := "sp_" +:+ dec k.

Definition txn_ok (t : SqlRDBTxnState) : Prop :=
  0 ≤ tx_depth t ≤ C2SQL_MAX_TX_DEPTH ∧ length (tx_sp_names t) = 16%nat ∧
  ∀ k, 2 ≤ k ≤ tx_depth t → tx_sp_names t !! Z.to_nat (k - 1) = Some (sp_name k).

(** The parts of a handle: its registry is [R], its cache well-formed, and the
    statements open in the driver are those of the cache and the set [o] of
    those that others (the iterators) own; its connection is open. *)
Definition core (R : SqlRDBSchemaRegistry) (o : gset ptr) (s : HState D) : Prop :=
  h_registry (hs_h s) = R ∧ reg_wf (MkR R (h_error (hs_h s)) (hs_alloc s) (hs_live s)) ∧
  txn_ok (h_txn (hs_h s)) ∧
  ∃ ps a, rep (h_cache (hs_h s)) ps a ∧ NoDup (held a) ∧
    stmts (hs_db s) = list_to_set (held a) ∪ o ∧ (list_to_set (held a) : gset ptr) ## o ∧
    (NULL ∉ stmts (hs_db s)) ∧ h_driver_ctx (hs_h s) ∈ conns (hs_db s).

(** Between two calls the mutex is free, or left locked by a change of the
    configuration that made the handle not thread-safe. *)
Definition mutex_ok (m : SqlRDBMutex) : Prop := mtx_held m = negb (mtx_threadsafe m).

Definition api_inv R o (s : HState D) : Prop := core R o s ∧ mutex_ok (h_mutex (hs_h s)).

(** Inside a call. *)
Definition locked R o (s : HState D) : Prop := core R o s ∧ mtx_held (h_mutex (hs_h s)) = true.

Lemma lock_spec R o : triple (api_inv R o) h_lock (λ _, locked R o).
Proof.
  intros s [Hc Hm]. unfold h_lock, h_mtx, zoom, c2sql_internal_mutex_lock, mutex_ok in *.
  destruct (h_mutex (hs_h s)) as [ts held] eqn:E. simpl in *. subst held.
  destruct ts; simpl; eexists _, _; (split; [done|]); split; done.
Qed.

Lemma unlock_spec R o : triple (locked R o) h_unlock (λ _, api_inv R o).
Proof.
  intros s [Hc Hm]. unfold h_unlock, h_mtx, zoom, c2sql_internal_mutex_unlock.
  destruct (h_mutex (hs_h s)) as [ts held] eqn:E. simpl in *. subst held.
  destruct ts; simpl; eexists _, _; (split; [done|]); split; done.
Qed.

Lemma unlock_ret_spec {A} R o (a : A) : triple (locked R o) (unlock_ret a) (λ _, api_inv R o).
Proof. eapply triple_bind; [apply unlock_spec|]. intros ?. by apply triple_ret. Qed.

Lemma err_spec R o code msg : stays (locked R o) (h_err (D := D) code msg).
Proof. intros s [Hc Hm]. by eexists _, _. Qed.

Lemma alloc_spec {A} R o (m : M (list bool) A) :
  (∀ al, ∃ a al', m al = Some (a, al')) → stays (locked R o) (h_alloc m).
Proof.
  intros H s [Hc Hm]. destruct (H (hs_alloc s)) as (a & al & E). unfold h_alloc, zoom. rewrite E.
  by eexists _, _.
Qed.

Lemma malloc_defined al : ∃ a al', malloc al = Some (a, al').
Proof. unfold malloc. destruct (malloc_ok al). by eexists _, _. Qed.

(** The driver changed nothing that the invariant sees. *)
Lemma core_db R o s d' :
  core R o s → stmts d' = stmts (hs_db s) → conns d' = conns (hs_db s) →
  core R o (MkH (hs_h s) d' (hs_alloc s) (hs_live s)).
Proof.
  intros (HR & Hreg & Htx & ps & a & Hrep & Hnd & Hst & Hd & Hn & Hcx) Hs Hc.
  split_and!; try done. exists ps, a. split_and!; simpl; try done; rewrite ?Hs, ?Hc; done.
Qed.

Lemma core_conn R o s : core R o s → h_driver_ctx (hs_h s) ∈ conns (hs_db s).
Proof. by intros (_ & _ & _ & ps & a & _ & _ & _ & _ & _ & Hcx). Qed.

(** A call on the connection. *)
Definition on_conn {A B} (m : ptr → M D A) (k : A → M (HState D) B) : M (HState D) B :=
  c ← mgets (λ s, h_driver_ctx (hs_h s)); a ← h_db (m c); k a.

Lemma on_conn_spec {A B} R o (m : ptr → M D A) (k : A → M (HState D) B) Q :
  (∀ c d, c ∈ conns d → keeps view (m c) d) →
  (∀ a, triple (locked R o) (k a) Q) → triple (locked R o) (on_conn m k) Q.
Proof.
  intros Hm Hk s [Hc Hl]. destruct (Hm _ _ (core_conn _ _ _ Hc)) as (x & d' & E & Hs & Hcn & _).
  unfold on_conn, h_db. erewrite bind_run by done. erewrite bind_run by (apply zoom_run; exact E).
  apply Hk. split; [by apply core_db|done].
Qed.

(** A statement in use: borrowed from the cache, or owned by the call. *)
Definition in_use R o (stmt : ptr) (owned : bool) (s : HState D) : Prop :=
  locked R (if owned then {[stmt]} ∪ o else o) s ∧ stmt ∈ stmts (hs_db s) ∧ (owned = true → stmt ∉ o).

Lemma in_use_not_null R o stmt owned s : in_use R o stmt owned s → stmt ≠ NULL.
Proof.
  intros ([(_ & _ & _ & ps & a & _ & _ & _ & _ & Hn) _] & Hin & _) ->. by apply Hn.
Qed.

Lemma in_use_db {A} R o stmt owned (m : M D A) :
  steady stmt m → stays (in_use R o stmt owned) (h_db m).
Proof.
  intros H s ([Hc Hm] & Hin & Ho). destruct (H (hs_db s) Hin) as (x & d' & E & Hs & Hcn & _).
  eexists _, _. split; [by apply zoom_run|]. split_and!; [|by simpl; rewrite Hs|done].
  split; [by apply core_db|done].
Qed.

Lemma in_use_step R o stmt owned : stays (in_use R o stmt owned) (h_step drv stmt).
Proof.
  eapply triple_bind; [apply in_use_db; by intros d Hd; apply step_law|]. intros [r b]. by apply triple_ret.
Qed.

Lemma in_use_malloc R o stmt owned : stays (in_use R o stmt owned) (h_alloc malloc).
Proof.
  intros s ([Hc Hm] & Hin & Ho). destruct (malloc_defined (hs_alloc s)) as (a & al & E).
  unfold h_alloc, zoom. rewrite E. by eexists _, _.
Qed.

Lemma in_use_err R o stmt owned code msg :
  stays (in_use R o stmt owned) (h_err (D := D) code msg).
Proof. intros s Hu. by eexists _, _. Qed.

(** Giving the statement back: nothing is left open that was not before. *)
Lemma in_use_finalize R o stmt :
  triple (in_use R o stmt true) (h_finalize drv stmt) (λ _, locked R o).
Proof.
  intros s ([(HR & Hreg & Htx & ps & a & Hrep & Hnd & Hst & Hd & Hn & Hcx) Hm] & Hin & Ho).
  destruct (finalize_law stmt _ Hin) as (r & d' & E & Hs & [Hcn _] & _).
  unfold h_finalize, h_db, zoom, mbind, M_bind. rewrite E. specialize (Ho eq_refl).
  eexists _, _. split; [done|]. split; [|done]. split_and!; try done.
  exists ps, a. split_and!; simpl; try done.
  - rewrite Hs, Hst. set_solver.
  - set_solver.
  - rewrite Hs. set_solver.
  - by rewrite Hcn.
Qed.

Lemma release_spec R o stmt owned :
  triple (in_use R o stmt owned) (release_cached_stmt drv stmt owned) (λ _, locked R o).
Proof.
  unfold release_cached_stmt. destruct owned; [apply in_use_finalize|].
  eapply triple_bind; [apply in_use_db; by intros d Hd; apply reset_law|]. intros ?.
  apply triple_ret. by intros s [? _].
Qed.

Lemma release_ret_spec {A} R o stmt owned (a : A) :
  triple (in_use R o stmt owned) (release_ret drv stmt owned a) (λ _, api_inv R o).
Proof. eapply triple_bind; [apply release_spec|]. intros ?. apply unlock_ret_spec. Qed.

Lemma finalize_ret_spec {A} R o stmt (a : A) :
  triple (in_use R o stmt true) (finalize_ret drv stmt a) (λ _, api_inv R o).
Proof. eapply triple_bind; [apply in_use_finalize|]. intros ?. apply unlock_ret_spec. Qed.

(** ** Fetching a statement *)

Lemma a_lookup_held sql a p : a_lookup sql (a_entries a) = Some p → p ∈ held a.
Proof.
  intros (l1 & l2 & E & _)%a_lookup_split. unfold held. rewrite E, fmap_app. set_solver.
Qed.

(** A lookup in the cache keeps the statements; a hit is one of them. *)
Lemma cache_get_spec R o sql :
  triple (locked R o) (h_on_cache (c2sql_internal_cache_get (Some sql)))
    (λ x s, locked R o s ∧ (res_ok x.1 = true → in_use R o x.2 false s)).
Proof.
  intros s [(HR & Hreg & Htx & ps & a & Hrep & Hnd & Hst & Hd & Hn & Hcx) Hm].
  destruct (cache_get_refines (h_cache (hs_h s)) (hs_db s) (hs_alloc s) ps a sql Hrep) as (c' & ps' & E & Hr').
  unfold h_on_cache, zoom. rewrite E. eexists _, _. split; [done|].
  assert (∀ p, p ∈ held (abs_get sql a).2 ↔ p ∈ held a) as Hel
    by (intros p; apply abs_get_held; [apply (rep_keys _ _ _ Hrep)|done]).
  assert (list_to_set (held (abs_get sql a).2) = (list_to_set (held a) : gset ptr)) as Hset
    by (apply set_eq; intros p; rewrite !elem_of_list_to_set; apply Hel).
  assert (locked R o (MkH (set_h_cache c' (hs_h s)) (hs_db s) (hs_alloc s) (hs_live s))) as Hl.
  { split; [|done]. split_and!; try done. exists ps', (abs_get sql a).2.
    split_and!; simpl; try done; rewrite ?Hset; try done.
    apply (abs_get_held sql a NULL (rep_keys _ _ _ Hrep) Hnd). }
  split; [done|]. intros Hok. split_and!; [done| |done]. simpl. rewrite Hst.
  unfold abs_get in Hok |- *. destruct (a_lookup sql (a_entries a)) as [p|] eqn:El; simpl in *; [|done].
  apply a_lookup_held in El. set_solver.
Qed.

(** Handing a fresh statement to the cache. *)
Lemma cache_put_spec R o sql stmt :
  triple (λ s, in_use R o stmt true s ∧ c_capacity (h_cache (hs_h s)) ≠ 0)
    (h_on_cache (c2sql_internal_cache_put (Some sql) stmt (Some drv)))
    (λ r, locked R o).
Proof.
  intros s [([(HR & Hreg & Htx & ps & a & Hrep & Hnd & Hst & Hd & Hn & Hcx) Hm] & Hin & Ho) Hcap].
  specialize (Ho eq_refl).
  assert (stmt ∉ held a) as Hnh by set_solver.
  assert (cache_inv drv a (hs_db s)) as Hinv by (split; [done|]; intros p Hp; rewrite Hst; set_solver).
  destruct (cache_put_owned drv (h_cache (hs_h s)) (hs_db s) (hs_alloc s) ps a sql stmt Hrep Hinv Hin Hnh)
    as (c' & ps' & d' & n & E & Hr' & [Hnd' Hin'] & Hd' & Hcn & _).
  destruct (abs_put_ownership drv sql stmt (malloc_ok (hs_alloc s)).1 (malloc_ok (malloc_ok (hs_alloc s)).2).1
    a (hs_db s) (rep_keys _ _ _ Hrep) Hinv Hin Hnh) as [Hnda Hel].
  unfold h_on_cache, zoom. rewrite E. eexists _, _. split; [done|]. split; [|done].
  split_and!; try done. eexists ps', _. simpl. set (out := abs_put _ _ _ _ _) in *.
  split_and!; [done|done| | | |by rewrite Hcn].
  - rewrite Hd', Hst. apply set_eq. intros p. specialize (Hel p). rewrite elem_of_app in Hel.
    assert (p ∈ out.1.2 → p ∉ held out.2) as Hdisj by (apply NoDup_app in Hnda as (_ & H & _); apply H).
    set_solver.
  - intros p Hp Hpo. specialize (Hel p). rewrite elem_of_app in Hel. set_solver.
  - rewrite Hd'. set_solver.
Qed.

Lemma prepare_spec R o sql ctx :
  sql_text (drv_dialect drv) sql →
  triple (λ s, locked R o s ∧ ctx = h_driver_ctx (hs_h s)) (h_db (drv_prepare drv ctx sql))
    (λ x s, if res_ok x.1 then in_use R o x.2 true s else locked R o s).
Proof.
  intros Hsql s [[Hc Hm] ->]. pose proof (core_conn _ _ _ Hc) as Hcx.
  destruct (prepare_law (drv := drv) _ sql (hs_db s) Hcx Hsql) as (r & p & d' & E & Hp).
  eexists _, _. split; [by apply zoom_run|]. simpl. destruct (res_ok r).
  - destruct Hp as (Hp0 & Hpn & Hs & Hcn & _). destruct Hc as (HR & Hreg & Htx & ps & a & Hrep & Hnd & Hst & Hd & Hn & _).
    split_and!; simpl; [|set_solver|set_solver]. split; [|done]. split_and!; try done.
    exists ps, a. split_and!; simpl; try done; rewrite ?Hs, ?Hcn; [set_solver..|done].
  - destruct Hp as (Hs & Hcn & _). split; [by apply core_db|done].
Qed.

Lemma get_or_prepare_spec R o sql :
  sql_text (drv_dialect drv) sql →
  triple (locked R o) (get_or_prepare drv sql)
    (λ x s, if res_ok x.1.1 then in_use R o x.1.2 x.2 s else locked R o s).
Proof.
  intros Hsql. unfold get_or_prepare. eapply triple_bind; [apply cache_get_spec|]. intros [r stmt]. simpl.
  destruct (res_ok r) eqn:Er.
  { apply triple_ret. simpl. intros s [_ H]. by apply H. }
  eapply triple_bind; [apply triple_gets|]. intros ctx. cbn beta.
  eapply triple_bind; [eapply triple_pre; [by apply prepare_spec|]; by intros s [[? _] ?]|]. intros [r1 p]. simpl.
  destruct (res_ok r1) eqn:Er1; cbn [negb]; [|apply triple_ret; simpl; by rewrite Er1].
  eapply triple_bind; [apply triple_gets|]. intros cap. simpl.
  destruct (Z.eqb_spec cap 0) as [E0|E0].
  { apply triple_ret. simpl. by intros s [? _]. }
  eapply triple_bind; [eapply triple_pre; [apply cache_put_spec|]|].
  { intros s [Hu ->]. by split. }
  intros r2. destruct (res_ok r2) eqn:Er2; cbn [negb]; [|apply triple_ret; simpl; by rewrite Er2].
  eapply triple_bind; [apply cache_get_spec|]. intros [r3 q]. simpl.
  destruct (res_ok r3) eqn:Er3; cbn [negb]; apply triple_ret; simpl.
  - intros s [_ H]. by apply H.
  - by intros s [? _].
Qed.

(** ** The common blocks *)

(** The entries of the registry that have a name. *)
Definition found (R : SqlRDBSchemaRegistry) (name : string) (s : SqlRDBSchema) : Prop :=
  schema_ok s ∧ sch_name s = name ∧ s ∈ reg_entries R.

Lemma lookup_spec R o name :
  triple (locked R o) (h_lookup name)
    (λ x s, locked R o s ∧ match x with Some sch => found R name sch | None => True end).
Proof.
  intros s Hl. pose proof Hl as [(HR & (_ & Hok & _) & _) _]. unfold h_lookup, mbind, M_bind, mgets.
  rewrite HR. destruct (c2sql_internal_schema_lookup true R (Some name)) as [p|] eqn:E.
  - apply lookup_name in E as (sch & Hp & Hname & Hin). rewrite Hp. cbn [mdef].
    eexists _, _. split; [done|]. split; [done|]. split_and!; try done.
    simpl in Hok. by eapply Forall_forall in Hok.
  - by eexists _, _.
Qed.

Lemma with_schema_gen {A} R o what name (ret : SqlRDBResult → A) k Q :
  (∀ r s, r ≠ SQL_RDB_OK → api_inv R o s → Q (ret r) s) →
  (∀ sch, found R name sch → triple (locked R o) (k sch) Q) →
  triple (locked R o) (with_schema what name ret k) Q.
Proof.
  intros HQ Hk. unfold with_schema. eapply triple_bind; [apply lookup_spec|]. intros [sch|].
  - apply triple_pure. apply Hk.
  - apply triple_pure. intros _. eapply triple_bind; [apply err_spec|]. intros ?.
    eapply triple_bind; [apply unlock_spec|]. intros ?. apply triple_ret. intros s. by apply HQ.
Qed.

Lemma with_schema_spec {A} R o what name (ret : SqlRDBResult → A) k :
  (∀ sch, found R name sch → triple (locked R o) (k sch) (λ _, api_inv R o)) →
  triple (locked R o) (with_schema what name ret k) (λ _, api_inv R o).
Proof. intros Hk. by apply with_schema_gen. Qed.

(** The specification of a statement is one the builder accepts, and its text
    fits the builder's buffer. *)
Definition spec_fits (spec : SqlRDBQuerySpec) (sch : SqlRDBSchema) : Prop :=
  q_schema spec = Some sch ∧ spec_ok spec ∧ schema_wf (q_op spec) sch ∧
  slen (qb_text spec sch) < MAX_TEXT ∧ qb_binds spec sch ≤ INT_MAX ∧
  schema_ok sch ∧ (∀ c, q_new_col spec = Some c → c ∈ sch_cols sch).

(** The parameters of a text for PostgreSQL are the values that are bound. *)
Lemma fits_count spec sch :
  spec_fits spec sch → q_dialect spec = C2SQL_DIALECT_POSTGRES → qb_result spec sch = SQL_RDB_OK →
  pg_count_params (qb_text spec sch) = Some (qb_binds spec sch).
Proof.
  intros (_ & _ & _ & _ & Hb & Hs & Hnew) Hd Hres. apply piece_count; [by apply piece_qb_text|].
  destruct Hs as (_ & _ & ? & _). unfold qb_binds.
  assert (0 ≤ where_leaves (q_cond spec)) by (destruct (q_cond spec); [apply leaves_nonneg|done]).
  destruct (q_op spec); lia.
Qed.

(** A text that was built has a statement in it. *)
Lemma fits_sql_text spec sch :
  spec_fits spec sch → qb_result spec sch = SQL_RDB_OK → sql_text (q_dialect spec) (qb_text spec sch).
Proof.
  intros Hf Hres. split.
  - unfold qb_result in Hres. unfold qb_text. by destruct (q_op spec).
  - intros Hd. exists (qb_binds spec sch). by apply fits_count.
Qed.

Lemma build_spec R o spec sch :
  spec_fits spec sch →
  triple (locked R o) (h_build spec)
    (λ x s, locked R o s ∧ (res_ok x.1 = true →
       x.2 = Some (qb_text spec sch) ∧ sql_text (q_dialect spec) (qb_text spec sch))).
Proof.
  intros Hfit s [Hc Hm]. pose proof Hfit as (Hs & Hok & Hwf & Ht & Hb & _).
  destruct (qb_build_promise spec sch (hs_alloc s) Hs Hok Hwf Ht) as (r & sql & n & al' & E & Hp & _).
  { unfold MAX_BINDS, INT_MAX in *. lia. }
  unfold h_build, h_alloc, zoom, mbind, M_bind. rewrite E. eexists _, _. split; [done|].
  split; [done|]. simpl. intros Hr. destruct Hp as (Hres & _ & Hp). rewrite Hr in Hp.
  apply res_ok_true in Hr as ->. split; [apply Hp|]. apply fits_sql_text; [done|]. by destruct Hres as [->|].
Qed.

Lemma with_sql_gen {A} R o spec sch (ret : SqlRDBResult → A) k Q :
  (∀ r s, r ≠ SQL_RDB_OK → api_inv R o s → Q (ret r) s) →
  spec_fits spec sch →
  (sql_text (q_dialect spec) (qb_text spec sch) → triple (locked R o) (k (qb_text spec sch)) Q) →
  triple (locked R o) (with_sql spec ret k) Q.
Proof.
  intros HQ Hf Hk. unfold with_sql. eapply triple_bind; [by apply build_spec|]. intros [r sql]. simpl.
  apply triple_pure. intros Hsql. destruct (res_ok r) eqn:Er; cbn [negb].
  - destruct (Hsql eq_refl) as [-> Htxt].
    eapply triple_bind; [by apply triple_def|]. intros x. apply triple_pure. intros ->. by apply Hk.
  - apply res_ok_false in Er. eapply triple_bind; [apply unlock_spec|]. intros ?. apply triple_ret. intros s. by apply HQ.
Qed.

Lemma with_sql_spec {A} R o spec sch (ret : SqlRDBResult → A) k :
  spec_fits spec sch →
  (sql_text (q_dialect spec) (qb_text spec sch) → triple (locked R o) (k (qb_text spec sch)) (λ _, api_inv R o)) →
  triple (locked R o) (with_sql spec ret k) (λ _, api_inv R o).
Proof. intros Hf Hk. by apply with_sql_gen with sch. Qed.

Lemma with_stmt_spec {A} R o sql (ret : SqlRDBResult → A) k :
  sql_text (drv_dialect drv) sql →
  (∀ stmt owned, triple (in_use R o stmt owned) (k stmt owned) (λ _, api_inv R o)) →
  triple (locked R o) (with_stmt drv sql ret k) (λ _, api_inv R o).
Proof.
  intros Hsql Hk. unfold with_stmt. eapply triple_bind; [by apply get_or_prepare_spec|].
  intros [[r stmt] owned]. simpl. destruct (res_ok r); cbn [negb]; [apply Hk|apply unlock_ret_spec].
Qed.

Lemma with_prepared_spec {A} R o sql (ret : SqlRDBResult → A) k Q :
  sql_text (drv_dialect drv) sql →
  (∀ r s, r ≠ SQL_RDB_OK → api_inv R o s → Q (ret r) s) →
  (∀ stmt, triple (in_use R o stmt true) (k stmt) Q) →
  triple (locked R o) (with_prepared drv sql ret k) Q.
Proof.
  intros Hsql HQ Hk. unfold with_prepared. eapply triple_bind; [apply triple_gets|]. intros ctx. cbn beta.
  eapply triple_bind; [by apply prepare_spec|]. intros [r stmt]. simpl.
  destruct (res_ok r) eqn:Er; cbn [negb]; [apply Hk|]. apply res_ok_false in Er.
  eapply triple_bind; [apply unlock_spec|]. intros ?. apply triple_ret. intros s. by apply HQ.
Qed.

Lemma valid_or_spec {A} R o (bad : A) k :
  triple (api_inv R o) k (λ _, api_inv R o) →
  triple (api_inv R o) (valid_or bad k) (λ _, api_inv R o).
Proof.
  intros Hk. unfold valid_or. eapply triple_bind; [apply triple_gets|]. intros h. cbn beta.
  apply (triple_pre (api_inv R o)); [|by intros s [? _]].
  destruct (c2sql_handle_valid (Some h)); [done|by apply triple_ret].
Qed.
End laws.
