(* ===== verification/Isolation.v ===== *)
(** * What the calls on one handle leave alone

    The laws of a driver hold as well of the part of its state that one handle
    works on: the connections are then only that of the handle, and the
    statements all but those that others had.  What is proved of a handle from
    the laws therefore also holds next to other handles, whose connections and
    statements it leaves as they are. *)

From Stdlib Require Import String Strings.Byte.
From S2P Require Import Prelude Types Support Driver StmtCache StmtCacheSpec StmtCacheProofs StmtCacheRefine StmtCacheTheorems.
From S2P Require Import Registry RegistryProofs TypeMappingProofs Handle ApiProofs.

Section own.
Context {D : Type} (drv : SqlRDBDriver D) `{!DriverLaws drv}.
Context (c0 : ptr) (C F : gset ptr).

(** The connections [C] are open and the statements [F], none of which belongs
    to the connection [c0]. *)
Definition apart (d : D) : Prop := conns d = C ∧ c0 ∈ C ∧ F ⊆ stmts d ∧ stmts_of c0 d ## F.

#[local] Instance apart_dec d : Decision (apart d).
Proof. unfold apart. apply _. Defined.

Definition own_view : View D :=
  MkView (λ d, stmts d ∖ F) (λ c d, stmts_of c d ∖ F) (λ d, if decide (apart d) then {[c0]} else ∅) (λ _, True).

Lemma own_conns c d : c ∈ v_conns own_view d ↔ c = c0 ∧ apart d.
Proof. simpl. destruct (decide (apart d)); set_solver. Qed.

Lemma own_conns_iff d d' : (apart d ↔ apart d') → v_conns own_view d' = v_conns own_view d.
Proof. intros H. apply set_eq. intros c. rewrite !own_conns. naive_solver. Qed.

(** Where the same is open, the same is apart. *)
Lemma own_still d d' : stmts d' = stmts d → still view d d' → still own_view d d'.
Proof.
  intros Hs [Hc Ho]. split; [|intros c; simpl; by rewrite Ho].
  apply own_conns_iff. unfold apart. by rewrite Hs, Hc, Ho.
Qed.

(** A statement that is not one of [F] may come or go. *)
Lemma own_still_but p d d' :
  (p ∉ F) → stmts d' ∖ {[p]} = stmts d ∖ {[p]} → still_but view p d d' → still_but own_view p d d'.
Proof.
  intros Hp Hs [Hc Ho]. split.
  - apply own_conns_iff. unfold apart. rewrite Hc.
    assert (F ⊆ stmts d ↔ F ⊆ stmts d') by (clear Ho Hc; set_solver).
    assert (stmts_of c0 d ## F ↔ stmts_of c0 d' ## F) by (specialize (Ho c0); clear Hs Hc; set_solver). tauto.
  - intros c. simpl. specialize (Ho c). clear Hs Hc. set_solver.
Qed.

Lemma own_keeps {A} (m : M D A) d : keeps view m d → keeps own_view m d.
Proof.
  intros (a & d' & E & Hs & Hc). exists a, d'. split; [done|]. split; [simpl; by rewrite Hs|by apply own_still].
Qed.

Lemma own_stmt p d : p ∈ v_stmts own_view d → p ∈ stmts d.
Proof. simpl. set_solver. Qed.

Lemma own_conn c d : c ∈ v_conns own_view d → c ∈ conns d.
Proof. intros [-> (-> & ? & _)]%own_conns. done. Qed.

Lemma own_buffer (m : M D (SqlRDBResult * (option (list byte) * Z))) d :
  (∃ r q n d', m d = Some ((r, (q, n)), d') ∧ stmts d' = stmts d ∧ still view d d' ∧ buffer_ok q n) →
  ∃ r q n d', m d = Some ((r, (q, n)), d') ∧ v_stmts own_view d' = v_stmts own_view d ∧ still own_view d d' ∧ buffer_ok q n.
Proof.
  intros (r & q & n & d' & E & Hs & Hc & Hb). exists r, q, n, d'. split; [done|]. split; [simpl; by rewrite Hs|].
  split; [by apply own_still|done].
Qed.

Lemma own_prepare c sql d :
  c ∈ v_conns own_view d → sql_text (drv_dialect drv) sql → ∃ r p d',
    drv_prepare drv c sql d = Some ((r, p), d') ∧
    if res_ok r then p ≠ NULL ∧ (p ∉ v_stmts own_view d) ∧ v_stmts own_view d' = {[p]} ∪ v_stmts own_view d ∧ still_but own_view p d d'
    else v_stmts own_view d' = v_stmts own_view d ∧ still own_view d d'.
Proof.
  intros Hc Hsql. destruct (prepare_law (drv := drv) c sql d (own_conn c d Hc) Hsql) as (r & p & d' & E & Hr).
  apply own_conns in Hc as (_ & _ & _ & HF & _). exists r, p, d'. split; [done|]. destruct (res_ok r).
  - destruct Hr as (Hn & Hp & Hs & Hb). assert (p ∉ F) as HpF by set_solver.
    split; [done|]. split; [simpl; set_solver|]. split; [simpl; rewrite Hs; set_solver|].
    apply own_still_but; [done|rewrite Hs; set_solver|done].
  - destruct Hr as [Hs Hb]. split; [simpl; by rewrite Hs|by apply own_still].
Qed.

Lemma own_finalize p d :
  p ∈ v_stmts own_view d → ∃ r d', drv_finalize drv p d = Some (r, d') ∧
    v_stmts own_view d' = v_stmts own_view d ∖ {[p]} ∧ calm own_view d d' ∧ still_but own_view p d d'.
Proof.
  intros Hp. destruct (finalize_law (drv := drv) p d (own_stmt p d Hp)) as (r & d' & E & Hs & [Hc Ho] & Hb).
  assert (p ∉ F) as HpF by (simpl in Hp; set_solver).
  assert (still_but own_view p d d') as Hb' by (apply own_still_but; [done|rewrite Hs; set_solver|done]).
  exists r, d'. split; [done|]. split; [simpl; rewrite Hs; set_solver|]. split; [|done]. split; [apply Hb'|].
  intros c. simpl. specialize (Ho c). set_solver.
Qed.

(** The laws hold of what the handle owns. *)
Definition own_laws : DriverLaws drv.
Proof.
  refine {| view := own_view |}; [apply own_prepare|apply own_finalize|..]; intros;
    try (apply own_keeps; eauto using own_stmt, own_conn, bind_int64_law, bind_int32_law, bind_real_law, bind_text_law,
      bind_blob_law, bind_null_law, step_law, column_int64_law, column_int32_law, column_real_law, column_isnull_law,
      reset_law, exec_law, begin_law, commit_law, rollback_law, savepoint_law, release_sp_law, rollback_sp_law, changes_law);
    apply own_buffer; eauto using own_stmt, column_text_law, column_blob_law.
Defined.

Lemma own_finite N `{!FiniteRows drv N} : @FiniteRows D drv own_laws N.
Proof.
  refine (@Build_FiniteRows D drv own_laws N (rows_left (drv := drv)) _ _ _ _); intros *.
  - intros Hp. by apply rows_bound, own_stmt.
  - intros Hp. by apply step_rows, own_stmt.
  - apply text_rows.
  - apply int32_rows.
Defined.

(** ** The invariant of a handle, in the process and on its own *)

Lemma own_enter R (o : gset ptr) (s : HState D) :
  api_inv drv R (o ∪ F) s → o ## F → h_driver_ctx (hs_h s) = c0 → apart (hs_db s) → @api_inv D drv own_laws R o s.
Proof.
  intros [(HR & Hreg & Htx & ps & a & Hrep & Hnd & Hst & Hd & Hn & Hcx) Hm] Ho Hc Ha. split; [|done].
  split; [done|]. split; [done|]. split; [done|]. exists ps, a. split; [done|]. split; [done|]. simpl.
  split; [rewrite Hst; clear -Hd Ho; set_solver|]. split; [clear -Hd; set_solver|]. split; [clear -Hn; set_solver|].
  by apply own_conns.
Qed.

Lemma own_leave R (o : gset ptr) (s : HState D) :
  @api_inv D drv own_laws R o s → (NULL ∉ F) →
  api_inv drv R (o ∪ F) s ∧ h_driver_ctx (hs_h s) = c0 ∧ apart (hs_db s).
Proof.
  intros [(HR & Hreg & Htx & ps & a & Hrep & Hnd & Hst & Hd & Hn & Hcx) Hm] HF.
  apply own_conns in Hcx as [Hc Ha]. split; [|done]. pose proof Ha as (Hcn & Hin & HFs & _). split; [|done].
  simpl in Hst, Hn. assert (stmts (hs_db s) = list_to_set (held a) ∪ (o ∪ F)) as E.
  { by rewrite union_assoc_L, <-Hst, difference_union_L, (union_comm_L _ F), subseteq_union_1_L. }
  split; [done|]. split; [done|]. split; [done|]. exists ps, a. split; [done|]. split; [done|]. split; [done|].
  split; [clear -Hst Hd HFs; set_solver|]. split; [clear -Hn HF; set_solver|]. by rewrite Hc, Hcn.
Qed.
End own.
