(* ===== verification/ApiSafety.v ===== *)
(** * The public operations keep the invariant of the handle

    Each operation of Api.v, called with arguments whose memory is what the
    header asks for, is defined on every branch and leaves the mutex released,
    the registry as it was, the transaction state consistent, and open exactly
    the statements that the cache or an iterator owns. *)

From Stdlib Require Import String Strings.Byte.
From coqutil Require Import Byte.
From S2P Require Import Prelude Types Support Driver MemDriver StmtCache StmtCacheSpec.
From S2P Require Import StmtCacheProofs StmtCacheRefine StmtCacheTheorems Condition.
From S2P Require Import QueryBuilder QueryBuilderProofs Registry RegistryProofs TypeMapping.
From S2P Require Import TypeMappingProofs Handle Api ApiProofs.
Import ErrorCtx Logger Mutex.

(** ** The length of the statements *)

Lemma slen_quoted s : slen (quoted s) = slen s + 2.
Proof. unfold quoted. rewrite !slen_app. change (slen DQ) with 1. lia. Qed.

Lemma slen_commas_le B l :
  Forall (λ s, slen s ≤ B) l → slen (commas l) ≤ Z.of_nat (length l) * (B + 1).
Proof.
  unfold commas. induction 1 as [|s l Hs _ IH]; [done|]. rewrite fmap_cons. cbn [sconcat length].
  rewrite !slen_app. change (slen ",") with 1. lia.
Qed.

Lemma slen_join_le B l :
  Forall (λ s, slen s ≤ B) l → slen (join "," l) ≤ Z.of_nat (length l) * (B + 1).
Proof.
  destruct 1 as [|s l Hs Hl]; [done|]. rewrite join_cons, slen_app. cbn [length].
  apply slen_commas_le in Hl. lia.
Qed.

Lemma slen_hole d n : 0 ≤ n < 10 ^ 14 → slen (hole d n) ≤ 15.
Proof.
  intros Hn. destruct d; [by vm_compute|]. cbn [hole]. rewrite slen_app. change (slen "$") with 1.
  unfold dec. rewrite (proj2 (Z.ltb_ge _ _)) by lia.
  pose proof (length_dec_loop 20 n EmptyString 14 ltac:(lia) ltac:(lia)) as H. unfold slen.
  cbn [String.length] in H. lia.
Qed.

Lemma holes_small d n k :
  0 ≤ n → n + Z.of_nat k < 10 ^ 14 → Forall (λ s, slen s ≤ 15) (holes d n k) ∧ length (holes d n k) = k.
Proof.
  revert n. induction k as [|k IH]; intros n Hn Hk; cbn [holes]; [by split|].
  destruct (IH (n + 1)) as [H1 H2]; [lia..|]. split; [|simpl; by rewrite H2].
  constructor; [apply slen_hole; lia|done].
Qed.

(** Compute the lengths of the literal pieces. *)
Ltac slen_literals :=
  repeat match goal with
  | |- context [slen (String ?a ?b)] =>
      let v := eval vm_compute in (slen (String a b)) in
      change (slen (String a b)) with v
  end.

(** The names of a registered schema have at most 128 characters. *)
Lemma schema_ok_small s :
  schema_ok s → slen (sch_name s) ≤ 128 ∧ Forall (λ n, slen n ≤ 128) (col_names s) ∧
  (length (sch_cols s) ≤ 64)%nat ∧ sch_col_count s = Z.of_nat (length (sch_cols s)).
Proof.
  intros ((Hn & _) & Hc & Hcount & [_ Hcols] & _). unfold MAX_IDENT_LEN, C2SQL_MAX_COLUMNS in *.
  split_and!; [lia| |lia|done]. unfold col_names. apply Forall_fmap.
  eapply Forall_impl; [exact Hcols|]. intros c ((Hl & _) & _). exact (proj2 Hl).
Qed.

Lemma slen_col_list s : schema_ok s → slen (col_list_text s) ≤ 64 * 131.
Proof.
  intros (_ & Hcols & Hlen & _)%schema_ok_small. unfold col_list_text.
  assert (Forall (λ x, slen x ≤ 130) (quoted <$> col_names s)) as H.
  { apply Forall_fmap. eapply Forall_impl; [exact Hcols|]. intros n Hn.
    change (slen (quoted n) ≤ 130). rewrite slen_quoted. cbn beta in Hn. lia. }
  apply slen_join_le in H. unfold col_names in *. rewrite !length_fmap in H. lia.
Qed.

Lemma slen_insert d s : schema_ok s → slen (insert_text d s) ≤ 10000.
Proof.
  intros Hs. pose proof (slen_col_list s Hs). pose proof (schema_ok_small s Hs) as (Hn & _ & Hlen & _).
  destruct (holes_small d 0 (length (sch_cols s))) as [Hh Hl]; [lia..|].
  apply slen_join_le in Hh. rewrite Hl in Hh.
  unfold insert_text. rewrite !slen_app, slen_quoted. slen_literals. lia.
Qed.

Lemma slen_sets s : schema_ok s → slen (join "," (set_text <$> other_cols s)) ≤ 64 * 300.
Proof.
  intros (_ & Hcols & Hlen & _)%schema_ok_small.
  assert (Forall (λ x, slen x ≤ 271) (set_text <$> other_cols s)) as H.
  { apply Forall_fmap. unfold other_cols, col_names in *. apply Forall_delete. rewrite Forall_fmap in Hcols.
    eapply Forall_impl; [exact Hcols|]. intros c Hc. change (slen (col_name c) ≤ 128) in Hc.
    change (slen (set_text c) ≤ 271). unfold set_text.
    rewrite !slen_app, !slen_quoted. slen_literals. lia. }
  apply slen_join_le in H. rewrite length_fmap in H.
  assert (length (other_cols s) ≤ 64)%nat; [|lia]. unfold other_cols.
  pose proof (sublist_length _ _ (sublist_delete (sch_cols s) (Z.to_nat (sch_pk_index s)))). lia.
Qed.

Lemma slen_pk_name s : schema_ok s → slen (pk_name s) ≤ 128.
Proof.
  intros (_ & Hcols & _)%schema_ok_small. unfold pk_name, col_names in *.
  destruct (sch_cols s !! _) as [c|] eqn:E; [|by vm_compute].
  rewrite Forall_fmap in Hcols. by eapply Forall_lookup_1 in Hcols.
Qed.

(** A condition whose text stays below 2^61 bytes and 10^9 values. *)
Definition cond_small (c : option SqlRDBCondition) : Prop :=
  (∀ d n, 0 ≤ n ≤ 1 → slen (where_text d n c) < 2 ^ 61) ∧ where_leaves c < 10 ^ 9.

(** The operations the API asks the builder for. *)
Definition api_op (op : C2SqlQBOp) : Prop :=
  match op with
  | C2SQL_QB_CREATE | C2SQL_QB_ALTER_ADD | C2SQL_QB_other _ => False
  | _ => True
  end.

Lemma query_fits {D} (drv : SqlRDBDriver D) op sch cond target :
  schema_ok sch → api_op op → cond_small cond →
  (op = C2SQL_QB_UPSERT → 0 ≤ sch_pk_index sch) →
  (op = C2SQL_QB_UPDATE_FIELD ∨ op = C2SQL_QB_SELECT_FIELD → ∃ t, target = Some t ∧ slen t ≤ 128) →
  spec_fits (query drv op sch cond target) sch.
Proof.
  intros Hs Hop [Hc Hl] Hpk Htgt.
  pose proof (slen_col_list sch Hs). pose proof (slen_insert (drv_dialect drv) sch Hs).
  pose proof (slen_sets sch Hs). pose proof (slen_pk_name sch Hs).
  pose proof (schema_ok_small sch Hs) as (Hn & _ & Hlen & Hcount).
  split_and!; [done| |by apply schema_ok_wf| | |done|done].
  - split; [by destruct op|]. intros Ho. destruct (Htgt Ho) as (t & -> & _). done.
  - unfold MAX_TEXT, query, qb_text, the_target.
    cbn [q_op q_dialect q_cond q_target_col q_new_col].
    pose proof (Hc (drv_dialect drv) 0 ltac:(lia)). pose proof (Hc (drv_dialect drv) 1 ltac:(lia)).
    pose proof (slen_hole (drv_dialect drv) 1 ltac:(lia)).
    destruct op; try done; rewrite ?slen_app, ?slen_quoted; slen_literals; try lia.
    all: destruct (Htgt ltac:(auto)) as (t & -> & Ht);
      change (default EmptyString (Some t)) with t; lia.
  - unfold INT_MAX, qb_binds, query. cbn [q_op q_cond]. destruct op; simpl in Hop; try done; lia.
Qed.

(** ** The operations *)

Section ops.
Context {D : Type} (drv : SqlRDBDriver D) `{!DriverLaws drv}.
Context (R : SqlRDBSchemaRegistry) (o : gset ptr).

(** The caller's struct is the one that was registered under the name. *)
Definition row_fits (name : option string) (n : Z) (nulls : option (list byte)) : Prop :=
  ∀ nm sch, name = Some nm → found R nm sch → row_ok n sch nulls.

(** What an operation may be asked to search for. *)
Definition cond_fits (c : option SqlRDBCondition) : Prop := cond_small c ∧ where_values_ok c.

Lemma no_cond_small : cond_small None.
Proof. split; [intros; by vm_compute|by vm_compute]. Qed.

Lemma write_query_fits nm sch :
  found R nm sch → spec_fits (query drv (write_op sch) sch None None) sch.
Proof.
  intros (Hs & _). apply query_fits; [done| |apply no_cond_small| |]; unfold write_op;
    destruct (Z.leb_spec 0 (sch_pk_index sch)); try done; by intros [?|?].
Qed.

Lemma bind_row_db stmt owned sch row nulls :
  row_ok (Z.of_nat (length row)) sch nulls →
  stays (in_use drv R o stmt owned)
    (h_db (c2sql_internal_tm_bind_row drv stmt (Some sch) (Some row) nulls)).
Proof.
  intros Hrow s Hu. pose proof (in_use_not_null _ _ _ _ _ _ Hu).
  by apply (in_use_db drv R o stmt owned _ (bind_row_steady drv stmt sch row nulls Hrow ltac:(done))).
Qed.

Lemma reset_db stmt owned : stays (in_use drv R o stmt owned) (h_db (drv_reset drv stmt)).
Proof. apply in_use_db. intros d Hd. by apply reset_law. Qed.

(** A statement in use, on the handle [h]. *)
Definition in_use_of (h : SqlRDBHandle) (stmt : ptr) (owned : bool) (s : HState D) : Prop :=
  in_use drv R o stmt owned s ∧ hs_h s = h.

Lemma silent_handle_db {A} (m : M D A) : silent hs_h (h_db m).
Proof. by apply silent_zoom_away. Qed.

(** A call of the driver does not touch the handle. *)
Lemma in_use_of_stays {A} h stmt owned (m : M (HState D) A) :
  stays (in_use drv R o stmt owned) m → silent hs_h m → stays (in_use_of h stmt owned) m.
Proof.
  intros Hm Hs s [Hu Hh]. destruct (Hm s Hu) as (a & s' & E & Hu'). exists a, s'. split; [done|].
  split; [done|]. rewrite <-Hh. by eapply Hs.
Qed.

(** A call on the connection while a statement is in use. *)
Lemma in_use_conn {A} h stmt owned (m : M D A) :
  (∀ d, h_driver_ctx h ∈ conns d → keeps view m d) → stays (in_use_of h stmt owned) (h_db m).
Proof.
  intros H s [([Hc Hl] & Hin & Ho) <-]. destruct (H _ (core_conn _ _ _ _ Hc)) as (a & d' & E & Hs & Hcn & _).
  eexists _, _. split; [by apply zoom_run|]. split; [|done].
  split_and!; [|by simpl; rewrite Hs|done]. split; [by apply core_db|done].
Qed.

Lemma SqlRDBWrite_safe name row nulls :
  (∀ r, row = Some r → row_fits name (Z.of_nat (length r)) nulls) →
  stays (api_inv drv R o) (SqlRDBWrite drv name row nulls).
Proof.
  intros Hrow. apply valid_or_spec. destruct name as [nm|], row as [row|]; try by apply triple_ret.
  eapply triple_bind; [apply lock_spec|]. intros ?. apply with_schema_spec. intros sch Hf.
  apply with_sql_spec with sch; [by eapply write_query_fits|].
  intros Hq. apply with_stmt_spec; [done|]. intros stmt owned.
  eapply triple_bind; [apply bind_row_db; by eapply Hrow|]. intros r.
  destruct (res_ok r); cbn [negb]; [|by apply release_ret_spec].
  eapply triple_bind; [by apply in_use_step|]. intros [r1 b].
  eapply triple_bind; [by apply release_spec|]. intros ?.
  eapply (triple_bind _ _ (λ _, locked drv R o)); [|intros ?; apply unlock_ret_spec].
  destruct (res_ok r1); cbn [negb]; [by apply triple_ret|apply err_spec].
Qed.

(** The memory of [count] rows at a distance of [stride], and of as many
    bitmaps. *)
Definition rows_fit (name : option string) (rows : list byte) (count stride : Z)
    (null_maps : option (list byte)) : Prop :=
  ∀ nm sch, name = Some nm → found R nm sch → ∀ i, 0 ≤ i < count →
    row_ok (Z.of_nat (length (drop (Z.to_nat (size_t (i * stride))) rows))) sch
      ((λ m, drop (Z.to_nat (size_t (i * SQL_RDB_NULL_BITMAP_BYTES (sch_col_count sch)))) m) <$> null_maps).

Lemma write_rows_safe stmt owned sch rows stride nulls i n :
  (∀ j, Z.of_nat i ≤ j < Z.of_nat (i + n) →
    row_ok (Z.of_nat (length (drop (Z.to_nat (size_t (j * stride))) rows))) sch
      ((λ m, drop (Z.to_nat (size_t (j * SQL_RDB_NULL_BITMAP_BYTES (sch_col_count sch)))) m) <$> nulls)) →
  stays (in_use drv R o stmt owned) (write_rows drv stmt sch rows stride nulls i n).
Proof.
  revert i. induction n as [|n IH]; intros i Hrow; cbn [write_rows]; [by apply triple_ret|].
  eapply triple_bind; [apply bind_row_db, Hrow; lia|]. intros r.
  destruct (res_ok r); cbn [negb]; [|by apply triple_ret].
  eapply triple_bind; [by apply in_use_step|]. intros [r1 b].
  eapply triple_bind; [apply reset_db|]. intros ?.
  destruct (res_ok r1); cbn [negb]; [|by apply triple_ret].
  apply IH. intros j Hj. apply Hrow. lia.
Qed.

Lemma silent_write_rows_h stmt sch rows stride nulls i n :
  silent hs_h (write_rows drv stmt sch rows stride nulls i n).
Proof.
  revert i. induction n as [|n IH]; intros i; cbn [write_rows]; [apply silent_ret|].
  unfold h_step. silence; apply silent_handle_db.
Qed.

Lemma SqlRDBWriteMany_safe name rows count stride nulls :
  (∀ r, rows = Some r → rows_fit name r count stride nulls) → 0 ≤ count →
  stays (api_inv drv R o) (SqlRDBWriteMany drv name rows count stride nulls).
Proof.
  intros Hrow Hcount. apply valid_or_spec.
  destruct name as [nm|], rows as [rows|]; try by apply triple_ret.
  destruct ((count =? 0) || (stride =? 0)); [by apply triple_ret|].
  eapply triple_bind; [apply lock_spec|]. intros ?. apply with_schema_spec. intros sch Hf.
  apply with_sql_spec with sch; [by eapply write_query_fits|].
  intros Hq. apply with_stmt_spec; [done|]. intros stmt owned.
  eapply triple_bind; [apply triple_gets|]. intros h. cbn beta.
  apply (triple_pre (in_use_of h stmt owned)); [|by intros s [? ->]].
  assert (∀ r : SqlRDBResult, triple (in_use_of h stmt owned) (release_ret drv stmt owned r) (λ _, api_inv drv R o))
    as Hrel by (intros r; eapply triple_pre; [by apply release_ret_spec|by intros s [? _]]).
  eapply (triple_bind _ _ (λ _, in_use_of h stmt owned)).
  { destruct (tx_depth (h_txn h) =? 0); [|by apply triple_ret].
    apply in_use_conn. intros d. apply begin_law. }
  intros br. destruct (res_ok br); cbn [negb]; [|apply Hrel].
  eapply triple_bind; [apply in_use_of_stays; [apply write_rows_safe|apply silent_write_rows_h]|].
  { intros j Hj. eapply Hrow; [done|done|done|]. lia. }
  intros r. eapply (triple_bind _ _ (λ _, in_use_of h stmt owned)); [|intros ?; apply Hrel].
  destruct (tx_depth (h_txn h) =? 0); [|by apply triple_ret].
  eapply (triple_bind _ _ (λ _, in_use_of h stmt owned)); [|intros ?; by apply triple_ret].
  destruct (res_ok r); apply in_use_conn; intros d; [apply commit_law|apply rollback_law].
Qed.

(** A read of the current row into buffers of the caller. *)
Lemma read_row_db stmt owned sch row nulls :
  row_ok (Z.of_nat (length row)) sch nulls →
  triple (in_use drv R o stmt owned)
    (h_read row nulls (c2sql_internal_tm_read_row drv stmt (Some sch)))
    (λ x s, in_use drv R o stmt owned s ∧ length x.1.2 = length row ∧
            length <$> x.2 = length <$> nulls).
Proof.
  intros Hrow s Hu. pose proof (in_use_not_null _ _ _ _ _ _ Hu) as Hnn.
  pose proof Hu as ([Hcore Hm] & Hin & Ho).
  pose proof (row_ok_bits _ _ _ Hrow) as Hbits. destruct Hrow as ([Hf _] & Hc & _ & _).
  destruct (read_row_safe drv stmt (hs_db s) (length row) (length <$> nulls) sch Hf Hc) with
    (s := MkT row nulls (hs_db s)) as (r & t & E & _ & [Hst' Hcn'] & Hlen & Hnm).
  - intros x Hx. destruct nulls as [m|]; [|done]. injection Hx as <-. by apply Hbits.
  - done.
  - done.
  - unfold h_read. rewrite E. eexists _, _. split; [done|]. split; [|done].
    split_and!; simpl; try done; [|by rewrite Hst']. split; [by apply core_db|done].
Qed.

Lemma where_db stmt owned c i :
  where_values_ok c → stays (in_use drv R o stmt owned) (h_db (bind_where drv stmt c i)).
Proof. intros Hc. apply in_use_db. by apply bind_where_steady. Qed.

(** *** Reading one row *)

(** The declared sizes are the sizes of the members: for a REAL column the
    registry does not check it. *)
Definition sizes_exact (sch : SqlRDBSchema) : Prop :=
  Forall (λ c : SqlRDBColumnDef, col_size c = width c) (sch_cols sch).

Lemma buf_size_loop_spec n cols i k b :
  Forall (fits_in n) cols → Forall (λ c : SqlRDBColumnDef, col_size c = width c) cols →
  n < SIZE_MOD → (i + k)%nat = length cols → 0 ≤ b ≤ n →
  ∃ b', buf_size_loop cols i k b = Some b' ∧ b ≤ b' ≤ n ∧
    Forall (λ c, col_offset c + width c ≤ b') (drop i cols).
Proof.
  intros Hf Hsz Hn. revert i b. induction k as [|k IH]; intros i b Hi Hb; cbn [buf_size_loop].
  - exists b. rewrite drop_ge by lia. split_and!; [done|lia|lia|constructor].
  - destruct (lookup_lt_is_Some_2 cols i ltac:(lia)) as [c Hc]. rewrite Hc, (drop_S _ _ _ Hc).
    pose proof Hf as Hfc. eapply Forall_lookup_1 in Hfc as (? & ? & ? & ? & _); [|done].
    pose proof Hsz as Hsc. eapply Forall_lookup_1 in Hsc; [|done].
    cbn [mbind option_bind]. rewrite size_t_small by lia.
    set (e := if b <? _ then _ else _).
    assert (b ≤ e ≤ n ∧ col_offset c + width c ≤ e) as He.
    { unfold e. destruct (Z.ltb_spec b (col_offset c + col_size c)); lia. }
    destruct (IH (S i) e) as (b' & -> & ? & ?); [lia|lia|]. exists b'.
    split_and!; [done|lia|lia|]. constructor; [lia|done].
Qed.

Lemma or_loop_spec out tmp i k :
  (i + k ≤ length out)%nat → (i + k ≤ length tmp)%nat →
  ∃ out', or_loop out tmp i k = Some out' ∧ length out' = length out.
Proof.
  revert out i. induction k as [|k IH]; intros out i Ho Ht; cbn [or_loop]; [by eexists|].
  destruct (lookup_lt_is_Some_2 out i ltac:(lia)) as [a Ha].
  destruct (lookup_lt_is_Some_2 tmp i ltac:(lia)) as [b Hb]. rewrite Ha, Hb. cbn [mbind option_bind].
  destruct (IH (<[i:=byte.of_Z (Z.lor (byte.unsigned a) (byte.unsigned b))]> out) (S i)) as (out' & -> & Hl).
  - rewrite length_insert. lia.
  - lia.
  - exists out'. by rewrite Hl, length_insert.
Qed.

(** The temporary buffers are big enough. *)
Lemma tmp_row_ok n b sch (nulls : option (list byte)) :
  row_ok n sch nulls → sch_col_count sch ≠ 0 →
  Forall (λ c, col_offset c + width c ≤ b) (sch_cols sch) →
  row_ok (Z.max b 1) sch
    ((λ _ : list byte, replicate (Z.to_nat (SQL_RDB_NULL_BITMAP_BYTES (sch_col_count sch))) (byte.of_Z 0)) <$> nulls).
Proof.
  intros ([Hf Hd] & Hc & Hl & _) Hne Hb. split_and!; [|done|done|].
  - split; [|done]. apply Forall_lookup_2. intros i c Hi.
    eapply Forall_lookup_1 in Hf as (? & ? & ? & ? & ?); [|done].
    eapply Forall_lookup_1 in Hb; [|done]. cbn beta in Hb. unfold fits_in. split_and!; try done; lia.
  - intros m Hm. destruct nulls; [|done]. injection Hm as <-. rewrite length_replicate. lia.
Qed.

Lemma bitmap_pos c : 0 < c → 0 < SQL_RDB_NULL_BITMAP_BYTES c.
Proof.
  intros. unfold SQL_RDB_NULL_BITMAP_BYTES. pose proof (Z.div_le_lower_bound (c + 7) 8 1). lia.
Qed.

Lemma read_single_safe stmt owned sch row nulls :
  schema_ok sch → row_ok (Z.of_nat (length row)) sch nulls → sizes_exact sch →
  Z.of_nat (length row) < SIZE_MOD →
  triple (in_use drv R o stmt owned) (read_single drv stmt owned sch row nulls) (λ _, api_inv drv R o).
Proof.
  intros (_ & Hcnt & Hrange & _) Hrow Hsz Hlen. pose proof Hrow as ([Hf _] & _ & _ & Hbm).
  destruct (buf_size_loop_spec _ (sch_cols sch) 0 (Z.to_nat (sch_col_count sch)) 0 Hf Hsz Hlen)
    as (b & Hb & Hbr & Hends); [lia|lia|]. rewrite drop_0 in Hends.
  pose proof (bitmap_pos (sch_col_count sch) ltac:(lia)) as Hbp.
  unfold read_single. eapply triple_bind; [by apply triple_def|]. intros x. apply triple_pure. intros ->.
  eapply triple_bind; [apply in_use_malloc|]. intros ok.
  destruct ok; cbn [negb]; [|by apply release_ret_spec].
  set (nm := SQL_RDB_NULL_BITMAP_BYTES (sch_col_count sch)) in *.
  rewrite (proj2 (Z.eqb_neq nm 0)) by lia.
  set (zeros := replicate (Z.to_nat nm) (byte.of_Z 0)).
  set (trow := replicate (Z.to_nat (if b =? 0 then 1 else b)) (byte.of_Z 0)).
  assert (Z.of_nat (length trow) = Z.max b 1) as Hltrow.
  { unfold trow. rewrite length_replicate. destruct (Z.eqb_spec b 0); lia. }
  pose proof (tmp_row_ok _ b sch nulls Hrow ltac:(lia) Hends) as Htmp. fold nm zeros in Htmp.
  eapply (triple_bind _ _ (λ t s, in_use drv R o stmt owned s ∧ (t = None ∨ t = (λ _, zeros) <$> nulls))).
  { destruct nulls as [m|]; [|apply triple_ret; by auto].
    eapply triple_bind; [apply in_use_malloc|]. intros ok. apply triple_ret. intros s Hs.
    split; [done|]. destruct ok; by auto. }
  intros tnull. apply triple_pure. intros Htn.
  assert (row_ok (Z.of_nat (length trow)) sch tnull) as Hread.
  { rewrite Hltrow. destruct Htn as [->| ->]; [|done]. destruct Htmp as (? & ? & ? & _). by split_and!. }
  eapply triple_bind; [apply read_row_db, Hread|]. intros [[rc trow'] tnull']. simpl.
  apply triple_pure. intros [Hl1 Hl2].
  destruct (negb (res_ok rc) && negb (bool_decide (rc = SQL_RDB_WARN_TRUNCATED))); [by apply release_ret_spec|].
  eapply triple_bind; [by apply in_use_step|]. intros [r has2].
  eapply triple_bind; [by apply release_spec|]. intros ?.
  destruct (negb (res_ok r) || has2); [apply unlock_ret_spec|].
  assert (length (take (Z.to_nat b) trow') = Z.to_nat b) as Htk by (rewrite length_take; lia).
  eapply triple_bind; [apply triple_def, write_at_slice; lia|]. intros y. apply triple_pure. intros ->.
  eapply (triple_bind _ _ (λ _, locked drv R o)); [|intros ?; apply unlock_ret_spec].
  destruct nulls as [m|], tnull' as [t|]; try by apply triple_ret.
  destruct (or_loop_spec m t 0 (Z.to_nat nm)) as (out & Hor & _).
  - specialize (Hbm m eq_refl). fold nm in Hbm. lia.
  - destruct Htn as [->| ->]; [done|]. simpl in Hl2. injection Hl2 as ->. unfold zeros.
    rewrite length_replicate. lia.
  - eapply triple_bind; [by apply triple_def|]. intros z. apply triple_pure. intros ->. by apply triple_ret.
Qed.

Lemma select_fits op nm sch c target :
  found R nm sch → cond_fits c →
  op = C2SQL_QB_SELECT ∨ op = C2SQL_QB_COUNT ∨ op = C2SQL_QB_DELETE →
  spec_fits (query drv op sch c target) sch.
Proof. intros (Hs & _) [Hc _] Hop. apply query_fits; try done; naive_solver. Qed.

Lemma SqlRDBRead_safe name c row nulls opts :
  cond_fits c →
  (∀ r, row = Some r → row_fits name (Z.of_nat (length r)) nulls ∧ Z.of_nat (length r) < SIZE_MOD) →
  (∀ nm sch, name = Some nm → found R nm sch → sizes_exact sch) →
  stays (api_inv drv R o) (SqlRDBRead drv name c row nulls opts).
Proof.
  intros Hc Hrow Hsz. apply valid_or_spec. destruct name as [nm|], row as [row|]; try by apply triple_ret.
  destruct (Hrow row eq_refl) as [Hfit Hlen].
  eapply triple_bind; [apply lock_spec|]. intros ?. apply with_schema_spec. intros sch Hf.
  eapply triple_bind; [apply triple_gets|]. intros h. cbn beta.
  apply (triple_pre (locked drv R o)); [|by intros s [? _]].
  apply with_sql_spec with sch; [eapply select_fits; naive_solver|].
  intros Hq. apply with_stmt_spec; [done|]. intros stmt owned.
  eapply triple_bind; [apply where_db, Hc|]. intros r.
  destruct (res_ok r); cbn [negb]; [|by apply release_ret_spec].
  eapply triple_bind; [by apply in_use_step|]. intros [r1 b].
  destruct (res_ok r1); cbn [negb]; [|by apply release_ret_spec].
  destruct b; cbn [negb]; [|by apply release_ret_spec].
  destruct (_ || _).
  - eapply triple_bind; [apply read_row_db; by eapply Hfit|]. intros x.
    apply (triple_pre (in_use drv R o stmt owned)); [by apply release_ret_spec|by intros s [? _]].
  - apply read_single_safe; [by destruct Hf|by eapply Hfit|by eapply Hsz|done].
Qed.

(** *** Deleting and counting *)

Lemma SqlRDBDelete_safe name c out_deleted :
  cond_fits c → stays (api_inv drv R o) (SqlRDBDelete drv name c out_deleted).
Proof.
  intros Hc. apply valid_or_spec. destruct name as [nm|], c as [c|]; try by apply triple_ret.
  eapply triple_bind; [apply lock_spec|]. intros ?. apply with_schema_spec. intros sch Hf.
  apply with_sql_spec with sch; [eapply select_fits; naive_solver|].
  intros Hq. apply with_stmt_spec; [done|]. intros stmt owned.
  eapply triple_bind; [apply where_db, Hc|]. intros r.
  destruct (res_ok r); cbn [negb]; [|by apply release_ret_spec].
  eapply triple_bind; [by apply in_use_step|]. intros [r1 b].
  eapply triple_bind; [by apply release_spec|]. intros ?.
  destruct (res_ok r1 && out_deleted); [|apply unlock_ret_spec].
  apply (on_conn_spec drv R o (drv_changes drv)); [apply changes_law|]. intros n. apply unlock_ret_spec.
Qed.

Lemma SqlRDBCount_safe name c :
  cond_fits c → stays (api_inv drv R o) (SqlRDBCount drv name c).
Proof.
  intros Hc. apply valid_or_spec. destruct name as [nm|]; try by apply triple_ret.
  eapply triple_bind; [apply lock_spec|]. intros ?. apply with_schema_spec. intros sch Hf.
  apply with_sql_spec with sch; [eapply select_fits; naive_solver|].
  intros Hq. apply with_stmt_spec; [done|]. intros stmt owned.
  eapply triple_bind; [apply where_db, Hc|]. intros r.
  destruct (res_ok r); cbn [negb]; [|by apply release_ret_spec].
  eapply triple_bind; [by apply in_use_step|]. intros [r1 b].
  destruct (res_ok r1 && b); [|by apply release_ret_spec].
  eapply triple_bind; [apply in_use_db; by intros d Hd; apply column_int64_law|]. intros [r2 n].
  by apply release_ret_spec.
Qed.

(** *** Blob fields *)

Lemma find_col_loop_spec cols i k col :
  (i + k)%nat = length cols → (length cols ≤ 64)%nat →
  ∃ x, find_col_loop cols i k col = Some x ∧
    (x < 0 ∨ ∃ c, cols !! Z.to_nat x = Some c ∧ col_name c = col).
Proof.
  intros Hi Hl. revert i Hi. induction k as [|k IH]; intros i Hi; cbn [find_col_loop].
  { eexists; split; [done|]. by left. }
  destruct (lookup_lt_is_Some_2 cols i ltac:(lia)) as [c Hc]. rewrite Hc. cbn [mbind option_bind].
  destruct (decide (col_name c = col)) as [<-|]; [|apply IH; lia].
  eexists; split; [done|]. right. rewrite to_signed_small by lia. rewrite Nat2Z.id. eauto.
Qed.

Lemma with_blob_col_spec {A} what name col (ret : SqlRDBResult → A) k :
  (∀ sch, found R name sch → slen col ≤ 128 →
    triple (locked drv R o) (k sch) (λ _, api_inv drv R o)) →
  triple (locked drv R o) (with_blob_col what name col ret k) (λ _, api_inv drv R o).
Proof.
  intros Hk. apply with_schema_spec. intros sch Hf. pose proof Hf as (Hs & _).
  pose proof (schema_ok_small sch Hs) as (_ & Hnames & Hl & Hcount).
  destruct (find_col_loop_spec (sch_cols sch) 0 (Z.to_nat (sch_col_count sch)) col ltac:(lia) Hl)
    as (x & Hx & Hcase).
  eapply triple_bind; [by apply triple_def|]. intros y. apply triple_pure. intros ->.
  destruct (Z.ltb_spec x 0); [apply unlock_ret_spec|].
  destruct Hcase as [?|(c & Hc & <-)]; [lia|].
  eapply triple_bind; [by apply triple_def|]. intros z. apply triple_pure. intros ->.
  destruct (bool_decide _); cbn [negb].
  - apply Hk; [done|]. unfold col_names in Hnames. rewrite Forall_fmap in Hnames.
    by eapply Forall_lookup_1 in Hnames.
  - eapply triple_bind; [apply err_spec|]. intros ?. apply unlock_ret_spec.
Qed.

Lemma field_fits op nm sch c col :
  found R nm sch → cond_fits c → slen col ≤ 128 →
  op = C2SQL_QB_UPDATE_FIELD ∨ op = C2SQL_QB_SELECT_FIELD →
  spec_fits (query drv op sch c (Some col)) sch.
Proof. intros (Hs & _) [Hc _] Hcol Hop. apply query_fits; try done; naive_solver. Qed.

Lemma h_finalize_ret {A} stmt (a : A) :
  triple (in_use drv R o stmt true) (h_finalize drv stmt;; mret a) (λ _, locked drv R o).
Proof. eapply triple_bind; [by apply in_use_finalize|]. intros ?. by apply triple_ret. Qed.

Lemma count_matching_safe nm sch col c :
  found R nm sch → cond_fits c → slen col ≤ 128 →
  triple (locked drv R o) (count_matching_rows drv sch col c) (λ _, locked drv R o).
Proof.
  intros Hf Hc Hcol. unfold count_matching_rows.
  assert (spec_fits (query drv C2SQL_QB_SELECT_FIELD sch c (Some col)) sch) as Hfit by (eapply field_fits; eauto).
  eapply triple_bind; [by apply build_spec|]. intros [r sql]. simpl.
  apply triple_pure. intros Hsql. destruct (res_ok r); cbn [negb]; [|by apply triple_ret].
  destruct (Hsql eq_refl) as [-> Htxt].
  eapply triple_bind; [by apply triple_def|]. intros x. apply triple_pure. intros ->.
  eapply triple_bind; [apply triple_gets|]. intros ctx. cbn beta.
  eapply triple_bind; [by apply prepare_spec|]. intros [r1 stmt]. simpl.
  destruct (res_ok r1); cbn [negb]; [|by apply triple_ret].
  eapply triple_bind; [apply where_db, Hc|]. intros r2.
  destruct (res_ok r2); cbn [negb]; [|apply h_finalize_ret].
  eapply triple_bind; [by apply in_use_step|]. intros [r3 b].
  destruct (res_ok r3); cbn [negb]; [|apply h_finalize_ret].
  destruct b; [|apply h_finalize_ret].
  eapply triple_bind; [by apply in_use_step|]. intros [r4 b4].
  destruct (res_ok r4); cbn [negb]; apply h_finalize_ret.
Qed.

Lemma SqlRDBWriteBlobField_safe name key col bytes len :
  cond_fits key → 0 ≤ len → arg_ok bytes len →
  stays (api_inv drv R o) (SqlRDBWriteBlobField drv name key col bytes len).
Proof.
  intros Hc H0 Hlen. apply valid_or_spec.
  destruct name as [nm|], key as [key|], col as [col|], bytes as [bytes|]; try by apply triple_ret.
  eapply triple_bind; [apply lock_spec|]. intros ?. apply with_blob_col_spec. intros sch Hf Hcol.
  eapply triple_bind; [by eapply count_matching_safe|]. intros [r matches].
  destruct (res_ok r); cbn [negb]; [|apply unlock_ret_spec].
  destruct (matches =? 0); [apply unlock_ret_spec|]. destruct (2 <=? matches); [apply unlock_ret_spec|].
  apply with_sql_spec with sch; [eapply field_fits; eauto|].
  intros Hq. apply with_stmt_spec; [done|]. intros stmt owned.
  eapply triple_bind; [apply in_use_db; intros d Hd; by apply bind_blob_law|]. intros r1.
  destruct (res_ok r1); cbn [negb]; [|by apply release_ret_spec].
  eapply triple_bind; [apply where_db, Hc|]. intros r2.
  destruct (res_ok r2); cbn [negb]; [|by apply release_ret_spec].
  eapply triple_bind; [by apply in_use_step|]. intros [r3 b].
  eapply triple_bind; [by apply release_spec|]. intros ?.
  eapply (triple_bind _ _ (λ _, locked drv R o)); [|intros ?; apply unlock_ret_spec].
  destruct (res_ok r3); cbn [negb]; [by apply triple_ret|apply err_spec].
Qed.

(** A blob of the current row, with the buffer the driver returned. *)
Lemma column_blob_db stmt :
  triple (in_use drv R o stmt true) (h_db (drv_column_blob drv stmt 0))
    (λ x s, in_use drv R o stmt true s ∧ buffer_ok x.2.1 x.2.2).
Proof.
  intros s Hu. pose proof Hu as (_ & Hin & _).
  destruct (column_blob_law stmt 0 (hs_db s) Hin) as (r & q & n & d' & E & Hs & _ & Hb).
  destruct (in_use_db drv R o stmt true _ (steady_column_blob drv stmt 0) s Hu) as (x & s' & E' & Hu').
  exists x, s'. split; [done|]. split; [done|]. unfold h_db, zoom in E'. rewrite E in E'.
  injection E' as <- _. done.
Qed.

(** A blob column never holds a NULL pointer with a positive length. *)
Definition blob_present : Prop :=
  ∀ stmt d r q n d', drv_column_blob drv stmt 0 d = Some ((r, (q, n)), d') → 0 < n → q ≠ None.

Lemma SqlRDBReadBlobField_safe name key col :
  cond_fits key → blob_present →
  stays (api_inv drv R o) (SqlRDBReadBlobField drv name key col).
Proof.
  intros Hc Hpres. apply valid_or_spec.
  destruct name as [nm|], key as [key|], col as [col|]; try by apply triple_ret.
  eapply triple_bind; [apply lock_spec|]. intros ?. apply with_blob_col_spec. intros sch Hf Hcol.
  apply with_sql_spec with sch; [eapply field_fits; eauto|].
  intros Hsql. apply with_prepared_spec; [done|done|]. intros stmt.
  eapply triple_bind; [apply where_db, Hc|]. intros r1.
  destruct (res_ok r1); cbn [negb]; [|by apply finalize_ret_spec].
  eapply triple_bind; [by apply in_use_step|]. intros [r2 b].
  destruct (res_ok r2); cbn [negb]; [|by apply finalize_ret_spec].
  destruct b; cbn [negb]; [|by apply finalize_ret_spec].
  eapply (triple_bind _ _ (λ x s, in_use drv R o stmt true s ∧ (buffer_ok x.2.1 x.2.2 ∧ (0 < x.2.2 → x.2.1 ≠ None)))).
  { intros s Hu. destruct (column_blob_db stmt s Hu) as ([r [q n]] & s' & E & Hu' & Hb).
    exists (r, (q, n)), s'. split; [done|]. split_and!; try done. unfold h_db, zoom in E.
    destruct (drv_column_blob drv stmt 0 (hs_db s)) as [[[r0 [q0 n0]] d0]|] eqn:E0; [|done].
    injection E as <- <- <- _. by eapply Hpres. }
  intros [r3 [q n]]. apply triple_pure. intros [[Hn Hq] Hp]. simpl in *.
  destruct (res_ok r3); cbn [negb]; [|by apply finalize_ret_spec].
  eapply triple_bind; [apply in_use_malloc|]. intros ok.
  destruct ok; cbn [negb]; [|by apply finalize_ret_spec].
  eapply (triple_bind _ _ (λ _, in_use drv R o stmt true)).
  { destruct (Z.ltb_spec 0 n); [|by apply triple_ret].
    destruct q as [bs|]; [|by destruct (Hp ltac:(done))]. specialize (Hq bs eq_refl).
    eapply triple_conseq; [apply triple_def; cbn [mbind option_bind]; apply bytes_at_slice; lia|done|].
    by intros ? ? [? _]. }
  intros copy. eapply triple_bind; [by apply in_use_step|]. intros [r4 b4].
  eapply triple_bind; [by apply in_use_finalize|]. intros ?.
  destruct (res_ok r4); cbn [negb]; [|apply unlock_ret_spec]. destruct b4; apply unlock_ret_spec.
Qed.

(** *** Configuration *)

Lemma cache_rebuild_spec cap :
  0 ≤ cap ≤ 2 ^ 62 →
  stays (locked drv R o) (h_on_cache (c2sql_internal_cache_rebuild cap (Some drv))).
Proof.
  intros Hcap s [(HR & Hreg & Htx & ps & a & Hrep & Hnd & Hst & Hd & Hn & Hcx) Hm].
  assert (cache_inv drv a (hs_db s)) as Hinv by (split; [done|]; intros p Hp; rewrite Hst; set_solver).
  destruct (cache_rebuild_owned drv (h_cache (hs_h s)) (hs_db s) (hs_alloc s) ps a cap Hrep Hinv Hcap)
    as (ok & c' & ps' & d' & n & E & Hr' & [Hnd' Hin'] & Hd' & [Hcn _] & _).
  unfold h_on_cache, zoom. rewrite E. eexists _, _. split; [done|]. split; [|done].
  split_and!; try done. eexists ps', _. split_and!; [exact Hr'|done| | | |by simpl; rewrite Hcn]; simpl in *.
  - rewrite Hd', Hst. apply set_eq. intros p.
    assert (p ∈ held a ↔ p ∈ take (Z.to_nat cap) (held a) ∨ p ∈ drop (Z.to_nat cap) (held a)) as Hel
      by (by rewrite <-elem_of_app, take_drop).
    pose proof Hnd as Hnd2. rewrite <-(take_drop (Z.to_nat cap) (held a)) in Hnd2.
    apply NoDup_app in Hnd2 as (_ & Hdj & _). specialize (Hdj p). specialize (Hd p).
    rewrite elem_of_list_to_set in Hd.
    rewrite elem_of_difference, !elem_of_union, !elem_of_list_to_set.
    unfold abs_rebuild, held in *; destruct ok; simpl; rewrite fmap_drop, fmap_take, elem_of_reverse;
      rewrite Hel in *; tauto.
  - intros p Hp. apply (Hd p). apply elem_of_list_to_set in Hp.
    apply elem_of_list_to_set. unfold abs_rebuild, held in *.
    rewrite <-(take_drop (Z.to_nat cap) (a_entries a).*2), elem_of_app. left.
    destruct ok; simpl in Hp; by rewrite fmap_take in Hp.
  - rewrite Hd'. set_solver.
Qed.

Lemma SqlRDBSetConfig_safe cfg :
  (∀ c, cfg = Some c → 0 ≤ cfg_stmt_cache_size c ≤ 2 ^ 62) →
  stays (api_inv drv R o) (SqlRDBSetConfig drv cfg).
Proof.
  intros Hcfg. apply valid_or_spec. destruct cfg as [cfg|]; [|by apply triple_ret].
  eapply triple_bind; [apply lock_spec|]. intros ?.
  eapply triple_bind; [apply triple_gets|]. intros h. cbn beta.
  apply (triple_pre (locked drv R o)); [|by intros s [? _]].
  eapply (triple_bind _ _ (λ _, locked drv R o)).
  { destruct (negb _); [|by apply triple_ret]. apply cache_rebuild_spec. by apply Hcfg. }
  intros r. eapply (triple_bind _ _ (λ _, locked drv R o)); [|intros ?; apply unlock_ret_spec].
  destruct (res_ok r); [|by apply triple_ret].
  eapply (triple_bind _ _ (λ _, locked drv R o)); [intros s Hs; by eexists _, _|]. intros ?.
  destruct (negb _); [intros s Hs; by eexists _, _|by apply triple_ret].
Qed.

Lemma SqlRDBSetLogger_safe fn user : stays (api_inv drv R o) (SqlRDBSetLogger fn user).
Proof.
  apply valid_or_spec. eapply triple_bind; [apply lock_spec|]. intros ?.
  eapply (triple_bind _ _ (λ _, locked drv R o)); [intros s Hs; by eexists _, _|].
  intros ?. apply unlock_ret_spec.
Qed.
End ops.
