(* ===== verification/SqlHandle.v ===== *)
(** * Handles on a database: the helpers of the API on rows

    A logic of partial correctness for the operations on a handle, the state of
    a handle whose cached statements are ready to run on a database that obeys
    [SqlLaws], and what the helpers of Handle.v and Api.v do to it. *)

From Stdlib Require Import Ascii String Strings.Byte.
From coqutil Require Import Byte.
From S2P Require Import Prelude Types Support Driver StmtCache StmtCacheSpec StmtCacheProofs StmtCacheRefine.
From S2P Require Import StmtCacheTheorems Condition QueryBuilder QueryBuilderProofs Registry RegistryProofs.
From S2P Require Import SqlText SqlTextProofs TypeMapping TypeMappingProofs Relational Handle Api ApiProofs ApiSafety.
Import ErrorCtx Logger Mutex.

(** ** Partial correctness

    [hoare P m Q]: every run of [m] from a state with [P] ends in [Q]. *)

Definition hoare {S A} (P : S → Prop) (m : M S A) (Q : A → S → Prop) : Prop :=
  ∀ s a s', P s → m s = Some (a, s') → Q a s'.

Lemma hoare_bind {S A B} (P : S → Prop) (m : M S A) Q (k : A → M S B) R :
  hoare P m Q → (∀ a, hoare (Q a) (k a) R) → hoare P (m ≫= k) R.
Proof. intros Hm Hk s b s' Hs (a & s1 & E & E')%bind_Some. eapply Hk; [|exact E']. by eapply Hm. Qed.

Lemma hoare_ret {S A} (P : S → Prop) (a : A) (Q : A → S → Prop) :
  (∀ s, P s → Q a s) → hoare P (mret a) Q.
Proof. intros H s b s' Hs [= <- <-]. by apply H. Qed.

Lemma hoare_conseq {S A} (P P' : S → Prop) (m : M S A) (Q Q' : A → S → Prop) :
  hoare P m Q → (∀ s, P' s → P s) → (∀ a s, Q a s → Q' a s) → hoare P' m Q'.
Proof. intros H HP HQ s a s' Hs E. eapply HQ, H; [|done]. by apply HP. Qed.

Lemma hoare_pre {S A} (P P' : S → Prop) (m : M S A) (Q : A → S → Prop) :
  hoare P m Q → (∀ s, P' s → P s) → hoare P' m Q.
Proof. intros H HP. by eapply hoare_conseq. Qed.

Lemma hoare_post {S A} (P : S → Prop) (m : M S A) (Q Q' : A → S → Prop) :
  hoare P m Q → (∀ a s, Q a s → Q' a s) → hoare P m Q'.
Proof. intros H HQ. by eapply hoare_conseq. Qed.

Lemma hoare_gets {S A} (P : S → Prop) (f : S → A) : hoare P (mgets f) (λ a s, P s ∧ a = f s).
Proof. by intros s a s' Hs [= <- <-]. Qed.

Lemma hoare_def {S A} (P : S → Prop) (o : option A) : hoare P (mdef o) (λ a s, P s ∧ o = Some a).
Proof. intros s a s' Hs E. unfold mdef in E. destruct o; [|done]. by injection E as <- <-. Qed.

Lemma hoare_pure {S A} (P : S → Prop) (φ : Prop) (m : M S A) Q :
  (φ → hoare P m Q) → hoare (λ s, P s ∧ φ) m Q.
Proof. intros H s a s' [Hs Hφ] E. by eapply H. Qed.

Lemma hoare_pure' {S A} (P : S → Prop) (φ : Prop) (m : M S A) Q :
  (φ → hoare P m Q) → hoare (λ s, φ ∧ P s) m Q.
Proof. intros H s a s' [Hφ Hs] E. by eapply H. Qed.

Lemma hoare_exists {S A B} (P : B → S → Prop) (m : M S A) Q :
  (∀ b, hoare (P b) m Q) → hoare (λ s, ∃ b, P b s) m Q.
Proof. intros H s a s' [b Hs] E. by eapply H. Qed.

(** A computation on a part that the condition does not see. *)
Lemma hoare_zoom {S T A} (P : S → Prop) get set (m : M T A) :
  (∀ t s, P s → P (set t s)) → hoare P (zoom get set m) (λ _, P).
Proof. intros H s a s' Hs (t & _ & ->)%zoom_Some. by apply H. Qed.

(** A run that is known to be defined satisfies what every run does. *)
Lemma triple_hoare {S A} (P P' : S → Prop) (m : M S A) Q Q' :
  triple P m Q → hoare P' m Q' → triple (λ s, P s ∧ P' s) m (λ a s, Q a s ∧ Q' a s).
Proof. intros Ht Hh s [Hs Hs']. destruct (Ht s Hs) as (a & s' & E & Hq). exists a, s'. eauto. Qed.

(** [stays]: the condition is kept. *)
Definition keeping {S A} (P : S → Prop) (m : M S A) : Prop := hoare P m (λ _, P).

(** ** Handles on a database *)

(** What the statements do not change: the registry, the configuration, the
    depth of the transaction; with [st_plenty] of memory no allocation fails. *)
Record Setting : Type := MkSetting {
  st_registry : SqlRDBSchemaRegistry;
  st_config : SqlRDBConfig;
  st_txn : SqlRDBTxnState;
  st_plenty : Prop;
}.

Section handle.
Context {D : Type} (drv : SqlRDBDriver D) `{!DriverLaws drv} (ctx : ptr) `{!SqlLaws drv ctx}.
Context (V : Setting).

Definition based (s : HState D) : Prop :=
  h_driver_ctx (hs_h s) = ctx ∧
  h_registry (hs_h s) = st_registry V ∧ NoDup (reg_names (st_registry V)) ∧
  h_config (hs_h s) = st_config V ∧ h_txn (hs_h s) = st_txn V ∧ (st_plenty V → no_oom (hs_alloc s)).

(** The cached statements are ready to run, except for [stmt] if it is in use. *)
Definition ready (stmt : ptr) (l : list (string * ptr)) (m : gmap ptr Cursor) : Prop :=
  ∀ sql p, (sql, p) ∈ l → p ≠ NULL ∧
    ∃ cu, m !! p = Some cu ∧ cu_sql cu = sql ∧ (p ≠ stmt → cu_rows cu = None).

Definition cache_ready (stmt : ptr) (owned : bool) (s : HState D) : Prop :=
  ∃ ps a, rep (h_cache (hs_h s)) ps a ∧ NoDup (held a) ∧ ready stmt (a_entries a) (cursors (hs_db s)) ∧
    (owned = true → stmt ∉ held a).

(** [T] speaks of a database and of a number of changed rows; of the database
    alone: *)
Definition any (T : Db → Z → Prop) : Db → Z → Prop := λ b _, ∃ n, T b n.

(** Between two statements, with the number of rows the last write changed. *)
Definition noted (T : Db → Z → Prop) (s : HState D) : Prop :=
  based s ∧ cache_ready NULL false s ∧ T (the_db (hs_db s)) (changed (hs_db s)).

(** Between two statements; the number is not told, since a query may change it. *)
Definition tidy (T : Db → Z → Prop) : HState D → Prop := noted (any T).

(** While [stmt] is in use: [C] speaks of it also. *)
Definition borrowed (stmt : ptr) (owned : bool) (C : Cursor → Db → Z → Prop) (s : HState D) : Prop :=
  based s ∧ cache_ready stmt owned s ∧ stmt ≠ NULL ∧
  ∃ cu, cursors (hs_db s) !! stmt = Some cu ∧ C cu (the_db (hs_db s)) (changed (hs_db s)).

(** What is left of [T] by a statement that failed. *)
Definition hurting (T : Db → Z → Prop) : Db → Z → Prop := λ b n, ∃ b0 n0, T b0 n0 ∧ hurt sql_drops b0 b.

Lemma hurting_intro T b n : any T b n → hurting T b n.
Proof. intros [n0 H]. exists b, n0. split; [done|by left]. Qed.

Lemma hurting_after T b0 n0 b n : any T b0 n0 → hurt sql_drops b0 b → hurting T b n.
Proof. intros [m H] Hh. by exists b0, m. Qed.

Lemma any_intro (T : Db → Z → Prop) b n : T b n → any T b n.
Proof. intros H. by exists n. Qed.

Lemma any_mono (T T' : Db → Z → Prop) b n : (∀ b n, T b n → T' b n) → any T b n → any T' b n.
Proof. intros H [m Hm]. exists m. by apply H. Qed.

Lemma any_twice (T : Db → Z → Prop) b n : any (any T) b n → any T b n.
Proof. by intros [m H]. Qed.

Lemma any_hurting T b n : any (hurting T) b n → hurting T b n.
Proof. by intros [m H]. Qed.

Lemma tidy_mono T T' s : (∀ b n, T b n → T' b n) → tidy T s → tidy T' s.
Proof. intros H (Hb & Hc & HT). split; [done|]. split; [done|]. by apply (any_mono T). Qed.

Lemma noted_tidy T s : noted T s → tidy T s.
Proof. intros (Hb & Hc & HT). split; [done|]. split; [done|]. by apply any_intro. Qed.

Lemma borrowed_mono stmt owned (C C' : Cursor → Db → Z → Prop) s :
  (∀ cu b n, C cu b n → C' cu b n) → borrowed stmt owned C s → borrowed stmt owned C' s.
Proof. intros H (Hb & Hc & Hn & cu & Hcu & HC). split_and!; try done. exists cu. auto. Qed.

(** Parts of the state that neither sees. *)
Lemma tidy_sees T (s s' : HState D) :
  hs_db s' = hs_db s → hs_alloc s' = hs_alloc s → h_driver_ctx (hs_h s') = h_driver_ctx (hs_h s) →
  h_registry (hs_h s') = h_registry (hs_h s) → h_config (hs_h s') = h_config (hs_h s) →
  h_txn (hs_h s') = h_txn (hs_h s) → h_cache (hs_h s') = h_cache (hs_h s) →
  tidy T s → tidy T s'.
Proof. unfold tidy, noted, based, cache_ready. by intros -> -> -> -> -> -> ->. Qed.

Lemma borrowed_sees stmt owned C (s s' : HState D) :
  hs_db s' = hs_db s → hs_alloc s' = hs_alloc s → h_driver_ctx (hs_h s') = h_driver_ctx (hs_h s) →
  h_registry (hs_h s') = h_registry (hs_h s) → h_config (hs_h s') = h_config (hs_h s) →
  h_txn (hs_h s') = h_txn (hs_h s) → h_cache (hs_h s') = h_cache (hs_h s) →
  borrowed stmt owned C s → borrowed stmt owned C s'.
Proof. unfold borrowed, based, cache_ready. by intros -> -> -> -> -> -> ->. Qed.

Lemma lock_tidy T : keeping (tidy T) (h_lock (D := D)).
Proof. apply hoare_zoom. intros m s. by apply tidy_sees. Qed.

Lemma unlock_tidy T : keeping (tidy T) (h_unlock (D := D)).
Proof. apply hoare_zoom. intros m s. by apply tidy_sees. Qed.

Lemma lock_borrowed stmt owned C : keeping (borrowed stmt owned C) (h_lock (D := D)).
Proof. apply hoare_zoom. intros m s. by apply borrowed_sees. Qed.

Lemma unlock_borrowed stmt owned C : keeping (borrowed stmt owned C) (h_unlock (D := D)).
Proof. apply hoare_zoom. intros m s. by apply borrowed_sees. Qed.

(** An allocation. *)
Lemma malloc_borrowed stmt owned C :
  hoare (borrowed stmt owned C) (h_alloc (D := D) malloc) (λ ok s, borrowed stmt owned C s ∧ (st_plenty V → ok = true)).
Proof.
  intros s ok s' (Hb & Hc & Hn & Hcu) (al & E & ->)%zoom_Some. injection E as E.
  destruct Hb as (Hb1 & Hb2 & Hb3 & Hb4 & Hb5 & Hal).
  assert (st_plenty V → ok = true ∧ no_oom al) as H.
  { intros Hp. destruct (malloc_no_oom _ (Hal Hp)) as (al' & E' & Hal'). injection E' as E'.
    rewrite E' in E. by simplify_eq. }
  split; [|by intros Hp; apply H]. split; [|done]. split_and!; try done. intros Hp. by apply H.
Qed.

Lemma err_tidy T code msg : keeping (tidy T) (h_err (D := D) code msg).
Proof. intros s a s' Hs [= _ <-]. by apply (tidy_sees T s). Qed.

Lemma unlock_ret_tidy {A} T (a : A) (Q : A → HState D → Prop) :
  (∀ s, tidy T s → Q a s) → hoare (tidy T) (unlock_ret a) Q.
Proof. intros HQ. eapply hoare_bind; [apply unlock_tidy|]. intros ?. by apply hoare_ret. Qed.

Lemma unlock_ret_borrowed {A} stmt owned C (a : A) (Q : A → HState D → Prop) :
  (∀ s, borrowed stmt owned C s → Q a s) → hoare (borrowed stmt owned C) (unlock_ret a) Q.
Proof. intros HQ. eapply hoare_bind; [apply unlock_borrowed|]. intros ?. by apply hoare_ret. Qed.

(** ** A driver call on the statement in use *)

Lemma ready_moved stmt l (m m' : gmap ptr Cursor) cu cu' :
  m !! stmt = Some cu → cu_sql cu' = cu_sql cu → moved_one true stmt cu' m m' →
  ready stmt l m → ready stmt l m'.
Proof.
  intros Hm Hsql [Hs Ho] Hr sql p Hp. destruct (Hr sql p Hp) as (Hn & c & Hc & Hsqlc & Hrun). split; [done|].
  destruct (decide (p = stmt)) as [->|Hne].
  - simplify_eq. exists cu'. by rewrite Hsql.
  - destruct (Ho p c Hne Hc) as (rows & Hp' & Hnone). eexists. split; [done|]. split; [done|].
    intros _. by apply Hnone, Hrun.
Qed.

Lemma borrowed_db {A} stmt owned C (m : M D A) (Q : A → Cursor → Db → Z → Prop) :
  (∀ d cu a d', cursors d !! stmt = Some cu → C cu (the_db d) (changed d) → m d = Some (a, d') →
    ∃ cu', Q a cu' (the_db d') (changed d') ∧ cu_sql cu' = cu_sql cu ∧
      moved_one true stmt cu' (cursors d) (cursors d')) →
  hoare (borrowed stmt owned C) (h_db m) (λ a, borrowed stmt owned (Q a)).
Proof.
  intros H s a s' (Hb & (ps & ab & Hrep & Hnd & Hr & Ho) & Hn & cu & Hcu & HC) (d' & E & ->)%zoom_Some.
  destruct (H _ _ _ _ Hcu HC E) as (cu' & HQ & Hsql & Hmv).
  split_and!; [done| |done|].
  - exists ps, ab. split_and!; try done. by eapply ready_moved.
  - exists cu'. split; [by destruct Hmv|done].
Qed.

Lemma moved_insert w p cu (m : gmap ptr Cursor) : moved_one w p cu m (<[p := cu]> m).
Proof.
  split; [apply lookup_insert_eq|]. intros q [sql args rows] Hq Hm. rewrite lookup_insert_ne by done.
  destruct w; [by exists rows|done].
Qed.

Lemma moved_weaken w p cu m m' : moved_one w p cu m m' → moved_one true p cu m m'.
Proof.
  intros [Hp Ho]. split; [done|]. intros q [sql args rows] Hq Hm. specialize (Ho q _ Hq Hm).
  destruct w; [done|]. by exists rows.
Qed.

(** A bind. *)
Lemma borrowed_bind stmt owned sql C (m : M D SqlRDBResult) i c :
  binds sql_view m stmt i c →
  hoare (borrowed stmt owned (λ cu b n, C (cu_args cu) b n ∧ cu_sql cu = sql ∧ cu_rows cu = None)) (h_db m)
    (λ r, borrowed stmt owned (λ cu b n,
      ∃ args, C args b n ∧ cu_sql cu = sql ∧ cu_rows cu = None ∧ plain_code r = true ∧
        (r = SQL_RDB_OK → cu_args cu = <[i := c]> args))).
Proof.
  intros Hb. apply borrowed_db. intros d [sql' args rows] r d' Hcu (HC & Hsql & Hrows) E. simpl in *. subst.
  destruct (Hb d r d' _ _ Hcu E) as (Hr & [Hdb Hch] & args' & Hd' & Hargs).
  exists (MkCursor sql args' None). split_and!; [|done|].
  - exists args. rewrite Hdb, Hch. by split_and!.
  - rewrite Hd'. apply moved_insert.
Qed.

(** ** Giving the statement back *)

Lemma ready_null stmt l m : ready stmt l m → (stmt ∉ l.*2) → ready NULL l m.
Proof.
  intros Hr Hni sql p Hp. destruct (Hr sql p Hp) as (Hn & cu & Hcu & Hsql & Hrun). split; [done|].
  exists cu. split_and!; try done. intros _. apply Hrun. intros ->. apply Hni.
  apply list_elem_of_fmap. by exists (sql, stmt).
Qed.

Lemma release_noted stmt owned C T :
  (∀ cu b n, C cu b n → T b n) →
  hoare (borrowed stmt owned C) (release_cached_stmt drv stmt owned) (λ _, noted T).
Proof.
  intros HT. unfold release_cached_stmt. destruct owned.
  - eapply (hoare_bind _ _ (λ _, noted T)); [|intros ?; by apply hoare_ret].
    intros s a s' (Hb & (ps & ab & Hrep & Hnd & Hr & Ho) & Hn & cu & Hcu & HC) (d' & E & ->)%zoom_Some.
    destruct (finalize_means _ _ _ _ E) as [[Hdb Hch] Hcs]. specialize (Ho eq_refl).
    split_and!; [done| |simpl; rewrite Hdb, Hch; by eapply HT].
    exists ps, ab. split_and!; try done. apply (ready_null stmt) in Hr; [|done]. simpl. rewrite Hcs.
    intros sql p Hp. destruct (Hr sql p Hp) as (Hpn & c & Hc & Hsql & Hrun). split; [done|]. exists c.
    split_and!; try done. rewrite lookup_delete_ne; [done|]. intros ->. apply Ho, list_elem_of_fmap.
    by exists (sql, p).
  - eapply (hoare_bind _ _ (λ _, noted T)); [|intros ?; by apply hoare_ret].
    intros s a s' (Hb & (ps & ab & Hrep & Hnd & Hr & Ho) & Hn & cu & Hcu & HC) (d' & E & ->)%zoom_Some.
    destruct (reset_means _ _ _ _ _ Hcu E) as [[Hdb Hch] (args & Hcs)].
    split_and!; [done| |simpl; rewrite Hdb, Hch; by eapply HT].
    exists ps, ab. split_and!; try done. simpl. rewrite Hcs. intros sql p Hp.
    destruct (Hr sql p Hp) as (Hpn & c & Hc & Hsql & Hrun). split; [done|].
    destruct (decide (p = stmt)) as [->|Hne].
    + simplify_eq. rewrite lookup_insert_eq. by eexists.
    + rewrite lookup_insert_ne by done. exists c. split_and!; try done. intros _. by apply Hrun.
Qed.

Lemma release_tidy stmt owned C T :
  (∀ cu b n, C cu b n → any T b n) →
  hoare (borrowed stmt owned C) (release_cached_stmt drv stmt owned) (λ _, tidy T).
Proof. apply release_noted. Qed.

Lemma release_ret_tidy {A} stmt owned C T (a : A) (Q : A → HState D → Prop) :
  (∀ cu b n, C cu b n → any T b n) → (∀ s, tidy T s → Q a s) →
  hoare (borrowed stmt owned C) (release_ret drv stmt owned a) Q.
Proof.
  intros HT HQ. eapply hoare_bind; [by apply release_tidy|]. intros ?. by apply unlock_ret_tidy.
Qed.

Lemma finalize_tidy stmt C T :
  (∀ cu b n, C cu b n → any T b n) → hoare (borrowed stmt true C) (h_finalize drv stmt) (λ _, tidy T).
Proof. intros HT. by apply (release_tidy stmt true C T). Qed.

Lemma finalize_ret_tidy {A} stmt C T (a : A) (Q : A → HState D → Prop) :
  (∀ cu b n, C cu b n → any T b n) → (∀ s, tidy T s → Q a s) →
  hoare (borrowed stmt true C) (finalize_ret drv stmt a) Q.
Proof.
  intros HT HQ. eapply hoare_bind; [by apply finalize_tidy|]. intros ?. by apply unlock_ret_tidy.
Qed.

(** ** Statements through the cache *)

Lemma fin_all_cursors l d d' :
  fin_all (Some drv) l d = Some (tt, d') →
  idle sql_view d d' ∧ ∀ q, q ∉ l → cursors d' !! q = cursors d !! q.
Proof.
  revert d. induction l as [|p l IH]; intros d E; [by injection E as <-|].
  apply bind_Some in E as (u & d1 & (r & d2 & E1 & E2)%bind_Some & E). injection E2 as _ <-.
  destruct (finalize_means _ _ _ _ E1) as [[Hdb Hch] Hcs]. destruct (IH _ E) as [[Hdb' Hch'] Hcs'].
  split; [split; congruence|]. intros q [Hne Hq]%not_elem_of_cons. rewrite Hcs' by done.
  by rewrite Hcs, lookup_delete_ne.
Qed.

Lemma ready_inv stmt a d : NoDup (held a) → ready stmt (a_entries a) (cursors d) → cache_inv drv a d.
Proof.
  intros Hnd Hr. split; [done|]. intros p ([sql q] & -> & Hin)%list_elem_of_fmap.
  destruct (Hr _ _ Hin) as (_ & cu & Hcu & _). by eapply cursors_open.
Qed.

Lemma a_lookup_in sql a p : a_lookup sql (a_entries a) = Some p → (sql, p) ∈ a_entries a.
Proof. intros (l1 & l2 & -> & _)%a_lookup_split. set_solver. Qed.

Lemma a_remove_in x sql l : x ∈ a_remove sql l → x ∈ l.
Proof. unfold a_remove. rewrite list_elem_of_filter. tauto. Qed.

Lemma abs_get_entries sql a x : x ∈ a_entries (abs_get sql a).2 → x ∈ a_entries a.
Proof.
  unfold abs_get. destruct (a_lookup sql (a_entries a)) as [p|] eqn:E; [|done]. simpl.
  intros [->|Hx]%elem_of_cons; [by apply a_lookup_in|by eapply a_remove_in].
Qed.

Lemma abs_put_entries sql stmt e s a x :
  x ∈ a_entries (abs_put sql stmt e s a).2 → x = (sql, stmt) ∨ x ∈ a_entries a.
Proof.
  unfold abs_put. destruct (a_capacity a =? 0); [by right|].
  destruct (a_lookup sql (a_entries a)); simpl.
  - intros [->|Hx]%elem_of_cons; [by left|]. right. by eapply a_remove_in.
  - destruct (e && s); simpl.
    + intros [->|Hx]%elem_of_cons; [by left|]. right. by eapply subseteq_take.
    + intros Hx. right. by eapply subseteq_take.
Qed.

Lemma abs_put_code sql stmt e s a : plain_code (abs_put sql stmt e s a).1.1 = true.
Proof.
  unfold abs_put. destruct (a_capacity a =? 0); [done|].
  destruct (a_lookup sql (a_entries a)); [done|]. by destruct e, s.
Qed.

(** What a fetched statement is. *)
Definition fetched T sql : Cursor → Db → Z → Prop := λ cu b n, any T b n ∧ cu_sql cu = sql ∧ cu_rows cu = None.

Lemma cache_get_tidy T sql :
  hoare (tidy T) (h_on_cache (c2sql_internal_cache_get (Some sql)))
    (λ x s, tidy T s ∧ if res_ok x.1 then borrowed x.2 false (fetched T sql) s else True).
Proof.
  intros s x s' (Hb & (ps & a & Hrep & Hnd & Hr & _) & HT) (c & E & ->)%zoom_Some.
  destruct (cache_get_refines (h_cache (hs_h s)) (hs_db s) (hs_alloc s) ps a sql Hrep) as (c' & ps' & E' & Hr').
  rewrite E' in E. injection E as <- <-. pose proof (rep_keys _ _ _ Hrep) as Hk.
  destruct (abs_get_held sql a NULL Hk Hnd) as [Hnd' _].
  assert (ready NULL (a_entries (abs_get sql a).2) (cursors (hs_db s))) as Hr2
    by (intros k p Hp; by apply Hr, (abs_get_entries sql)).
  split.
  - split_and!; try done. exists ps', (abs_get sql a).2. by split_and!.
  - destruct (res_ok _) eqn:Eok; [|done].
    assert (a_lookup sql (a_entries a) = Some (abs_get sql a).1.2) as El.
    { unfold abs_get in Eok |- *. by destruct (a_lookup sql (a_entries a)). }
    destruct (Hr _ _ (a_lookup_in _ _ _ El)) as (Hn & cu & Hcu & Hsql & Hrun).
    split; [done|]. split; [|split; [done|]].
    + exists ps', (abs_get sql a).2. split_and!; try done. intros k p Hp.
      destruct (Hr2 k p Hp) as (Hpn & c & Hc & Hs & Hrun2). split; [done|]. exists c. auto.
    + exists cu. split; [done|]. split_and!; auto.
Qed.

(** The connection of the handle. *)
Lemma noted_ctx {A} T (k : ptr → M (HState D) A) Q :
  hoare (noted T) (k ctx) Q → hoare (noted T) (c ← mgets (λ s, h_driver_ctx (hs_h s)); k c) Q.
Proof.
  intros Hk. eapply hoare_bind; [apply hoare_gets|]. intros c. cbn beta.
  apply (hoare_pre (λ s, noted T s ∧ c = ctx)); [|intros s [Ht ->]; split; [done|]; by destruct Ht as [[? _] _]].
  apply hoare_pure. by intros ->.
Qed.

Lemma gets_ctx {A} T (k : ptr → M (HState D) A) Q :
  hoare (tidy T) (k ctx) Q → hoare (tidy T) (c ← mgets (λ s, h_driver_ctx (hs_h s)); k c) Q.
Proof. apply noted_ctx. Qed.

(** A question to the driver between two statements. *)
Lemma noted_asks {A} T (m : M D A) (φ : A → Z → Prop) :
  (∀ d a d', m d = Some (a, d') → idle sql_view d d' ∧ cursors d' = cursors d ∧ φ a (changed d)) →
  hoare (noted T) (h_db m) (λ a, noted (λ b n, T b n ∧ φ a n)).
Proof.
  intros Hm s a s' (Hb & Hc & HT) (d' & E & ->)%zoom_Some.
  destruct (Hm _ _ _ E) as ([Hdb Hch] & Hcs & Hφ). split; [done|]. split.
  - unfold cache_ready in *. simpl. by rewrite Hcs.
  - simpl. by rewrite Hdb, Hch.
Qed.

Lemma prepare_tidy T sql :
  hoare (tidy T) (h_db (drv_prepare drv ctx sql))
    (λ x s, if res_ok x.1 then borrowed x.2 true (fetched T sql) s
            else tidy (hurting T) s ∧ plain_code x.1 = true).
Proof.
  intros s [r p] s' (Hb & (ps & a & Hrep & Hnd & Hr & _) & HT) (d' & E & ->)%zoom_Some. simpl.
  destruct (prepare_means _ _ _ _ _ E) as (Hcode & Hch & H). destruct (res_ok r).
  - destruct H as (Hn & Hdb & Hnone & Hcs). split_and!; [done| |done|].
    + exists ps, a. split_and!; try done.
      * simpl. rewrite Hcs. intros k q Hq. destruct (Hr k q Hq) as (Hqn & cu & Hcu & Hs & Hrun).
        split; [done|]. exists cu. rewrite lookup_insert_ne by (by intros ->; rewrite Hnone in Hcu). auto.
      * intros _ ([k q] & -> & Hq)%list_elem_of_fmap. destruct (Hr k q Hq) as (_ & cu & Hcu & _).
        simpl in Hnone. by rewrite Hnone in Hcu.
    + eexists. simpl. rewrite Hcs, lookup_insert_eq. split; [done|]. rewrite Hdb, Hch. done.
  - destruct H as [Hh Hcs]. split; [|done]. split_and!; [done| |].
    + exists ps, a. split_and!; try done. simpl. by rewrite Hcs.
    + by eapply any_intro, hurting_after.
Qed.

Lemma cache_put_tidy T sql stmt :
  hoare (borrowed stmt true (fetched T sql)) (h_on_cache (c2sql_internal_cache_put (Some sql) stmt (Some drv)))
    (λ r s, tidy T s ∧ plain_code r = true).
Proof.
  intros s r s' (Hb & (ps & a & Hrep & Hnd & Hr & Ho) & Hn & cu & Hcu & HT & Hsql & Hrun) (c & E & ->)%zoom_Some.
  specialize (Ho eq_refl). pose proof (ready_inv _ _ _ Hnd Hr) as Hinv.
  pose proof (cursors_open _ _ _ Hcu) as Hopen. pose proof (rep_keys _ _ _ Hrep) as Hk.
  set (e := (malloc_ok (hs_alloc s)).1). set (e2 := (malloc_ok (malloc_ok (hs_alloc s)).2).1).
  destruct (abs_put_ownership drv sql stmt e e2 a (hs_db s) Hk Hinv Hopen Ho) as [Hnd' Hel].
  set (out := abs_put sql stmt e e2 a) in *.
  destruct (fin_all_laws drv out.1.2 (hs_db s)) as (d' & Hfin & _).
  { by apply NoDup_app in Hnd' as (? & _). }
  { intros p Hp. destruct (proj1 (Hel p)) as [->|Hp']; [set_solver|done|]. by apply Hinv. }
  assert (∀ n, st_plenty V → no_oom (drop n (hs_alloc s))) as Hal
    by (intros n Hp; destruct Hb as (_ & _ & _ & _ & _ & Hal); by apply Forall_drop, Hal).
  destruct (cache_put_refines (Some drv) (h_cache (hs_h s)) (hs_db s) (hs_alloc s) ps a sql stmt d' Hrep Hfin)
    as (c' & ps' & n & E' & Hr').
  rewrite E' in E. injection E as <- <-. destruct (fin_all_cursors _ _ _ Hfin) as [[Hdb Hch] Hcs].
  apply NoDup_app in Hnd' as (_ & Hdisj & Hnd2). split.
  - destruct Hb as (Hb1 & Hb2 & Hb3 & Hb4 & Hb5 & _). split_and!; [split_and!; try done; apply Hal| |simpl; by rewrite Hdb, Hch].
    exists ps', out.2. split_and!; try done.
    intros k p Hp. simpl. rewrite Hcs.
    2:{ intros Hv. apply (Hdisj _ Hv). apply list_elem_of_fmap. by exists (k, p). }
    destruct (abs_put_entries _ _ _ _ _ _ Hp) as [[= -> ->]|Hin];
      [split; [done|]; exists cu; by split_and!|].
    destruct (Hr k p Hin) as (Hpn & c & Hc & Hs & Hrun2). split; [done|]. exists c. split_and!; try done.
    intros _. apply Hrun2. intros ->. apply Ho, list_elem_of_fmap. by exists (k, stmt).
  - apply abs_put_code.
Qed.

Lemma get_or_prepare_tidy T sql :
  hoare (tidy T) (get_or_prepare drv sql)
    (λ x s, if res_ok x.1.1 then borrowed x.1.2 x.2 (fetched T sql) s
            else tidy (hurting T) s ∧ plain_code x.1.1 = true).
Proof.
  unfold get_or_prepare. eapply hoare_bind; [apply cache_get_tidy|]. intros [r stmt]. simpl.
  destruct (res_ok r); [by apply hoare_ret; intros s [_ H]|].
  apply (hoare_pre (tidy T)); [|by intros s [? _]]. apply gets_ctx. eapply hoare_bind; [apply prepare_tidy|]. intros [r1 p]. simpl.
  destruct (res_ok r1) eqn:Er; cbn [negb]; [|apply hoare_ret; simpl; by rewrite Er].
  eapply hoare_bind; [apply hoare_gets|]. intros cap. cbn beta.
  apply (hoare_pre (borrowed p true (fetched T sql))); [|by intros s [? _]].
  destruct (cap =? 0); [by apply hoare_ret|].
  eapply hoare_bind; [apply cache_put_tidy|]. intros r2. apply hoare_pure. intros Hcode.
  destruct (res_ok r2) eqn:Er2; cbn [negb].
  2:{ apply hoare_ret. simpl. rewrite Er2. intros s Hs. split; [|done]. eapply tidy_mono; [|done]. intros b n Hb. by apply hurting_intro, any_intro. }
  eapply hoare_bind; [apply cache_get_tidy|]. intros [r3 q]. simpl.
  destruct (res_ok r3); cbn [negb]; apply hoare_ret; simpl; [by intros s [_ H]|].
  intros s [Hs _]. split; [|done]. eapply tidy_mono; [|done]. intros b n Hb. by apply hurting_intro, any_intro.
Qed.

End handle.
