(* ===== verification/SqlBlocks.v ===== *)
(** * Statements on a database: binding, stepping, reading

    What the building blocks of the API do to the cursor of a statement: bind a
    row or the values of a condition, run it, read the current row. *)

From Stdlib Require Import Ascii String Strings.Byte.
From coqutil Require Import Byte.
From S2P Require Import Prelude Types Support Driver StmtCache StmtCacheSpec StmtCacheProofs StmtCacheRefine.
From S2P Require Import StmtCacheTheorems Condition QueryBuilder QueryBuilderProofs Registry RegistryProofs.
From S2P Require Import SqlText SqlTextProofs TypeMapping TypeMappingProofs Relational Handle Api ApiProofs ApiSafety.
From S2P Require Import SqlHandle.
Import ErrorCtx Logger Mutex.

(** ** The values of a call *)

(** A list of cells as the arguments 1, 2, ... *)
Definition args_fun (cells : list Cell) : Z → Cell := λ i, default CNull (cells !! Z.to_nat (i - 1)).

Definition value_cell (v : CondValue) : Cell :=
  match v with
  | VInt i => CInt i
  | VReal r => CReal r
  | VText t => CText (take_nul (cstr t))
  | VBlob p n => CBlob (take (Z.to_nat n) p)
  end.

(** The values of a condition, from the left to the right. *)
Fixpoint cond_cells (c : SqlRDBCondition) : list Cell :=
  match c with
  | COND_ALL => []
  | COND_LEAF _ _ _ v => [value_cell v]
  | COND_AND l r | COND_OR l r => cond_cells l ++ cond_cells r
  end.

Definition where_cells (c : option SqlRDBCondition) : list Cell := from_option cond_cells [] c.

Lemma length_cond_cells c : Z.of_nat (length (cond_cells c)) = leaves c.
Proof. induction c; simpl; rewrite ?length_app; lia. Qed.

Lemma length_where_cells c : Z.of_nat (length (where_cells c)) = where_leaves c.
Proof. destruct c; [apply length_cond_cells|done]. Qed.

(** *** The meaning depends on the arguments of the statement only *)

Definition same_args (f g : Z → Cell) (lo hi : Z) : Prop := ∀ i, lo < i ≤ hi → f i = g i.

Lemma holds_ext cmp f g n p r :
  same_args f g n (n + pred_holes p) → holds cmp f n p r = holds cmp g n p r.
Proof.
  revert n. induction p as [c op|p IHp q IHq|p IHp q IHq]; intros n H; cbn [holds pred_holes] in *.
  - by rewrite H by lia.
  - pose proof (pred_holes_pos p). pose proof (pred_holes_pos q).
    rewrite IHp, IHq; [done|intros i Hi; apply H; lia..].
  - pose proof (pred_holes_pos p). pose proof (pred_holes_pos q).
    rewrite IHp, IHq; [done|intros i Hi; apply H; lia..].
Qed.

Lemma selects_ext cmp f g n w r :
  same_args f g n (n + where_holes w) → selects cmp f n w r = selects cmp g n w r.
Proof. destruct w; [apply holds_ext|done]. Qed.

Lemma arg_cells_ext f g k : same_args f g 0 (Z.of_nat k) → arg_cells f k = arg_cells g k.
Proof.
  intros H. unfold arg_cells. apply list_fmap_ext. intros i x Hx. apply lookup_seq in Hx as [-> Hi].
  apply H. lia.
Qed.

Lemma filter_bool_ext {A} (f g : A → bool) (l : list A) : (∀ x, f x = g x) → filter (λ x, f x) l = filter (λ x, g x) l.
Proof. intros H. apply list_filter_iff. intros x. by rewrite H. Qed.

Lemma sql_effect_ext cmp q f g rows :
  same_args f g 0 (sql_holes q) → sql_effect cmp q f rows = sql_effect cmp q g rows.
Proof.
  intros H. destruct q as [t cols|t cols key sets|t cols w|t w|t w|t col w]; cbn [sql_effect sql_holes] in *.
  - by rewrite (arg_cells_ext f g).
  - by rewrite (arg_cells_ext f g).
  - erewrite filter_bool_ext; [done|]. intros r. by apply selects_ext.
  - erewrite filter_bool_ext; [done|]. intros r. by apply selects_ext.
  - assert (∀ r, selects cmp f 0 w r = selects cmp g 0 w r) as E by (intros r; by apply selects_ext).
    rewrite (filter_bool_ext _ _ _ E). f_equal. apply list_filter_iff. intros r. by rewrite E.
  - assert (0 ≤ where_holes w) by (destruct w as [p|]; simpl; [pose proof (pred_holes_pos p)|]; lia).
    assert (∀ r, selects cmp f 1 w r = selects cmp g 1 w r) as E
      by (intros r; apply selects_ext; intros i Hi; apply H; lia).
    rewrite (filter_bool_ext _ _ _ E), (H 1) by lia. f_equal. apply list_fmap_ext. intros i r _. by rewrite E.
Qed.

Lemma arg_cells_fun cells : arg_cells (args_fun cells) (length cells) = cells.
Proof.
  unfold arg_cells, args_fun. apply list_eq. intros i. rewrite list_lookup_fmap.
  destruct (decide (i < length cells)%nat) as [Hi|Hi].
  - rewrite lookup_seq_lt by done. simpl. replace (Z.to_nat _) with i by lia.
    destruct (lookup_lt_is_Some_2 cells i Hi) as [c Hc]. by rewrite Hc.
  - rewrite lookup_seq_ge, lookup_ge_None_2 by lia. done.
Qed.

Lemma pred_typed_ext t f g n p :
  same_args f g n (n + pred_holes p) → pred_typed t f n p → pred_typed t g n p.
Proof.
  revert n. induction p as [c op|p IHp q IHq|p IHp q IHq]; intros n H; cbn [pred_typed pred_holes] in *.
  - by rewrite H by lia.
  - pose proof (pred_holes_pos p). pose proof (pred_holes_pos q). intros [Hp Hq].
    split; [apply IHp|apply IHq]; try done; intros i Hi; apply H; lia.
  - pose proof (pred_holes_pos p). pose proof (pred_holes_pos q). intros [Hp Hq].
    split; [apply IHp|apply IHq]; try done; intros i Hi; apply H; lia.
Qed.

Lemma where_typed_ext t f g n w :
  same_args f g n (n + where_holes w) → where_typed t f n w → where_typed t g n w.
Proof. destruct w; [apply pred_typed_ext|done]. Qed.

Lemma sql_typed_ext t q f g : same_args f g 0 (sql_holes q) → sql_typed t f q → sql_typed t g q.
Proof.
  intros H. destruct q as [tb cols|tb cols key sets|tb cols w|tb w|tb w|tb col w]; cbn [sql_typed sql_holes] in *.
  - by rewrite (arg_cells_ext f g).
  - by rewrite (arg_cells_ext f g).
  - intros [Hc Hw]. split; [done|]. by eapply where_typed_ext.
  - by apply where_typed_ext.
  - by apply where_typed_ext.
  - assert (0 ≤ where_holes w) by (destruct w as [p|]; simpl; [pose proof (pred_holes_pos p)|]; lia).
    rewrite (H 1) by lia. intros [Hc Hw]. split; [done|]. eapply where_typed_ext; [|done].
    intros i Hi. apply H. lia.
Qed.

(** ** Binding *)

(** From the parameter [n + 1] on the cells are bound, and those before are as
    in [args]. *)
Definition bound_from (n : nat) (cells : list Cell) (args args' : gmap Z Cell) : Prop :=
  (∀ j c, cells !! j = Some c → args' !! Z.of_nat (n + j + 1) = Some c) ∧
  ∀ i, i ≤ Z.of_nat n → args' !! i = args !! i.

Lemma bound_nil n args : bound_from n [] args args.
Proof. split; [|done]. intros j c H. by rewrite lookup_nil in H. Qed.

Lemma bound_cons n c cells args args' :
  bound_from (S n) cells (<[Z.of_nat n + 1 := c]> args) args' → bound_from n (c :: cells) args args'.
Proof.
  intros [H1 H2]. split.
  - intros [|j] c' Hc; simpl in Hc.
    + injection Hc as <-. rewrite H2 by lia.
      replace (Z.of_nat (n + 0 + 1)) with (Z.of_nat n + 1) by lia. apply lookup_insert_eq.
    + specialize (H1 j c' Hc). by replace (Z.of_nat (n + S j + 1)) with (Z.of_nat (S n + j + 1)) by lia.
  - intros i Hi. rewrite H2 by lia. rewrite lookup_insert_ne by lia. done.
Qed.

Lemma bound_app n l1 l2 args args1 args2 :
  bound_from n l1 args args1 → bound_from (n + length l1) l2 args1 args2 → bound_from n (l1 ++ l2) args args2.
Proof.
  intros [H1 H2] [H3 H4]. split.
  - intros j c Hc. destruct (decide (j < length l1)%nat) as [Hj|Hj].
    + rewrite lookup_app_l in Hc by lia. rewrite H4 by lia. by apply H1.
    + rewrite lookup_app_r in Hc by lia. specialize (H3 _ _ Hc).
      by replace (n + j + 1)%nat with (n + length l1 + (j - length l1) + 1)%nat by lia.
  - intros i Hi. rewrite H4 by lia. by apply H2.
Qed.

Section binding.
Context {D : Type} (drv : SqlRDBDriver D) `{!DriverLaws drv} (ctx : ptr) `{!SqlLaws drv ctx}.

(** [m] binds cells to the parameters from [n + 1] on of a statement that does
    not run. *)
Definition binds_all (m : M D SqlRDBResult) (p : ptr) (n : nat) (cells : list Cell) : Prop :=
  ∀ d r d' sql args, cursors d !! p = Some (MkCursor sql args None) → m d = Some (r, d') →
    plain_code r = true ∧ idle sql_view d d' ∧ ∃ args',
    cursors d' = <[p := MkCursor sql args' None]> (cursors d) ∧
    (r = SQL_RDB_OK → bound_from n cells args args').

Lemma binds_all_ret p n r cells :
  plain_code r = true → (r = SQL_RDB_OK → cells = []) → binds_all (mret r) p n cells.
Proof.
  intros Hr Hc d r' d' sql args Hp [= <- <-]. split_and!; [done|done|]. exists args.
  split; [by rewrite insert_id|]. intros E. rewrite (Hc E). apply bound_nil.
Qed.

Lemma binds_all_one m p n c : binds sql_view m p (Z.of_nat n + 1) c → binds_all m p n [c].
Proof.
  intros H d r d' sql args Hp E. destruct (H d r d' _ _ Hp E) as (Hr & Hi & args' & Hc & Ha).
  split_and!; [done|done|]. exists args'. split; [done|]. intros Hok. apply bound_cons.
  rewrite <-(Ha Hok). apply bound_nil.
Qed.

Lemma binds_all_seq (m : M D SqlRDBResult) k p n l1 l2 :
  binds_all m p n l1 → binds_all k p (n + length l1) l2 →
  binds_all (r ← m; if negb (res_ok r) then mret r else k) p n (l1 ++ l2).
Proof.
  intros H1 H2 d r d' sql args Hp (r1 & d1 & E1 & E2)%bind_Some.
  destruct (H1 d r1 d1 _ _ Hp E1) as (Hr1 & [Hdb1 Hch1] & args1 & Hc1 & Ha1).
  destruct (res_ok r1) eqn:Er; cbn [negb] in E2.
  - apply res_ok_true in Er. specialize (Ha1 Er).
    destruct (H2 d1 r d' sql args1) as (Hr & [Hdb Hch] & args' & Hc & Ha);
      [rewrite Hc1; apply lookup_insert_eq|done|].
    split_and!; [done|split; congruence|]. exists args'. rewrite Hc, Hc1, insert_insert_eq.
    split; [done|]. intros Hok. by eapply bound_app, Ha.
  - injection E2 as <- <-. split_and!; [done|done|]. exists args1. split; [done|].
    intros ->. done.
Qed.

Lemma binds_all_eq (m m' : M D SqlRDBResult) p n l :
  (∀ d, m d = m' d) → binds_all m p n l → binds_all m' p n l.
Proof. intros E H d r d' sql args Hp Hm. rewrite <-E in Hm. by eapply H. Qed.

(** *** A row *)

Lemma bind_cell_means p i col c :
  cell_small c → binds sql_view (bind_cell drv p i col c) p i c.
Proof.
  intros Hs. destruct c as [|v|v|s|s]; simpl in *.
  - apply bind_null_means.
  - destruct (decide _); [apply bind_int32_means|apply bind_int64_means].
  - apply bind_real_means.
  - pose proof (bind_text_means (drv := drv) (ctx := ctx) p i s (Z.of_nat (length s)) ltac:(lia) Hs) as H.
    by rewrite Nat2Z.id, firstn_all in H.
  - pose proof (bind_blob_means (drv := drv) (ctx := ctx) p i s (Z.of_nat (length s)) ltac:(lia) Hs) as H.
    by rewrite Nat2Z.id, firstn_all in H.
Qed.

(** The cells of the columns from [i] on. *)
Definition cells_from (nulls : option (list byte)) (row : list byte) (i : nat)
    (cols : list SqlRDBColumnDef) : list Cell :=
  imap (λ j col, if match nulls with Some m => bit m (i + j) | None => false end then CNull
                 else cell_of row col) cols.

Lemma bind_plan_means n nulls row p i cols :
  Forall (fits_in n) cols →
  binds_all (bind_plan drv nulls row p i cols) p i (cells_from nulls row i cols).
Proof.
  intros Hf. revert i. induction Hf as [|col cols Hc _ IH]; intros i; cbn [bind_plan]; [by apply binds_all_ret|].
  destruct (plan_cell nulls row i col) as [c|] eqn:E; [|by apply binds_all_ret].
  assert (cells_from nulls row i (col :: cols) = [c] ++ cells_from nulls row (S i) cols) as ->.
  { unfold cells_from. simpl. f_equal.
    - unfold plan_cell in E. destruct nulls as [m|]; [|by injection E].
      rewrite Nat.add_0_r. destruct (bit m i); [|by injection E].
      destruct (has_flag _ _); [by injection E|done].
    - apply imap_ext. intros j x _. simpl. by rewrite Nat.add_succ_r. }
  eapply (binds_all_eq (r ← bind_cell drv p (Z.of_nat i + 1) col c;
    if negb (res_ok r) then mret r else bind_plan drv nulls row p (S i) cols)).
  { intros d. unfold mbind, M_bind. destruct (bind_cell _ _ _ _ _ d) as [[r d']|]; [|done]. by destruct (res_ok r). }
  apply binds_all_seq.
  - apply binds_all_one, bind_cell_means. by eapply plan_cell_small.
  - simpl. replace (i + 1)%nat with (S i) by lia. apply IH.
Qed.

Lemma bind_row_means p s row nulls :
  row_ok (Z.of_nat (length row)) s nulls → p ≠ NULL →
  binds_all (c2sql_internal_tm_bind_row drv p (Some s) (Some row) nulls) p 0 (row_cells s row nulls).
Proof.
  intros Hok Hp. apply (binds_all_eq (bind_plan drv nulls row p 0 (sch_cols s))).
  { intros d. by rewrite bind_row_plan. }
  destruct Hok as ([Hf _] & _). by apply (bind_plan_means (Z.of_nat (length row))).
Qed.

(** *** A condition *)

(** The leaves have the kinds the constructors give them, no other. *)
Fixpoint cond_plain (c : SqlRDBCondition) : Prop :=
  match c with
  | COND_ALL => True
  | COND_LEAF _ _ ty v =>
      match ty, v with
      | (SQL_TYPE_INT32 | SQL_TYPE_INT64), VInt _ => True
      | SQL_TYPE_REAL, VReal _ => True
      | SQL_TYPE_TEXT, VText _ => True
      | SQL_TYPE_BLOB, VBlob p n => 0 ≤ n ≤ Z.of_nat (length p) ∧ n ≤ INT_MAX
      | _, _ => False
      end
  | COND_AND l r | COND_OR l r => cond_plain l ∧ cond_plain r
  end.

Lemma cond_plain_ok c : cond_plain c → cond_values_ok c.
Proof. induction c as [col op ty v|l IHl r IHr|l IHl r IHr|]; simpl; [by destruct ty, v|tauto..]. Qed.

Lemma leaf_means p col op ty v n :
  cond_plain (COND_LEAF col op ty v) →
  binds_all (out ← bind_cond_values drv p (COND_LEAF col op ty v) (Z.of_nat n + 1); mret out.1) p n [value_cell v].
Proof.
  intros Hc. assert (∀ m i, binds sql_view m p (Z.of_nat n + 1) (value_cell v) →
    binds_all ((r ← m; mret (r, i)) ≫= λ out : SqlRDBResult * Z, mret out.1) p n [value_cell v]) as H.
  { intros m i Hm. apply (binds_all_eq m); [|by apply binds_all_one]. intros d.
    unfold mbind, M_bind. by destruct (m d) as [[r d']|]. }
  cbn [bind_cond_values]. destruct ty, v; simpl in Hc; try done; apply H; simpl.
  - apply bind_int64_means.
  - apply bind_int64_means.
  - apply bind_real_means.
  - apply bind_cstr_means.
  - rewrite bytes_at_slice by lia. unfold slice. rewrite drop_0. cbn [mdef].
    intros d r d' sql args Hp E. pose proof (bind_blob_means (drv := drv) (ctx := ctx) p (Z.of_nat n + 1)
      (take (Z.to_nat n0) p0) n0) as Hb.
    rewrite length_take, take_take, Nat.min_id in Hb. eapply Hb; [lia|lia|done|done].
Qed.

(** The same for a computation that counts the parameters. *)
Definition binds_count (m : M D (SqlRDBResult * Z)) (p : ptr) (n : nat) (cells : list Cell) : Prop :=
  ∀ d r i d' sql args, cursors d !! p = Some (MkCursor sql args None) → m d = Some ((r, i), d') →
    plain_code r = true ∧ idle sql_view d d' ∧ ∃ args',
    cursors d' = <[p := MkCursor sql args' None]> (cursors d) ∧
    (r = SQL_RDB_OK → bound_from n cells args args' ∧ i = Z.of_nat (n + length cells) + 1).

Lemma binds_count_seq (m : M D (SqlRDBResult * Z)) k p n l1 l2 :
  binds_count m p n l1 → binds_count (k (Z.of_nat (n + length l1) + 1)) p (n + length l1) l2 →
  binds_count (out ← m; let '(r, i) := out in if negb (res_ok r) then mret (r, i) else k i) p n (l1 ++ l2).
Proof.
  intros H1 H2 d r i d' sql args Hp ([r1 i1] & d1 & E1 & E2)%bind_Some.
  destruct (H1 d r1 i1 d1 _ _ Hp E1) as (Hr1 & [Hdb1 Hch1] & args1 & Hc1 & Ha1).
  destruct (res_ok r1) eqn:Er; cbn [negb] in E2.
  - apply res_ok_true in Er. destruct (Ha1 Er) as [Hb1 ->].
    destruct (H2 d1 r i d' sql args1) as (Hr & [Hdb Hch] & args' & Hc & Ha);
      [rewrite Hc1; apply lookup_insert_eq|done|].
    split_and!; [done|split; congruence|]. exists args'. rewrite Hc, Hc1, insert_insert_eq.
    split; [done|]. intros Hok. destruct (Ha Hok) as [Hb ->]. split; [by eapply bound_app|].
    rewrite length_app. f_equal. lia.
  - injection E2 as <- <- <-. split_and!; [done|done|]. exists args1. split; [done|]. intros ->. done.
Qed.

Lemma bind_cond_means p c n :
  cond_plain c → binds_count (bind_cond_values drv p c (Z.of_nat n + 1)) p n (cond_cells c).
Proof.
  revert n. induction c as [col op ty v|l IHl r IHr|l IHl r IHr|]; intros n Hc.
  - intros d r i d' sql args Hp E. pose proof E as (r1 & d1 & E1 & [= <- <- <-])%bind_Some.
    destruct (leaf_means p col op ty v n Hc d r1 d1 sql args Hp) as (Hr & Hi & args' & Hcs & Ha).
    { by rewrite (bind_run _ _ _ _ _ E). }
    split_and!; [done|done|]. exists args'. split; [done|]. intros Hok. split; [by apply Ha|]. simpl. lia.
  - destruct Hc. cbn [bind_cond_values cond_cells]. apply binds_count_seq; [by apply IHl|by apply IHr].
  - destruct Hc. cbn [bind_cond_values cond_cells]. apply binds_count_seq; [by apply IHl|by apply IHr].
  - intros d r i d' sql args Hp [= <- <- <-]. split_and!; [done|done|]. exists args.
    split; [by rewrite insert_id|]. intros _. split; [apply bound_nil|]. simpl. lia.
Qed.

Definition where_plain (c : option SqlRDBCondition) : Prop := from_option cond_plain True c.

Lemma bind_where_means p c n :
  where_plain c → binds_all (bind_where drv p c (Z.of_nat n + 1)) p n (where_cells c).
Proof.
  intros Hc. destruct c as [c|]; [|by apply binds_all_ret].
  assert (c = COND_ALL ∨ bind_where drv p (Some c) (Z.of_nat n + 1) =
    (out ← bind_cond_values drv p c (Z.of_nat n + 1); mret out.1)) as [->| ->] by (destruct c; auto);
    [by apply binds_all_ret|].
  intros d r d' sql args Hp ([r1 i] & d1 & E & [= <- <-])%bind_Some.
  destruct (bind_cond_means p c n Hc d r1 i d1 sql args Hp E) as (Hr & Hi & args' & Hcs & Ha).
  split_and!; [done|done|]. exists args'. split; [done|]. intros Hok. by apply Ha.
Qed.

(** ** Reading the current row *)

(** The part of a read that the caller sees. *)
Definition row_read (sch : SqlRDBSchema) (cells : list Cell) (row : list byte) (nulls : option (list byte))
    (r : SqlRDBResult) (row' : list byte) (nulls' : option (list byte)) : Prop :=
  r = (if existsb (λ x, too_big x.1 x.2) (zip (sch_cols sch) cells)
       then SQL_RDB_WARN_TRUNCATED else SQL_RDB_OK) ∧
  row' = store_all row (zip (sch_cols sch) cells) ∧ nulls' = (λ m, mark_all m 0 cells) <$> nulls.

(** The call of a column of the row either fails or gives the cell. *)
Lemma read_one_means p i col c sql args row rows (t : TState D) r t' :
  cursors (t_db t) !! p = Some (MkCursor sql args (Some (row :: rows))) →
  row !! i = Some c → c ≠ CNull → cell_typed col c → fits_in (Z.of_nat (length (t_row t))) col →
  read_one drv p (Z.of_nat i) col t = Some (r, t') →
  idle sql_view (t_db t) (t_db t') ∧ cursors (t_db t') = cursors (t_db t) ∧
  (r = (if too_big col c then SQL_RDB_WARN_TRUNCATED else SQL_RDB_OK) ∧
   t' = with_row (store (t_row t) (col, c)) (t_db t') t ∨
   plain_code r = true ∧ r ≠ SQL_RDB_OK).
Proof.
  intros Hp Hc Hnn Hty Hf E.
  (* whatever getter it is, its result decides *)
  enough (∃ d', idle sql_view (t_db t) d' ∧ cursors d' = cursors (t_db t) ∧
    (served drv p i c (t_db t) d' ∨ plain_code r = true ∧ r ≠ SQL_RDB_OK ∧ t_db t' = d')) as (d' & Hi & Hcs & H).
  { destruct H as [H|(Hr & Hne & <-)]; [|by split_and!; [..|right]].
    rewrite (read_one_served drv p i col c t d' H Hty Hf) in E. injection E as <- <-.
    split_and!; [done|done|]. left. done. }
  unfold read_one in E. destruct c as [|v|v|s|s]; simpl in Hty; [done|..].
  - destruct Hty as [Et|Et]; rewrite Et in E;
      apply bind_Some in E as ([r1 x] & t1 & (d' & Em & ->)%zoom_Some & E);
      destruct (int64_means p i _ _ _ _ _ _ _ _ _ Hp Hc Em) as (Hr & Hi & Hcs & Hx);
      exists d'; (split; [done|]); (split; [done|]); (destruct (res_ok r1) eqn:Er; cbn [negb] in E;
        [left; apply res_ok_true in Er as ->; simpl; by rewrite <-(Hx eq_refl v eq_refl)
        |right; injection E as <- <-; by apply res_ok_false in Er]).
  - rewrite Hty in E. apply bind_Some in E as ([r1 x] & t1 & (d' & Em & ->)%zoom_Some & E).
    destruct (real_means p i _ _ _ _ _ _ _ _ _ Hp Hc Em) as (Hr & Hi & Hcs & Hx).
    exists d'. split; [done|]. split; [done|]. destruct (res_ok r1) eqn:Er; cbn [negb] in E.
    + left. apply res_ok_true in Er as ->. simpl. by rewrite <-(Hx eq_refl v eq_refl).
    + right. injection E as <- <-. by apply res_ok_false in Er.
  - rewrite Hty in E. apply bind_Some in E as ([r1 [q len]] & t1 & (d' & Em & ->)%zoom_Some & E).
    destruct (text_means p i _ _ _ _ _ _ _ _ _ Hp Hc Em) as (Hr & Hi & Hcs & Hx).
    exists d'. split; [done|]. split; [done|]. destruct (res_ok r1) eqn:Er; cbn [negb] in E.
    + left. apply res_ok_true in Er as ->. destruct (Hx eq_refl s eq_refl) as [Hl Hq]. simpl in *.
      exists q. by rewrite <-Hl.
    + right. injection E as <- <-. by apply res_ok_false in Er.
  - rewrite Hty in E. apply bind_Some in E as ([r1 [q len]] & t1 & (d' & Em & ->)%zoom_Some & E).
    destruct (blob_means p i _ _ _ _ _ _ _ _ _ Hp Hc Em) as (Hr & Hi & Hcs & Hx).
    exists d'. split; [done|]. split; [done|]. destruct (res_ok r1) eqn:Er; cbn [negb] in E.
    + left. apply res_ok_true in Er as ->. destruct (Hx eq_refl s eq_refl) as [Hl Hq]. simpl in *.
      exists q. by rewrite <-Hl.
    + right. injection E as <- <-. by apply res_ok_false in Er.
Qed.

Lemma read_row_loop_means p cols cells sql args rows i n tr (t : TState D) r t' :
  cursors (t_db t) !! p = Some (MkCursor sql args (Some (cells :: rows))) →
  Forall2 cell_typed cols cells → Forall (fits_in (Z.of_nat (length (t_row t)))) cols →
  (i + n)%nat = length cols → (length cols ≤ 64)%nat →
  (∀ m, t_nulls t = Some m → (length cols ≤ 8 * length m)%nat) →
  read_row_loop drv p cols i n tr t = Some (r, t') →
  idle sql_view (t_db t) (t_db t') ∧ cursors (t_db t') = cursors (t_db t) ∧
  (r = (if tr || existsb (λ x, too_big x.1 x.2) (drop i (zip cols cells))
        then SQL_RDB_WARN_TRUNCATED else SQL_RDB_OK) ∧
   t_row t' = store_all (t_row t) (drop i (zip cols cells)) ∧
   t_nulls t' = (λ m, mark_all m i (drop i cells)) <$> t_nulls t ∨
   plain_code r = true ∧ r ≠ SQL_RDB_OK).
Proof.
  intros Hp Hty Hfit Hi Hl Hm. pose proof (Forall2_length _ _ _ Hty) as Hlen.
  revert i tr t Hp Hfit Hi Hm. induction n as [|n IH]; intros i tr t Hp Hfit Hi Hm; cbn [read_row_loop].
  { intros [= <- <-]. split_and!; [done|done|]. left. rewrite !drop_ge by (rewrite ?length_zip; lia).
    simpl. rewrite orb_false_r. split_and!; [done|done|]. by destruct (t_nulls t). }
  destruct (lookup_lt_is_Some_2 cols i ltac:(lia)) as [col Hcol].
  destruct (lookup_lt_is_Some_2 cells i ltac:(lia)) as [c Hc].
  assert (zip cols cells !! i = Some (col, c)) as Hz by (apply lookup_zip_Some; done).
  rewrite (drop_S _ _ _ Hz), (drop_S _ _ _ Hc). cbn [existsb store_all foldl mark_all fst snd].
  rewrite Hcol, to_signed_small by lia. cbn [mdef].
  intros (x & t0 & [= -> ->] & ([r1 b] & t1 & (d1 & Em & ->)%zoom_Some & E)%bind_Some)%bind_Some.
  destruct (isnull_means p i _ _ _ _ _ _ _ _ _ Hp Hc Em) as (Hr & [Hdb Hch] & Hcs & Hb).
  assert (Hcf := Hfit). eapply Forall_lookup_1 in Hcf; [|done].
  assert (cell_typed x c) as Hct by (eapply Forall2_lookup_lr in Hty; done).
  destruct (res_ok r1) eqn:Er; cbn [negb] in E.
  2:{ injection E as <- <-. split_and!; [done|done|]. right. by apply res_ok_false in Er. }
  apply res_ok_true in Er. specialize (Hb Er). subst b.
  assert (c = CNull ∨ c ≠ CNull) as [->|Hnn] by (destruct c; by (left + right)).
  - cbn [is_null] in E. rewrite (bind_run _ _ _ _ _ (t_set_null_run i (MkT (t_row t0) (t_nulls t0) d1)
      ltac:(simpl; intros m Em2; specialize (Hm m Em2); lia))) in E. cbn [t_row t_nulls t_db] in E.
    apply IH in E as ([Hdb' Hch'] & Hcs' & E); [|simpl; by rewrite Hcs|done|lia|].
    2:{ simpl. intros m. destruct (t_nulls t0) as [m'|]; [|done]. intros [= <-]. rewrite length_set_bit. by apply Hm. }
    simpl in *. split_and!; [split; congruence|congruence|]. destruct E as [(Er' & Erow & Enul)|?]; [left|by right].
    split_and!; [done| |].
    + rewrite Erow. unfold store at 2. simpl. by rewrite set_slice_nil.
    + rewrite Enul. by destruct (t_nulls t0).
  - assert (is_null c = false) as Hnull by (by destruct c). rewrite Hnull in E.
    apply bind_Some in E as (r2 & t2 & E2 & E).
    destruct (read_one_means p i x c sql args cells rows (MkT (t_row t0) (t_nulls t0) d1) r2 t2)
      as ([Hdb2 Hch2] & Hcs2 & H2); [simpl; by rewrite Hcs|done..|]. simpl in *.
    destruct H2 as [[-> Et2]|[Hp2 Hne2]].
    2:{ assert (r = r2 ∧ t' = t2) as [-> ->]
          by (destruct r2; try done; by injection E as <- <-).
        split_and!; [split; congruence|congruence|by right]. }
    pose proof (length_store_typed _ (t_row t0) x c Hct Hcf eq_refl) as Hls.
    assert (read_row_loop drv p cols (S i) n (tr || too_big x c) t2 = Some (r, t')) as E'.
    { destruct (too_big x c); [by rewrite orb_true_r|by rewrite orb_false_r]. }
    rewrite Et2 in E'. apply IH in E' as ([Hdb' Hch'] & Hcs' & E3);
      [|simpl; congruence|simpl; by rewrite Hls|lia|done].
    simpl in *. split_and!; [split; congruence|congruence|]. by rewrite orb_assoc, Hnull.
Qed.

Lemma read_row_means p sch cells sql args rows (t : TState D) r t' :
  cursors (t_db t) !! p = Some (MkCursor sql args (Some (cells :: rows))) →
  row_ok (Z.of_nat (length (t_row t))) sch (t_nulls t) → Forall2 cell_typed (sch_cols sch) cells → p ≠ NULL →
  c2sql_internal_tm_read_row drv p (Some sch) t = Some (r, t') →
  idle sql_view (t_db t) (t_db t') ∧ cursors (t_db t') = cursors (t_db t) ∧
  (row_read sch cells (t_row t) (t_nulls t) r (t_row t') (t_nulls t') ∨ plain_code r = true ∧ r ≠ SQL_RDB_OK).
Proof.
  intros Hp Hok Hty Hn. pose proof (row_ok_bits _ _ _ Hok) as Hb. destruct Hok as ([Hf _] & Hc & Hl & _).
  unfold c2sql_internal_tm_read_row. rewrite bool_decide_false by done. intros E.
  apply (read_row_loop_means p (sch_cols sch) cells sql args rows 0) in E; try done; lia.
Qed.
End binding.

(** ** Statements of a handle *)

Section blocks.
Context {D : Type} (drv : SqlRDBDriver D) `{!DriverLaws drv} (ctx : ptr) `{!SqlLaws drv ctx}.
Context (V : Setting).

Local Abbreviation borrowed := (borrowed drv ctx V).
Local Abbreviation tidy := (tidy drv ctx V).
Local Abbreviation hurting := (hurting drv ctx).

(** The statement [sql] does not run, and has the cells as its first arguments. *)
Definition holding (T : Db → Z → Prop) (sql : string) (cells : list Cell) : Cursor → Db → Z → Prop :=
  λ cu b n, any T b n ∧ cu_sql cu = sql ∧ cu_rows cu = None ∧
    ∀ j c, cells !! j = Some c → cu_args cu !! Z.of_nat (j + 1) = Some c.

(** It runs, and has the rows still to give, the current one first. *)
Definition running (T : Db → Z → Prop) (sql : string) (rows : list (list Cell)) : Cursor → Db → Z → Prop :=
  λ cu b n, T b n ∧ cu_sql cu = sql ∧ cu_rows cu = Some rows.

Lemma fetched_holding T sql cu b n : fetched T sql cu b n → holding T sql [] cu b n.
Proof. intros (HT & Hs & Hr). by split_and!. Qed.

Lemma bind_borrowed stmt owned T sql l l2 (m : M D SqlRDBResult) :
  binds_all drv ctx m stmt (length l) l2 →
  hoare (borrowed stmt owned (holding T sql l)) (h_db m)
    (λ r, borrowed stmt owned (λ cu b n, any T b n ∧ plain_code r = true ∧
       (r = SQL_RDB_OK → holding T sql (l ++ l2) cu b n))).
Proof.
  intros Hm. apply borrowed_db. intros d [s0 args rows] r d' Hcu (HT & Hs & Hr & Ha) E. simpl in *. subst.
  destruct (Hm d r d' sql args Hcu E) as (Hcode & [Hdb Hch] & args' & Hcs & Hb).
  exists (MkCursor sql args' None). split; [|split; [done|rewrite Hcs; apply moved_insert]].
  unfold holding. rewrite Hdb, Hch. split_and!; [done|done|]. intros Hok. destruct (Hb Hok) as [Hb1 Hb2].
  split_and!; try done. intros j c Hc. simpl. destruct (decide (j < length l)%nat) as [Hj|Hj].
  - rewrite lookup_app_l in Hc by lia. rewrite Hb2 by lia. by apply Ha.
  - rewrite lookup_app_r in Hc by lia. specialize (Hb1 _ _ Hc).
    by replace (j + 1)%nat with (length l + (j - length l) + 1)%nat by lia.
Qed.

(** The rule for a bind in an operation: what follows when it succeeds, and
    what when it fails. *)
Lemma bind_rule {A} stmt owned T sql l l2 (m : M D SqlRDBResult) (bad ok : SqlRDBResult → M (HState D) A) Q :
  binds_all drv ctx m stmt (length l) l2 →
  (∀ r, r ≠ SQL_RDB_OK → plain_code r = true → hoare (borrowed stmt owned (λ _, any T)) (bad r) Q) →
  hoare (borrowed stmt owned (holding T sql (l ++ l2))) (ok SQL_RDB_OK) Q →
  hoare (borrowed stmt owned (holding T sql l)) (r ← h_db m; if negb (res_ok r) then bad r else ok r) Q.
Proof.
  intros Hm Hbad Hok. eapply hoare_bind; [by apply bind_borrowed|]. intros r.
  destruct (res_ok r) eqn:Er; cbn [negb].
  - apply res_ok_true in Er as ->. eapply hoare_pre; [exact Hok|]. intros s Hs.
    eapply borrowed_mono; [|exact Hs]. intros cu b n (_ & _ & H). by apply H.
  - intros s a s' Hs. pose proof Hs as (_ & _ & _ & cu & _ & _ & Hcode & _). eapply Hbad; [by apply res_ok_false|done|].
    eapply borrowed_mono; [|exact Hs]. by intros ? b n [? _].
Qed.

(** ** Running *)

Definition put_rows (q : Sql) (t : Table) (rows : list Row) (b : Db) : Db :=
  MkDb (<[sql_table q := MkTable (t_kinds t) (t_key t) rows]> (db_tables b)) (db_frames b) (db_doomed b).

(** What a statement makes of [T]. *)
Definition wrote (q : Sql) (t : Table) (e : Effect) (T : Db → Z → Prop) : Db → Z → Prop :=
  if sql_writes q
  then λ b n, ∃ b0 n0, T b0 n0 ∧ b = put_rows q t (ef_rows e) b0 ∧ n = Z.of_nat (ef_changed e)
  else any T.

(** The statement can run with these values. *)
Definition runnable (q : Sql) (cells : list Cell) (t : Table) (T : Db → Z → Prop) : Prop :=
  sql_ok q ∧ Z.of_nat (length cells) = sql_holes q ∧ Forall sql_exact cells ∧
  sql_typed t (args_fun cells) q ∧ ∀ b n, T b n → db_tables b !! sql_table q = Some t.

Lemma holding_args T sql cells cu b n :
  holding T sql cells cu b n → same_args (args_of cu) (args_fun cells) 0 (Z.of_nat (length cells)) ∧
  (Forall (sql_exact (drv := drv) (ctx := ctx)) cells → ∀ i, 1 ≤ i ≤ Z.of_nat (length cells) →
    ∃ c, cu_args cu !! i = Some c ∧ sql_exact c).
Proof.
  intros (_ & _ & _ & H).
  assert (∀ i, 0 < i ≤ Z.of_nat (length cells) → ∃ c, cells !! Z.to_nat (i - 1) = Some c ∧ cu_args cu !! i = Some c) as Hi.
  { intros i Hi. destruct (lookup_lt_is_Some_2 cells (Z.to_nat (i - 1)) ltac:(lia)) as [c Hc].
    exists c. split; [done|]. specialize (H _ _ Hc). by replace (Z.of_nat (Z.to_nat (i - 1) + 1)) with i in H by lia. }
  split.
  - intros i Hb. destruct (Hi i Hb) as (c & Hc & Ha). unfold args_of, args_fun. by rewrite Hc, Ha.
  - intros He i Hb. destruct (Hi i ltac:(lia)) as (c & Hc & Ha). exists c. split; [done|].
    by eapply Forall_lookup_1 in He.
Qed.

Lemma first_step stmt owned T q cells t :
  runnable q cells t T →
  let e := sql_effect sql_cmp q (args_fun cells) (t_rows t) in
  hoare (borrowed stmt owned (holding T (sql_print (drv_dialect drv) q) cells)) (h_step drv stmt)
    (λ x s, plain_code x.1 = true ∧
      if res_ok x.1 then ∃ rows, rows ≡ₚ ef_result e ∧ x.2 = negb (bool_decide (rows = [])) ∧
        borrowed stmt owned (running (wrote q t e T) (sql_print (drv_dialect drv) q) rows) s
      else borrowed stmt owned (λ _, hurting T) s).
Proof.
  intros (Hok & Hlen & Hex & Hty & Ht) e. unfold h_step.
  set (Q := λ (x : SqlRDBResult * option bool) (cu : Cursor) (b : Db) (n : Z), plain_code x.1 = true ∧
    if res_ok x.1 then ∃ rows, rows ≡ₚ ef_result e ∧ x.2 = Some (negb (bool_decide (rows = []))) ∧
      running (wrote q t e T) (sql_print (drv_dialect drv) q) rows cu b n
    else hurting T b n).
  eapply hoare_bind; [apply (borrowed_db drv ctx V stmt owned _ _ Q)|].
  - intros d cu [r b] d' Hcu HC E. pose proof HC as (HT & Hsql & Hr & _). pose proof HT as [n0 HT0].
    destruct (holding_args _ _ _ _ _ _ HC) as [Hsame Hargs]. rewrite Hlen in Hsame, Hargs.
    destruct (step_runs stmt d r b d' q cu t Hcu Hr Hsql Hok (Hargs Hex) (Ht _ _ HT0)) as [Hcode H];
      [|exact E|].
    { eapply sql_typed_ext; [|exact Hty]. intros i Hi. symmetry. by apply Hsame. }
    rewrite (sql_effect_ext _ q _ _ _ Hsame) in H. fold e in H. unfold Q. cbn [fst snd]. destruct (res_ok r).
    + destruct H as (rows & Hp & Hb & Hmv & Hw). exists (MkCursor (cu_sql cu) (cu_args cu) (Some rows)).
      split; [|split; [done|by eapply moved_weaken]]. split; [done|]. exists rows. split_and!; try done.
      unfold running, wrote. split_and!; [|done|done]. destruct (sql_writes q).
      * destruct Hw as [-> ->]. by eexists _, _.
      * by rewrite Hw.
    + destruct H as (Hh & rows & Hmv). exists (MkCursor (cu_sql cu) (cu_args cu) rows).
      split; [|split; [done|by eapply moved_weaken]]. split; [done|]. by eapply hurting_after.
  - intros [r b]. apply hoare_ret. intros s (Hb & Hc & Hn & cu & Hcu & Hcode & H). simpl in *. split; [done|].
    destruct (res_ok r).
    + destruct H as (rows & Hp & -> & Hrun). exists rows. split; [done|]. split; [done|].
      split; [done|]. split; [done|]. split; [done|]. by exists cu.
    + split; [done|]. split; [done|]. split; [done|]. by exists cu.
Qed.

Lemma next_step stmt owned T q row rows :
  sql_ok q → sql_writes q = false →
  hoare (borrowed stmt owned (running (any T) (sql_print (drv_dialect drv) q) (row :: rows))) (h_step drv stmt)
    (λ x s, plain_code x.1 = true ∧
      if res_ok x.1 then x.2 = negb (bool_decide (rows = [])) ∧
        borrowed stmt owned (running (any T) (sql_print (drv_dialect drv) q) rows) s
      else x.2 = false ∧ borrowed stmt owned (λ _, hurting T) s).
Proof.
  intros Hok Hw. unfold h_step.
  set (Q := λ (x : SqlRDBResult * option bool) (cu : Cursor) (b : Db) (n : Z), plain_code x.1 = true ∧
    if res_ok x.1 then x.2 = Some (negb (bool_decide (rows = []))) ∧
      running (any T) (sql_print (drv_dialect drv) q) rows cu b n
    else x.2 ≠ Some true ∧ hurting T b n).
  eapply hoare_bind; [apply (borrowed_db drv ctx V stmt owned _ _ Q)|].
  - intros d cu [r b] d' Hcu (HT & Hsql & Hr) E.
    destruct (step_next stmt d r b d' q cu row rows Hcu Hr Hsql Hok Hw E) as [Hcode H].
    unfold Q. cbn [fst snd]. destruct (res_ok r).
    + destruct H as (Hb & Hdb & Hmv). exists (MkCursor (cu_sql cu) (cu_args cu) (Some rows)).
      split; [|split; [done|by eapply moved_weaken]]. split; [done|]. split; [done|].
      unfold running. by rewrite Hdb.
    + destruct H as (Hne & Hh & rows' & Hmv). exists (MkCursor (cu_sql cu) (cu_args cu) rows').
      split; [|split; [done|by eapply moved_weaken]]. split; [done|]. split; [done|]. by eapply hurting_after.
  - intros [r b]. apply hoare_ret. intros s (Hb & Hc & Hn & cu & Hcu & Hcode & H). simpl in *. split; [done|].
    destruct (res_ok r).
    + destruct H as (-> & Hrun). split; [done|]. split; [done|]. split; [done|]. split; [done|]. by exists cu.
    + destruct H as [Hne Hh]. split; [by destruct b as [[]|]|]. split; [done|]. split; [done|]. split; [done|]. by exists cu.
Qed.

(** Reading the current row into buffers of the caller. *)
Lemma read_borrowed stmt owned T sql sch cells rows row nulls :
  row_ok (Z.of_nat (length row)) sch nulls → Forall2 cell_typed (sch_cols sch) cells →
  hoare (borrowed stmt owned (running T sql (cells :: rows)))
    (h_read row nulls (c2sql_internal_tm_read_row drv stmt (Some sch)))
    (λ x s, borrowed stmt owned (running T sql (cells :: rows)) s ∧
      (row_read sch cells row nulls x.1.1 x.1.2 x.2 ∨ plain_code x.1.1 = true ∧ x.1.1 ≠ SQL_RDB_OK)).
Proof.
  intros Hrow Hty s x s' (Hb & (ps & a & Hrep & Hnd & Hrd & Ho) & Hn & [s0 args r0] & Hcu & HT & Hs & Hr) E.
  cbn [cu_sql cu_rows] in Hs, Hr. subst. unfold h_read in E. cbv beta in E.
  destruct (c2sql_internal_tm_read_row drv stmt (Some sch) (MkT row nulls (hs_db s)))
    as [[r t]|] eqn:E2; [|done].
  injection E as <- <-.
  destruct (read_row_means drv ctx stmt sch cells sql args rows (MkT row nulls (hs_db s)) r t Hcu Hrow Hty Hn E2)
    as ([Hdb Hch] & Hcs & Hx). simpl in *.
  split; [|done]. split_and!; [done| |done|].
  - exists ps, a. split_and!; try done. simpl. by rewrite Hcs.
  - eexists. simpl. rewrite Hcs. split; [done|]. unfold running. simpl. by rewrite Hdb, Hch.
Qed.

(** A cell of the current row. *)
Lemma fetch_borrowed {A} stmt owned T sql row rows i c (m : M D (SqlRDBResult * A)) φ :
  fetches sql_view m stmt i φ → row !! i = Some c →
  hoare (borrowed stmt owned (running T sql (row :: rows))) (h_db m)
    (λ x s, (plain_code x.1 = true ∧ (x.1 = SQL_RDB_OK → φ c x.2)) ∧
      borrowed stmt owned (running T sql (row :: rows)) s).
Proof.
  intros Hm Hi. set (P := λ x : SqlRDBResult * A, plain_code x.1 = true ∧ (x.1 = SQL_RDB_OK → φ c x.2)).
  eapply hoare_post; [apply (borrowed_db drv ctx V stmt owned _ _
    (λ x cu b n, P x ∧ running T sql (row :: rows) cu b n))|].
  - intros d [s0 args r0] [r x] d' Hcu (HT & Hs & Hr) E. simpl in Hs, Hr. subst.
    destruct (Hm d r x d' _ _ _ _ _ Hcu Hi E) as (Hcode & [Hdb Hch] & Hcs & Hx).
    eexists. split; [|split; [|rewrite Hcs; split; [exact Hcu|]]].
    + split; [done|]. unfold running. by rewrite Hdb, Hch.
    + done.
    + intros p [s1 a1 r1] _ Hp. by exists r1.
  - intros x s (Hb & Hc & Hn & cu & Hcu & HP & Hrun). split; [done|]. split; [done|]. split; [done|].
    split; [done|]. by exists cu.
Qed.
End blocks.
