(* ===== verification/SqlApi.v ===== *)
(** * Operations on a handle: their effect on the tables

    What each operation of Api.v on rows does to the database, and what it
    tells the caller of it: an upsert, a query of one row or of many, a count,
    a deletion. *)

From Stdlib Require Import Ascii String Strings.Byte.
From coqutil Require Import Byte.
From S2P Require Import Prelude Types Support Driver StmtCache StmtCacheSpec StmtCacheProofs StmtCacheRefine.
From S2P Require Import StmtCacheTheorems Condition QueryBuilder QueryBuilderProofs Registry RegistryProofs.
From S2P Require Import SqlText SqlTextProofs TypeMapping TypeMappingProofs Relational Handle Api ApiProofs ApiSafety.
From S2P Require Import SqlHandle SqlBlocks.
Import ErrorCtx Logger Mutex.

(** The codes that tell nothing of the rows. *)
Definition other_code (r : SqlRDBResult) : bool :=
  match r with
  | SQL_RDB_OK | SQL_RDB_ERR_NOT_FOUND | SQL_RDB_ERR_MULTIPLE_ROWS | SQL_RDB_WARN_TRUNCATED
  | SQL_RDB_ERR_CAPACITY_EXCEEDED => false
  | _ => true
  end.

Lemma plain_other r : plain_code r = true → r ≠ SQL_RDB_OK → other_code r = true.
Proof. by destruct r. Qed.

Lemma plain_other' r : plain_code r = true → res_ok r = false → other_code r = true.
Proof. by destruct r. Qed.

(** The primary key is in the row. *)
Definition has_pk (sch : SqlRDBSchema) : bool := 0 <=? sch_pk_index sch.

(** The table is the one the schema declares. *)
Definition declared (t : Table) (sch : SqlRDBSchema) : Prop :=
  Forall (λ col, ∃ k, t_kinds t !! col_name col = Some k ∧ kind_of (col_type col) = Some k) (sch_cols sch) ∧
  t_key t = if has_pk sch then Some (pk_name sch) else None.

Lemma cell_typed_kind col c k :
  kind_of (col_type col) = Some k → cell_typed col c → of_kind k c = true.
Proof. destruct c; simpl; intros Hk Hc; try destruct Hc as [Hc|Hc]; rewrite ?Hc in Hk; simpl in Hk; by simplify_eq. Qed.

Lemma declared_cells t sch cells :
  declared t sch → Forall2 cell_typed (sch_cols sch) cells → cells_typed t (col_names sch) cells.
Proof.
  intros [Hd _] Hty. unfold cells_typed, col_names. rewrite Forall2_fmap_l.
  induction Hty as [|col c cols cells Hc Hty IH]; [constructor|]. apply Forall_cons in Hd as [(k & Hk & Hkind) Hd].
  constructor; [|by apply IH]. exists k. split; [done|]. by eapply cell_typed_kind.
Qed.

Section api.
Context {D : Type} (drv : SqlRDBDriver D) `{!DriverLaws drv} (ctx : ptr) `{!SqlLaws drv ctx}.
Context (V : Setting).

Local Abbreviation R := (st_registry V).

Local Abbreviation tidy := (tidy drv ctx V).
Local Abbreviation borrowed := (borrowed drv ctx V).
Local Abbreviation hurting := (hurting drv ctx).

(** An operation that gives up. *)
Definition gives_up {A} T (ret : SqlRDBResult → A) (Q : A → HState D → Prop) : Prop :=
  ∀ r s, other_code r = true → tidy (hurting T) s → Q (ret r) s.

Lemma tidy_hurting T s : tidy T s → tidy (hurting T) s.
Proof. apply tidy_mono. intros b n H. by apply hurting_intro, any_intro. Qed.

(** ** The blocks *)

Lemma valid_or_tidy {A} T (bad : A) k Q :
  (∀ s, tidy T s → Q bad s) → hoare (tidy T) k Q → hoare (tidy T) (valid_or bad k) Q.
Proof.
  intros Hb Hk. eapply hoare_bind; [apply hoare_gets|]. intros h. cbn beta.
  apply (hoare_pre (tidy T)); [|by intros s [? _]].
  destruct (c2sql_handle_valid (Some h)); [done|by apply hoare_ret].
Qed.

(** The registry has one schema of a name. *)
Lemma entry_unique s1 s2 :
  NoDup (reg_names R) → s1 ∈ reg_entries R → s2 ∈ reg_entries R → sch_name s1 = sch_name s2 → s1 = s2.
Proof.
  unfold reg_names. intros Hnd [i Hi]%list_elem_of_lookup [j Hj]%list_elem_of_lookup Hn.
  enough (i = j) as -> by congruence. eapply NoDup_lookup; [exact Hnd|..]; rewrite list_lookup_fmap.
  - by rewrite Hi.
  - rewrite Hj. simpl. by rewrite Hn.
Qed.

Lemma with_schema_tidy {A} T what nm sch (ret : SqlRDBResult → A) k Q :
  found R nm sch → gives_up T ret Q → hoare (tidy T) (k sch) Q →
  hoare (tidy T) (with_schema what nm ret k) Q.
Proof.
  intros Hf Hg Hk. unfold with_schema.
  eapply (hoare_bind _ _ (λ x s, tidy T s ∧ match x with Some s' => s' = sch | None => True end)).
  - intros s x s' Hs E. pose proof Hs as ((_ & HR & Hnd & _) & _).
    unfold h_lookup, mbind, M_bind, mgets in E. rewrite HR in E.
    destruct (c2sql_internal_schema_lookup true R (Some nm)) as [p|] eqn:El; [|by injection E as <- <-].
    apply lookup_name in El as (sch' & Hp & Hname & Hin). rewrite Hp in E. injection E as <- <-.
    split; [done|]. destruct Hf as (_ & Hn & Hin'). apply entry_unique; [done..|by rewrite Hn].
  - intros [s'|]; apply hoare_pure; [by intros ->|]. intros _.
    eapply hoare_bind; [apply err_tidy|]. intros ?. apply unlock_ret_tidy. intros s Hs.
    apply Hg; [done|by apply tidy_hurting].
Qed.

(** The text of a statement. *)
Lemma build_tidy T spec sch :
  spec_fits spec sch → spec_proper spec sch → q_dialect spec = drv_dialect drv →
  hoare (tidy T) (h_build spec) (λ x s, tidy T s ∧
    if res_ok x.1 then sql_ok (qb_sql spec sch) ∧ x.2 = Some (sql_print (drv_dialect drv) (qb_sql spec sch))
    else other_code x.1 = true).
Proof.
  intros (Hs & Hok & Hwf & Ht & Hb & Hsch & _) Hp Hd.
  intros s [r sql] s' (Hbase & Hc & HT) ([[r1 sql1] n] & s1 & (al' & E & ->)%zoom_Some & [= <- <- <-])%bind_Some.
  destruct (qb_build_promise spec sch (hs_alloc s) Hs Hok Hwf Ht) as (r2 & sql2 & n2 & al2 & E2 & Hr & Hal).
  { unfold MAX_BINDS, INT_MAX in *. lia. }
  rewrite E in E2. injection E2 as <- <- <- <-. rename r1 into r, sql1 into sql. split.
  - destruct Hbase as (Hb1 & Hb2 & Hb3 & Hb4 & Hb5 & Hb6). split; [|by split]. split_and!; try done. simpl. auto.
  - simpl. destruct Hr as (Hr & _ & Hsql). destruct (res_ok r) eqn:Er.
    + apply res_ok_true in Er. subst r. cbn [fst snd]. destruct Hsql as [-> _]. pose proof Hp as (Hop & Hw & _).
      rewrite (qb_text_print _ _ Hop Hw), Hd. split; [|done]. apply qb_sql_ok; [done|done|by destruct Hr as [<-|]|].
      unfold INT_MAX in *. lia.
    + destruct Hr as [->| ->]; [|done]. unfold qb_result in *. by destruct (forallb _ _), (q_op spec).
Qed.

Lemma with_sql_tidy {A} T spec sch (ret : SqlRDBResult → A) k Q :
  spec_fits spec sch → spec_proper spec sch → q_dialect spec = drv_dialect drv →
  gives_up T ret Q →
  (sql_ok (qb_sql spec sch) → hoare (tidy T) (k (sql_print (drv_dialect drv) (qb_sql spec sch))) Q) →
  hoare (tidy T) (with_sql spec ret k) Q.
Proof.
  intros Hf Hp Hd Hg Hk. unfold with_sql. eapply hoare_bind; [by eapply build_tidy|].
  intros [r sql]. apply hoare_pure. cbn [fst snd]. destruct (res_ok r) eqn:Er; cbn [negb].
  - intros [Hok ->]. eapply (hoare_bind _ _ (λ x s, tidy T s ∧ x = sql_print (drv_dialect drv) (qb_sql spec sch))).
    { eapply hoare_post; [apply hoare_def|]. intros a s [? [= <-]]. done. }
    intros x. apply hoare_pure. intros ->. by apply Hk.
  - intros Hcode. apply unlock_ret_tidy. intros s Hst. apply Hg; [done|by apply tidy_hurting].
Qed.

Lemma borrowed_not_null {A} stmt owned C (m : M (HState D) A) Q :
  (stmt ≠ NULL → hoare (borrowed stmt owned C) m Q) → hoare (borrowed stmt owned C) m Q.
Proof. intros H s a s' Hs E. pose proof Hs as (_ & _ & Hn & _). by eapply H. Qed.

Lemma with_stmt_tidy {A} T sql (ret : SqlRDBResult → A) k Q :
  gives_up T ret Q → (∀ stmt owned, hoare (borrowed stmt owned (fetched T sql)) (k stmt owned) Q) →
  hoare (tidy T) (with_stmt drv sql ret k) Q.
Proof.
  intros Hg Hk. unfold with_stmt. eapply hoare_bind; [apply get_or_prepare_tidy|]. intros [[r stmt] owned].
  cbn [fst snd]. destruct (res_ok r) eqn:Er; cbn [negb]; [apply Hk|].
  apply hoare_pure. intros Hc. intros s a s' Hs. apply (unlock_ret_tidy drv ctx V (hurting T)); [|done].
  intros s1. apply Hg. by apply plain_other'.
Qed.

Lemma with_prepared_tidy {A} T sql (ret : SqlRDBResult → A) k Q :
  gives_up T ret Q → (∀ stmt, hoare (borrowed stmt true (fetched T sql)) (k stmt) Q) →
  hoare (tidy T) (with_prepared drv sql ret k) Q.
Proof.
  intros Hg Hk. unfold with_prepared. apply gets_ctx. eapply hoare_bind; [apply prepare_tidy|]. intros [r stmt].
  cbn [fst snd]. destruct (res_ok r) eqn:Er; cbn [negb]; [apply Hk|].
  apply hoare_pure. intros Hc. apply unlock_ret_tidy. intros s. apply Hg. by apply plain_other'.
Qed.

(** The first bind of an operation. *)
Lemma bind_fetched {A} stmt owned T sql l (m : M D SqlRDBResult) (bad ok : SqlRDBResult → M (HState D) A) Q :
  (stmt ≠ NULL → binds_all drv ctx m stmt 0 l) →
  (∀ r, other_code r = true → hoare (borrowed stmt owned (λ _, any T)) (bad r) Q) →
  hoare (borrowed stmt owned (holding T sql l)) (ok SQL_RDB_OK) Q →
  hoare (borrowed stmt owned (fetched T sql)) (r ← h_db m; if negb (res_ok r) then bad r else ok r) Q.
Proof.
  intros Hm Hbad Hok. apply borrowed_not_null. intros Hnn.
  eapply hoare_pre; [|intros s; apply borrowed_mono, fetched_holding].
  apply (bind_rule drv ctx V stmt owned T sql [] l); [by apply Hm| |done].
  intros r Hr Hcode. apply Hbad. by apply plain_other.
Qed.

(** Giving up while a statement is in use. *)
Lemma release_gives_up {A} T stmt owned (C : Cursor → Db → Z → Prop) (ret : SqlRDBResult → A) r Q :
  gives_up T ret Q → other_code r = true → (∀ cu b n, C cu b n → hurting T b n) →
  hoare (borrowed stmt owned C) (release_ret drv stmt owned (ret r)) Q.
Proof. intros Hg Hr HC. eapply release_ret_tidy; [intros cu b n H; by apply any_intro, (HC cu)|]. intros s. by apply Hg. Qed.

Lemma finalize_gives_up {A} T stmt (C : Cursor → Db → Z → Prop) (ret : SqlRDBResult → A) r Q :
  gives_up T ret Q → other_code r = true → (∀ cu b n, C cu b n → hurting T b n) →
  hoare (borrowed stmt true C) (finalize_ret drv stmt (ret r)) Q.
Proof. intros Hg Hr HC. eapply finalize_ret_tidy; [intros cu b n H; by apply any_intro, (HC cu)|]. intros s. by apply Hg. Qed.

(** ** Writing *)

Lemma write_tail stmt owned C T r msg (Q : SqlRDBResult → HState D → Prop) :
  (∀ cu b n, C cu b n → any T b n) → (∀ s, tidy T s → Q r s) →
  hoare (borrowed stmt owned C) (release_cached_stmt drv stmt owned;;
    (if negb (res_ok r) then h_err r msg else mret tt);; unlock_ret r) Q.
Proof.
  intros HC HQ. eapply hoare_bind; [by apply (release_tidy drv ctx V stmt owned C T)|]. intros ?.
  eapply (hoare_bind _ _ (λ _, tidy T)); [|intros ?; by apply unlock_ret_tidy].
  destruct (res_ok r); cbn [negb]; [by apply hoare_ret|apply err_tidy].
Qed.

Definition write_spec (sch : SqlRDBSchema) : SqlRDBQuerySpec := query drv (write_op sch) sch None None.

(** The rows of the table with the new one. *)
Definition put_row (sch : SqlRDBSchema) (cells : list Cell) (rows : list Row) : list Row :=
  let new := new_row (col_names sch) cells in
  if has_pk sch then upsert sql_cmp (pk_name sch) (col_name <$> other_cols sch) new rows else rows ++ [new].

(** A struct with a key has another column, or the upsert has nothing to set. *)
Definition writable (sch : SqlRDBSchema) : Prop := has_pk sch = true → other_cols sch ≠ [].

(** The table when [cells] are added, as the database and in [T]. *)
Definition with_rows (nm : string) (t : Table) (rows : list Row) (b : Db) : Db :=
  MkDb (<[nm := MkTable (t_kinds t) (t_key t) rows]> (db_tables b)) (db_frames b) (db_doomed b).

Definition storable (sch : SqlRDBSchema) (cells : list Cell) : Prop :=
  Forall sql_exact cells ∧ (has_pk sch = true → cell_at (new_row (col_names sch) cells) (pk_name sch) ≠ CNull).

Lemma write_effect sch cells rows :
  length cells = length (sch_cols sch) →
  ef_rows (sql_effect sql_cmp (qb_sql (write_spec sch) sch) (args_fun cells) rows) = put_row sch cells rows.
Proof.
  intros Hl. assert (length (col_names sch) = length cells) as Hl2 by (unfold col_names; by rewrite length_fmap).
  unfold put_row, qb_sql, write_spec, query, write_op, has_pk. cbn [q_op].
  destruct (0 <=? sch_pk_index sch); cbn [sql_effect ef_rows]; by rewrite Hl2, arg_cells_fun.
Qed.

Lemma pk_in_names sch : schema_ok sch → has_pk sch = true → pk_name sch ∈ col_names sch.
Proof.
  intros (_ & _ & _ & _ & Hpk) Hp. unfold has_pk in Hp. destruct Hpk as [[Hpk _]|(i & c & Hi & Hc & _)].
  - rewrite Hpk in Hp. by vm_compute in Hp.
  - unfold pk_name, col_names. rewrite Hi, Nat2Z.id, Hc. apply list_elem_of_fmap. exists c. split; [done|].
    by eapply list_elem_of_lookup_2.
Qed.

Lemma other_in_names sch : col_name <$> other_cols sch ⊆ col_names sch.
Proof.
  unfold other_cols, col_names. intros n (c & -> & Hc)%list_elem_of_fmap. apply list_elem_of_fmap. exists c.
  split; [done|]. eapply elem_of_sublist; [done|]. apply sublist_delete.
Qed.

Lemma write_runnable nm sch t cells (T : Db → Z → Prop) :
  found (st_registry V) nm sch → sql_ok (qb_sql (write_spec sch) sch) → declared t sch →
  Forall2 cell_typed (sch_cols sch) cells → storable sch cells →
  (∀ b n, T b n → db_tables b !! nm = Some t) →
  runnable drv ctx (qb_sql (write_spec sch) sch) cells t T.
Proof.
  intros (Hsch & Hn & _) Hok Hd Hty [Hex Hpk] HT. pose proof (Forall2_length _ _ _ Hty) as Hl.
  assert (length (col_names sch) = length cells) as Hl2 by (unfold col_names; by rewrite length_fmap).
  pose proof (declared_cells _ _ _ Hd Hty) as Hc. destruct Hd as [_ Hkey].
  assert (keyed t (new_row (col_names sch) cells)) as Hkd.
  { intros key Hk. rewrite Hkey in Hk. destruct (has_pk sch); [|done]. injection Hk as <-. by apply Hpk. }
  pose proof (pk_in_names sch) as Hin. pose proof (other_in_names sch) as Ho.
  unfold qb_sql, write_spec, query, write_op in *. cbn [q_op] in *. fold (has_pk sch) in *.
  destruct (has_pk sch) eqn:Epk; unfold runnable; cbn [sql_holes sql_typed sql_table];
    rewrite Hl2, arg_cells_fun; (split; [done|]); (split; [done|]); (split; [done|]); (split; [|by rewrite Hn]).
  - split; [done|]. split; [done|]. split; [done|]. split; [by apply Hin|done].
  - by split.
Qed.

(** The effect of writing a row on what is known of the database. *)
Definition written nm sch t cells (T : Db → Z → Prop) : Db → Z → Prop :=
  λ b n, ∃ b0 n0, T b0 n0 ∧ b = with_rows nm t (put_row sch cells (t_rows t)) b0 ∧ n = 1.

Lemma wrote_written nm sch t cells (T : Db → Z → Prop) b n :
  found R nm sch → length cells = length (sch_cols sch) →
  wrote (qb_sql (write_spec sch) sch) t
    (sql_effect sql_cmp (qb_sql (write_spec sch) sch) (args_fun cells) (t_rows t)) T b n →
  written nm sch t cells T b n.
Proof.
  intros (_ & Hn & _) Hl. pose proof (write_effect sch cells (t_rows t) Hl) as He. unfold wrote.
  assert (sql_writes (qb_sql (write_spec sch) sch) = true ∧ sql_table (qb_sql (write_spec sch) sch) = nm ∧
    ef_changed (sql_effect sql_cmp (qb_sql (write_spec sch) sch) (args_fun cells) (t_rows t)) = 1%nat)
    as (-> & Htab & ->) by (unfold qb_sql, write_spec, query, write_op; cbn [q_op]; by destruct (_ <=? _)).
  intros (b0 & n0 & HT & -> & ->). exists b0, n0. split; [done|]. by rewrite He, <-Htab.
Qed.

Lemma write_proper sch : writable sch → spec_proper (write_spec sch) sch.
Proof.
  intros Hw. unfold spec_proper, write_spec, query, write_op. cbn [q_op q_cond]. unfold writable, has_pk in Hw.
  destruct (0 <=? sch_pk_index sch); (split; [done|]); (split; [done|]); [by intros _; apply Hw|done].
Qed.

(** The new row is in the table, or nothing has changed. *)
Lemma write_tidy nm sch row nulls t (T : Db → Z → Prop) :
  found R nm sch → writable sch → declared t sch → row_ok (Z.of_nat (length row)) sch nulls →
  storable sch (row_cells sch row nulls) → (∀ b n, T b n → db_tables b !! nm = Some t) →
  hoare (tidy T) (SqlRDBWrite drv (Some nm) (Some row) nulls)
    (λ r s, if res_ok r then tidy (written nm sch t (row_cells sch row nulls) T) s
            else other_code r = true ∧ tidy (hurting T) s).
Proof.
  intros Hf Hw Hd Hrow Hst HT. set (Q := λ r : SqlRDBResult, _).
  assert (gives_up T id Q) as Hg by (intros r s Hr Hs; unfold Q, id; by destruct r).
  pose proof (row_cells_typed _ _ row _ Hrow) as Hty. pose proof (Forall2_length _ _ _ Hty) as Hl.
  apply valid_or_tidy; [intros s Hs; split; [done|by apply tidy_hurting]|].
  eapply hoare_bind; [apply lock_tidy|]. intros ?. apply with_schema_tidy with sch; [done|done|].
  apply with_sql_tidy with sch; [by eapply write_query_fits|by apply write_proper|done|done|].
  intros Hok. apply with_stmt_tidy; [done|]. intros stmt owned.
  eapply bind_fetched; [by apply bind_row_means| |].
  - intros r Hr. apply (release_gives_up T stmt owned _ id); [done|done|]. intros _. apply hurting_intro.
  - cbn [app]. eapply hoare_bind; [apply first_step; by apply (write_runnable nm)|]. intros [r b]. cbn [fst snd].
    apply hoare_pure'. intros Hcode.
    set (T' := if res_ok r then written nm sch t (row_cells sch row nulls) T else hurting T).
    apply (hoare_pre (borrowed stmt owned (λ _, T'))).
    + apply (write_tail _ _ _ T'); [by intros ???; apply any_intro|]. intros s. unfold Q, T'.
      destruct (res_ok r) eqn:Er; [done|]. split; [by apply plain_other'|done].
    + intros s Hs. unfold T'. destruct (res_ok r); [|done]. destruct Hs as (rows & _ & _ & Hs).
      eapply borrowed_mono; [|exact Hs]. intros cu b1 n (Hwr & _). by apply wrote_written.
Qed.

(** ** Searching *)

(** The rows of the table a condition selects. *)
Definition chosen (c : option SqlRDBCondition) (rows : list Row) : list Row :=
  filter (λ r, selects sql_cmp (args_fun (where_cells c)) 0 (where_of c) r) rows.

(** A condition one may search the table for. *)
Definition searchable (t : Table) (c : option SqlRDBCondition) : Prop :=
  cond_small c ∧ where_plain c ∧ where_proper c ∧ Forall sql_exact (where_cells c) ∧
  where_typed t (args_fun (where_cells c)) 0 (where_of c).

(** That depends on the columns only. *)
Lemma pred_typed_kinds t t' args n p : t_kinds t' = t_kinds t → pred_typed t args n p → pred_typed t' args n p.
Proof.
  intros Hk. revert n. induction p as [c op|p IHp q IHq|p IHp q IHq]; intros n; cbn [pred_typed];
    [by rewrite Hk|..]; (intros [Hp Hq]; split; [by apply IHp|by apply IHq]).
Qed.

Lemma searchable_kinds t t' c : t_kinds t' = t_kinds t → searchable t c → searchable t' c.
Proof.
  intros Hk (H1 & H2 & H3 & H4 & H5). split_and!; try done.
  destruct (where_of c); [by eapply pred_typed_kinds|done].
Qed.

Definition search_op (op : C2SqlQBOp) : Prop :=
  op = C2SQL_QB_SELECT ∨ op = C2SQL_QB_COUNT ∨ op = C2SQL_QB_DELETE.

Lemma search_fits t nm sch op c :
  found R nm sch → searchable t c → search_op op → spec_fits (query drv op sch c None) sch.
Proof.
  intros Hf (Hs & Hp & _) Hop. eapply select_fits; [done| |done]. split; [done|].
  destruct c; [by apply cond_plain_ok|done].
Qed.

Lemma search_proper t sch op c : searchable t c → search_op op → spec_proper (query drv op sch c None) sch.
Proof. intros (_ & _ & Hw & _) [->|[->| ->]]; by split_and!. Qed.

Lemma search_runnable nm sch op c t (T : Db → Z → Prop) :
  found R nm sch → search_op op → searchable t c → declared t sch →
  sql_ok (qb_sql (query drv op sch c None) sch) → (∀ b n, T b n → db_tables b !! nm = Some t) →
  runnable drv ctx (qb_sql (query drv op sch c None) sch) (where_cells c) t T.
Proof.
  intros (_ & Hn & _) Hop (_ & _ & Hw & Hex & Hty) [Hd _] Hok HT.
  assert (Z.of_nat (length (where_cells c)) = where_holes (where_of c)) as Hl.
  { rewrite length_where_cells. destruct (where_of_print (drv_dialect drv) c 0 Hw) as [_ H]. lia. }
  unfold runnable, qb_sql, query in *. cbn [q_op q_cond] in *.
  destruct Hop as [->|[->| ->]]; cbn [sql_holes sql_typed sql_table] in *; rewrite Hn in *; split_and!; try done.
  apply Forall_forall. intros n (col & -> & Hin)%list_elem_of_fmap.
  rewrite Forall_forall in Hd. destruct (Hd col Hin) as (k & Hk & _). by exists k.
Qed.

(** What the three operations have in common: the condition is bound, the
    statement runs once. *)
Lemma search_tidy {A} nm sch op c t (T : Db → Z → Prop) (ret : SqlRDBResult → A) k Q :
  found R nm sch → search_op op → searchable t c → declared t sch →
  (∀ b n, T b n → db_tables b !! nm = Some t) → gives_up T ret Q →
  let q := qb_sql (query drv op sch c None) sch in
  (∀ stmt owned, sql_ok q → runnable drv ctx q (where_cells c) t T →
    hoare (borrowed stmt owned (holding T (sql_print (drv_dialect drv) q) (where_cells c))) (k stmt owned) Q) →
  hoare (tidy T) (with_sql (query drv op sch c None) ret (λ sql, with_stmt drv sql ret (λ stmt owned,
    r ← h_db (bind_where drv stmt c 1);
    if negb (res_ok r) then release_ret drv stmt owned (ret r) else k stmt owned))) Q.
Proof.
  intros Hf Hop Hs Hd HT Hg q Hk.
  apply with_sql_tidy with sch; [by eapply search_fits|by eapply search_proper|done|done|].
  intros Hok. apply with_stmt_tidy; [done|]. intros stmt owned.
  eapply (bind_fetched stmt owned T _ (where_cells c) _ _ (λ _, k stmt owned)).
  - intros _. apply (bind_where_means drv ctx stmt c 0). apply Hs.
  - intros r Hr. apply (release_gives_up T); [done|done|]. intros _. apply hurting_intro.
  - apply Hk; [done|]. by apply (search_runnable nm).
Qed.

(** ** Counting *)

Definition count_post (t : Table) c T (x : SqlRDBResult * option Z) (s : HState D) : Prop :=
  if res_ok x.1 then tidy T s ∧ x.2 = Some (Z.of_nat (length (chosen c (t_rows t))))
  else other_code x.1 = true ∧ x.2 = None ∧ tidy (hurting T) s.

Lemma count_tidy nm sch c t (T : Db → Z → Prop) :
  found R nm sch → searchable t c → declared t sch → (∀ b n, T b n → db_tables b !! nm = Some t) →
  hoare (tidy T) (SqlRDBCount drv (Some nm) c) (count_post t c T).
Proof.
  intros Hf Hs Hd HT. set (none r := (r, None) : SqlRDBResult * option Z).
  assert (gives_up T none (count_post t c T)) as Hg.
  { intros r s Hr Hst. unfold count_post, none. cbn [fst snd]. by destruct r. }
  apply valid_or_tidy; [intros s Hst; apply Hg; [done|by apply tidy_hurting]|].
  eapply hoare_bind; [apply lock_tidy|]. intros ?. apply with_schema_tidy with sch; [done|done|].
  apply (search_tidy nm sch _ c t T none (λ stmt owned, _)); [done|right; by left|done..|].
  intros stmt owned Hok Hrun. eapply hoare_bind; [by apply first_step|]. intros [r b]. cbn [fst snd].
  apply hoare_pure'. intros Hcode. destruct (res_ok r) eqn:Er; cbn [andb].
  - apply hoare_exists. intros rows. apply hoare_pure'. intros Hp. apply hoare_pure'. intros Hb.
    unfold query, qb_sql in Hp. cbn [q_op q_cond sql_effect ef_result] in Hp.
    apply Permutation_singleton_r in Hp as ->. subst b. cbn [negb bool_decide].
    set (cnt := Z.of_nat _). rewrite bool_decide_false by done. cbn [negb].
    eapply hoare_bind; [eapply (fetch_borrowed drv ctx V stmt owned (any T) _ [CInt cnt] [] 0); [apply int64_means|done]|].
    intros [r2 n]. apply hoare_pure'. cbn [fst snd]. intros [Hc2 Hn].
    eapply release_ret_tidy; [by intros cu b1 n1 (? & _)|].
    intros s Hst. unfold count_post. cbn [fst snd]. destruct (res_ok r2) eqn:Er2.
    + apply res_ok_true in Er2. specialize (Hn Er2 _ eq_refl). subst n. split; [done|].
      by rewrite (proj2 (Z.leb_le 0 cnt)) by (unfold cnt; lia).
    + split; [by apply plain_other'|]. split; [done|]. by apply tidy_hurting.
  - apply (release_gives_up T stmt owned _ none); [done|by apply plain_other'|done].
Qed.

(** ** Deleting *)

(** The rows that stay. *)
Definition spared (c : option SqlRDBCondition) (rows : list Row) : list Row :=
  filter (λ r, ¬ selects sql_cmp (args_fun (where_cells c)) 0 (where_of c) r) rows.

Definition deleted nm (t : Table) c (T : Db → Z → Prop) : Db → Z → Prop :=
  λ b n, ∃ b0 n0, T b0 n0 ∧ b = with_rows nm t (spared c (t_rows t)) b0 ∧
    n = Z.of_nat (length (chosen c (t_rows t))).

Definition delete_post nm (t : Table) c (out : bool) T (x : SqlRDBResult * option Z) (s : HState D) : Prop :=
  let n := Z.of_nat (length (chosen c (t_rows t))) in
  if res_ok x.1 then tidy (deleted nm t c T) s ∧ if out then (n ≤ INT_MAX → x.2 = Some n) else x.2 = None
  else other_code x.1 = true ∧ x.2 = None ∧ tidy (hurting T) s.

Lemma delete_tidy nm sch c t out (T : Db → Z → Prop) :
  found R nm sch → searchable t (Some c) → declared t sch → (∀ b n, T b n → db_tables b !! nm = Some t) →
  hoare (tidy T) (SqlRDBDelete drv (Some nm) (Some c) out) (delete_post nm t (Some c) out T).
Proof.
  intros Hf Hs Hd HT. set (none r := (r, None) : SqlRDBResult * option Z).
  assert (gives_up T none (delete_post nm t (Some c) out T)) as Hg.
  { intros r s Hr Hst. unfold delete_post, none. cbn [fst snd]. by destruct r. }
  apply valid_or_tidy; [intros s Hst; apply Hg; [done|by apply tidy_hurting]|].
  eapply hoare_bind; [apply lock_tidy|]. intros ?. apply with_schema_tidy with sch; [done|done|].
  apply (search_tidy nm sch _ (Some c) t T none (λ stmt owned, _)); [done|right; by right|done..|].
  intros stmt owned Hok Hrun. eapply hoare_bind; [by apply first_step|]. intros [r b]. cbn [fst snd].
  apply hoare_pure'. intros Hcode. destruct (res_ok r) eqn:Er; cbn [andb].
  - apply hoare_exists. intros rows. apply hoare_pure'. intros _. apply hoare_pure'. intros _.
    set (T' := deleted nm t (Some c) T).
    eapply hoare_bind; [apply (release_noted drv ctx V stmt owned _ T')|].
    + intros cu b1 n (Hw & _). unfold wrote, query, qb_sql in Hw. cbn [q_op q_cond sql_writes sql_effect ef_rows] in Hw.
      destruct Hw as (b0 & n0 & HT0 & -> & ->). exists b0, n0. split; [done|]. split; [|done].
      destruct Hf as (_ & <- & _). done.
    + intros ?. destruct out; cbn [andb].
      * apply noted_ctx. eapply hoare_bind.
        { apply (noted_asks drv ctx V T' (drv_changes drv ctx) (λ n m, 0 ≤ m ≤ INT_MAX → n = m)).
          intros d n d' E. by apply changes_means. }
        intros n. eapply hoare_pre; [apply (unlock_ret_tidy drv ctx V (λ b m, T' b m ∧ (0 ≤ m ≤ INT_MAX → n = m)))|by intros s ?%noted_tidy].
        intros s Hst. unfold delete_post. cbn [fst snd]. rewrite Er.
        pose proof Hst as (_ & _ & m & (b0 & n0 & _ & _ & Hn) & Hch). split.
        { eapply tidy_mono; [|exact Hst]. by intros b1 n1 [? _]. }
        intros Hmax. rewrite Hn in Hch. rewrite (Hch ltac:(lia)). by rewrite (proj2 (Z.leb_le 0 _)) by lia.
      * apply (hoare_pre (tidy T')); [|by intros s ?%noted_tidy]. apply unlock_ret_tidy. intros s Hst. unfold delete_post. cbn [fst snd]. by rewrite Er.
  - eapply hoare_bind; [apply (release_tidy drv ctx V stmt owned _ (hurting T)); intros _; apply any_intro|]. intros ?.
    apply unlock_ret_tidy. intros s. apply Hg. by apply plain_other'.
Qed.

End api.
