(* ===== verification/SqlRead.v ===== *)
(** * Operations on a handle: reading rows

    A query of one row and the iterator over many: the code tells how many
    rows the condition selects, and the caller's buffers show the row. *)

From Stdlib Require Import Ascii String Strings.Byte.
From coqutil Require Import Byte.
From S2P Require Import Prelude Types Support Driver StmtCache StmtCacheSpec StmtCacheProofs StmtCacheRefine.
From S2P Require Import StmtCacheTheorems Condition QueryBuilder QueryBuilderProofs Registry RegistryProofs.
From S2P Require Import SqlText SqlTextProofs TypeMapping TypeMappingProofs Relational Handle Api ApiProofs ApiSafety.
From S2P Require Import SqlHandle SqlBlocks SqlApi.
Import ErrorCtx Logger Mutex.

(** ** What the caller sees of a row *)

(** The bitmap has the bits of the NULL cells added. *)
Definition marks (cells : list Cell) (nulls nulls' : option (list byte)) : Prop :=
  match nulls, nulls' with
  | Some m, Some m' => ∀ i c, cells !! i = Some c → bit m' i = bit m i || is_null c
  | None, None => True
  | _, _ => False
  end.

(** Each member holds the value of its cell, cut off where it is too big. *)
Definition shows (plenty : Prop) (sch : SqlRDBSchema) (cells : list Cell) (row : list byte)
    (nulls : option (list byte)) (x : ReadOut) : Prop :=
  x.1.1 = (if existsb (λ x, too_big x.1 x.2) (zip (sch_cols sch) cells)
           then SQL_RDB_WARN_TRUNCATED else SQL_RDB_OK) ∧
  length x.1.2 = length row ∧
  (∀ i col c, sch_cols sch !! i = Some col → cells !! i = Some c →
     slice x.1.2 (Z.to_nat (col_offset col)) (length (payload col c)) = payload col c) ∧
  (plenty → marks cells nulls x.2).

Lemma row_read_shows plenty sch cells row nulls r row' nulls' :
  row_ok (Z.of_nat (length row)) sch nulls → Forall2 cell_typed (sch_cols sch) cells →
  row_read sch cells row nulls r row' nulls' → shows plenty sch cells row nulls (r, row', nulls').
Proof.
  intros Hrow Hty (-> & -> & ->). pose proof (row_ok_bits _ _ _ Hrow) as Hb. destruct Hrow as (Hlay & _).
  pose proof (layout_cells_ok _ _ _ Hlay Hty) as Hz. pose proof (Forall2_length _ _ _ Hty) as Hl.
  split; [done|]. split; [simpl; by rewrite length_store_all|]. split.
  - intros i col c Hi Hc. apply (store_all_member row _ i (col, c) Hz). by apply lookup_zip_Some.
  - intros _. destruct nulls as [m|]; [|done]. simpl. intros i c Hc. specialize (Hb m eq_refl).
    rewrite bit_mark_all by lia. by rewrite decide_True, Nat.sub_0_r, Hc by lia.
Qed.

(** Adding the marks of one bitmap to another. *)
Lemma or_loop_bits out tmp i k out' j :
  or_loop out tmp i k = Some out' → (j / 8 < i + k)%nat →
  bit out' j = bit out j || (if decide (i ≤ j / 8)%nat then bit tmp j else false).
Proof.
  revert out i. induction k as [|k IH]; intros out i E Hj; cbn [or_loop] in E.
  - injection E as <-. by rewrite decide_False, orb_false_r by lia.
  - apply option.bind_Some in E as (a & Ha & (b & Hb & E)%option.bind_Some).
    apply IH in E; [|lia]. rewrite E. clear IH E. unfold bit.
    destruct (decide (j / 8 = i)%nat) as [Hji|Hji].
    + rewrite Hji, list_lookup_insert_eq by (by eapply lookup_lt_Some). rewrite Ha, Hb.
      rewrite decide_False, orb_false_r, decide_True by lia.
      pose proof (byte.unsigned_range a). pose proof (byte.unsigned_range b).
      rewrite unsigned_lor_small by lia. by rewrite Z.lor_spec.
    + rewrite list_lookup_insert_ne by lia. destruct (decide (S i ≤ j / 8)%nat).
      * by rewrite decide_True by lia.
      * by rewrite decide_False by lia.
Qed.

Lemma bitmap_covers i n : Z.of_nat i < n → (i / 8 < Z.to_nat (SQL_RDB_NULL_BITMAP_BYTES n))%nat.
Proof.
  intros Hi. unfold SQL_RDB_NULL_BITMAP_BYTES. apply Nat.Div0.div_lt_upper_bound.
  pose proof (Z.div_mod (n + 7) 8 ltac:(done)). pose proof (Z.mod_pos_bound (n + 7) 8 ltac:(done)). lia.
Qed.

(** The copy of a temporary row and of its bitmap. *)
Lemma shows_copy plenty sch cells (row trow : list byte) (nulls tnulls0 : option (list byte)) rc trow' tnulls b row' nulls' :
  row_ok (Z.of_nat (length row)) sch nulls → Forall2 cell_typed (sch_cols sch) cells →
  0 ≤ b ≤ Z.of_nat (length row) → Z.of_nat (length trow) = Z.max b 1 →
  Forall (λ c, col_offset c + width c ≤ b) (sch_cols sch) →
  shows True sch cells trow tnulls0 (rc, trow', tnulls) →
  (plenty → tnulls0 = (λ _, replicate (Z.to_nat (SQL_RDB_NULL_BITMAP_BYTES (sch_col_count sch))) (byte.of_Z 0)) <$> nulls) →
  row' = set_slice row 0 (take (Z.to_nat b) trow') →
  (∀ m t, nulls = Some m → tnulls = Some t →
    ∃ m', nulls' = Some m' ∧ or_loop m t 0 (Z.to_nat (SQL_RDB_NULL_BITMAP_BYTES (sch_col_count sch))) = Some m') →
  (nulls = None → nulls' = None) →
  shows plenty sch cells row nulls (rc, row', nulls').
Proof.
  intros Hrow Hty Hb Htl Hends (Hrc & Hlen & Hcells & Hmarks) Hpl -> Hor Hnone. cbn [fst snd] in *.
  pose proof (Forall2_length _ _ _ Hty) as Hl.
  assert (length (take (Z.to_nat b) trow') = Z.to_nat b) as Htk by (rewrite length_take; lia).
  split; [done|]. split; [apply length_set_slice; lia|]. split.
  - intros i col c Hi Hc. cbn [fst snd]. specialize (Hcells i col c Hi Hc).
    assert (cell_typed col c) as Hct by (by eapply Forall2_lookup_lr in Hty).
    destruct Hrow as ([Hf _] & _). pose proof Hf as Hfi. eapply Forall_lookup_1 in Hfi as (? & ? & ? & ? & _); [|done].
    eapply Forall_lookup_1 in Hends; [|done]. pose proof (length_payload col c Hct ltac:(lia)) as Hp.
    rewrite <-Hcells at 2. apply list_eq. intros k. rewrite !lookup_slice. destruct (decide _) as [Hk|]; [|done].
    rewrite lookup_set_slice by lia. rewrite decide_True by lia. rewrite lookup_take_lt by lia. f_equal. lia.
  - intros Hp. specialize (Hpl Hp). subst tnulls0. specialize (Hmarks I). unfold marks in *. cbn [snd].
    destruct nulls as [m|]; simpl in Hmarks; [|by rewrite Hnone].
    destruct tnulls as [t|]; [|done]. destruct (Hor m t eq_refl eq_refl) as (m' & -> & Horl).
    intros i c Hc. assert (Z.of_nat i < sch_col_count sch) as Hi.
    { destruct Hrow as (_ & Hcnt & _). apply lookup_lt_Some in Hc. lia. }
    rewrite (or_loop_bits _ _ _ _ _ i Horl), decide_True by (pose proof (bitmap_covers i _ Hi); lia).
    rewrite (Hmarks i c Hc). f_equal. unfold bit at 1.
    destruct (replicate _ _ !! _) as [x|] eqn:Ex; [|done].
    apply lookup_replicate in Ex as [-> _]. change (byte.unsigned (byte.of_Z 0)) with 0. by rewrite Z.bits_0.
Qed.

Section reading.
Context {D : Type} (drv : SqlRDBDriver D) `{!DriverLaws drv} (ctx : ptr) `{!SqlLaws drv ctx}.
Context (V : Setting).

Local Abbreviation R := (st_registry V).
Local Abbreviation tidy := (tidy drv ctx V).
Local Abbreviation borrowed := (borrowed drv ctx V).
Local Abbreviation hurting := (hurting drv ctx).
Local Abbreviation shows := (shows (st_plenty V)).

(** The schema and the memory of the caller. *)
Definition buffers_ok (sch : SqlRDBSchema) (row : list byte) (nulls : option (list byte)) : Prop :=
  row_ok (Z.of_nat (length row)) sch nulls ∧ sizes_exact sch ∧ Z.of_nat (length row) < SIZE_MOD.

(** ** Reading the only row *)

Definition single_post (T : Db → Z → Prop) sch cells (rows : list (list Cell)) row nulls (x : ReadOut) (s : HState D) : Prop :=
  match x.1.1 with
  | SQL_RDB_OK | SQL_RDB_WARN_TRUNCATED => tidy T s ∧ rows = [] ∧ shows sch cells row nulls x
  | SQL_RDB_ERR_MULTIPLE_ROWS => tidy T s ∧ rows ≠ []
  | SQL_RDB_ERR_NOT_FOUND => False
  | _ => tidy (hurting T) s
  end.

Lemma single_post_other T sch cells rows row nulls r row' nulls' s :
  other_code r = true → tidy (hurting T) s → single_post T sch cells rows row nulls (r, row', nulls') s.
Proof. intros Hr Hs. by destruct r. Qed.

(** The bitmap of the temporary row. *)
Lemma tmp_null_borrowed stmt owned C (nulls : option (list byte)) (zeros : list byte) :
  hoare (borrowed stmt owned C)
    (match nulls with
     | None => mret None
     | Some _ => ok ← h_alloc malloc; mret (if ok : bool then Some zeros else None)
     end)
    (λ t s, ((t = None ∨ t = (λ _, zeros) <$> nulls) ∧ (st_plenty V → t = (λ _, zeros) <$> nulls)) ∧
      borrowed stmt owned C s).
Proof.
  destruct nulls as [m|]; [|apply hoare_ret; by auto].
  eapply hoare_bind; [apply malloc_borrowed|]. intros ok. apply hoare_ret. intros s [Hs Hok].
  split; [|done]. split; [by destruct ok; auto|]. intros Hp. by rewrite (Hok Hp).
Qed.

(** The end of the operation: the temporary buffers are copied. *)
Lemma single_copy_tidy T sch cells row trow nulls tnull rc trow' tnull' b :
  row_ok (Z.of_nat (length row)) sch nulls → Forall2 cell_typed (sch_cols sch) cells →
  0 ≤ b ≤ Z.of_nat (length row) → Z.of_nat (length trow) = Z.max b 1 →
  Forall (λ c, col_offset c + width c ≤ b) (sch_cols sch) →
  row_ok (Z.of_nat (length trow)) sch tnull → row_read sch cells trow tnull rc trow' tnull' →
  (st_plenty V → tnull =
    (λ _, replicate (Z.to_nat (SQL_RDB_NULL_BITMAP_BYTES (sch_col_count sch))) (byte.of_Z 0)) <$> nulls) →
  hoare (tidy T)
    (row' ← mdef (write_at row 0 (take (Z.to_nat b) trow'));
     nulls' ← match nulls, tnull' with
              | Some m, Some t =>
                  m ← mdef (or_loop m t 0 (Z.to_nat (SQL_RDB_NULL_BITMAP_BYTES (sch_col_count sch)))); mret (Some m)
              | _, _ => mret nulls
              end;
     unlock_ret (rc, row', nulls'))
    (single_post T sch cells [] row nulls).
Proof.
  intros Hrow Hty Hb Htl Hends Hread Hx Hpl.
  pose proof (row_read_shows True _ _ _ _ _ _ _ Hread Hty Hx) as Hsh. destruct Hsh as (Hrc & Hl & Hsh).
  cbn [fst snd] in Hl.
  eapply (hoare_bind _ _ (λ y s, tidy T s ∧ y = set_slice row 0 (take (Z.to_nat b) trow'))).
  { eapply hoare_post; [apply hoare_def|]. intros y s [Hs E]. split; [done|].
    rewrite write_at_slice in E by (rewrite ?length_take; lia). by injection E. }
  intros y. apply hoare_pure. intros ->.
  eapply (hoare_bind _ _ (λ y s, ((∀ m t, nulls = Some m → tnull' = Some t → ∃ m', y = Some m' ∧
    or_loop m t 0 (Z.to_nat (SQL_RDB_NULL_BITMAP_BYTES (sch_col_count sch))) = Some m') ∧
    (nulls = None → y = None)) ∧ tidy T s)).
  { destruct nulls as [m|]; [|apply hoare_ret; naive_solver].
    destruct tnull' as [t|]; [|by apply hoare_ret; intros s Hs; split; [split; [intros ? ? _ [=]|]|]].
    eapply hoare_bind; [apply hoare_def|]. intros m'. apply hoare_ret. intros s [Hs E].
    split; [|done]. split; [|done]. intros ? ? [= <-] [= <-]. by exists m'. }
  intros y. apply hoare_pure'. intros [Hor Hnone]. apply unlock_ret_tidy. intros s Hs.
  assert (shows sch cells row nulls (rc, set_slice row 0 (take (Z.to_nat b) trow'), y)) as H.
  { eapply (shows_copy _ sch cells row trow nulls tnull rc trow' tnull' b); done. }
  assert (rc = SQL_RDB_OK ∨ rc = SQL_RDB_WARN_TRUNCATED) as [-> | ->]; [|done|done].
  cbn [fst] in Hrc. rewrite Hrc. destruct (existsb _ _); auto.
Qed.

Lemma read_single_tidy stmt owned T q sch cells rows row nulls :
  sql_ok q → sql_writes q = false → schema_ok sch → buffers_ok sch row nulls →
  Forall2 cell_typed (sch_cols sch) cells →
  hoare (borrowed stmt owned (running (any T) (sql_print (drv_dialect drv) q) (cells :: rows)))
    (read_single drv stmt owned sch row nulls) (single_post T sch cells rows row nulls).
Proof.
  intros Hok Hw (_ & Hcnt & Hrange & _) (Hrow & Hsz & Hlen) Hty. pose proof Hrow as ([Hf _] & _ & _ & Hbm).
  destruct (buf_size_loop_spec _ (sch_cols sch) 0 (Z.to_nat (sch_col_count sch)) 0 Hf Hsz Hlen)
    as (b & Hb & Hbr & Hends); [lia|lia|]. rewrite drop_0 in Hends.
  pose proof (bitmap_pos (sch_col_count sch) ltac:(lia)) as Hbp.
  unfold read_single. eapply hoare_bind; [apply hoare_def|]. intros x.
  apply hoare_pure. rewrite Hb. intros [= <-].
  assert (∀ r C, other_code r = true → (∀ cu b1 n, C cu b1 n → hurting T b1 n) →
    hoare (borrowed stmt owned C) (release_ret drv stmt owned (r, row, nulls)) (single_post T sch cells rows row nulls)) as Hrel.
  { intros r C Hr HC. eapply release_ret_tidy; [intros cu b1 n H; by apply any_intro, (HC cu)|]. intros s. by apply single_post_other. }
  eapply hoare_bind; [apply malloc_borrowed|]. intros ok. apply (hoare_pre (borrowed stmt owned
    (running (any T) (sql_print (drv_dialect drv) q) (cells :: rows)))); [|by intros s [? _]].
  destruct ok; cbn [negb]; [|apply Hrel; [done|by intros cu b1 n (? & _); apply hurting_intro]].
  set (nm := SQL_RDB_NULL_BITMAP_BYTES (sch_col_count sch)) in *.
  rewrite (proj2 (Z.eqb_neq nm 0)) by lia. set (zeros := replicate (Z.to_nat nm) (byte.of_Z 0)).
  set (trow := replicate (Z.to_nat (if b =? 0 then 1 else b)) (byte.of_Z 0)).
  assert (Z.of_nat (length trow) = Z.max b 1) as Hltrow.
  { unfold trow. rewrite length_replicate. destruct (Z.eqb_spec b 0); lia. }
  pose proof (tmp_row_ok _ b sch nulls Hrow ltac:(lia) Hends) as Htmp. fold nm zeros in Htmp.
  eapply hoare_bind; [apply (tmp_null_borrowed stmt owned _ nulls zeros)|]. intros tnull.
  apply hoare_pure'. intros [Htn Hpl].
  assert (row_ok (Z.of_nat (length trow)) sch tnull) as Hread.
  { rewrite Hltrow. destruct Htn as [->| ->]; [|done]. destruct Htmp as (? & ? & ? & _). by split_and!. }
  eapply hoare_bind; [by apply read_borrowed|]. intros [[rc trow'] tnull']. cbn [fst snd].
  apply hoare_pure. intros Hx.
  destruct (negb (res_ok rc) && negb (bool_decide (rc = SQL_RDB_WARN_TRUNCATED))) eqn:Erc.
  { assert (other_code rc = true) as Hother.
    { destruct Hx as [(-> & _)|[Hp Hne]]; [by destruct (existsb _ _)|by apply plain_other]. }
    apply Hrel; [done|]. intros cu b1 n (? & _). by apply hurting_intro. }
  destruct Hx as [Hx|[Hp Hne]]; [|by destruct rc].
  clear Erc.
  eapply hoare_bind; [by apply next_step|]. intros [r has]. cbn [fst snd]. apply hoare_pure'. intros Hcode.
  destruct (res_ok r) eqn:Er; cbn [negb orb]; apply hoare_pure'; intros ->.
  - eapply hoare_bind; [by apply (release_tidy drv ctx V stmt owned _ T); intros cu b1 n (? & _)|]. intros ?.
    case_bool_decide as Hrows; cbn [negb].
    + subst rows. by eapply (single_copy_tidy T sch cells row trow nulls tnull).
    + apply unlock_ret_tidy. by intros s Hs.
  - eapply hoare_bind; [apply (release_tidy drv ctx V stmt owned _ (hurting T)); intros _; apply any_intro|]. intros ?.
    apply unlock_ret_tidy. intros s. apply single_post_other. by apply plain_other'.
Qed.

(** ** Reading the row a condition selects *)

(** The cells of a row are of the kinds of their columns. *)
Definition row_typed (t : Table) (r : Row) : Prop :=
  ∀ col k, t_kinds t !! col = Some k → of_kind k (cell_at r col) = true.

Definition cells_of (sch : SqlRDBSchema) (r : Row) : list Cell := cell_at r <$> col_names sch.

Lemma cells_of_typed t sch r :
  declared t sch → row_typed t r → Forall2 cell_typed (sch_cols sch) (cells_of sch r).
Proof.
  intros [Hd _] Hr. unfold cells_of, col_names. rewrite Forall2_fmap_r, Forall2_fmap_r.
  apply Forall_Forall2_diag. eapply Forall_impl; [exact Hd|]. intros col (k & Hk & Hkind).
  specialize (Hr _ _ Hk). change (cell_typed col (cell_at r (col_name col))).
  destruct (cell_at r (col_name col)); simpl; destruct (col_type col), k; simpl in *; try done; auto.
Qed.

Definition is_multi (opts : option SqlRDBReadOpts) : bool :=
  match opts with Some o => allow_multi o | None => false end || (cfg_multirow_default (st_config V) =? 1).

Definition read_post (T : Db → Z → Prop) t sch c (multi : bool) row nulls (x : ReadOut) (s : HState D) : Prop :=
  let l := chosen drv ctx c (t_rows t) in
  match x.1.1 with
  | SQL_RDB_OK | SQL_RDB_WARN_TRUNCATED => tidy T s ∧
      ∃ r, r ∈ l ∧ (multi = false → l = [r]) ∧ shows sch (cells_of sch r) row nulls x
  | SQL_RDB_ERR_NOT_FOUND => tidy T s ∧ l = []
  | SQL_RDB_ERR_MULTIPLE_ROWS => tidy T s ∧ (2 ≤ length l)%nat ∧ multi = false
  | _ => tidy (hurting T) s
  end.

(** The rows of a query are the chosen ones in some order. *)
Lemma result_rows sch (rows : list (list Cell)) (l : list Row) :
  rows ≡ₚ cells_of sch <$> l →
  match rows with
  | [] => l = []
  | cells :: rest => ∃ r, r ∈ l ∧ cells = cells_of sch r ∧ length l = S (length rest) ∧ (rest = [] → l = [r])
  end.
Proof.
  intros Hp. pose proof (Permutation_length Hp) as Hl. rewrite length_fmap in Hl.
  destruct rows as [|cells rest]; simpl in Hl; [by destruct l|].
  assert (cells ∈ cells_of sch <$> l) as (r & -> & Hr)%list_elem_of_fmap by (rewrite <-Hp; left).
  exists r. split_and!; [done|done|done|]. intros ->. simpl in Hl.
  destruct l as [|r' [|]]; simpl in Hl; try lia. apply list_elem_of_singleton in Hr. by subst.
Qed.

(** The rest of the operation when there is a row. *)
Lemma read_found stmt owned T q t sch c r rest (multi : bool) row nulls :
  sql_ok q → sql_writes q = false → schema_ok sch → buffers_ok sch row nulls →
  Forall2 cell_typed (sch_cols sch) (cells_of sch r) →
  r ∈ chosen drv ctx c (t_rows t) → length (chosen drv ctx c (t_rows t)) = S (length rest) →
  (rest = [] → chosen drv ctx c (t_rows t) = [r]) →
  hoare (borrowed stmt owned (running (any T) (sql_print (drv_dialect drv) q) (cells_of sch r :: rest)))
    (if multi then
       out ← h_read row nulls (c2sql_internal_tm_read_row drv stmt (Some sch)); release_ret drv stmt owned out
     else read_single drv stmt owned sch row nulls)
    (read_post T t sch c multi row nulls).
Proof.
  intros Hok Hw Hsch Hbuf Hct Hin Hlen Honly. destruct multi.
  - pose proof Hbuf as (Hrow & _ & _). eapply hoare_bind; [by apply read_borrowed|].
    intros [[rc row'] nulls']. cbn [fst snd]. apply hoare_pure. intros Hx.
    eapply release_ret_tidy; [by intros cu b1 n (? & _)|]. intros s Hs.
    destruct Hx as [Hx|[Hp Hne]].
    + pose proof (row_read_shows (st_plenty V) _ _ _ _ _ _ _ Hrow Hct Hx) as Hsh. unfold read_post.
      destruct Hx as (-> & _). cbn [fst]. destruct (existsb _ _); (split; [done|]); by exists r.
    + apply tidy_hurting in Hs. unfold read_post. cbn [fst]. by destruct rc.
  - eapply hoare_post; [by apply read_single_tidy|]. intros [[rc row'] nulls'] s.
    unfold single_post, read_post. cbn [fst snd].
    destruct rc; try done; try (intros (Hs & -> & Hsh); split; [done|]; exists r; by auto).
    intros [Hs Hne]. split; [done|]. split; [|done]. destruct rest; [done|]. simpl in Hlen. lia.
Qed.

Lemma read_tidy nm sch c t (T : Db → Z → Prop) row nulls opts :
  found R nm sch → searchable drv ctx t c → declared t sch → Forall (row_typed t) (t_rows t) →
  (∀ b n, T b n → db_tables b !! nm = Some t) → buffers_ok sch row nulls →
  hoare (tidy T) (SqlRDBRead drv (Some nm) c (Some row) nulls opts)
    (read_post T t sch c (is_multi opts) row nulls).
Proof.
  intros Hf Hs Hd Hty HT Hbuf. set (Q := read_post T t sch c (is_multi opts) row nulls).
  set (same r := (r, row, nulls) : ReadOut).
  assert (gives_up drv ctx V T same Q) as Hg by (intros r s Hr Hst; unfold Q, read_post, same; by destruct r).
  apply valid_or_tidy; [intros s Hst; apply Hg; [done|by apply tidy_hurting]|].
  eapply hoare_bind; [apply lock_tidy|]. intros ?. apply with_schema_tidy with sch; [done|done|].
  eapply hoare_bind; [apply hoare_gets|]. intros h. cbn beta.
  apply (hoare_pre (λ s, tidy T s ∧ h_config h = st_config V)).
  2:{ intros s [Hst ->]. split; [done|]. by destruct Hst as [(_ & _ & _ & Hcfg & _) _]. }
  apply hoare_pure. intros ->. fold (is_multi opts).
  apply (search_tidy drv ctx V nm sch _ c t T same (λ stmt owned, _)); [done|by left|done..|].
  intros stmt owned Hok Hrun. eapply hoare_bind; [by apply first_step|]. intros [r b]. cbn [fst snd].
  apply hoare_pure'. intros Hcode. destruct (res_ok r) eqn:Er; cbn [negb].
  2:{ apply (release_gives_up drv ctx V T stmt owned _ same); [done|by apply plain_other'|done]. }
  apply hoare_exists. intros rows. apply hoare_pure'. intros Hp. apply hoare_pure'. intros ->.
  change (rows ≡ₚ cells_of sch <$> chosen drv ctx c (t_rows t)) in Hp. apply result_rows in Hp.
  set (q := qb_sql (query drv C2SQL_QB_SELECT sch c None) sch) in *.
  change (wrote q t _ T) with (any T). destruct rows as [|cells rest].
  { rewrite bool_decide_true by done. cbn [negb].
    eapply release_ret_tidy; [by intros cu b1 n (? & _)|]. by intros s Hst. }
  destruct Hp as (r0 & Hin & -> & Hlen & Honly). rewrite bool_decide_false by done. cbn [negb].
  assert (Forall2 cell_typed (sch_cols sch) (cells_of sch r0)) as Hct.
  { apply (cells_of_typed t); [done|]. rewrite Forall_forall in Hty. apply Hty.
    by apply list_elem_of_filter in Hin as [_ Hin]. }
  apply (read_found stmt owned T q); try done. by destruct Hf.
Qed.

(** ** Reading the rows one after the other *)

Definition select_sql (sch : SqlRDBSchema) (c : option SqlRDBCondition) : Sql :=
  qb_sql (query drv C2SQL_QB_SELECT sch c None) sch.

(** The statement of an iterator over the rows [c] selects in [t]: those in
    [seen] were given, in this order. *)
Definition iterating (T : Db → Z → Prop) sch c t (seen : list Row) : Cursor → Db → Z → Prop := λ cu b n,
  let sql := sql_print (drv_dialect drv) (select_sql sch c) in
  (seen = [] ∧ holding T sql (where_cells c) cu b n) ∨
  ∃ cur rest, running (any T) sql (cells_of sch cur :: (cells_of sch <$> rest)) cu b n ∧
    last seen = Some cur ∧ seen ++ rest ≡ₚ chosen drv ctx c (t_rows t).

(** What an iterator relies on. *)
Definition iterable (nm : string) sch c t (T : Db → Z → Prop) : Prop :=
  found R nm sch ∧ declared t sch ∧ Forall (row_typed t) (t_rows t) ∧
  sql_ok (select_sql sch c) ∧ runnable drv ctx (select_sql sch c) (where_cells c) t T.

Definition many_post (nm : string) sch c t T (x : SqlRDBResult * option SqlRDBStmt) (s : HState D) : Prop :=
  match x.2 with
  | Some it => x.1 = SQL_RDB_OK ∧ schema_at R (it_schema it) = Some sch ∧ iterable nm sch c t T ∧
      borrowed (it_raw_stmt it) true (iterating T sch c t []) s
  | None => other_code x.1 = true ∧ tidy (hurting T) s
  end.

Lemma read_many_tidy nm sch c t (T : Db → Z → Prop) :
  found R nm sch → searchable drv ctx t c → declared t sch → Forall (row_typed t) (t_rows t) →
  (∀ b n, T b n → db_tables b !! nm = Some t) →
  hoare (tidy T) (SqlRDBReadMany drv (Some nm) c) (many_post nm sch c t T).
Proof.
  intros Hf Hs Hd Hty HT. set (none r := (r, None) : SqlRDBResult * option SqlRDBStmt).
  assert (gives_up drv ctx V T none (many_post nm sch c t T)) as Hg by done.
  apply valid_or_tidy; [intros s Hst; apply Hg; [done|by apply tidy_hurting]|].
  eapply hoare_bind; [apply lock_tidy|]. intros ?. apply with_schema_tidy with sch; [done|done|].
  apply with_sql_tidy with sch; [by eapply search_fits; eauto; left|by eapply search_proper; eauto; left|done|done|].
  fold (select_sql sch c). intros Hok. apply with_prepared_tidy; [done|]. intros raw.
  assert (∀ r, other_code r = true → hoare (borrowed raw true (λ _, any T)) (finalize_ret drv raw (none r)) (many_post nm sch c t T))
    as Hfin by (intros r Hr; apply (finalize_gives_up drv ctx V T raw _ none); [done|done|intros _; apply hurting_intro]).
  eapply (bind_fetched drv ctx V raw true T _ (where_cells c)); [| |].
  - intros _. apply (bind_where_means drv ctx raw c 0). apply Hs.
  - exact Hfin.
  - eapply hoare_bind; [apply malloc_borrowed|]. intros ok. apply hoare_pure. intros _.
    destruct ok; cbn [negb].
    2:{ eapply hoare_pre; [by apply Hfin|]. intros s. apply borrowed_mono. by intros cu b n (? & _). }
    set (P := borrowed raw true (holding T (sql_print (drv_dialect drv) (select_sql sch c)) (where_cells c))).
    eapply (hoare_bind _ _ (λ reg s, P s ∧ reg = R)).
    { eapply hoare_post; [apply hoare_gets|]. intros reg s [HP ->]. split; [done|]. by destruct HP as [(_ & ? & _) _]. }
    intros reg. apply hoare_pure. intros ->.
    eapply (hoare_bind _ _ (λ p s, P s ∧ schema_at R p = Some sch)).
    { eapply hoare_post; [apply hoare_def|]. intros p s [HP E]. split; [done|].
      apply lookup_name in E as (sch' & Hp & Hn' & Hin'). rewrite Hp. f_equal. destruct Hf as (_ & Hn & Hin).
      eapply entry_unique; [|done|done|congruence]. by destruct HP as [(_ & _ & ? & _) _]. }
    intros p. apply hoare_pure. intros Hp. apply unlock_ret_borrowed. intros s Hst.
    split; [done|]. split; [done|]. split.
    + split; [done|]. split; [done|]. split; [done|]. split; [done|]. apply (search_runnable drv ctx V nm); try done. by left.
    + eapply borrowed_mono; [|exact Hst]. intros cu b n H. by left.
Qed.

Lemma borrowed_or stmt owned (C1 C2 : Cursor → Db → Z → Prop) s :
  borrowed stmt owned (λ cu b n, C1 cu b n ∨ C2 cu b n) s → borrowed stmt owned C1 s ∨ borrowed stmt owned C2 s.
Proof.
  intros (Hb & Hc & Hn & cu & Hcu & [H|H]); [left|right]; (split; [done|]); (split; [done|]); (split; [done|]); by exists cu.
Qed.

Lemma borrowed_exists {A} stmt owned (C : A → Cursor → Db → Z → Prop) s :
  borrowed stmt owned (λ cu b n, ∃ a, C a cu b n) s → ∃ a, borrowed stmt owned (C a) s.
Proof.
  intros (Hb & Hc & Hn & cu & Hcu & [a H]). exists a. split; [done|]. split; [done|]. split; [done|]. by exists cu.
Qed.

Lemma borrowed_pure stmt owned (C : Cursor → Db → Z → Prop) (φ : Prop) s :
  borrowed stmt owned (λ cu b n, C cu b n ∧ φ) s → borrowed stmt owned C s ∧ φ.
Proof.
  intros (Hb & Hc & Hn & cu & Hcu & [H Hφ]). split; [|done]. split; [done|]. split; [done|]. split; [done|]. by exists cu.
Qed.

(** A step of the statement takes one more row. *)
Definition step_post T sch c t raw seen (x : SqlRDBResult * bool) (s : HState D) : Prop :=
  let l := chosen drv ctx c (t_rows t) in
  plain_code x.1 = true ∧
  if res_ok x.1 then
    if x.2 then ∃ r rest, (seen ++ [r]) ++ rest ≡ₚ l ∧ borrowed raw true
        (running (any T) (sql_print (drv_dialect drv) (select_sql sch c)) (cells_of sch r :: (cells_of sch <$> rest))) s
    else seen ≡ₚ l ∧ borrowed raw true (λ _, any T) s
  else borrowed raw true (λ _, hurting T) s.

(** The two kinds of steps end the same way. *)
Lemma step_post_rows T sch c t raw seen rest r b s :
  plain_code r = true → seen ++ rest ≡ₚ chosen drv ctx c (t_rows t) →
  (if res_ok r then b = negb (bool_decide (cells_of sch <$> rest = [])) ∧ borrowed raw true
     (running (any T) (sql_print (drv_dialect drv) (select_sql sch c)) (cells_of sch <$> rest)) s
   else borrowed raw true (λ _, hurting T) s) →
  step_post T sch c t raw seen (r, b) s.
Proof.
  intros Hcode Hp H. split; [done|]. cbn [fst snd]. destruct (res_ok r); [|done]. destruct H as [-> Hs].
  destruct rest as [|r0 rest]; simpl.
  - split; [by rewrite app_nil_r in Hp|]. eapply borrowed_mono; [|exact Hs]. by intros cu b n (? & _).
  - exists r0, rest. split; [by rewrite <-app_assoc|done].
Qed.

Lemma iter_step nm T sch c t raw seen :
  iterable nm sch c t T →
  hoare (borrowed raw true (iterating T sch c t seen)) (h_step drv raw) (step_post T sch c t raw seen).
Proof.
  intros (Hf & Hd & Hty & Hok & Hrun) s [r b] s' [Hs|Hs]%borrowed_or E.
  - assert (borrowed raw true (holding T (sql_print (drv_dialect drv) (select_sql sch c)) (where_cells c)) s ∧ seen = [])
      as [Hs' ->] by (apply borrowed_pure; eapply borrowed_mono; [|exact Hs]; by intros cu b1 n [??]).
    destruct (first_step drv ctx V raw true T _ _ t Hrun s _ s' Hs' E) as [Hcode H]. cbn [fst snd] in *.
    change (wrote (select_sql sch c) t _ T) with (any T) in H.
    change (ef_result _) with (cells_of sch <$> chosen drv ctx c (t_rows t)) in H.
    destruct (res_ok r) eqn:Er.
    + destruct H as (rows & Hp & -> & Hb). apply Permutation_map_inv in Hp as (rest & -> & Hp).
      apply (step_post_rows _ _ _ _ _ _ rest); [done|by rewrite Hp|]. by rewrite Er.
    + apply (step_post_rows _ _ _ _ _ _ (chosen drv ctx c (t_rows t))); [done|done|]. by rewrite Er.
  - apply borrowed_exists in Hs as [cur Hs]. apply borrowed_exists in Hs as [rest Hs].
    apply (borrowed_pure _ _ (running _ _ _)) in Hs as [Hs [Hlast Hp]].
    destruct (next_step drv ctx V raw true T _ _ _ Hok eq_refl s _ s' Hs E) as [Hcode H]. cbn [fst snd] in *.
    apply (step_post_rows _ _ _ _ _ _ rest); [done|done|]. destruct (res_ok r); [done|]. by destruct H.
Qed.

Definition next_post T sch c t raw seen row nulls (x : ReadOut) (s : HState D) : Prop :=
  match x.1.1 with
  | SQL_RDB_OK | SQL_RDB_WARN_TRUNCATED =>
      ∃ r, borrowed raw true (iterating T sch c t (seen ++ [r])) s ∧ shows sch (cells_of sch r) row nulls x
  | SQL_RDB_ERR_NOT_FOUND => borrowed raw true (λ _, any T) s ∧ seen ≡ₚ chosen drv ctx c (t_rows t)
  | _ => borrowed raw true (λ _, hurting T) s
  end.

Lemma next_tidy nm T sch c t it seen row nulls :
  iterable nm sch c t T → schema_at R (it_schema it) = Some sch → row_ok (Z.of_nat (length row)) sch nulls →
  hoare (borrowed (it_raw_stmt it) true (iterating T sch c t seen))
    (SqlRDBStmtNext drv (Some it) (Some row) nulls)
    (next_post T sch c t (it_raw_stmt it) seen row nulls).
Proof.
  intros Hit Hat Hrow. set (raw := it_raw_stmt it). unfold SqlRDBStmtNext.
  eapply hoare_bind; [apply lock_borrowed|]. intros ?.
  eapply hoare_bind; [by eapply iter_step|]. intros [r b]. apply hoare_pure'. cbn [fst snd]. intros Hcode.
  assert (∀ C r, (∀ cu b n, C cu b n → hurting T b n) → other_code r = true →
    hoare (borrowed raw true C) (unlock_ret (r, row, nulls)) (next_post T sch c t raw seen row nulls)) as Hbad.
  { intros C r' HC Hr. apply unlock_ret_borrowed. intros s Hs.
    apply (borrowed_mono _ _ _ _ _ _ (λ _, hurting T)) in Hs; [|done]. unfold next_post. by destruct r'. }
  destruct (res_ok r) eqn:Er; cbn [negb]; [|by apply Hbad; [done|by apply plain_other']].
  destruct b; cbn [negb].
  2:{ apply hoare_pure'. intros Hp. apply unlock_ret_borrowed. intros s Hs. by split. }
  apply hoare_exists. intros cur. apply hoare_exists. intros rest. apply hoare_pure'. intros Hp.
  pose proof Hit as (_ & Hd & Hty & _).
  assert (Forall2 cell_typed (sch_cols sch) (cells_of sch cur)) as Hct.
  { apply (cells_of_typed t); [done|]. rewrite Forall_forall in Hty. apply Hty.
    assert (cur ∈ chosen drv ctx c (t_rows t)) as Hin by (rewrite <-Hp; set_solver).
    by apply list_elem_of_filter in Hin as [_ Hin]. }
  set (P := borrowed _ _ _). eapply (hoare_bind _ _ (λ reg s, P s ∧ reg = R)).
  { eapply hoare_post; [apply hoare_gets|]. intros reg s [HP ->]. split; [done|]. by destruct HP as [(_ & ? & _) _]. }
  intros reg. apply hoare_pure. intros ->. rewrite Hat. eapply (hoare_bind _ _ (λ x s, P s ∧ x = sch)).
  { eapply hoare_post; [apply hoare_def|]. by intros x s [HP [= <-]]. }
  intros x. apply hoare_pure. intros ->. eapply hoare_bind; [by apply read_borrowed|].
  intros [[rc row'] nulls']. apply hoare_pure. cbn [fst snd]. intros Hx. apply unlock_ret_borrowed. intros s Hs.
  destruct Hx as [Hx|[Hpc Hne]].
  - pose proof (row_read_shows (st_plenty V) _ _ _ _ _ _ _ Hrow Hct Hx) as Hsh. unfold next_post.
    assert (∃ r, borrowed raw true (iterating T sch c t (seen ++ [r])) s ∧ shows sch (cells_of sch r) row nulls (rc, row', nulls')) as H.
    { exists cur. split; [|done]. eapply borrowed_mono; [|exact Hs]. intros cu b n Hrun. right. exists cur, rest.
      split; [done|]. split; [by rewrite last_snoc|done]. }
    destruct Hx as (Hrc & _). cbn [fst]. by destruct rc; try (by destruct (existsb _ _)).
  - apply (borrowed_mono _ _ _ _ _ _ (λ _, hurting T)) in Hs; [|by intros cu b n (? & _); apply hurting_intro].
    unfold next_post. cbn [fst]. by destruct rc.
Qed.

End reading.
