(* ===== verification/SqlTables.v ===== *)
(** * Tables and their keys

    Well-formed tables: every value has the kind of its column, and no two rows
    have the same primary key.  An upsert keeps it so, and afterwards exactly
    one row has the key of the new one, with all its values. *)

From Stdlib Require Import Ascii String Strings.Byte.
From S2P Require Import Prelude Types Support Driver StmtCacheSpec Condition QueryBuilder QueryBuilderProofs.
From S2P Require Import Registry RegistryProofs SqlText SqlTextProofs TypeMapping TypeMappingProofs Relational.
From S2P Require Import Handle Api ApiSafety SqlHandle SqlBlocks SqlApi SqlRead.

(** ** Cells of rows *)

Lemma cell_at_new cols cells i col c :
  NoDup cols → length cols = length cells → cols !! i = Some col → cells !! i = Some c →
  cell_at (new_row cols cells) col = c.
Proof.
  intros Hnd Hl Hi Hc. unfold cell_at, new_row. rewrite (elem_of_list_to_map_1 (M := gmap string) _ col c); [done| |].
  - by rewrite fst_zip by lia.
  - apply list_elem_of_lookup. exists i. by apply lookup_zip_Some.
Qed.

Lemma new_row_other cols cells col : col ∉ cols → new_row cols cells !! col = None.
Proof.
  intros Hc. apply not_elem_of_list_to_map_1. intros (x & -> & Hx)%list_elem_of_fmap. apply Hc.
  destruct x as [y z]. by apply elem_of_zip_l in Hx.
Qed.

Lemma new_row_in cols cells col :
  length cols = length cells → col ∈ cols → is_Some (new_row cols cells !! col).
Proof.
  intros Hl Hc. destruct (new_row cols cells !! col) eqn:E; [done|].
  apply not_elem_of_list_to_map_2 in E. by rewrite fst_zip in E by lia.
Qed.

Lemma cells_of_new (sch : SqlRDBSchema) cells :
  NoDup (col_names sch) → length (col_names sch) = length cells → cells_of sch (new_row (col_names sch) cells) = cells.
Proof.
  intros Hnd Hl. apply list_eq. intros i. unfold cells_of. rewrite list_lookup_fmap.
  destruct (col_names sch !! i) as [col|] eqn:E; simpl.
  - pose proof (lookup_lt_Some _ _ _ E). destruct (lookup_lt_is_Some_2 cells i ltac:(lia)) as [c Hc].
    rewrite Hc. f_equal. by eapply cell_at_new.
  - apply lookup_ge_None in E. symmetry. apply lookup_ge_None. lia.
Qed.

(** The row that an upsert changes has the new values of the columns it sets. *)
Lemma cell_at_set sets new r col :
  (∀ c, c ∈ sets → is_Some (new !! c)) →
  cell_at (set_cells sets new r) col = if decide (col ∈ sets) then cell_at new col else cell_at r col.
Proof.
  intros Hs. unfold cell_at, set_cells. rewrite lookup_union, map_lookup_filter. case_decide as Hc.
  - destruct (Hs col Hc) as [c ->]. cbn [mbind option_bind]. rewrite option_guard_True by done.
    by destruct (r !! col).
  - destruct (new !! col); cbn [mbind option_bind]; [rewrite option_guard_False by done|]; by destruct (r !! col).
Qed.

(** ** Well-formed tables *)

Definition keys (key : string) (rows : list Row) : list Cell := (λ r, cell_at r key) <$> rows.

Definition key_ok (t : Table) (key : string) : Prop :=
  (∃ k, t_kinds t !! key = Some k ∧ k ≠ KReal) ∧
  Forall (λ c, c ≠ CNull) (keys key (t_rows t)) ∧ NoDup (keys key (t_rows t)).

Definition table_ok (t : Table) : Prop :=
  Forall (row_typed t) (t_rows t) ∧ ∀ key, t_key t = Some key → key_ok t key.

Lemma filter_iff_in {A} (P1 P2 : A → Prop) `{!∀ x, Decision (P1 x), !∀ x, Decision (P2 x)} (l : list A) :
  (∀ x, x ∈ l → P1 x ↔ P2 x) → filter P1 l = filter P2 l.
Proof.
  induction l as [|x l IH]; intros HP; [done|].
  assert (filter P1 l = filter P2 l) as E by (apply IH; intros y Hy; apply HP; by right).
  destruct (decide (P1 x)) as [Hx|Hx].
  - rewrite !filter_cons_True; [by rewrite E| |done]. apply HP; [by left|done].
  - rewrite !filter_cons_False; [done| |done]. intros Hp. apply Hx, HP; [by left|done].
Qed.

(** One row has a key. *)
Lemma filter_unique {A B} `{!EqDecision B} (f : A → B) (l : list A) x :
  NoDup (f <$> l) → x ∈ l → filter (λ y, f y = f x) l = [x].
Proof.
  induction l as [|y l IH]; intros Hnd Hx; [by apply elem_of_nil in Hx|].
  apply NoDup_cons in Hnd as [Hy Hnd]. apply elem_of_cons in Hx as [->|Hx].
  - rewrite filter_cons_True by done. f_equal. apply list.elem_of_nil_inv. intros z Hz.
    apply list_elem_of_filter in Hz as [Hz Hin]. apply Hy. rewrite <-Hz. by apply list_elem_of_fmap_2.
  - rewrite filter_cons_False; [by apply IH|]. intros E. apply Hy. rewrite E. by apply list_elem_of_fmap_2.
Qed.

Section upsert.
Context {D : Type} (drv : SqlRDBDriver D) `{!DriverLaws drv} (ctx : ptr) `{!SqlLaws drv ctx}.

(** For keys of a table, equal is the same. *)
Lemma same_key_eq t key new r :
  table_ok t → t_key t = Some key → row_typed t new → cell_at new key ≠ CNull → r ∈ t_rows t →
  same_key sql_cmp key new r = bool_decide (cell_at r key = cell_at new key).
Proof.
  intros [Hty Hkey] Hk Hnew Hnn Hr. destruct (Hkey key Hk) as ((k & Hkind & Hne) & Hnull & _).
  unfold same_key. apply (cmp_eq k); [done| | | |done].
  - rewrite Forall_forall in Hty. by apply (Hty r Hr).
  - by apply Hnew.
  - rewrite Forall_forall in Hnull. apply Hnull. by apply (list_elem_of_fmap_2 (λ r, cell_at r key)).
Qed.

Lemma upsert_eq t key sets new :
  table_ok t → t_key t = Some key → row_typed t new → cell_at new key ≠ CNull →
  upsert sql_cmp key sets new (t_rows t) =
    if decide (cell_at new key ∈ keys key (t_rows t))
    then (λ r, if decide (cell_at r key = cell_at new key) then set_cells sets new r else r) <$> t_rows t
    else t_rows t ++ [new].
Proof.
  intros Ht Hk Hnew Hnn. unfold upsert.
  assert (∀ r, r ∈ t_rows t → same_key sql_cmp key new r = bool_decide (cell_at r key = cell_at new key)) as Hsk
    by (intros r Hr; by eapply same_key_eq).
  destruct (existsb _ _) eqn:Ex.
  - apply existsb_exists in Ex as (r & Hr%list_elem_of_In & E). rewrite Hsk in E by done.
    apply bool_decide_eq_true in E. rewrite decide_True.
    2:{ rewrite <-E. by apply (list_elem_of_fmap_2 (λ r, cell_at r key)). }
    apply list_fmap_ext. intros i x Hi. apply list_elem_of_lookup_2 in Hi. rewrite Hsk by done.
    by repeat case_decide || case_bool_decide.
  - rewrite decide_False; [done|]. intros (r & E & Hr)%list_elem_of_fmap.
    apply not_true_iff_false in Ex. apply Ex, existsb_exists. exists r. split; [by apply list_elem_of_In|].
    rewrite Hsk by done. by apply bool_decide_eq_true.
Qed.

Section row.
Context (t : Table) (key : string) (sets : list string) (new : Row).
Hypotheses (Ht : table_ok t) (Hk : t_key t = Some key) (Hnew : row_typed t new)
  (Hnn : cell_at new key ≠ CNull) (Hsets : ∀ c, c ∈ sets → is_Some (new !! c)) (Hkey : key ∉ sets).

Local Abbreviation rows' := (upsert sql_cmp key sets new (t_rows t)).

(** A changed row keeps its key. *)
Lemma set_cells_key r : cell_at (set_cells sets new r) key = cell_at r key.
Proof. by rewrite cell_at_set, decide_False. Qed.

Lemma keys_upsert :
  keys key rows' = if decide (cell_at new key ∈ keys key (t_rows t)) then keys key (t_rows t)
                   else keys key (t_rows t) ++ [cell_at new key].
Proof.
  rewrite upsert_eq by done. case_decide; unfold keys.
  - rewrite <-list_fmap_compose. apply list_fmap_ext. intros i r _. simpl.
    case_decide; [apply set_cells_key|done].
  - by rewrite fmap_app.
Qed.

Lemma upsert_typed : Forall (row_typed t) rows'.
Proof.
  destruct Ht as [Hty _]. rewrite upsert_eq by done. case_decide.
  - apply Forall_fmap. eapply Forall_impl; [exact Hty|]. intros r Hr. simpl. case_decide; [|done].
    intros col k Hc. rewrite cell_at_set by done. case_decide; auto.
  - apply Forall_app. split; [done|]. by constructor.
Qed.

Lemma upsert_table_ok : table_ok (MkTable (t_kinds t) (t_key t) rows').
Proof.
  split; [exact upsert_typed|]. intros key' Hk'. simpl in Hk'. rewrite Hk in Hk'. injection Hk' as <-.
  destruct Ht as [_ Hkeys]. destruct (Hkeys key Hk) as (Hkind & Hnull & Hnd). split; [done|].
  cbn [t_rows]. rewrite keys_upsert. case_decide; [done|]. split.
  - apply Forall_app. split; [done|]. by constructor.
  - apply NoDup_app. split; [done|]. split; [|apply NoDup_singleton]. set_solver.
Qed.

(** The row with the key of the new one. *)
Lemma upsert_unique : ∃ x, filter (λ r, same_key sql_cmp key new r) rows' = [x] ∧
  ∀ col, col = key ∨ col ∈ sets → cell_at x col = cell_at new col.
Proof.
  assert (∃ x, x ∈ rows' ∧ cell_at x key = cell_at new key ∧ ∀ col, col ∈ sets → cell_at x col = cell_at new col)
    as (x & Hx & Hxk & Hxs).
  { rewrite upsert_eq by done. case_decide as Hin.
    - apply list_elem_of_fmap in Hin as (r & E & Hr). exists (set_cells sets new r). split_and!.
      + apply list_elem_of_fmap. exists r. split; [|done]. by rewrite decide_True.
      + by rewrite set_cells_key.
      + intros col Hc. by rewrite cell_at_set, decide_True.
    - exists new. split_and!; [|done|done]. apply elem_of_app. right. by left. }
  exists x. split; [|intros col [->|Hc]; [done|by apply Hxs]].
  pose proof upsert_table_ok as [Hty' Hkeys']. destruct (Hkeys' key Hk) as (_ & _ & Hnd). cbn [t_rows] in *.
  rewrite <-(filter_unique (λ r, cell_at r key) rows' x Hnd Hx).
  apply filter_iff_in. intros r Hr. rewrite Hxk.
  rewrite (same_key_eq (MkTable (t_kinds t) (t_key t) rows') key new r) by done.
  by rewrite Is_true_true, bool_decide_eq_true.
Qed.
End row.

(** ** Writing a struct *)

Lemma names_nodup sch : schema_ok sch → NoDup (col_names sch).
Proof. by intros (_ & _ & _ & [Hnd _] & _). Qed.

Lemma other_names sch col :
  schema_ok sch → has_pk sch = true → col ∈ col_names sch → col = pk_name sch ∨ col ∈ col_name <$> other_cols sch.
Proof.
  intros (_ & _ & _ & _ & [[Hpk _]|(i & c & Hi & Hc & _)]) Hp (x & -> & Hx)%list_elem_of_fmap.
  { unfold has_pk in Hp. rewrite Hpk in Hp. by vm_compute in Hp. }
  unfold pk_name, other_cols. rewrite Hi, Nat2Z.id, Hc.
  apply list_elem_of_lookup in Hx as [j Hj]. destruct (decide (j = i)) as [->|Hne]; [left; congruence|].
  right. apply (list_elem_of_fmap_2 col_name). apply list_elem_of_lookup. rewrite delete_take_drop.
  pose proof (lookup_lt_Some _ _ _ Hc). pose proof (lookup_lt_Some _ _ _ Hj).
  destruct (decide (j < i)%nat) as [Hlt|Hge].
  - exists j. rewrite lookup_app_l by (rewrite length_take; lia). by rewrite lookup_take_lt by lia.
  - exists (pred j). rewrite lookup_app_r by (rewrite length_take; lia). rewrite lookup_drop, length_take.
    by replace (S i + (pred j - i `min` length (sch_cols sch)))%nat with j by lia.
Qed.

Lemma pk_not_other sch : schema_ok sch → has_pk sch = true → pk_name sch ∉ col_name <$> other_cols sch.
Proof.
  intros Hs Hp (x & E & Hx)%list_elem_of_fmap. pose proof (names_nodup sch Hs) as Hnd. unfold col_names in Hnd.
  destruct Hs as (_ & _ & _ & _ & [[Hpk _]|(i & c & Hi & Hc & _)]).
  { unfold has_pk in Hp. rewrite Hpk in Hp. by vm_compute in Hp. }
  unfold pk_name, other_cols in *. rewrite Hi, Nat2Z.id in *. rewrite Hc in E.
  rewrite delete_take_drop, elem_of_app in Hx.
  rewrite <-(take_drop_middle _ _ _ Hc), fmap_app, fmap_cons in Hnd.
  apply NoDup_app in Hnd as (_ & Hd & [Hn _]%NoDup_cons). destruct Hx as [Hx|Hx].
  - apply (Hd (col_name c)); [rewrite E; by apply list_elem_of_fmap_2|by left].
  - apply Hn. rewrite E. by apply list_elem_of_fmap_2.
Qed.

Section write.
Context (t : Table) (sch : SqlRDBSchema) (cells : list Cell).
Hypotheses (Hs : schema_ok sch) (Ht : table_ok t) (Hd : declared t sch)
  (Hty : Forall2 cell_typed (sch_cols sch) cells) (Hst : storable drv ctx sch cells).

Local Abbreviation new := (new_row (col_names sch) cells).

Lemma names_length : length (col_names sch) = length cells.
Proof. rewrite <-(Forall2_length _ _ _ Hty). apply length_fmap. Qed.

Lemma new_typed : row_typed t new.
Proof.
  intros col k Hk. destruct (decide (col ∈ col_names sch)) as [Hin|Hin].
  - apply list_elem_of_lookup in Hin as [i Hi]. pose proof (lookup_lt_Some _ _ _ Hi) as Hlt.
    rewrite names_length in Hlt. destruct (lookup_lt_is_Some_2 _ _ Hlt) as [c Hc].
    rewrite (cell_at_new _ _ i col c (names_nodup sch Hs) names_length Hi Hc).
    pose proof (declared_cells _ _ _ Hd Hty) as Hct. unfold cells_typed in Hct.
    destruct (Forall2_lookup_lr _ _ _ _ _ _ Hct Hi Hc) as (k' & Hk' & Hof). by simplify_eq.
  - unfold cell_at. by rewrite new_row_other.
Qed.

Definition written_table : Table := MkTable (t_kinds t) (t_key t) (put_row drv ctx sch cells (t_rows t)).

Lemma others_in_new c : c ∈ col_name <$> other_cols sch → is_Some (new !! c).
Proof. intros Hc. apply new_row_in; [apply names_length|]. by apply other_in_names. Qed.

Lemma written_table_ok : table_ok written_table.
Proof.
  unfold written_table, put_row. destruct Hd as [_ Hkey]. destruct Hst as [_ Hnn].
  destruct (has_pk sch) eqn:Ep; rewrite ?Hkey.
  - rewrite <-Hkey. apply upsert_table_ok; try done; [apply new_typed|by apply Hnn|apply others_in_new|by apply pk_not_other].
  - split; [|done]. destruct Ht as [Htyped _]. apply Forall_app. split; [done|].
    constructor; [|constructor]. exact new_typed.
Qed.

(** Exactly one row has the key, and it is the row that was written. *)
Lemma written_unique :
  has_pk sch = true → ∃ x, filter (λ r, same_key sql_cmp (pk_name sch) new r) (t_rows written_table) = [x] ∧
    cells_of sch x = cells.
Proof.
  intros Ep. destruct Hd as [_ Hkey]. destruct Hst as [_ Hnn]. unfold written_table, put_row. rewrite Ep in *. cbn [t_rows].
  destruct (upsert_unique t (pk_name sch) (col_name <$> other_cols sch) new) as (x & Hx & Hcols);
    [done|done|apply new_typed|by apply Hnn|apply others_in_new|by apply pk_not_other|].
  exists x. split; [done|]. rewrite <-(cells_of_new sch cells (names_nodup sch Hs) names_length).
  unfold cells_of. apply list_fmap_ext. intros i col Hi. apply Hcols. apply other_names; [done..|].
  by eapply list_elem_of_lookup_2.
Qed.
End write.

(** The condition that asks for a key. *)
Lemma chosen_key key ty v new rows :
  value_cell v = cell_at new key →
  chosen drv ctx (Some (COND_LEAF key SQL_OP_EQ ty v)) rows = filter (λ r, same_key sql_cmp key new r) rows.
Proof. intros Hv. unfold chosen, same_key. simpl. by rewrite <-Hv. Qed.

(** What a deletion spared is not chosen. *)
Lemma chosen_spared c rows : chosen drv ctx c (spared drv ctx c rows) = [].
Proof.
  apply list.elem_of_nil_inv. intros r (Hr & (Hn & _)%list_elem_of_filter)%list_elem_of_filter. done.
Qed.

Lemma spared_table_ok t c : table_ok t → table_ok (MkTable (t_kinds t) (t_key t) (spared drv ctx c (t_rows t))).
Proof.
  intros [Hty Hkeys]. split.
  { apply Forall_forall. intros r Hr. rewrite Forall_forall in Hty. apply Hty. by apply list_elem_of_filter in Hr as [_ ?]. } intros key Hk. destruct (Hkeys key Hk) as (Hkind & Hnull & Hnd).
  split; [done|]. cbn [t_rows] in *.
  assert (sublist (keys key (spared drv ctx c (t_rows t))) (keys key (t_rows t))) as Hsub
    by apply fmap_sublist, sublist_filter.
  split; [|by eapply sublist_NoDup]. apply Forall_forall. intros x Hx. rewrite Forall_forall in Hnull.
  apply Hnull. by eapply elem_of_sublist.
Qed.
End upsert.
