(* ===== verification/SqlWriteMany.v ===== *)
(** * Writing many rows: all or none

    SqlRDBWriteMany opens a transaction of its own when none is open.  What is
    left in the tables: every row, or none for good. *)

From Stdlib Require Import Ascii String Strings.Byte.
From coqutil Require Import Byte.
From S2P Require Import Prelude Types Support Driver StmtCache StmtCacheSpec StmtCacheProofs StmtCacheRefine.
From S2P Require Import StmtCacheTheorems Condition QueryBuilder QueryBuilderProofs Registry RegistryProofs.
From S2P Require Import SqlText SqlTextProofs TypeMapping TypeMappingProofs Relational Handle Api ApiProofs ApiSafety.
From S2P Require Import SqlHandle SqlBlocks SqlApi.
Import ErrorCtx Logger Mutex.

(** ** The rows of a call *)

(** The cells of the struct number [i] of the memory. *)
Definition cells_at (sch : SqlRDBSchema) (rows : list byte) (stride : Z) (nulls : option (list byte)) (i : nat) : list Cell :=
  row_cells sch (drop (Z.to_nat (size_t (Z.of_nat i * stride))) rows)
    ((λ m, drop (Z.to_nat (size_t (Z.of_nat i * SQL_RDB_NULL_BITMAP_BYTES (sch_col_count sch)))) m) <$> nulls).

(** Those from [i] to [i + n - 1]. *)
Definition cells_from (sch : SqlRDBSchema) (rows : list byte) (stride : Z) (nulls : option (list byte)) (i n : nat) :
    list (list Cell) := cells_at sch rows stride nulls <$> seq i n.

(** ** Nothing is written for good *)

(** Outside of a transaction. *)
Definition settled (tb : Tables) : Db := MkDb tb [] false.

(** A transaction is open whose rollback leaves [tb]. *)
Definition undoable (tb : Tables) (b : Db) : Prop := db_frames b ≠ [] ∧ undo_all b = settled tb.

Definition unwritten (drops : Prop) (tb : Tables) (b : Db) : Prop := undoable tb b ∨ (drops ∧ b = settled tb).

Lemma unwritten_hurt drops tb b b' : unwritten drops tb b → hurt drops b b' → unwritten drops tb b'.
Proof.
  intros Hb [->|[Hf [->|[Hd ->]]]]; [done| |].
  - destruct Hb as [[_ Hu]|[_ ->]]; [|done]. by left.
  - right. split; [done|]. destruct Hb as [[_ Hu]|[_ ->]]; [done|done].
Qed.

Section many.
Context {D : Type} (drv : SqlRDBDriver D) `{!DriverLaws drv} (ctx : ptr) `{!SqlLaws drv ctx}.
Context (V : Setting).

Local Abbreviation R := (st_registry V).
Local Abbreviation tidy := (tidy drv ctx V).
Local Abbreviation borrowed := (borrowed drv ctx V).
Local Abbreviation hurting := (hurting drv ctx).

Definition put_all (sch : SqlRDBSchema) (l : list (list Cell)) (rows : list Row) : list Row :=
  foldl (λ rows cells, put_row drv ctx sch cells rows) rows l.

(** The table holds [rows], the rest is as [T] says. *)
Definition holding_rows nm t (rows : list Row) (T : Db → Z → Prop) : Db → Z → Prop :=
  λ b _, ∃ b0 n0, T b0 n0 ∧ b = with_rows nm t rows b0.

Definition some_rows nm t (T : Db → Z → Prop) : Db → Z → Prop :=
  λ b n, ∃ rows, holding_rows nm t rows T b n.

Lemma with_rows_twice nm t t' r1 r2 b :
  t_kinds t' = t_kinds t → t_key t' = t_key t → with_rows nm t' r2 (with_rows nm t r1 b) = with_rows nm t r2 b.
Proof. intros H1 H2. unfold with_rows. simpl. by rewrite insert_insert_eq, H1, H2. Qed.

(** ** The loop *)

Lemma reset_borrowed stmt owned C :
  hoare (borrowed stmt owned C) (h_db (drv_reset drv stmt))
    (λ _, borrowed stmt owned (λ cu b n, cu_rows cu = None ∧ ∃ cu0, C cu0 b n ∧ cu_sql cu = cu_sql cu0)).
Proof.
  apply (borrowed_db drv ctx V stmt owned _ _
    (λ _ cu b n, cu_rows cu = None ∧ ∃ cu0, C cu0 b n ∧ cu_sql cu = cu_sql cu0)). intros d cu a d' Hcu HC E.
  destruct (reset_means _ _ _ _ _ Hcu E) as ([Hdb Hch] & args & Hcs).
  exists (MkCursor (cu_sql cu) args None). split; [|split; [done|rewrite Hcs; apply moved_insert]].
  split; [done|]. exists cu. by rewrite Hdb, Hch.
Qed.

Lemma hurting_some nm t rows T b n : any (holding_rows nm t rows T) b n → hurting (some_rows nm t T) b n.
Proof. intros [m H]. apply hurting_intro. exists m. by exists rows. Qed.

Lemma write_rows_tidy nm sch t T stmt owned rows stride nulls n : ∀ i l,
  let q := qb_sql (write_spec drv sch) sch in
  let sql := sql_print (drv_dialect drv) q in
  found R nm sch → sql_ok q → declared t sch →
  (∀ j, (i ≤ j < i + n)%nat →
    row_ok (Z.of_nat (length (drop (Z.to_nat (size_t (Z.of_nat j * stride))) rows))) sch
      ((λ m, drop (Z.to_nat (size_t (Z.of_nat j * SQL_RDB_NULL_BITMAP_BYTES (sch_col_count sch)))) m) <$> nulls) ∧
    storable drv ctx sch (cells_at sch rows stride nulls j)) →
  hoare (borrowed stmt owned (fetched (holding_rows nm t l T) sql))
    (write_rows drv stmt sch rows stride nulls i n)
    (λ r s, if res_ok r
            then borrowed stmt owned (fetched (holding_rows nm t (put_all sch (cells_from sch rows stride nulls i n) l) T) sql) s
            else other_code r = true ∧ borrowed stmt owned (λ _, hurting (some_rows nm t T)) s).
Proof.
  induction n as [|n IH]; intros i l q sql Hf Hok Hd Hrow; cbn [write_rows]; [by apply hoare_ret|].
  destruct (Hrow i ltac:(lia)) as [Hri Hst]. set (cells := cells_at sch rows stride nulls i) in *.
  pose proof (row_cells_typed _ _ (drop (Z.to_nat (size_t (Z.of_nat i * stride))) rows) _ Hri) as Hty.
  change (row_cells sch _ _) with cells in Hty. pose proof (Forall2_length _ _ _ Hty) as Hl.
  eapply bind_fetched; [by apply bind_row_means| |].
  { intros r Hr. apply hoare_ret. intros s Hs. destruct (res_ok r) eqn:Er; [by destruct r|]. split; [done|].
    eapply borrowed_mono; [|exact Hs]. intros cu b m. apply hurting_some. }
  change (row_cells sch _ _) with cells. set (ti := MkTable (t_kinds t) (t_key t) l). set (Ti := holding_rows nm t l T).
  assert (runnable drv ctx q cells ti Ti) as Hrun.
  { apply (write_runnable drv ctx V nm); try done. intros b m (b0 & n0 & _ & ->). apply lookup_insert_eq. }
  eapply hoare_bind; [by apply first_step|]. intros [r b]. cbn [fst snd]. apply hoare_pure'. intros Hcode.
  destruct (res_ok r) eqn:Er.
  - apply hoare_exists. intros out. apply hoare_pure'. intros _. apply hoare_pure'. intros _.
    set (l' := put_row drv ctx sch cells l).
    eapply hoare_bind; [apply reset_borrowed|]. intros ?. cbn [negb].
    eapply hoare_pre; [apply (IH (S i) l'); try done; intros j Hj; apply Hrow; lia|].
    intros s. apply borrowed_mono. intros cu b1 m (Hnone & cu0 & (Hw & Hsql & _) & Hs0).
    split; [|by rewrite Hs0].
    apply (wrote_written drv ctx V nm sch ti cells Ti) in Hw as (b0 & n0 & (b2 & n2 & HT & ->) & -> & _); [|done|done].
    exists m, b2, n2. split; [done|]. by apply with_rows_twice.
  - eapply hoare_bind; [apply reset_borrowed|]. intros ?. cbn [negb]. apply hoare_ret. intros s Hs. rewrite Er.
    split; [by apply plain_other'|]. eapply borrowed_mono; [|exact Hs].
    intros cu b1 m (_ & _ & (b0 & n0 & H0 & Hh) & _). exists b0, n0. split; [by exists l|done].
Qed.

(** ** The transaction of the call *)

(** A command on the transaction while a statement is in use. *)
Lemma tx_borrowed stmt owned (P : Cursor → Prop) (T : Db → Z → Prop) (m : M D SqlRDBResult) after :
  (∀ cu rows, P cu → (cu_rows cu = None → rows = None) → P (MkCursor (cu_sql cu) (cu_args cu) rows)) →
  (∀ d, tx_means sql_view sql_drops m d after) →
  hoare (borrowed stmt owned (λ cu b n, T b n ∧ P cu)) (h_db m)
    (λ r, borrowed stmt owned (λ cu b' n', (∃ b n, T b n ∧ if res_ok r then after b b' else hurt sql_drops b b') ∧ P cu)).
Proof.
  intros HP Hm. apply (borrowed_db drv ctx V stmt owned _ _
    (λ r cu b' n', (∃ b n, T b n ∧ if res_ok r then after b b' else hurt sql_drops b b') ∧ P cu)).
  intros d cu r d' Hcu [HT Hp] E. destruct (Hm d r d' E) as [Hmv Hr].
  destruct (Hmv stmt cu Hcu) as (rows & Hcu' & Hnone). exists (MkCursor (cu_sql cu) (cu_args cu) rows).
  split; [|split; [done|]].
  - split; [|by apply HP]. by eexists _, _.
  - split; [done|]. intros q c _ Hq. destruct (Hmv q c Hq) as (rows' & Hq' & Hn'). by exists rows'.
Qed.

(** The transaction is begun on the tables [tb]. *)
Definition begun (tb : Tables) : Db := MkDb tb [(EmptyString, tb)] false.

Lemma with_rows_undoable nm t rows tb : undoable tb (with_rows nm t rows (begun tb)).
Proof. by split. Qed.

(** The end of the call: OK with all the rows [l], or nothing for good. *)
Definition all_or_none nm t (l : list Row) tb (r : SqlRDBResult) (b : Db) : Prop :=
  (r = SQL_RDB_OK ∧ b = settled (<[nm := MkTable (t_kinds t) (t_key t) l]> tb)) ∨ unwritten sql_drops tb b ∨
  (r ≠ SQL_RDB_OK ∧ b = settled tb).

Lemma hurting_unwritten nm t tb b n :
  hurting (some_rows nm t (λ b _, b = begun tb)) b n → unwritten sql_drops tb b.
Proof.
  intros (b0 & n0 & (rows & b1 & n1 & -> & ->) & Hh). eapply unwritten_hurt; [|exact Hh]. left. by apply with_rows_undoable.
Qed.

(** The commit or the rollback at the end. *)
Lemma end_tidy nm t l tb stmt owned sql r :
  hoare (λ s, if res_ok r then borrowed stmt owned (fetched (holding_rows nm t l (λ b _, b = begun tb)) sql) s
              else other_code r = true ∧ borrowed stmt owned (λ _, hurting (some_rows nm t (λ b _, b = begun tb))) s)
    (((if res_ok r then h_db (drv_commit drv ctx) else h_db (drv_rollback drv ctx));; mret tt);;
     release_ret drv stmt owned r)
    (λ r, tidy (λ b _, all_or_none nm t l tb r b)).
Proof.
  set (C := λ (_ : Cursor) b (_ : Z), all_or_none nm t l tb r b).
  eapply (hoare_bind _ _ (λ _, borrowed stmt owned C)).
  2:{ intros ?. apply (release_ret_tidy drv ctx V stmt owned C (λ b _, all_or_none nm t l tb r b)); [intros ???; apply any_intro|done]. }
  eapply (hoare_bind _ _ (λ _, borrowed stmt owned C)); [|intros ?; by apply hoare_ret].
  - destruct (res_ok r) eqn:Er.
    + apply res_ok_true in Er as ->. eapply hoare_conseq.
      { eapply (tx_borrowed stmt owned (λ _, True) (any (holding_rows nm t l (λ b _, b = begun tb)))); [done|apply commit_means]. }
      { intros s. apply borrowed_mono. by intros cu b n (? & _). }
      intros rc s. apply borrowed_mono. intros cu b n [(b0 & n0 & (? & b1 & n1 & -> & ->) & Hrc) _].
      destruct (res_ok rc).
      * left. split; [done|]. destruct Hrc as [_ Hrc]. by rewrite Hrc.
      * right; left. eapply unwritten_hurt; [|exact Hrc]. left. by apply with_rows_undoable.
    + apply hoare_pure'. intros Hcode. eapply hoare_conseq.
      { eapply (tx_borrowed stmt owned (λ _, True) (hurting (some_rows nm t (λ b _, b = begun tb)))); [done|apply rollback_means]. }
      { intros s. apply borrowed_mono. by intros cu b n ?. }
      intros rc s. apply borrowed_mono. intros cu b n [(b0 & n0 & Hh%hurting_unwritten & Hrc) _]. destruct (res_ok rc).
      * right; right. apply res_ok_false in Er. split; [done|]. destruct Hrc as [Hd Hrc].
        destruct Hh as [[Hfr Hu]|[Hdr ->]]; [by rewrite Hrc|by destruct (Hd Hdr)].
      * right; left. by eapply unwritten_hurt.
Qed.

Lemma write_many_tidy nm sch t tb rows count stride nulls :
  let T := λ b (_ : Z), b = settled tb in
  let l := put_all sch (cells_from sch rows stride nulls 0 (Z.to_nat count)) (t_rows t) in
  found R nm sch → writable sch → declared t sch → tb !! nm = Some t → tx_depth (st_txn V) = 0 →
  (∀ j, (j < Z.to_nat count)%nat →
    row_ok (Z.of_nat (length (drop (Z.to_nat (size_t (Z.of_nat j * stride))) rows))) sch
      ((λ m, drop (Z.to_nat (size_t (Z.of_nat j * SQL_RDB_NULL_BITMAP_BYTES (sch_col_count sch)))) m) <$> nulls) ∧
    storable drv ctx sch (cells_at sch rows stride nulls j)) →
  hoare (tidy T) (SqlRDBWriteMany drv (Some nm) (Some rows) count stride nulls)
    (λ r, tidy (λ b _, all_or_none nm t l tb r b)).
Proof.
  intros T l Hf Hw Hd Htb Hdepth Hrow. set (Q := λ r : SqlRDBResult, _).
  assert (∀ r s, r ≠ SQL_RDB_OK → tidy T s → Q r s) as Hquit.
  { intros r s Hr. apply tidy_mono. intros b n ->. right; by right. }
  assert (gives_up drv ctx V T id Q) as Hg.
  { intros r s Hr. apply tidy_mono. intros b n (b0 & n0 & -> & [->|[Hfr _]]); [|done]. right; right.
    unfold id. split; [by destruct r|done]. }
  apply valid_or_tidy; [intros s; by apply Hquit|].
  destruct ((count =? 0) || (stride =? 0)); [by apply hoare_ret; intros s; apply Hquit|].
  eapply hoare_bind; [apply lock_tidy|]. intros ?. apply with_schema_tidy with sch; [done|done|].
  apply with_sql_tidy with sch; [by eapply write_query_fits|by apply write_proper|done|done|].
  intros Hok. apply with_stmt_tidy; [done|]. intros stmt owned.
  eapply hoare_bind; [apply hoare_gets|]. intros h. cbn beta. set (sql := sql_print _ _).
  apply (hoare_pre (λ s, borrowed stmt owned (fetched T sql) s ∧ (h_driver_ctx h = ctx ∧ tx_depth (h_txn h) = 0))).
  2:{ intros s [Hs ->]. split; [done|]. by destruct Hs as [(Hc & _ & _ & _ & -> & _) _]. }
  apply hoare_pure. intros [-> ->]. cbn [Z.eqb].
  eapply hoare_bind.
  { eapply (tx_borrowed stmt owned (λ cu, cu_sql cu = sql ∧ cu_rows cu = None) (any T)); [|apply begin_means].
    intros cu rows' [Hsql Hnone] Hr. split; [done|]. by apply Hr. }
  intros br. destruct (res_ok br) eqn:Ebr; cbn [negb].
  2:{ apply (release_ret_tidy drv ctx V stmt owned _ (λ b _, all_or_none nm t l tb br b)); [|by intros s].
      intros cu b n [(b0 & n0 & [? Hb0] & Hh) _]. apply any_intro. change (b0 = settled tb) in Hb0. subst b0. rewrite Ebr in Hh.
      destruct Hh as [->|[Hfr _]]; [|done].
      right; right. by apply res_ok_false in Ebr. }
  eapply hoare_bind; [|intros r; apply (end_tidy nm t l tb stmt owned sql)].
  eapply hoare_conseq; [by apply (write_rows_tidy nm sch t (λ b _, b = begun tb) stmt owned rows stride nulls _ 0 (t_rows t));
    [..|intros j Hj; apply Hrow; lia]| |done].
  intros s. apply borrowed_mono. intros cu b n [(b0 & n0 & [? Hb0] & Hb) Hcu].
  change (b0 = settled tb) in Hb0. subst b0. rewrite Ebr in Hb. split; [|done].
  exists 0, (begun tb), 0. split; [done|]. rewrite Hb by done. unfold begun, with_rows, settled. simpl. f_equal.
  symmetry. apply insert_id. rewrite Htb. by destruct t.
Qed.
End many.
