(* ===== verification/Transactions.v ===== *)
(** * Transactions

    The state machine of SqlRDBBeginTx, SqlRDBCommitTx and SqlRDBRollbackTx:
    what each call asks of the driver at each depth, and that the three keep
    the invariant of the handle. *)

From Stdlib Require Import String Strings.Byte.
From S2P Require Import Prelude Types Support Driver MemDriver StmtCache StmtCacheSpec.
From S2P Require Import StmtCacheTheorems QueryBuilderProofs Registry RegistryProofs Handle Api.
From S2P Require Import ApiProofs.
Import ErrorCtx Logger Mutex.

(** ** The abstract machine

    A depth; a call sends at most two commands to the driver and moves the
    depth by at most one. *)

Inductive TxCall : Type := TxBegin | TxCommit | TxRollback.

#[global] Instance TxCall_eq_dec : EqDecision TxCall.
Proof. solve_decision. Defined.

Section machine.
Context {D : Type} (drv : SqlRDBDriver D).

(** The command for the new frame at depth [k] and the commands that end the
    frame at depth [k]. *)
Definition tx_open (ctx : ptr) (k : Z) : M D SqlRDBResult :=
  if k =? 1 then drv_begin drv ctx else drv_savepoint drv ctx (sp_name k).

Definition tx_keep (ctx : ptr) (k : Z) : M D SqlRDBResult :=
  if k =? 1 then drv_commit drv ctx else drv_release_sp drv ctx (sp_name k).

Definition tx_undo (ctx : ptr) (k : Z) : M D SqlRDBResult :=
  if k =? 1 then drv_rollback drv ctx
  else
    r ← drv_rollback_sp drv ctx (sp_name k);
    if res_ok r then drv_release_sp drv ctx (sp_name k) else mret r.

(** A call at depth [k]: the result and the new depth. *)
Definition abs_tx (c : TxCall) (ctx : ptr) (k : Z) : M D (SqlRDBResult * Z) :=
  match c with
  | TxBegin =>
      if C2SQL_MAX_TX_DEPTH <=? k then mret (SQL_RDB_ERR_NESTED_TX, k)
      else r ← tx_open ctx (k + 1); mret (r, if res_ok r then k + 1 else k)
  | TxCommit =>
      if k =? 0 then mret (SQL_RDB_ERR_NO_ACTIVE_TX, k)
      else r ← tx_keep ctx k; mret (r, if res_ok r then k - 1 else k)
  | TxRollback =>
      if k =? 0 then mret (SQL_RDB_ERR_NO_ACTIVE_TX, k)
      else r ← tx_undo ctx k; mret (r, if res_ok r then k - 1 else k)
  end.

Definition tx_call (c : TxCall) : M (HState D) SqlRDBResult :=
  match c with
  | TxBegin => SqlRDBBeginTx drv
  | TxCommit => SqlRDBCommitTx drv
  | TxRollback => SqlRDBRollbackTx drv
  end.

(** The savepoint names fit their 32 bytes. *)
Lemma sp_name_fits k : 2 ≤ k ≤ 16 → vsnprintf C2SQL_SP_NAME_LEN ("sp_" +:+ dec k) = sp_name k.
Proof.
  intros Hk. unfold vsnprintf, sp_name. apply substring_all. rewrite length_sapp.
  unfold dec. rewrite (proj2 (Z.ltb_ge _ _)) by lia.
  pose proof (length_dec_loop 20 k EmptyString 2 ltac:(change (10 ^ Z.of_nat 2) with 100; lia) ltac:(lia)) as H.
  change (Z.to_nat (C2SQL_SP_NAME_LEN - 1)) with 31%nat. cbn [String.length] in *. lia.
Qed.

Definition depth_of (s : HState D) : Z := tx_depth (h_txn (hs_h s)).

(** A locked handle with its transaction state replaced. *)
Definition with_txn (t : SqlRDBTxnState) (d : D) (s : HState D) : HState D :=
  MkH (set_h_txn t (hs_h s)) d (hs_alloc s) (hs_live s).

(** The parts of a handle that a transaction call leaves alone. *)
Definition same_rest (s s' : HState D) : Prop :=
  h_magic (hs_h s') = h_magic (hs_h s) ∧ h_config (hs_h s') = h_config (hs_h s) ∧
  h_driver_ctx (hs_h s') = h_driver_ctx (hs_h s) ∧ h_registry (hs_h s') = h_registry (hs_h s) ∧
  h_cache (hs_h s') = h_cache (hs_h s) ∧ h_logger (hs_h s') = h_logger (hs_h s) ∧
  hs_alloc s' = hs_alloc s ∧ hs_live s' = hs_live s.

Lemma same_rest_trans s1 s2 s3 : same_rest s1 s2 → same_rest s2 s3 → same_rest s1 s3.
Proof. unfold same_rest. intros; destruct_and!; split_and!; congruence. Qed.

(** What a call did to a handle: the driver went through [m] and the
    transaction state is consistent at the depth [m] gave. *)
Definition did (m : M D (SqlRDBResult * Z)) (s : HState D) (r : SqlRDBResult) (s' : HState D) : Prop :=
  m (hs_db s) = Some ((r, depth_of s'), hs_db s') ∧ txn_ok (h_txn (hs_h s')) ∧
  mutex_ok (h_mutex (hs_h s')) ∧ same_rest s s'.

Lemma lock_run (s : HState D) :
  mutex_ok (h_mutex (hs_h s)) →
  h_lock s = Some (tt, MkH (set_h_mutex (MkMutex (mtx_threadsafe (h_mutex (hs_h s))) true) (hs_h s))
    (hs_db s) (hs_alloc s) (hs_live s)).
Proof.
  unfold mutex_ok, h_lock, h_mtx, zoom, c2sql_internal_mutex_lock.
  destruct s as [h d al lv]. simpl. destruct h as [? ? ? ? ? ? ? ? m]. destruct m as [ts held]. simpl.
  intros ->. by destruct ts.
Qed.

Lemma unlock_ret_run {A} (a : A) (s : HState D) :
  mtx_held (h_mutex (hs_h s)) = true →
  unlock_ret a s = Some (a, MkH (set_h_mutex (MkMutex (mtx_threadsafe (h_mutex (hs_h s)))
    (negb (mtx_threadsafe (h_mutex (hs_h s))))) (hs_h s)) (hs_db s) (hs_alloc s) (hs_live s)).
Proof.
  unfold unlock_ret, mbind, M_bind, h_unlock, h_mtx, zoom, c2sql_internal_mutex_unlock.
  destruct s as [h d al lv]. simpl. destruct h as [? ? ? ? ? ? ? ? m]. destruct m as [ts held]. simpl.
  intros ->. by destruct ts.
Qed.

(** The end of each call: an error is recorded and the depth stays, or the
    depth moves. *)
Definition tx_finish (r : SqlRDBResult) (msg : string) (k' : Z) : M (HState D) SqlRDBResult :=
  if negb (res_ok r) then h_err r msg;; unlock_ret r
  else txn_set_depth k';; unlock_ret SQL_RDB_OK.

Lemma tx_finish_run r msg k' (s : HState D) :
  mtx_held (h_mutex (hs_h s)) = true →
  ∃ s', tx_finish r msg k' s = Some (r, s') ∧ hs_db s' = hs_db s ∧
    h_txn (hs_h s') = MkTxn (if res_ok r then k' else depth_of s) (tx_sp_names (h_txn (hs_h s))) ∧
    mutex_ok (h_mutex (hs_h s')) ∧ same_rest s s'.
Proof.
  intros Hm. unfold tx_finish, depth_of. destruct (res_ok r) eqn:Er; cbn [negb].
  - apply res_ok_true in Er as ->. unfold txn_set_depth, h_upd, mbind, M_bind.
    rewrite unlock_ret_run by done. eexists. split; [done|]. by split_and!.
  - unfold h_err, h_upd, mbind, M_bind. rewrite unlock_ret_run by done. eexists. split; [done|].
    split_and!; try done. simpl. by destruct (h_txn (hs_h s)).
Qed.

Lemma txn_top_run k (s : HState D) :
  txn_ok (h_txn (hs_h s)) → depth_of s = k → 2 ≤ k → txn_top s = Some (sp_name k, s).
Proof.
  intros (Hr & Hl & Hn) Hk H2. unfold txn_top, mbind, M_bind, mgets. unfold depth_of in Hk.
  rewrite (Hn (tx_depth (h_txn (hs_h s)))) by lia. by rewrite Hk.
Qed.

Lemma txn_ok_depth t k :
  txn_ok t → 0 ≤ k ≤ tx_depth t → txn_ok (MkTxn k (tx_sp_names t)).
Proof.
  intros (Hr & Hl & Hn) Hk. split_and!; simpl; try done; [lia|lia|]. intros j Hj. apply Hn. lia.
Qed.

Lemma txn_ok_push t k :
  txn_ok t → tx_depth t = k → 1 ≤ k < 16 →
  txn_ok (MkTxn (k + 1) (<[Z.to_nat k := sp_name (k + 1)]> (tx_sp_names t))) ∧
  txn_ok (MkTxn k (<[Z.to_nat k := sp_name (k + 1)]> (tx_sp_names t))).
Proof.
  intros (Hr & Hl & Hn) Hk Hk1. unfold txn_ok, C2SQL_MAX_TX_DEPTH. simpl. rewrite length_insert.
  split; (split_and!; [lia|lia|done|]); intros j Hj.
  - destruct (decide (j = k + 1)) as [->|].
    + rewrite Z.add_simpl_r. apply list_lookup_insert_eq. lia.
    + rewrite list_lookup_insert_ne by lia. apply Hn. lia.
  - rewrite list_lookup_insert_ne by lia. apply Hn. lia.
Qed.

(** The handle is valid, its mutex and its transaction state are in order. *)
Definition tx_ready (s : HState D) : Prop :=
  h_magic (hs_h s) = SQL_RDB_HANDLE_MAGIC ∧ mutex_ok (h_mutex (hs_h s)) ∧ txn_ok (h_txn (hs_h s)).

Lemma valid_run {A} (bad : A) k (s : HState D) :
  h_magic (hs_h s) = SQL_RDB_HANDLE_MAGIC → valid_or bad k s = k s.
Proof.
  intros H. unfold valid_or, mbind, M_bind, mgets, c2sql_handle_valid. by rewrite H, Z.eqb_refl.
Qed.

(** The driver command of a call, then the end of the call. *)
Lemma finish_did (m : M D SqlRDBResult) r d' msg k' names s s1 :
  m (hs_db s) = Some (r, d') →
  hs_db s1 = d' → mtx_held (h_mutex (hs_h s1)) = true →
  h_txn (hs_h s1) = MkTxn (depth_of s) names →
  txn_ok (MkTxn (if res_ok r then k' else depth_of s) names) →
  same_rest s s1 →
  ∃ s', tx_finish r msg k' s1 = Some (r, s') ∧
    did (r ← m; mret (r, if res_ok r then k' else depth_of s)) s r s'.
Proof.
  intros Em Hd Hm Ht Hok Hrest.
  destruct (tx_finish_run r msg k' s1 Hm) as (s' & E & Hdb & Ht' & Hm' & Hrest').
  exists s'. split; [done|]. unfold depth_of in Ht'. rewrite Ht in Ht'. simpl in Ht'.
  assert (depth_of s' = if res_ok r then k' else depth_of s) as Hdep
    by (unfold depth_of at 1; by rewrite Ht').
  unfold did. rewrite (bind_run _ _ _ _ _ Em), Hdep, Ht', Hdb, Hd.
  split_and!; try done. by eapply same_rest_trans.
Qed.

(** The state inside a call, and the beginning all three share. *)
Definition in_tx (s : HState D) : HState D :=
  MkH (set_h_mutex (MkMutex (mtx_threadsafe (h_mutex (hs_h s))) true) (hs_h s))
      (hs_db s) (hs_alloc s) (hs_live s).

Lemma tx_enter {A} (bad : A) k s :
  tx_ready s → valid_or bad (h_lock;; h ← mgets hs_h; k h) s = k (hs_h (in_tx s)) (in_tx s).
Proof.
  intros (Hv & Hm & _). rewrite valid_run by done. by rewrite (bind_run _ _ _ _ _ (lock_run s Hm)).
Qed.

Lemma in_tx_txn s : h_txn (hs_h (in_tx s)) = MkTxn (depth_of s) (tx_sp_names (h_txn (hs_h s))).
Proof. unfold depth_of. simpl. by destruct (h_txn (hs_h s)). Qed.

(** A driver command inside a call. *)
Lemma in_tx_db {A} (m : M D A) s a d' names :
  m (hs_db s) = Some (a, d') →
  h_db m (with_txn (MkTxn (depth_of s) names) (hs_db s) (in_tx s)) =
    Some (a, with_txn (MkTxn (depth_of s) names) d' (in_tx s)).
Proof. intros E. unfold h_db, zoom. simpl. by rewrite E. Qed.

Lemma in_tx_with s :
  in_tx s = with_txn (MkTxn (depth_of s) (tx_sp_names (h_txn (hs_h s)))) (hs_db s) (in_tx s).
Proof. unfold with_txn, depth_of, in_tx. simpl. by destruct (hs_h s) as [? ? ? ? ? [] ? ? ?]. Qed.

(** A call that is refused. *)
Lemma tx_refuse r s :
  tx_ready s →
  ∃ s', unlock_ret r (in_tx s) = Some (r, s') ∧ did (mret (r, depth_of s)) s r s'.
Proof.
  intros (_ & _ & Htx). rewrite unlock_ret_run by done. eexists. split; [done|]. by split_and!.
Qed.

Lemma begin_did s r k' d' :
  tx_ready s → abs_tx TxBegin (h_driver_ctx (hs_h s)) (depth_of s) (hs_db s) = Some ((r, k'), d') →
  ∃ s', SqlRDBBeginTx drv s = Some (r, s') ∧
    did (abs_tx TxBegin (h_driver_ctx (hs_h s)) (depth_of s)) s r s'.
Proof.
  intros Hrdy Habs. pose proof Hrdy as (_ & _ & Htx). pose proof Htx as ([H0 _] & Hlen & _).
  unfold SqlRDBBeginTx. rewrite tx_enter by done. unfold abs_tx in Habs |- *.
  change (tx_depth (h_txn (hs_h (in_tx s)))) with (depth_of s). fold (depth_of s) in H0.
  change (h_driver_ctx (hs_h (in_tx s))) with (h_driver_ctx (hs_h s)).
  cbv zeta. set (k := depth_of s) in *. unfold C2SQL_MAX_TX_DEPTH in *.
  destruct (Z.leb_spec 16 k) as [Hle|Hlt].
  { injection Habs as <- <- <-. unfold h_err, h_upd, mbind, M_bind.
    rewrite unlock_ret_run by done. eexists; split; [done|]. by split_and!. }
  apply bind_Some in Habs as (r0 & d0 & Em & Hret). injection Hret as -> <- <-.
  change (if negb (res_ok ?r) then h_err ?r ?m;; unlock_ret ?r else ?x) with (tx_finish r m (k + 1)).
  unfold tx_open in Em |- *. destruct (Z.eqb_spec k 0) as [E0|E0].
  - rewrite (proj2 (Z.eqb_eq (k + 1) 1)) in Em |- * by lia. rewrite (in_tx_with s).
    erewrite bind_run by (by apply in_tx_db).
    eapply finish_did; try done. fold k. destruct (res_ok r).
    + unfold txn_ok, C2SQL_MAX_TX_DEPTH. simpl. split_and!; try done; try lia.
    + apply (txn_ok_depth _ _ Htx). fold (depth_of s). fold k. lia.
  - rewrite (proj2 (Z.eqb_neq (k + 1) 1)) in Em |- * by lia.
    set (names := <[Z.to_nat k := sp_name (k + 1)]> (tx_sp_names (h_txn (hs_h s)))).
    assert (txn_name (k + 1 - 1) (k + 1) (in_tx s) =
      Some (sp_name (k + 1), with_txn (MkTxn k names) (hs_db s) (in_tx s))) as Hname.
    { destruct (lookup_lt_is_Some_2 (tx_sp_names (h_txn (hs_h s))) (Z.to_nat k)) as [x Hx]; [lia|].
      unfold txn_name. rewrite Z.add_simpl_r. simpl. rewrite Hx. change ("sp_" +:+ dec (k + 1)) with (sp_name (k + 1)).
      unfold sp_name at 1 2. rewrite sp_name_fits by lia. done. }
    erewrite bind_run by (erewrite bind_run by exact Hname; by apply in_tx_db).
    destruct (txn_ok_push _ k Htx eq_refl ltac:(lia)) as [Hp1 Hp2].
    eapply finish_did; try done. fold k. by destruct (res_ok r).
Qed.

(** The end of a frame: the part CommitTx and RollbackTx share. *)
Lemma end_did (m : M D SqlRDBResult) (cmd : M (HState D) SqlRDBResult) msg s r k' d' :
  tx_ready s → depth_of s ≠ 0 →
  (r ← m; mret (r, if res_ok r then depth_of s - 1 else depth_of s)) (hs_db s) = Some ((r, k'), d') →
  (∀ r d', m (hs_db s) = Some (r, d') → cmd (in_tx s) = Some (r, with_txn (h_txn (hs_h s)) d' (in_tx s))) →
  ∃ s', (r ← cmd; tx_finish r msg (depth_of s - 1)) (in_tx s) = Some (r, s') ∧
    did (r ← m; mret (r, if res_ok r then depth_of s - 1 else depth_of s)) s r s'.
Proof.
  intros (_ & _ & Htx) Hd Habs Hcmd. pose proof Htx as ([H0 _] & _).
  apply bind_Some in Habs as (r0 & d0 & Em & Hret). injection Hret as -> <- <-.
  erewrite bind_run by (by apply Hcmd). eapply finish_did; try done.
  - exact (in_tx_txn s).
  - apply txn_ok_depth; [done|]. fold (depth_of s) in *. destruct (res_ok r); lia.
Qed.

Lemma top_run s {A} (k : string → M (HState D) A) :
  tx_ready s → 2 ≤ depth_of s → (txn_top ≫= k) (in_tx s) = k (sp_name (depth_of s)) (in_tx s).
Proof. intros (_ & _ & Htx) H2. by rewrite (bind_run _ _ _ _ _ (txn_top_run (depth_of s) (in_tx s) Htx eq_refl H2)). Qed.

Lemma commit_did s r k' d' :
  tx_ready s → abs_tx TxCommit (h_driver_ctx (hs_h s)) (depth_of s) (hs_db s) = Some ((r, k'), d') →
  ∃ s', SqlRDBCommitTx drv s = Some (r, s') ∧
    did (abs_tx TxCommit (h_driver_ctx (hs_h s)) (depth_of s)) s r s'.
Proof.
  intros Hrdy Habs. pose proof Hrdy as (_ & _ & ([H0 _] & _)). fold (depth_of s) in H0.
  unfold SqlRDBCommitTx. rewrite tx_enter by done. unfold abs_tx in Habs |- *.
  change (tx_depth (h_txn (hs_h (in_tx s)))) with (depth_of s).
  change (h_driver_ctx (hs_h (in_tx s))) with (h_driver_ctx (hs_h s)). cbv zeta.
  destruct (Z.eqb_spec (depth_of s) 0) as [E0|E0]; [injection Habs as <- _ _; by apply tx_refuse|].
  eapply end_did; [done..|]. intros r' d1 Em. unfold tx_keep in Em.
  destruct (Z.eqb_spec (depth_of s) 1); [|rewrite top_run by (done || lia)];
    unfold h_db, zoom; simpl; by rewrite Em.
Qed.

Lemma rollback_did s r k' d' :
  tx_ready s → abs_tx TxRollback (h_driver_ctx (hs_h s)) (depth_of s) (hs_db s) = Some ((r, k'), d') →
  ∃ s', SqlRDBRollbackTx drv s = Some (r, s') ∧
    did (abs_tx TxRollback (h_driver_ctx (hs_h s)) (depth_of s)) s r s'.
Proof.
  intros Hrdy Habs. pose proof Hrdy as (_ & _ & ([H0 _] & _)). fold (depth_of s) in H0.
  unfold SqlRDBRollbackTx. rewrite tx_enter by done. unfold abs_tx in Habs |- *.
  change (tx_depth (h_txn (hs_h (in_tx s)))) with (depth_of s).
  change (h_driver_ctx (hs_h (in_tx s))) with (h_driver_ctx (hs_h s)). cbv zeta.
  destruct (Z.eqb_spec (depth_of s) 0) as [E0|E0]; [injection Habs as <- _ _; by apply tx_refuse|].
  eapply end_did; [done..|]. intros r' d1 Em. unfold tx_undo in Em.
  destruct (Z.eqb_spec (depth_of s) 1); [unfold h_db, zoom; simpl; by rewrite Em|].
  rewrite top_run by (done || lia). apply bind_Some in Em as (ra & da & Ea & Er).
  erewrite bind_run by (unfold h_db, zoom; simpl; rewrite Ea; done). destruct (res_ok ra).
  - unfold h_db, zoom. simpl. by rewrite Er.
  - injection Er as <- <-. done.
Qed.

Lemma tx_call_did c s r k' d' :
  tx_ready s →
  abs_tx c (h_driver_ctx (hs_h s)) (depth_of s) (hs_db s) = Some ((r, k'), d') →
  ∃ s', tx_call c s = Some (r, s') ∧
    did (abs_tx c (h_driver_ctx (hs_h s)) (depth_of s)) s r s'.
Proof. destruct c; [apply begin_did|apply commit_did|apply rollback_did]. Qed.
End machine.
