(* ===== verification/ApiOutputs.v ===== *)
(** * What the output parameters of the API hold

    The promises the header makes of the caller's memory: a read that fails
    leaves it alone, a blob is published only with OK, a count or a number of
    deleted rows is never negative. *)

From Stdlib Require Import String Strings.Byte.
From coqutil Require Import Byte.
From S2P Require Import Prelude Types Support Driver MemDriver StmtCache StmtCacheSpec.
From S2P Require Import StmtCacheProofs StmtCacheRefine StmtCacheTheorems Condition.
From S2P Require Import QueryBuilder QueryBuilderProofs Registry RegistryProofs TypeMapping.
From S2P Require Import TypeMappingProofs Handle Api ApiProofs ApiSafety.
Import ErrorCtx Logger Mutex.

(** [ensures φ m]: every result of [m] satisfies [φ]. *)
Definition ensures {S A} (φ : A → Prop) (m : M S A) : Prop :=
  ∀ s a s', m s = Some (a, s') → φ a.

Lemma ensures_bind {S A B} φ (m : M S A) (k : A → M S B) :
  (∀ a, ensures φ (k a)) → ensures φ (m ≫= k).
Proof. intros Hk s b s' (a & s1 & _ & E)%bind_Some. by eapply Hk. Qed.

Lemma ensures_ret {S A} φ (a : A) : φ a → ensures φ (mret (M := M S) a).
Proof. intros Ha s b s' [= <- _]. done. Qed.

Lemma ensures_unlock {D A} φ (a : A) : φ a → ensures φ (unlock_ret (D := D) a).
Proof. intros Ha. apply ensures_bind. intros ?. by apply ensures_ret. Qed.

Section outputs.
Context {D : Type} (drv : SqlRDBDriver D).

Lemma ensures_release {A} φ stmt owned (a : A) : φ a → ensures φ (release_ret drv stmt owned a).
Proof. intros Ha. apply ensures_bind. intros ?. by apply ensures_unlock. Qed.

Lemma ensures_finalize {A} φ stmt (a : A) : φ a → ensures φ (finalize_ret drv stmt a).
Proof. intros Ha. apply ensures_bind. intros ?. by apply ensures_unlock. Qed.

Lemma ensures_valid {A} φ (bad : A) k : φ bad → ensures φ k → ensures φ (valid_or (D := D) bad k).
Proof.
  intros Hb Hk. apply ensures_bind. intros h.
  destruct (c2sql_handle_valid (Some h)); [done|by apply ensures_ret].
Qed.

Lemma ensures_sql {A} φ spec (ret : SqlRDBResult → A) k :
  (∀ r, r ≠ SQL_RDB_OK → φ (ret r)) → (∀ sql, ensures φ (k sql)) →
  ensures φ (with_sql (D := D) spec ret k).
Proof.
  intros Hr Hk. apply ensures_bind. intros [r sql]. destruct (res_ok r) eqn:E; cbn [negb].
  - apply ensures_bind. intros ?. apply Hk.
  - by apply ensures_unlock, Hr, res_ok_false.
Qed.

Lemma ensures_stmt {A} φ sql (ret : SqlRDBResult → A) k :
  (∀ r, r ≠ SQL_RDB_OK → φ (ret r)) → (∀ stmt owned, ensures φ (k stmt owned)) →
  ensures φ (with_stmt drv sql ret k).
Proof.
  intros Hr Hk. apply ensures_bind. intros [[r stmt] owned]. destruct (res_ok r) eqn:E; cbn [negb].
  - apply Hk.
  - by apply ensures_unlock, Hr, res_ok_false.
Qed.

Lemma ensures_prepared {A} φ sql (ret : SqlRDBResult → A) k :
  (∀ r, r ≠ SQL_RDB_OK → φ (ret r)) → (∀ stmt, ensures φ (k stmt)) →
  ensures φ (with_prepared drv sql ret k).
Proof.
  intros Hr Hk. apply ensures_bind. intros ctx. apply ensures_bind. intros [r stmt].
  destruct (res_ok r) eqn:E; cbn [negb]; [apply Hk|]. by apply ensures_unlock, Hr, res_ok_false.
Qed.

Lemma ensures_schema {A} φ what name (ret : SqlRDBResult → A) k :
  (∀ r, r ≠ SQL_RDB_OK → φ (ret r)) → (∀ sch, ensures φ (k sch)) →
  ensures φ (with_schema (D := D) what name ret k).
Proof.
  intros Hr Hk. apply ensures_bind. intros [sch|]; [apply Hk|].
  apply ensures_bind. intros ?. by apply ensures_unlock, Hr.
Qed.

Lemma ensures_blob_col {A} φ what name col (ret : SqlRDBResult → A) k :
  (∀ r, r ≠ SQL_RDB_OK → φ (ret r)) → (∀ sch, ensures φ (k sch)) →
  ensures φ (with_blob_col (D := D) what name col ret k).
Proof.
  intros Hr Hk. apply ensures_schema; [done|]. intros sch. apply ensures_bind. intros x.
  destruct (x <? 0); [by apply ensures_unlock, Hr|]. apply ensures_bind. intros c.
  destruct (bool_decide _); cbn [negb]; [apply Hk|].
  apply ensures_bind. intros ?. by apply ensures_unlock, Hr.
Qed.

(** ** Reading *)

(** The read was done, or the buffers are what they were. *)
Definition read_atomic (row : list byte) (nulls : option (list byte)) (x : ReadOut) : Prop :=
  x.1.1 = SQL_RDB_OK ∨ x.1.1 = SQL_RDB_WARN_TRUNCATED ∨ (x.1.2 = row ∧ x.2 = nulls).

Lemma same_atomic row nulls r : read_atomic row nulls (r, row, nulls).
Proof. right; right. done. Qed.
Local Hint Resolve same_atomic : core.

Lemma read_single_atomic stmt owned sch row nulls :
  ensures (read_atomic row nulls) (read_single drv stmt owned sch row nulls).
Proof.
  apply ensures_bind. intros b. apply ensures_bind. intros ok.
  destruct ok; cbn [negb]; [|by apply ensures_release].
  apply ensures_bind. intros tnull. apply ensures_bind. intros [[rc trow] tnull'].
  destruct (negb (res_ok rc) && negb (bool_decide (rc = SQL_RDB_WARN_TRUNCATED))) eqn:E;
    [by apply ensures_release|].
  apply ensures_bind. intros [r has2]. apply ensures_bind. intros ?.
  destruct (negb (res_ok r) || has2); [by apply ensures_unlock|].
  apply ensures_bind. intros y. apply ensures_bind. intros z. apply ensures_unlock.
  destruct (res_ok rc) eqn:Er; [by left; apply res_ok_true|]. right; left. simpl in E |- *.
  case_bool_decide; [done|]. by simpl in E.
Qed.

(** One row is asked for, not the first of several. *)
Definition single_row (opts : option SqlRDBReadOpts) (s : HState D) : Prop :=
  match opts with Some o => allow_multi o | None => false end = false ∧
  cfg_multirow_default (h_config (hs_h s)) ≠ 1.

Lemma lock_config (s s1 : HState D) x : h_lock s = Some (x, s1) → h_config (hs_h s1) = h_config (hs_h s).
Proof. intros (m & _ & ->)%zoom_Some. done. Qed.

Lemma lookup_state (s s1 : HState D) nm x : h_lookup nm s = Some (x, s1) → s1 = s.
Proof.
  intros (reg & s2 & Hg & H)%bind_Some. injection Hg as <- <-.
  destruct (c2sql_internal_schema_lookup _ _ _); [|by injection H as _ <-].
  apply bind_Some in H as (y & s3 & Hd & H). unfold mdef in Hd. destruct (schema_at _ _); [|done].
  injection Hd as _ <-. by injection H as _ <-.
Qed.

Lemma read_atomic_run name c row nulls opts s x s' :
  single_row opts s → SqlRDBRead drv name c (Some row) nulls opts s = Some (x, s') →
  read_atomic row nulls x.
Proof.
  intros [Ho Hcfg] (h & s0 & Hg & H)%bind_Some. injection Hg as <- <-. cbv zeta in H.
  cbn [default from_option id] in H.
  destruct (c2sql_handle_valid (Some (hs_h s))); [|by injection H as <- _].
  destruct name as [nm|]; [|by injection H as <- _].
  apply bind_Some in H as (? & s1 & Hl & H). apply lock_config in Hl.
  apply bind_Some in H as (sch & s2 & Hlk & H). apply lookup_state in Hlk as ->.
  destruct sch as [sch|].
  - apply bind_Some in H as (h & s2 & Hg & H). injection Hg as <- <-.
    rewrite Ho, Hl, (proj2 (Z.eqb_neq _ _) Hcfg) in H. cbn [orb] in H. revert H.
    apply ensures_sql; [auto|]. intros sql. apply ensures_stmt; [auto|]. intros stmt owned.
    apply ensures_bind. intros r. destruct (res_ok r); cbn [negb]; [|by apply ensures_release].
    apply ensures_bind. intros [r1 has]. destruct (res_ok r1); cbn [negb]; [|by apply ensures_release].
    destruct has; cbn [negb]; [|by apply ensures_release]. apply read_single_atomic.
  - revert H. apply ensures_bind. intros ?. by apply ensures_unlock.
Qed.

(** ** Blob fields, counts, deletions *)

(** A buffer is published exactly with OK, and holds the length it comes with. *)
Definition blob_published (x : SqlRDBResult * option (list byte * Z)) : Prop :=
  match x.2 with
  | None => x.1 ≠ SQL_RDB_OK
  | Some (bs, n) => x.1 = SQL_RDB_OK ∧ (0 < n → Z.of_nat (length bs) = n)
  end.

Lemma blob_none r : r ≠ SQL_RDB_OK → blob_published (r, None).
Proof. done. Qed.

Lemma read_blob_published name key col :
  ensures blob_published (SqlRDBReadBlobField drv name key col).
Proof.
  apply ensures_valid; [done|].
  destruct name as [nm|], key as [key|], col as [col|]; try by apply ensures_ret.
  apply ensures_bind. intros ?. apply ensures_blob_col; [apply blob_none|]. intros sch.
  apply ensures_sql; [apply blob_none|]. intros sql.
  apply ensures_prepared; [apply blob_none|]. intros stmt.
  apply ensures_bind. intros r.
  destruct (res_ok r) eqn:E; cbn [negb]; [|by apply ensures_finalize, blob_none, res_ok_false].
  apply ensures_bind. intros [r1 has].
  destruct (res_ok r1) eqn:E1; cbn [negb]; [|by apply ensures_finalize, blob_none, res_ok_false].
  destruct has; cbn [negb]; [|by apply ensures_finalize].
  apply ensures_bind. intros [r2 [raw n]].
  destruct (res_ok r2) eqn:E2; cbn [negb]; [|by apply ensures_finalize, blob_none, res_ok_false].
  apply ensures_bind. intros ok. destruct ok; cbn [negb]; [|by apply ensures_finalize].
  intros s x s' (copy & s1 & Hc & H)%bind_Some.
  assert (0 < n → Z.of_nat (length copy) = n) as Hlen.
  { intros Hn. rewrite (proj2 (Z.ltb_lt _ _) Hn) in Hc. unfold mdef in Hc.
    destruct raw as [p|]; [|done]. cbn [mbind option_bind] in Hc.
    destruct (bytes_at p 0 n) as [bs|] eqn:Eb; [|done]. injection Hc as -> _.
    by eapply bytes_at_length. }
  revert H. apply ensures_bind. intros [r3 has2]. apply ensures_bind. intros ?.
  destruct (res_ok r3) eqn:E3; cbn [negb]; [|by apply ensures_unlock, blob_none, res_ok_false].
  destruct has2; apply ensures_unlock; done.
Qed.

(** A number of rows is written exactly with OK, and is not negative. *)
Definition counted (x : SqlRDBResult * option Z) : Prop :=
  match x.2 with None => True | Some n => x.1 = SQL_RDB_OK ∧ 0 ≤ n end.

Lemma clamp_nonneg n : 0 ≤ (if 0 <=? n then n else 0).
Proof. destruct (Z.leb_spec 0 n); lia. Qed.

Lemma count_counted name c : ensures counted (SqlRDBCount drv name c).
Proof.
  apply ensures_valid; [done|]. destruct name as [nm|]; [|by apply ensures_ret].
  apply ensures_bind. intros ?. apply ensures_schema; [done|]. intros sch.
  apply ensures_sql; [done|]. intros sql. apply ensures_stmt; [done|]. intros stmt owned.
  apply ensures_bind. intros r. destruct (res_ok r); cbn [negb]; [|by apply ensures_release].
  apply ensures_bind. intros [r1 has]. destruct (res_ok r1 && has); [|by apply ensures_release].
  apply ensures_bind. intros [r2 n]. apply ensures_release. unfold counted. simpl.
  destruct (res_ok r2) eqn:E; [|done]. apply res_ok_true in E. split; [done|apply clamp_nonneg].
Qed.

Lemma delete_counted name c out : ensures counted (SqlRDBDelete drv name c out).
Proof.
  apply ensures_valid; [done|]. destruct name as [nm|], c as [c|]; try by apply ensures_ret.
  apply ensures_bind. intros ?. apply ensures_schema; [done|]. intros sch.
  apply ensures_sql; [done|]. intros sql. apply ensures_stmt; [done|]. intros stmt owned.
  apply ensures_bind. intros r. destruct (res_ok r); cbn [negb]; [|by apply ensures_release].
  apply ensures_bind. intros [r1 has]. apply ensures_bind. intros ?.
  destruct (res_ok r1) eqn:E; cbn [andb]; [|by apply ensures_unlock].
  destruct out; [|by apply ensures_unlock].
  apply ensures_bind. intros ctx. apply ensures_bind. intros n. apply ensures_unlock.
  apply res_ok_true in E. split; [done|apply clamp_nonneg].
Qed.
End outputs.
