(* ===== verification/ApiTheorems.v ===== *)
(** * The properties of the API

    Iterators, histories of calls, and what the caller may rely on. *)

From Stdlib Require Import String Strings.Byte.
From coqutil Require Import Byte Word.LittleEndianList.
From S2P Require Import Prelude Types Support Driver MemDriver StmtCache StmtCacheSpec.
From S2P Require Import StmtCacheProofs StmtCacheRefine StmtCacheTheorems Condition.
From S2P Require Import QueryBuilder QueryBuilderProofs Registry RegistryProofs TypeMapping.
From S2P Require Import TypeMappingProofs Handle Api ApiProofs ApiSafety Transactions.
From S2P Require Import ApiOutputs.
Import ErrorCtx Logger Mutex.

Section calls.
Context {D : Type} (drv : SqlRDBDriver D) `{!DriverLaws drv}.
Implicit Types (R : SqlRDBSchemaRegistry) (o : gset ptr).

(** ** Transactions *)

(** A call on the connection [ctx]. *)
Definition on_open {A} (ctx : ptr) (m : M D A) : Prop := ∀ d, ctx ∈ conns d → keeps view m d.

Lemma on_open_bind {A B} ctx (m : M D A) (k : A → M D B) :
  on_open ctx m → (∀ a, on_open ctx (k a)) → on_open ctx (m ≫= k).
Proof.
  intros Hm Hk d Hd. destruct (Hm d Hd) as (a & d1 & E & Hs & Hc).
  destruct (Hk a d1) as (b & d2 & E2 & Hs2 & Hc2); [by rewrite (proj1 Hc)|].
  exists b, d2. rewrite (bind_run _ _ _ _ _ E). split; [done|]. split; [by rewrite Hs2|by eapply still_trans].
Qed.

Lemma on_open_ret {A} ctx (a : A) : on_open ctx (mret a).
Proof. intros d _. by exists a, d. Qed.

Lemma abs_tx_keeps c ctx k : on_open ctx (abs_tx drv c ctx k).
Proof.
  destruct c; simpl.
  - destruct (_ <=? _); [apply on_open_ret|]. apply on_open_bind; [|intros; apply on_open_ret].
    unfold tx_open. destruct (_ =? _); intros d; [apply begin_law|apply savepoint_law].
  - destruct (_ =? _); [apply on_open_ret|]. apply on_open_bind; [|intros; apply on_open_ret].
    unfold tx_keep. destruct (_ =? _); intros d; [apply commit_law|apply release_sp_law].
  - destruct (_ =? _); [apply on_open_ret|]. apply on_open_bind; [|intros; apply on_open_ret].
    unfold tx_undo. destruct (_ =? _); [intros d; apply rollback_law|].
    apply on_open_bind; [intros d; apply rollback_sp_law|]. intros r.
    destruct (res_ok r); [intros d; apply release_sp_law|apply on_open_ret].
Qed.

Lemma tx_call_safe R o c : stays (api_inv drv R o) (tx_call drv c).
Proof.
  intros s [(HR & Hreg & Htx & ps & a & Hrep & Hnd & Hst & Hd & Hn & Hcx) Hm].
  destruct (decide (h_magic (hs_h s) = SQL_RDB_HANDLE_MAGIC)) as [Hv|Hv].
  - destruct (abs_tx_keeps c (h_driver_ctx (hs_h s)) (depth_of s) (hs_db s) Hcx) as ([r k'] & d' & E & Hs & [Hcn _]).
    destruct (tx_call_did drv c s r k' d' (conj Hv (conj Hm Htx)) E)
      as (s' & Ec & Hdid & Htx' & Hm' & (_ & _ & Hctx' & Hreg' & Hc' & _ & Hal & Hlv)).
    rewrite E in Hdid. injection Hdid as _ Hd'.
    eexists _, _. split; [done|]. split; [|done]. unfold core. rewrite Hreg', HR, Hctx', Hc', Hal, Hlv, <-Hd', Hs, Hcn.
    split_and!; try done. by exists ps, a.
  - exists SQL_RDB_ERR_INVALID_HANDLE, s. split.
    + destruct c; simpl; unfold SqlRDBBeginTx, SqlRDBCommitTx, SqlRDBRollbackTx, valid_or, mbind, M_bind,
        mgets, c2sql_handle_valid; by rewrite (proj2 (Z.eqb_neq _ _) Hv).
    + split; [|done]. split_and!; try done. by exists ps, a.
Qed.

(** ** Iterators *)

(** An open iterator: its statement is one of those outside of the cache, its
    schema pointer is valid. *)
Definition iter_ok R (name : string) (it : SqlRDBStmt) : Prop :=
  ∃ sch, schema_at R (it_schema it) = Some sch ∧ found R name sch.

(** What a read of several rows gives back. *)
Definition iter_post R o (name : option string) (x : SqlRDBResult * option SqlRDBStmt)
    (s : HState D) : Prop :=
  match x.2 with
  | None => x.1 ≠ SQL_RDB_OK ∧ api_inv drv R o s
  | Some it => x.1 = SQL_RDB_OK ∧ (it_raw_stmt it ∉ o) ∧
      api_inv drv R ({[it_raw_stmt it]} ∪ o) s ∧ ∃ nm, name = Some nm ∧ iter_ok R nm it
  end.

Lemma lookup_pointer R o nm sch s :
  locked drv R o s → found R nm sch →
  ∃ p sch', c2sql_internal_schema_lookup true R (Some nm) = Some p ∧
    schema_at R p = Some sch' ∧ found R nm sch'.
Proof.
  intros [(_ & (Hnd & Hok & _) & _) _] (Hs & <- & Hin).
  apply list_elem_of_lookup in Hin as (j & Hj). exists (reg_block R, j), sch.
  split; [by apply lookup_entry|]. split; [unfold schema_at; simpl; by rewrite decide_True|].
  split_and!; try done. by eapply list_elem_of_lookup_2.
Qed.

Lemma finalize_ret_post R o name stmt r :
  r ≠ SQL_RDB_OK →
  triple (in_use drv R o stmt true) (finalize_ret drv stmt (r, None)) (iter_post R o name).
Proof.
  intros Hr. eapply triple_bind; [by apply in_use_finalize|]. intros ?.
  eapply triple_bind; [apply unlock_spec|]. intros ?. by apply triple_ret.
Qed.

Lemma SqlRDBReadMany_safe R o name c :
  cond_fits c →
  triple (api_inv drv R o) (SqlRDBReadMany drv name c) (iter_post R o name).
Proof.
  intros Hc. unfold SqlRDBReadMany, valid_or.
  eapply triple_bind; [apply triple_gets|]. intros h. cbn beta.
  apply (triple_pre (api_inv drv R o)); [|by intros s [? _]].
  destruct (c2sql_handle_valid (Some h)); [|by apply triple_ret].
  destruct name as [nm|]; [|by apply triple_ret].
  eapply triple_bind; [apply lock_spec|]. intros ?.
  apply with_schema_gen; [done|]. intros sch Hf.
  apply with_sql_gen with sch; [done|eapply select_fits; naive_solver|].
  intros Hsql. apply with_prepared_spec; [done|done|]. intros raw.
  eapply triple_bind; [apply where_db, Hc|]. intros r.
  destruct (res_ok r) eqn:Er; cbn [negb].
  2:{ apply res_ok_false in Er. by apply finalize_ret_post. }
  eapply triple_bind; [apply in_use_malloc|]. intros ok.
  destruct ok; cbn [negb]; [|by apply finalize_ret_post].
  intros s Hu. pose proof Hu as (Hl & _ & Hraw). pose proof Hl as [(HR & _) _].
  destruct (lookup_pointer R _ nm sch s Hl Hf) as (p & sch' & Hp & Hat & Hf').
  unfold mbind at 1, M_bind at 1, mgets. rewrite HR, Hp.
  destruct (unlock_ret_spec drv R _ (SQL_RDB_OK, Some (MkStmt raw p)) s Hl) as (x & s' & E & Hinv).
  unfold mbind, M_bind, mdef. rewrite E. exists x, s'. split; [done|].
  assert (x = (SQL_RDB_OK, Some (MkStmt raw p))) as ->.
  { apply bind_Some in E as (? & ? & _ & E). by injection E as <- _. }
  unfold iter_post. simpl. split_and!; try done; [by apply Hraw|].
  eexists. split; [done|]. by exists sch'.
Qed.
(** Taking the statement of an open iterator for a call. *)
Lemma locked_take R o raw s :
  locked drv R o s → raw ∈ o → in_use drv R (o ∖ {[raw]}) raw true s ∧ o = {[raw]} ∪ o ∖ {[raw]}.
Proof.
  intros Hl Hraw. assert (o = {[raw]} ∪ o ∖ {[raw]}) as Ho by (by apply union_difference_L, singleton_subseteq_l).
  split; [|done]. pose proof Hl as [(_ & _ & _ & ps & a & _ & _ & Hst & _) _].
  split_and!; [by rewrite <-Ho|set_solver|set_solver].
Qed.

Lemma in_use_unlock {A} R o raw (a : A) :
  triple (in_use drv R o raw true) (unlock_ret a) (λ _, api_inv drv R ({[raw]} ∪ o)).
Proof. apply (triple_pre (locked drv R ({[raw]} ∪ o))); [apply unlock_ret_spec|by intros s (? & _)]. Qed.

Lemma SqlRDBStmtNext_safe R o nm it row nulls :
  it_raw_stmt it ∈ o → iter_ok R nm it →
  (∀ r, row = Some r → row_fits R (Some nm) (Z.of_nat (length r)) nulls) →
  stays (api_inv drv R o) (SqlRDBStmtNext drv (Some it) row nulls).
Proof.
  intros Hraw (sch & Hat & Hf) Hrow. destruct row as [row|]; [|by apply triple_ret].
  eapply triple_bind; [apply lock_spec|]. intros ?.
  set (raw := it_raw_stmt it) in *.
  assert (o = {[raw]} ∪ o ∖ {[raw]}) as Ho by (by apply union_difference_L, singleton_subseteq_l).
  apply (triple_conseq (in_use drv R (o ∖ {[raw]}) raw true) _ _
    (λ _, api_inv drv R ({[raw]} ∪ o ∖ {[raw]})) _);
    [|intros s Hl; by apply locked_take|intros ? ?; by rewrite <-Ho].
  eapply triple_bind; [by apply in_use_step|]. intros [r has].
  destruct (res_ok r); cbn [negb]; [|apply in_use_unlock].
  destruct has; cbn [negb]; [|apply in_use_unlock].
  intros s Hu. pose proof Hu as ([(HR & _) _] & _). unfold mbind at 1, M_bind at 1, mgets.
  rewrite HR, Hat. revert s Hu HR.
  enough (triple (in_use drv R (o ∖ {[raw]}) raw true)
    (out ← h_read row nulls (c2sql_internal_tm_read_row drv raw (Some sch)); unlock_ret out)
    (λ _, api_inv drv R ({[raw]} ∪ o ∖ {[raw]}))) as H by (intros s Hu _; by apply H).
  eapply triple_bind; [apply read_row_db; by eapply Hrow|]. intros x.
  apply (triple_pre (in_use drv R (o ∖ {[raw]}) raw true)); [apply in_use_unlock|by intros s [? _]].
Qed.

Lemma SqlRDBStmtFree_safe R o it :
  it_raw_stmt it ∈ o →
  triple (api_inv drv R o) (SqlRDBStmtFree drv (Some it)) (λ _, api_inv drv R (o ∖ {[it_raw_stmt it]})).
Proof.
  intros Hraw. eapply triple_bind; [apply lock_spec|]. intros ?.
  apply (triple_pre (in_use drv R (o ∖ {[it_raw_stmt it]}) (it_raw_stmt it) true));
    [|intros s Hl; by apply locked_take].
  eapply triple_bind; [by apply in_use_finalize|]. intros ?. apply unlock_ret_spec.
Qed.

(** ** Histories

    A client of a handle: the handle's state and the iterators it has open,
    with the struct each reads. *)

Record Client : Type := MkClient {
  cl_state : HState D;
  cl_iters : list (string * SqlRDBStmt);
}.

Inductive Call : Type :=
  | CWrite (name : option string) (row nulls : option (list byte))
  | CWriteMany (name : option string) (rows : option (list byte)) (count stride : Z) (nulls : option (list byte))
  | CRead (name : option string) (c : option SqlRDBCondition) (row nulls : option (list byte))
      (opts : option SqlRDBReadOpts)
  | CReadMany (name : string) (c : option SqlRDBCondition)
  | CNext (k : nat) (name : string) (row nulls : option (list byte))
  | CFree (k : nat)
  | CDelete (name : option string) (c : option SqlRDBCondition) (out : bool)
  | CCount (name : option string) (c : option SqlRDBCondition)
  | CWriteBlob (name : option string) (key : option SqlRDBCondition) (col : option string)
      (bytes : option (list byte)) (len : Z)
  | CReadBlob (name : option string) (key : option SqlRDBCondition) (col : option string)
  | CTx (c : TxCall)
  | CSetConfig (cfg : option SqlRDBConfig)
  | CSetLogger (fn user : ptr).

(** A call that leaves the client's iterators alone. *)
Definition plain {A} (m : M (HState D) A) : M Client unit :=
  zoom cl_state (λ s c, MkClient s (cl_iters c)) m;; mret tt.

(** One call.  A client uses an iterator it has open, for the struct it opened
    it for, and forgets it when it frees it. *)
Definition exec (call : Call) : M Client unit := λ c,
  match call with
  | CWrite name row nulls => plain (SqlRDBWrite drv name row nulls) c
  | CWriteMany name rows n st nulls => plain (SqlRDBWriteMany drv name rows n st nulls) c
  | CRead name cond row nulls opts => plain (SqlRDBRead drv name cond row nulls opts) c
  | CReadMany name cond =>
      match SqlRDBReadMany drv (Some name) cond (cl_state c) with
      | Some ((_, Some it), s) => Some (tt, MkClient s ((name, it) :: cl_iters c))
      | Some ((_, None), s) => Some (tt, MkClient s (cl_iters c))
      | None => None
      end
  | CNext k name row nulls =>
      match cl_iters c !! k with
      | Some (nm, it) =>
          if decide (nm = name) then plain (SqlRDBStmtNext drv (Some it) row nulls) c
          else Some (tt, c)
      | None => Some (tt, c)
      end
  | CFree k =>
      match cl_iters c !! k with
      | Some (_, it) =>
          match SqlRDBStmtFree drv (Some it) (cl_state c) with
          | Some (_, s) => Some (tt, MkClient s (delete k (cl_iters c)))
          | None => None
          end
      | None => Some (tt, c)
      end
  | CDelete name cond out => plain (SqlRDBDelete drv name cond out) c
  | CCount name cond => plain (SqlRDBCount drv name cond) c
  | CWriteBlob name key col bytes len => plain (SqlRDBWriteBlobField drv name key col bytes len) c
  | CReadBlob name key col => plain (SqlRDBReadBlobField drv name key col) c
  | CTx t => plain (tx_call drv t) c
  | CSetConfig cfg => plain (SqlRDBSetConfig drv cfg) c
  | CSetLogger fn user => plain (SqlRDBSetLogger fn user) c
  end.

Fixpoint exec_all (calls : list Call) : M Client unit :=
  match calls with
  | [] => mret tt
  | x :: calls => exec x;; exec_all calls
  end.

(** What the header asks of the arguments: buffers of the registered struct,
    conditions made by the constructors, blobs below 2 GiB, a cache size below
    2^62. *)
Definition call_ok R (call : Call) : Prop :=
  match call with
  | CWrite name row nulls => ∀ r, row = Some r → row_fits R name (Z.of_nat (length r)) nulls
  | CWriteMany name rows n st nulls =>
      0 ≤ n ∧ ∀ r, rows = Some r → rows_fit R name r n st nulls
  | CRead name c row nulls _ =>
      cond_fits c ∧ (∀ nm sch, name = Some nm → found R nm sch → sizes_exact sch) ∧
      ∀ r, row = Some r → row_fits R name (Z.of_nat (length r)) nulls ∧ Z.of_nat (length r) < SIZE_MOD
  | CReadMany _ c | CDelete _ c _ | CCount _ c => cond_fits c
  | CReadBlob _ c _ => cond_fits c ∧ blob_present drv
  | CNext _ name row nulls =>
      ∀ r, row = Some r → row_fits R (Some name) (Z.of_nat (length r)) nulls
  | CWriteBlob _ c _ bytes len => cond_fits c ∧ 0 ≤ len ∧ arg_ok bytes len
  | CSetConfig cfg => ∀ c, cfg = Some c → 0 ≤ cfg_stmt_cache_size c ≤ 2 ^ 62
  | CFree _ | CTx _ | CSetLogger _ _ => True
  end.

(** The statements of the open iterators. *)
Definition iter_stmts (its : list (string * SqlRDBStmt)) : list ptr := it_raw_stmt <$> its.*2.

Definition client_inv R (c : Client) : Prop :=
  NoDup (iter_stmts (cl_iters c)) ∧ Forall (λ x, iter_ok R x.1 x.2) (cl_iters c) ∧
  api_inv drv R (list_to_set (iter_stmts (cl_iters c))) (cl_state c).

Lemma plain_safe {A} R (m : M (HState D) A) its :
  stays (api_inv drv R (list_to_set (iter_stmts its))) m →
  triple (λ c, client_inv R c ∧ cl_iters c = its) (plain m) (λ _, client_inv R).
Proof.
  intros Hm c [(Hnd & Hok & Hinv) <-]. destruct (Hm _ Hinv) as (a & s' & E & Hinv').
  unfold plain, mbind, M_bind, zoom. rewrite E. by eexists _, _.
Qed.

Lemma iter_stmts_delete its k nm it :
  its !! k = Some (nm, it) → NoDup (iter_stmts its) →
  NoDup (iter_stmts (delete k its)) ∧
  (list_to_set (iter_stmts (delete k its)) : gset ptr) = list_to_set (iter_stmts its) ∖ {[it_raw_stmt it]}.
Proof.
  intros Hk Hnd. assert (iter_stmts its ≡ₚ it_raw_stmt it :: iter_stmts (delete k its)) as Hp.
  { unfold iter_stmts. by rewrite (delete_Permutation _ _ _ Hk) at 1. }
  rewrite Hp in Hnd. apply NoDup_cons in Hnd as [Hni Hnd]. split; [done|].
  apply set_eq. intros p. rewrite elem_of_difference, !elem_of_list_to_set, Hp, elem_of_cons, elem_of_singleton.
  split; [intros ?; split; [by right|by intros ->]|tauto].
Qed.

Lemma iter_stmts_in its k nm it :
  its !! k = Some (nm, it) → it_raw_stmt it ∈ (list_to_set (iter_stmts its) : gset ptr).
Proof.
  intros Hk. apply elem_of_list_to_set. unfold iter_stmts.
  apply list_elem_of_lookup. exists k. by rewrite !list_lookup_fmap, Hk.
Qed.

Lemma exec_open_safe R name cond :
  cond_fits cond → stays (client_inv R) (exec (CReadMany name cond)).
Proof.
  intros Hc c (Hnd & Hok & Hinv). unfold exec.
  destruct (SqlRDBReadMany_safe R _ (Some name) cond Hc _ Hinv) as ([r [it|]] & s' & E & Hp); rewrite E.
  - destruct Hp as (_ & Hni & Hinv' & nm & [= <-] & Hit). simpl in *. eexists _, _. split; [done|].
    split_and!; simpl; [|by constructor|done]. apply NoDup_cons. set_solver.
  - destruct Hp as [_ Hinv']. by eexists _, _.
Qed.

Lemma exec_next_safe R k name row nulls :
  (∀ r, row = Some r → row_fits R (Some name) (Z.of_nat (length r)) nulls) →
  stays (client_inv R) (exec (CNext k name row nulls)).
Proof.
  intros Hrow c Hc. unfold exec. pose proof Hc as (_ & Hok & _).
  destruct (cl_iters c !! k) as [[nm it]|] eqn:Hk; [|by eexists _, _].
  destruct (decide (nm = name)) as [->|]; [|by eexists _, _].
  apply (plain_safe R _ (cl_iters c)); [|done]. eapply Forall_lookup_1 in Hok; [|done].
  apply SqlRDBStmtNext_safe with name; [by eapply iter_stmts_in|done|done].
Qed.

(** Freeing an iterator that is open takes it off the list. *)
Lemma exec_free_run R k c :
  client_inv R c →
  ∃ c', exec (CFree k) c = Some (tt, c') ∧ client_inv R c' ∧ cl_iters c' = delete k (cl_iters c).
Proof.
  intros Hc. unfold exec. pose proof Hc as (Hnd & Hok & Hinv).
  destruct (cl_iters c !! k) as [[nm it]|] eqn:Hk.
  2:{ eexists. split; [done|]. split; [done|]. apply lookup_ge_None in Hk.
      by rewrite delete_take_drop, take_ge, drop_ge, app_nil_r by lia. }
  destruct (SqlRDBStmtFree_safe R _ it (iter_stmts_in _ _ _ _ Hk) _ Hinv) as (r & s' & E & Hinv'). rewrite E.
  destruct (iter_stmts_delete _ _ _ _ Hk Hnd) as [Hnd' Hset]. eexists. split; [done|]. split; [|done].
  split_and!; simpl; [done|by apply Forall_delete|by rewrite Hset].
Qed.

Lemma exec_free_safe R k : stays (client_inv R) (exec (CFree k)).
Proof. intros c Hc. destruct (exec_free_run R k c Hc) as (c' & E & Hc' & _). by eexists _, _. Qed.

Lemma exec_safe R call : call_ok R call → stays (client_inv R) (exec call).
Proof.
  intros Hok. destruct call; simpl in Hok;
    try (by apply exec_open_safe); try (by apply exec_next_safe); try apply exec_free_safe;
    intros x Hx; apply (plain_safe R _ (cl_iters x)); try done.
  - by apply SqlRDBWrite_safe.
  - apply SqlRDBWriteMany_safe; naive_solver.
  - apply SqlRDBRead_safe; naive_solver.
  - by apply SqlRDBDelete_safe.
  - by apply SqlRDBCount_safe.
  - apply SqlRDBWriteBlobField_safe; naive_solver.
  - apply SqlRDBReadBlobField_safe; naive_solver.
  - apply tx_call_safe.
  - by apply SqlRDBSetConfig_safe.
  - apply SqlRDBSetLogger_safe.
Qed.

Lemma exec_all_safe R calls : Forall (call_ok R) calls → stays (client_inv R) (exec_all calls).
Proof.
  induction 1 as [|call calls Hc _ IH]; [by apply triple_ret|].
  eapply triple_bind; [by apply exec_safe|]. by intros ?.
Qed.

(** What the invariant says of a state between two calls. *)
Definition quiescent (c : Client) : Prop :=
  mutex_ok (h_mutex (hs_h (cl_state c))) ∧ txn_ok (h_txn (hs_h (cl_state c))) ∧
  ∃ ps a, rep (h_cache (hs_h (cl_state c))) ps a ∧
    stmts (hs_db (cl_state c)) = list_to_set (held a ++ iter_stmts (cl_iters c)) ∧
    NoDup (held a ++ iter_stmts (cl_iters c)).

Lemma client_quiescent R c : client_inv R c → quiescent c.
Proof.
  intros (Hnd & _ & (_ & _ & Htx & ps & a & Hrep & Hh & Hst & Hd & _) & Hm). split_and!; try done.
  exists ps, a. split_and!; [done| |].
  - by rewrite Hst, list_to_set_app_L.
  - apply NoDup_app. split_and!; [done| |done]. set_solver.
Qed.
End calls.

(** ** Examples: a handle with one struct registered *)

Definition ex_config : SqlRDBConfig := MkConfig true 2 false 0 false.

Definition ex_handle : SqlRDBHandle :=
  MkHandle SQL_RDB_HANDLE_MAGIC ex_config 1%N (r_reg ex_r1) ex_cache
    (MkTxn 0 (replicate 16 EmptyString)) (MkErr SQL_RDB_OK EmptyString) (MkLogger NULL NULL)
    (MkMutex true false).

Definition ex_state (m : Mem) : HState Mem := MkH ex_handle m [] 5.

Lemma ex_api_inv rows : api_inv mem_driver (r_reg ex_r1) ∅ (ex_state (MkMem [] rows [] [] [] [] [1%N])).
Proof.
  split; [|done]. split; [done|]. split; [exact ex_r1_wf|]. split; [split_and!; try done; intros; simpl in *; lia|].
  exists [], (MkAbs 2 []). split_and!; [exact ex_rep|constructor|done|done|set_solver|set_solver].
Qed.

Lemma ex_found nm sch : found (r_reg ex_r1) nm sch → sch = ex_raw_e.
Proof. intros (_ & _ & Hin). simpl in Hin. set_solver. Qed.

Lemma ex_item_row nulls :
  (∀ m, nulls = Some m → 1 ≤ Z.of_nat (length m)) → row_ok 40 ex_raw_e nulls.
Proof.
  intros Hm. split_and!; [|done|simpl; lia|].
  - split.
    + repeat constructor; simpl; unfold width, INT_MAX; simpl; try lia; done.
    + intros [|[|i]] [|[|j]] c1 c2 Hij H1 H2; simplify_eq/=; unfold disjoint_cols, width; simpl; lia.
  - intros m Em. specialize (Hm m Em). by change (SQL_RDB_NULL_BITMAP_BYTES _) with 1.
Qed.

Definition ex_item : list byte := replicate 40 x01.

Lemma ex_item_fits name : row_fits (r_reg ex_r1) name (Z.of_nat (length ex_item)) None.
Proof.
  intros nm sch _ ->%ex_found. change (Z.of_nat (length ex_item)) with 40. by apply ex_item_row.
Qed.

(** label = ... AND id < ... *)
Definition ex_where : SqlRDBCondition :=
  COND_AND (COND_LEAF "label" SQL_OP_EQ SQL_TYPE_TEXT (VText "x"))
           (COND_LEAF "id" SQL_OP_LT SQL_TYPE_INT64 (VInt 5)).

Lemma ex_where_fits : cond_fits (Some ex_where).
Proof.
  split; [|done]. split; [|by vm_compute]. intros d n Hn.
  assert (n = 0 ∨ n = 1) as [->| ->] by lia; destruct d; by vm_compute.
Qed.

Definition ex_calls : list Call :=
  [CTx TxBegin; CWrite (Some "item"%string) (Some ex_item) None; CTx TxBegin;
   CReadMany "item" (Some ex_where); CNext 0 "item" (Some ex_item) None;
   CSetConfig (Some (MkConfig false 0 false 0 false)); CDelete (Some "item"%string) (Some ex_where) true;
   CFree 0; CTx TxRollback; CTx TxCommit; CWrite None None None].

Lemma ex_calls_ok {D} (drv : SqlRDBDriver D) : Forall (call_ok drv (r_reg ex_r1)) ex_calls.
Proof.
  unfold ex_calls. repeat (apply Forall_cons; split); simpl; try done; try exact ex_where_fits.
  all: intros ? [= <-]; first [apply ex_item_fits|simpl; lia].
Qed.

(** ** Properties *)

(** C2: a handle under any history.  Any sequence of calls of the functions on
    rows, blob fields, transactions and the configuration - not of
    SqlRDBRegisterStruct, under which an open iterator keeps a dangling pointer
    to its schema - whose arguments are what the header asks for, in any order
    and with any allocation and any driver call failing, is defined throughout
    (no access outside of an object, no use of a finalized statement, no second
    lock).  It leaves the handle quiescent: the transaction stack consistent,
    the registry as it was, open in the driver exactly the statements of the
    cache and of the client's iterators, each once, and the mutex free while
    the handle is threadsafe; when SqlRDBSetConfig has turned that off, the call
    that did leaves it locked, and it is not used again. *)
Theorem api_history_safe {D} (drv : SqlRDBDriver D) `{!DriverLaws drv} R calls c :
  client_inv drv R c → Forall (call_ok drv R) calls →
  ∃ c', exec_all drv calls c = Some (tt, c') ∧ quiescent drv c' ∧
    h_registry (hs_h (cl_state c')) = R.
Proof.
  intros Hc Hcalls. destruct (exec_all_safe drv R calls Hcalls c Hc) as ([] & c' & E & Hc').
  exists c'. split_and!; [done|by eapply client_quiescent|]. by destruct Hc' as (_ & _ & (? & _) & _).
Qed.

Lemma api_history_safe_witness :
  ∃ c', exec_all mem_driver ex_calls (MkClient (ex_state (MkMem [] [[CInt 3; CNull]] [] [] [] [] [1%N])) []) =
      Some (tt, c') ∧ quiescent mem_driver c' ∧ h_registry (hs_h (cl_state c')) = r_reg ex_r1.
Proof.
  apply (api_history_safe mem_driver (r_reg ex_r1)).
  - split; [constructor|]. split; [constructor|]. apply ex_api_inv.
  - apply ex_calls_ok.
Defined.

(** C24: transactions.  On a valid handle with an open connection BeginTx, CommitTx and RollbackTx
    are the abstract machine: at depth 0 a begin opens a transaction, at depth
    k from 1 to 15 the savepoint sp_(k+1), at depth 16 it is refused with
    NESTED_TX; a commit or rollback ends the innermost frame (a rollback to a
    savepoint also releases it), and is refused with NO_ACTIVE_TX at depth 0;
    the depth moves exactly when the driver succeeded, the result is the
    driver's, and nothing else of the handle changes but the error and the
    mutex, which is released. *)
Theorem transactions_refine {D} (drv : SqlRDBDriver D) `{!DriverLaws drv} c s :
  tx_ready s → h_driver_ctx (hs_h s) ∈ conns (hs_db s) →
  ∃ r k' d' s', abs_tx drv c (h_driver_ctx (hs_h s)) (depth_of s) (hs_db s) = Some ((r, k'), d') ∧
    tx_call drv c s = Some (r, s') ∧ depth_of s' = k' ∧ hs_db s' = d' ∧ tx_ready s' ∧ same_rest s s'.
Proof.
  intros Hr Hcx.
  destruct (abs_tx_keeps drv c (h_driver_ctx (hs_h s)) (depth_of s) (hs_db s) Hcx) as ([r k'] & d' & E & _).
  destruct (tx_call_did drv c s r k' d' Hr E) as (s' & Ec & Hd & Htx & Hm & Hrest).
  rewrite E in Hd. injection Hd as -> ->. eexists _, _, _, s'. split_and!; try done.
  split; [|done]. destruct Hrest as (-> & _). apply Hr.
Qed.

Lemma transactions_refine_witness :
  ∃ r k' d' s', abs_tx mem_driver TxBegin 1%N 0 mem0 = Some ((r, k'), d') ∧
    SqlRDBBeginTx mem_driver (ex_state mem0) = Some (r, s') ∧ depth_of s' = k' ∧ hs_db s' = d' ∧
    tx_ready s' ∧ same_rest (ex_state mem0) s'.
Proof.
  apply (transactions_refine mem_driver TxBegin (ex_state mem0)).
  - split; [reflexivity|]. split; [reflexivity|]. split; [split; discriminate|]. split; [reflexivity|].
    simpl. intros k Hk. exfalso. lia.
  - simpl. set_solver.
Defined.

(** C21: reading one row.  When one row is asked for, SqlRDBRead is defined,
    and a result other than OK and WARN_TRUNCATED - no row, several rows, no
    memory, an unknown struct, a failing driver - leaves the caller's struct and
    bitmap exactly as they were. *)
Theorem read_failure_leaves_buffers {D} (drv : SqlRDBDriver D) `{!DriverLaws drv} R o s
    name c row nulls opts :
  api_inv drv R o s → single_row opts s → cond_fits c →
  row_fits R name (Z.of_nat (length row)) nulls → Z.of_nat (length row) < SIZE_MOD →
  (∀ nm sch, name = Some nm → found R nm sch → sizes_exact sch) →
  ∃ r row' nulls' s', SqlRDBRead drv name c (Some row) nulls opts s = Some ((r, row', nulls'), s') ∧
    api_inv drv R o s' ∧
    (r ≠ SQL_RDB_OK → r ≠ SQL_RDB_WARN_TRUNCATED → row' = row ∧ nulls' = nulls).
Proof.
  intros Hinv Hone Hc Hrow Hlen Hsz.
  destruct (SqlRDBRead_safe drv R o name c (Some row) nulls opts Hc) with (s := s)
    as ([[r row'] nulls'] & s' & E & Hinv'); [by intros ? [= <-]|done|done|].
  exists r, row', nulls', s'. split_and!; [done|done|]. intros H1 H2.
  by destruct (read_atomic_run drv name c row nulls opts s _ s' Hone E) as [?|[?|?]].
Qed.

(** Two rows match. *)
Lemma read_failure_leaves_buffers_witness :
  ∃ r row' nulls' s', SqlRDBRead mem_driver (Some "item"%string) (Some ex_where) (Some ex_item) None None
      (ex_state (MkMem [] [[CInt 3; CNull]; [CInt 4; CNull]] [] [] [] [] [1%N])) = Some ((r, row', nulls'), s') ∧
    api_inv mem_driver (r_reg ex_r1) ∅ s' ∧
    (r ≠ SQL_RDB_OK → r ≠ SQL_RDB_WARN_TRUNCATED → row' = ex_item ∧ nulls' = None).
Proof.
  apply (read_failure_leaves_buffers mem_driver).
  - apply ex_api_inv.
  - split; [reflexivity|discriminate].
  - apply ex_where_fits.
  - apply ex_item_fits.
  - reflexivity.
  - intros nm sch _ H. apply ex_found in H. subst sch. repeat constructor.
Defined.

(** Reading a blob.  ReadBlobField hands a buffer to the caller exactly
    when it returns OK, and the buffer then has the length reported with it. *)
Theorem read_blob_published_iff_ok {D} (drv : SqlRDBDriver D) `{!DriverLaws drv} R o s name key col :
  api_inv drv R o s → cond_fits key → blob_present drv →
  ∃ r out s', SqlRDBReadBlobField drv name key col s = Some ((r, out), s') ∧ api_inv drv R o s' ∧
    match out with
    | None => r ≠ SQL_RDB_OK
    | Some (bs, n) => r = SQL_RDB_OK ∧ (0 < n → Z.of_nat (length bs) = n)
    end.
Proof.
  intros Hinv Hc Hp. destruct (SqlRDBReadBlobField_safe drv R o name key col Hc Hp s Hinv) as ([r out] & s' & E & Hinv').
  exists r, out, s'. split_and!; [done|done|]. exact (read_blob_published drv name key col s _ s' E).
Qed.

Lemma mem_blob_present : blob_present mem_driver.
Proof.
  intros stmt d r q n d' H Hn. simpl in H. apply bind_Some in H as (? & d1 & _ & H). unfold mem_do in H.
  injection H as _ Hq _. destruct (default CNull (mem_cur d1 !! Z.to_nat 0)); simpl in Hq; injection Hq as <- <-;
    done || lia.
Qed.

Lemma read_blob_published_iff_ok_witness :
  ∃ r out s', SqlRDBReadBlobField mem_driver (Some "item"%string) (Some ex_where) (Some "label"%string)
      (ex_state (MkMem [] [] [] [] [] [] [1%N])) = Some ((r, out), s') ∧ api_inv mem_driver (r_reg ex_r1) ∅ s' ∧
    match out with
    | None => r ≠ SQL_RDB_OK
    | Some (bs, n) => r = SQL_RDB_OK ∧ (0 < n → Z.of_nat (length bs) = n)
    end.
Proof.
  apply (read_blob_published_iff_ok mem_driver).
  - apply ex_api_inv.
  - apply ex_where_fits.
  - apply mem_blob_present.
Defined.
