(* ===== verification/SqlTheorems.v ===== *)
(** * Rows that are written can be read

    The properties of the operations on rows, for a handle at rest on a
    database that obeys [SqlLaws]: each call returns, and its result tells what
    it did to the tables.  The examples run on the driver with tables. *)

From Stdlib Require Import Ascii String Strings.Byte.
From coqutil Require Import Byte Word.LittleEndianList.
From S2P Require Import Prelude Types Support Driver MemDriver StmtCache StmtCacheSpec StmtCacheProofs StmtCacheRefine.
From S2P Require Import StmtCacheTheorems Condition QueryBuilder QueryBuilderProofs Registry RegistryProofs.
From S2P Require Import SqlText SqlTextProofs TypeMapping TypeMappingProofs Relational TableDriver Handle Api ApiProofs.
From S2P Require Import ApiSafety SqlHandle SqlBlocks SqlApi SqlRead SqlTables ApiTheorems.
Import ErrorCtx Logger Mutex.

Section rest.
Context {D : Type} (drv : SqlRDBDriver D) `{!DriverLaws drv} (ctx : ptr) `{!SqlLaws drv ctx}.
Context (V : Setting) (o : gset ptr).

(** Between two calls: the invariant of the handle, and [T] of the database. *)
Definition at_rest (o : gset ptr) (T : Db → Z → Prop) (s : HState D) : Prop :=
  api_inv drv (st_registry V) o s ∧ tidy drv ctx V T s.

(** A call that always returns does what every run of it does. *)
Lemma at_rest_call {A} T (m : M (HState D) A) (Q : A → HState D → Prop) s :
  at_rest o T s → stays (api_inv drv (st_registry V) o) m → hoare (tidy drv ctx V T) m Q →
  ∃ x s', m s = Some (x, s') ∧ api_inv drv (st_registry V) o s' ∧ Q x s'.
Proof.
  intros Hs Hm HQ. destruct (triple_hoare _ _ _ _ _ Hm HQ s Hs) as (x & s' & E & Hx). by exists x, s'.
Qed.

(** The table of a struct. *)
Definition stored (nm : string) (sch : SqlRDBSchema) (t : Table) (T : Db → Z → Prop) : Prop :=
  found (st_registry V) nm sch ∧ declared t sch ∧ table_ok t ∧ ∀ b n, T b n → db_tables b !! nm = Some t.

(** The caller's row goes into it. *)
Definition row_fine (sch : SqlRDBSchema) (row : list byte) (nulls : option (list byte)) : Prop :=
  writable sch ∧ row_ok (Z.of_nat (length row)) sch nulls ∧ storable drv ctx sch (row_cells sch row nulls).

Lemma found_fits nm sch n nulls :
  NoDup (reg_names (st_registry V)) → found (st_registry V) nm sch → row_ok n sch nulls →
  row_fits (st_registry V) (Some nm) n nulls.
Proof.
  intros Hnd (_ & Hn & Hin) Hrow nm' sch' [= <-] (_ & Hn' & Hin').
  by rewrite (entry_unique V sch' sch) by congruence.
Qed.

Lemma write_run nm sch t T row nulls s :
  at_rest o T s → stored nm sch t T → row_fine sch row nulls →
  ∃ r s', SqlRDBWrite drv (Some nm) (Some row) nulls s = Some (r, s') ∧
    if res_ok r then at_rest o (written drv ctx nm sch t (row_cells sch row nulls) T) s'
    else other_code r = true ∧ at_rest o (hurting drv ctx T) s'.
Proof.
  intros Hs Hst (Hw & Hrow & Hcells). pose proof Hs as (_ & (_ & _ & Hnd & _) & _).
  pose proof Hst as (Hf & Hd & _ & HT).
  destruct (at_rest_call T _ _ s Hs (SqlRDBWrite_safe drv _ o (Some nm) (Some row) nulls
    ltac:(intros r [= <-]; by eapply found_fits)) (write_tidy drv ctx V nm sch row nulls t T Hf Hw Hd Hrow Hcells HT))
    as (r & s' & E & Hinv & HQ).
  exists r, s'. split; [done|]. destruct (res_ok r); [done|]. by destruct HQ.
Qed.
Lemma search_safe t c : searchable drv ctx t c → cond_fits c.
Proof. intros (Hs & Hp & _). split; [done|]. destruct c; [by apply cond_plain_ok|done]. Qed.

Lemma read_run nm sch t T c row nulls opts s :
  at_rest o T s → stored nm sch t T → searchable drv ctx t c → buffers_ok sch row nulls →
  ∃ x s', SqlRDBRead drv (Some nm) c (Some row) nulls opts s = Some (x, s') ∧
    api_inv drv (st_registry V) o s' ∧ read_post drv ctx V T t sch c (is_multi V opts) row nulls x s'.
Proof.
  intros Hs Hst Hc Hbuf. pose proof Hs as (_ & (_ & _ & Hnd & _) & _). pose proof Hbuf as (Hrow & Hsz & Hlen).
  pose proof Hst as (Hf & Hd & [Hty _] & HT).
  apply (at_rest_call T _ _ s Hs); [|by apply read_tidy].
  apply SqlRDBRead_safe; [by eapply search_safe| |].
  - intros r [= <-]. split; [by eapply found_fits|done].
  - intros nm' sch' [= <-] (_ & Hn' & Hin'). destruct Hf as (_ & Hn & Hin).
    by rewrite (entry_unique V sch' sch) by congruence.
Qed.

Lemma count_run nm sch t T c s :
  at_rest o T s → stored nm sch t T → searchable drv ctx t c →
  ∃ x s', SqlRDBCount drv (Some nm) c s = Some (x, s') ∧ api_inv drv (st_registry V) o s' ∧
    count_post drv ctx V t c T x s'.
Proof.
  intros Hs (Hf & Hd & _ & HT) Hc. apply (at_rest_call T _ _ s Hs); [|by eapply count_tidy].
  apply SqlRDBCount_safe. by eapply search_safe.
Qed.

Lemma delete_run nm sch t T c out s :
  at_rest o T s → stored nm sch t T → searchable drv ctx t (Some c) →
  ∃ x s', SqlRDBDelete drv (Some nm) (Some c) out s = Some (x, s') ∧ api_inv drv (st_registry V) o s' ∧
    delete_post drv ctx V nm t (Some c) out T x s'.
Proof.
  intros Hs (Hf & Hd & _ & HT) Hc. apply (at_rest_call T _ _ s Hs); [|by eapply delete_tidy].
  apply SqlRDBDelete_safe. by eapply search_safe.
Qed.

(** The table after a write, and after a deletion. *)
Lemma written_stored nm sch t T row nulls :
  stored nm sch t T → row_fine sch row nulls →
  stored nm sch (written_table drv ctx t sch (row_cells sch row nulls))
    (written drv ctx nm sch t (row_cells sch row nulls) T).
Proof.
  intros (Hf & Hd & Ht & HT) (Hw & Hrow & Hcells). pose proof (row_cells_typed _ _ row _ Hrow) as Hty.
  split; [done|]. split; [done|]. split; [apply written_table_ok; try done; by destruct Hf|].
  intros b n (b0 & n0 & _ & -> & _). apply lookup_insert_eq.
Qed.

Lemma deleted_stored nm sch t T c :
  stored nm sch t T →
  stored nm sch (MkTable (t_kinds t) (t_key t) (spared drv ctx c (t_rows t))) (deleted drv ctx nm t c T).
Proof.
  intros (Hf & Hd & Ht & HT). split; [done|]. split; [done|]. split; [by apply spared_table_ok|].
  intros b n (b0 & n0 & _ & -> & _). apply lookup_insert_eq.
Qed.

(** ** The condition that asks for a key *)

Definition by_key (sch : SqlRDBSchema) (ty : SqlRDBType) (v : CondValue) : SqlRDBCondition :=
  COND_LEAF (pk_name sch) SQL_OP_EQ ty v.

Lemma slen_op op : slen (op_to_sql_str op) ≤ 10.
Proof. destruct op; vm_compute; congruence. Qed.

Lemma leaf_small col op ty v : slen col ≤ 128 → cond_small (Some (COND_LEAF col op ty v)).
Proof.
  intros Hc. split; [|simpl; lia]. intros d n Hn. cbn [where_text cond_text].
  pose proof (slen_hole d (n + 1) ltac:(lia)). pose proof (slen_op op).
  rewrite !slen_app, slen_quoted. slen_literals. lia.
Qed.

Lemma by_key_searchable t sch cells ty v :
  schema_ok sch → declared t sch → has_pk sch = true → storable drv ctx sch cells →
  Forall2 cell_typed (sch_cols sch) cells → cond_plain (by_key sch ty v) →
  value_cell v = cell_at (new_row (col_names sch) cells) (pk_name sch) →
  searchable drv ctx t (Some (by_key sch ty v)).
Proof.
  intros Hs Hd Hpk [Hex Hnn] Hty Hv Hval. pose proof (pk_in_names sch Hs Hpk) as Hin.
  apply list_elem_of_lookup in Hin as [i Hi]. pose proof (names_length sch cells Hty) as Hl.
  destruct (lookup_lt_is_Some_2 cells i) as [c Hc]; [rewrite <-Hl; by eapply lookup_lt_Some|].
  rewrite (cell_at_new _ _ i _ c (names_nodup sch Hs) Hl Hi Hc) in Hval.
  split; [apply leaf_small; by apply slen_pk_name|]. split; [exact Hv|]. split; [by eexists|]. split.
  - constructor; [|done]. rewrite Hval. by eapply Forall_lookup_1 in Hex.
  - simpl. pose proof (declared_cells _ _ _ Hd Hty) as Hct. unfold cells_typed in Hct.
    destruct (Forall2_lookup_lr _ _ _ _ _ _ Hct Hi Hc) as (k & Hk & Hof). exists k. split; [done|].
    unfold args_fun. simpl. by rewrite Hval.
Qed.

(** ** Iterators *)

(** An iterator is open; [C] speaks of its statement. *)
Definition iter_open (it : SqlRDBStmt) (C : Cursor → Db → Z → Prop) (s : HState D) : Prop :=
  api_inv drv (st_registry V) ({[it_raw_stmt it]} ∪ o) s ∧ borrowed drv ctx V (it_raw_stmt it) true C s.

Lemma many_run nm sch t T c s :
  at_rest o T s → stored nm sch t T → searchable drv ctx t c →
  ∃ x s', SqlRDBReadMany drv (Some nm) c s = Some (x, s') ∧
    match x.2 with
    | Some it => x.1 = SQL_RDB_OK ∧ (it_raw_stmt it ∉ o) ∧ schema_at (st_registry V) (it_schema it) = Some sch ∧
        iterable drv ctx V nm sch c t T ∧ iter_open it (iterating drv ctx T sch c t []) s'
    | None => other_code x.1 = true ∧ at_rest o (hurting drv ctx T) s'
    end.
Proof.
  intros [Hinv Htidy] (Hf & Hd & [Hty _] & HT) Hc.
  destruct (triple_hoare _ _ _ _ _ (SqlRDBReadMany_safe drv (st_registry V) o (Some nm) c (search_safe _ _ Hc))
    (read_many_tidy drv ctx V nm sch c t T Hf Hc Hd Hty HT) s (conj Hinv Htidy)) as (x & s' & E & Hpost & HQ).
  exists x, s'. split; [done|]. unfold iter_post in Hpost. unfold many_post in HQ. destruct x.2 as [it|].
  - destruct Hpost as (Hx & Hni & Hinv' & _), HQ as (_ & Hat & Hit & Hb). by split_and!.
  - destruct HQ as [Hcode Hs']. by destruct Hpost.
Qed.

Lemma next_run nm sch t T c it seen row nulls s :
  iter_open it (iterating drv ctx T sch c t seen) s → iterable drv ctx V nm sch c t T →
  schema_at (st_registry V) (it_schema it) = Some sch → row_ok (Z.of_nat (length row)) sch nulls →
  ∃ x s', SqlRDBStmtNext drv (Some it) (Some row) nulls s = Some (x, s') ∧
    api_inv drv (st_registry V) ({[it_raw_stmt it]} ∪ o) s' ∧
    next_post drv ctx V T sch c t (it_raw_stmt it) seen row nulls x s'.
Proof.
  intros [Hinv Hb] Hit Hat Hrow. pose proof Hb as ((_ & _ & Hnd & _) & _). pose proof Hit as ((Hok & Hn & Hin) & _).
  assert (∀ r, Some row = Some r → row_fits (st_registry V) (Some nm) (Z.of_nat (length r)) nulls) as Hfit
    by (intros r [= <-]; by eapply found_fits).
  destruct (triple_hoare _ _ _ _ _ (SqlRDBStmtNext_safe drv (st_registry V) ({[it_raw_stmt it]} ∪ o) nm it (Some row) nulls
    ltac:(set_solver) ltac:(by exists sch) Hfit)
    (next_tidy drv ctx V nm T sch c t it seen row nulls Hit Hat Hrow) s (conj Hinv Hb)) as (x & s' & E & Hpost & HQ).
  by exists x, s'.
Qed.

Lemma free_run T it C s :
  iter_open it C s → (it_raw_stmt it ∉ o) → (∀ cu b n, C cu b n → any T b n) →
  ∃ s', SqlRDBStmtFree drv (Some it) s = Some (SQL_RDB_OK, s') ∧ at_rest o T s'.
Proof.
  intros [Hinv Hb] Hni HC.
  assert (hoare (borrowed drv ctx V (it_raw_stmt it) true C) (SqlRDBStmtFree drv (Some it))
    (λ r s, r = SQL_RDB_OK ∧ tidy drv ctx V T s)) as Hfree.
  { eapply hoare_bind; [apply lock_borrowed|]. intros ?. eapply hoare_bind; [by apply (finalize_tidy drv ctx V _ C T)|].
    intros ?. by apply unlock_ret_tidy. }
  destruct (triple_hoare _ _ _ _ _ (SqlRDBStmtFree_safe drv (st_registry V) ({[it_raw_stmt it]} ∪ o) it
    ltac:(set_solver)) Hfree s (conj Hinv Hb)) as (r & s' & E & Hinv' & -> & Ht).
  exists s'. split; [done|]. split; [|done]. by replace o with (({[it_raw_stmt it]} ∪ o) ∖ {[it_raw_stmt it]}) by set_solver.
Qed.

(** The caller's loop: read into the same kind of buffer until there is no row. *)
Fixpoint fetch_all (it : SqlRDBStmt) (row : list byte) (nulls : option (list byte)) (n : nat) :
    M (HState D) (list ReadOut) :=
  match n with
  | O => mret []
  | S n =>
      x ← SqlRDBStmtNext drv (Some it) (Some row) nulls;
      match x.1.1 with
      | SQL_RDB_OK | SQL_RDB_WARN_TRUNCATED => l ← fetch_all it row nulls n; mret (x :: l)
      | _ => mret [x]
      end
  end.

(** The rows of [l] were given one after the other, then the end or an error. *)
Definition given T sch c t it (seen : list Row) row nulls (outs : list ReadOut) (s : HState D) : Prop :=
  ∃ l goods x, outs = goods ++ [x] ∧ Forall2 (λ r, shows (st_plenty V) sch (cells_of sch r) row nulls) l goods ∧
  if bool_decide (x.1.1 = SQL_RDB_ERR_NOT_FOUND)
  then seen ++ l ≡ₚ chosen drv ctx c (t_rows t) ∧ iter_open it (λ _, any T) s
  else iter_open it (λ _, hurting drv ctx T) s.

Lemma iterating_length T sch c t it seen s :
  iter_open it (iterating drv ctx T sch c t seen) s → (length seen ≤ length (chosen drv ctx c (t_rows t)))%nat.
Proof.
  intros (_ & _ & _ & _ & cu & _ & [(-> & _)|(cur & rest & _ & _ & Hp)]); [simpl; lia|].
  rewrite <-Hp, length_app. lia.
Qed.

Lemma fetch_all_run nm sch t T c it row nulls n : ∀ seen s,
  iter_open it (iterating drv ctx T sch c t seen) s → iterable drv ctx V nm sch c t T →
  schema_at (st_registry V) (it_schema it) = Some sch → row_ok (Z.of_nat (length row)) sch nulls →
  (length (chosen drv ctx c (t_rows t)) < length seen + n)%nat →
  ∃ outs s', fetch_all it row nulls n s = Some (outs, s') ∧ given T sch c t it seen row nulls outs s'.
Proof.
  induction n as [|n IH]; intros seen s Hs Hit Hat Hrow Hn; pose proof (iterating_length _ _ _ _ _ _ _ Hs); [lia|].
  cbn [fetch_all]. destruct (next_run nm sch t T c it seen row nulls s Hs Hit Hat Hrow) as (x & s1 & E & Hinv & Hx).
  rewrite (bind_run _ _ _ _ _ E). unfold next_post in Hx.
  assert (∀ r, iter_open it (iterating drv ctx T sch c t (seen ++ [r])) s1 →
    shows (st_plenty V) sch (cells_of sch r) row nulls x →
    ∃ outs s', (l ← fetch_all it row nulls n; mret (x :: l)) s1 = Some (outs, s') ∧
      given T sch c t it seen row nulls outs s') as Hmore.
  { intros r Hs1 Hsh. destruct (IH _ _ Hs1 Hit Hat Hrow) as (outs & s2 & E2 & l & goods & y & -> & Hl & Hy);
      [rewrite length_app; simpl; lia|].
    rewrite (bind_run _ _ _ _ _ E2). eexists _, _. split; [done|]. exists (r :: l), (x :: goods), y.
    split; [done|]. split; [by constructor|]. by rewrite <-app_assoc in Hy. }
  destruct x.1.1 eqn:Ex; try (destruct Hx as (r & Hb & Hsh); apply (Hmore r); [by split|done]);
    (eexists _, _; split; [done|]; exists [], [], x; split; [done|]; split; [constructor|]; rewrite Ex;
     first [rewrite bool_decide_true by done|rewrite bool_decide_false by done]);
    try (by split). destruct Hx as [Hb Hp]. split; [by rewrite app_nil_r|by split].
Qed.

(** ** Properties *)

(** C6: writing a struct.  SqlRDBWrite on a struct with a key and another
    column, or with no key, of values the database keeps as they are, returns.
    With OK the table has the row of the struct, in place of the row with the
    same primary key if there was one and as a new row else, and is well-formed
    again, and nothing else in the database has changed.  Any other code is an
    error, and then the database is as it was, unless a transaction was open:
    that one may be doomed, or the database may have undone all of it. *)
Theorem write_upserts nm sch t T row nulls s :
  at_rest o T s → stored nm sch t T → row_fine sch row nulls →
  ∃ r s', SqlRDBWrite drv (Some nm) (Some row) nulls s = Some (r, s') ∧
    let T' := written drv ctx nm sch t (row_cells sch row nulls) T in
    if res_ok r
    then at_rest o T' s' ∧ stored nm sch (written_table drv ctx t sch (row_cells sch row nulls)) T'
    else other_code r = true ∧ at_rest o (hurting drv ctx T) s'.
Proof.
  intros Hs Hst Hrow. destruct (write_run nm sch t T row nulls s Hs Hst Hrow) as (r & s' & E & H).
  exists r, s'. split; [done|]. cbv zeta. destruct (res_ok r); [|done]. split; [done|by apply written_stored].
Qed.

(** Counting.  SqlRDBCount returns, with OK the number of the rows the
    condition selects, and the database is as it was. *)
Theorem count_counts nm sch t T c s :
  at_rest o T s → stored nm sch t T → searchable drv ctx t c →
  ∃ x s', SqlRDBCount drv (Some nm) c s = Some (x, s') ∧ api_inv drv (st_registry V) o s' ∧
    count_post drv ctx V t c T x s'.
Proof. apply count_run. Qed.

(** C15: deleting.  SqlRDBDelete returns; with OK the table has lost exactly the
    rows the condition selects, whose number is told, is well-formed still, and
    the same condition counts 0 now, unless counting fails. *)
Theorem delete_then_count nm sch t T c s :
  at_rest o T s → stored nm sch t T → searchable drv ctx t (Some c) →
  ∃ x s1, SqlRDBDelete drv (Some nm) (Some c) true s = Some (x, s1) ∧
    if res_ok x.1
    then (Z.of_nat (length (chosen drv ctx (Some c) (t_rows t))) ≤ INT_MAX →
          x.2 = Some (Z.of_nat (length (chosen drv ctx (Some c) (t_rows t))))) ∧
      at_rest o (deleted drv ctx nm t (Some c) T) s1 ∧
      stored nm sch (MkTable (t_kinds t) (t_key t) (spared drv ctx (Some c) (t_rows t))) (deleted drv ctx nm t (Some c) T) ∧
      ∃ y s2, SqlRDBCount drv (Some nm) (Some c) s1 = Some (y, s2) ∧
        (res_ok y.1 = true → y.2 = Some 0 ∧ at_rest o (deleted drv ctx nm t (Some c) T) s2)
    else at_rest o (hurting drv ctx T) s1.
Proof.
  intros Hs Hst Hc. destruct (delete_run nm sch t T c true s Hs Hst Hc) as (x & s1 & E & Hinv & Hx).
  exists x, s1. split; [done|]. unfold delete_post in Hx. destruct (res_ok x.1); [|by destruct Hx as (_ & _ & Hx)].
  destruct Hx as [Hs1 Hn]. pose proof (deleted_stored nm sch t T (Some c) Hst) as Hst1.
  split; [done|]. split; [by split|]. split; [done|].
  destruct (count_run nm sch _ _ (Some c) s1 (conj Hinv Hs1) Hst1) as (y & s2 & E2 & Hinv2 & Hy); [by eapply searchable_kinds; [|exact Hc]|].
  exists y, s2. split; [done|]. intros Hok. unfold count_post in Hy. rewrite Hok in Hy.
  cbn [t_rows] in Hy. rewrite chosen_spared in Hy. by destruct Hy.
Qed.

(** C9: the iterator.  SqlRDBReadMany returns; when it gives an iterator, the
    caller's loop over SqlRDBStmtNext ends after at most one call more than
    there are rows, and when it ends with NOT_FOUND the buffers have shown
    every row the condition selects exactly once; SqlRDBStmtFree then leaves
    the handle and the database as they were before. *)
Theorem read_many_enumerates nm sch t T c row nulls s :
  at_rest o T s → stored nm sch t T → searchable drv ctx t c → row_ok (Z.of_nat (length row)) sch nulls →
  ∃ x s1, SqlRDBReadMany drv (Some nm) c s = Some (x, s1) ∧
  match x.2 with
  | None => x.1 ≠ SQL_RDB_OK ∧ at_rest o (hurting drv ctx T) s1
  | Some it => ∃ outs s2 s3,
      fetch_all it row nulls (S (length (chosen drv ctx c (t_rows t)))) s1 = Some (outs, s2) ∧
      SqlRDBStmtFree drv (Some it) s2 = Some (SQL_RDB_OK, s3) ∧
      ∃ l goods y, outs = goods ++ [y] ∧ Forall2 (λ r, shows (st_plenty V) sch (cells_of sch r) row nulls) l goods ∧
        if bool_decide (y.1.1 = SQL_RDB_ERR_NOT_FOUND)
        then l ≡ₚ chosen drv ctx c (t_rows t) ∧ at_rest o T s3
        else at_rest o (hurting drv ctx T) s3
  end.
Proof.
  intros Hs Hst Hc Hrow. destruct (many_run nm sch t T c s Hs Hst Hc) as (x & s1 & E & Hx).
  exists x, s1. split; [done|]. destruct x.2 as [it|]; [|by destruct Hx as [Hx ?]; split; [by destruct x.1|]].
  destruct Hx as (_ & Hni & Hat & Hit & Hs1).
  destruct (fetch_all_run nm sch t T c it row nulls _ [] s1 Hs1 Hit Hat Hrow (Nat.lt_succ_diag_r _))
    as (outs & s2 & E2 & l & goods & y & -> & Hl & Hy).
  case_bool_decide as Hend.
  - destruct Hy as [Hp Hs2]. destruct (free_run T it _ s2 Hs2 Hni) as (s3 & E3 & Hs3); [by intros|].
    exists (goods ++ [y]), s2, s3. split; [done|]. split; [done|]. exists l, goods, y.
    by rewrite bool_decide_true.
  - destruct (free_run (hurting drv ctx T) it _ s2 Hy Hni) as (s3 & E3 & Hs3); [by intros _; apply any_intro|].
    exists (goods ++ [y]), s2, s3. split; [done|]. split; [done|]. exists l, goods, y.
    by rewrite bool_decide_false.
Qed.
End rest.

(** What the caller reads is what was written: a member that was NULL is
    marked, each other has the value it had, with OK all of them and with
    WARN_TRUNCATED those that were not cut off. *)
Definition read_back (plenty : Prop) (sch : SqlRDBSchema) (row : list byte) (nulls : option (list byte))
    (x : ReadOut) : Prop :=
  ∀ i col, sch_cols sch !! i = Some col →
    if match nulls with Some m => bit m i | None => false end
    then ∀ m, plenty → x.2 = Some m → bit m i = true
    else (x.1.1 = SQL_RDB_WARN_TRUNCATED → too_big col (cell_of row col) = false) →
      cell_of x.1.2 col = cell_of row col.

Lemma shows_read_back plenty sch row nulls buf nulls' x :
  row_ok (Z.of_nat (length row)) sch nulls → length buf = length row →
  shows plenty sch (row_cells sch row nulls) buf nulls' x → read_back plenty sch row nulls x.
Proof.
  intros Hrow Hlen (Hcode & Hl & Hcells & Hmarks) i col Hi.
  assert (row_cells sch row nulls !! i = Some (if match nulls with Some m => bit m i | None => false end
    then CNull else cell_of row col)) as Hc by (unfold row_cells; by rewrite list_lookup_imap, Hi).
  destruct (match nulls with Some m => bit m i | None => false end).
  - intros m Hp Em. specialize (Hmarks Hp). unfold marks in Hmarks. rewrite Em in Hmarks.
    destruct nulls' as [m'|]; [|done]. rewrite (Hmarks i _ Hc). apply orb_true_r.
  - intros Hbig. assert (too_big col (cell_of row col) = false) as Hfit.
    { destruct (existsb _ _) eqn:Ex; [by apply Hbig|]. apply not_true_iff_false. intros Hb.
      apply not_true_iff_false in Ex. apply Ex, existsb_exists. exists (col, cell_of row col).
      split; [|done]. apply list_elem_of_In, list_elem_of_lookup. exists i. by apply lookup_zip_Some. }
    destruct Hrow as ([Hf _] & _). apply cell_of_stored; [by rewrite Hl| |done|by eapply Hcells].
    by eapply Forall_lookup_1 in Hf.
Qed.

Section roundtrip.
Context {D : Type} (drv : SqlRDBDriver D) `{!DriverLaws drv} (ctx : ptr) `{!SqlLaws drv ctx}.
Context (V : Setting) (o : gset ptr).

(** The setting where there is memory when [P] holds. *)
Definition plenty_if (P : Prop) : Setting := MkSetting (st_registry V) (st_config V) (st_txn V) P.

Lemma at_rest_now T s : at_rest drv ctx V o T s → at_rest drv ctx (plenty_if (no_oom (hs_alloc s))) o T s.
Proof. intros (Hi & (? & ? & ? & ? & ? & _) & Hc & HT). split; [done|]. by split_and!. Qed.

Lemma tidy_back (P : Prop) T s : (st_plenty V → P) → tidy drv ctx (plenty_if P) T s → tidy drv ctx V T s.
Proof. intros HP ((? & ? & ? & ? & ? & Hal) & Hc & HT). split; [|split; [exact Hc|exact HT]]. split_and!; try done. intros Hp. by apply Hal, HP. Qed.

(** A read, with the memory there is. *)
Lemma read_run_now nm sch t T c row nulls opts s :
  at_rest drv ctx V o T s → stored V nm sch t T → searchable drv ctx t c → buffers_ok sch row nulls →
  ∃ x s', SqlRDBRead drv (Some nm) c (Some row) nulls opts s = Some (x, s') ∧
    api_inv drv (st_registry V) o s' ∧ (st_plenty V → no_oom (hs_alloc s)) ∧
    read_post drv ctx (plenty_if (no_oom (hs_alloc s))) T t sch c (is_multi V opts) row nulls x s'.
Proof.
  intros Hs Hst Hc Hbuf.
  destruct (read_run drv ctx (plenty_if (no_oom (hs_alloc s))) o nm sch t T c row nulls opts s (at_rest_now T s Hs)
    Hst Hc Hbuf) as (x & s' & E & Hi & Hx).
  exists x, s'. split_and!; try done. by destruct Hs as (_ & (_ & _ & _ & _ & _ & ?) & _).
Qed.

(** C5: reading one row.  SqlRDBRead returns, and what it says is so.  With OK
    or WARN_TRUNCATED the caller's buffers show a row that the condition
    selects, and the only one unless the options or the configuration allow
    several; NULL members are marked in the bitmap if no allocation of the call
    fails.  With NOT_FOUND it selects none, with MULTIPLE_ROWS at least two.
    In these cases the database is as it was.  With any other error, which may
    take the place of each of them, so it is too, except that a transaction
    that was open may be doomed or undone. *)
Theorem read_selects nm sch t T c row nulls opts s :
  at_rest drv ctx V o T s → stored V nm sch t T → searchable drv ctx t c → buffers_ok sch row nulls →
  ∃ x s', SqlRDBRead drv (Some nm) c (Some row) nulls opts s = Some (x, s') ∧
    let l := chosen drv ctx c (t_rows t) in
    match x.1.1 with
    | SQL_RDB_OK | SQL_RDB_WARN_TRUNCATED => at_rest drv ctx V o T s' ∧
        ∃ r, r ∈ l ∧ (is_multi V opts = false → l = [r]) ∧
          shows (no_oom (hs_alloc s)) sch (cells_of sch r) row nulls x
    | SQL_RDB_ERR_NOT_FOUND => at_rest drv ctx V o T s' ∧ l = []
    | SQL_RDB_ERR_MULTIPLE_ROWS => at_rest drv ctx V o T s' ∧ (2 ≤ length l)%nat ∧ is_multi V opts = false
    | _ => at_rest drv ctx V o (hurting drv ctx T) s'
    end.
Proof.
  intros Hs Hst Hc Hbuf.
  destruct (read_run_now nm sch t T c row nulls opts s Hs Hst Hc Hbuf) as (x & s' & E & Hi & Hp & Hx).
  exists x, s'. split; [done|]. cbv zeta.
  assert (∀ T', tidy drv ctx (plenty_if (no_oom (hs_alloc s))) T' s' → at_rest drv ctx V o T' s') as Hback
    by (intros T' Ht; split; [done|by eapply tidy_back]).
  unfold read_post in Hx. destruct x.1.1; try (by apply Hback); destruct Hx as [Ht Hx]; (split; [by apply Hback|exact Hx]).
Qed.

(** C19: the round trip of a row through a statement.  c2sql_internal_tm_bind_row
    returns on a row in its layout; when it is OK, the statement has parameters
    such that, if any statement of the backend gives a row of just these values,
    c2sql_internal_tm_read_row into a buffer of the same size returns, with an
    error of the driver or with what was bound: with OK every member has its
    value and with WARN_TRUNCATED every one there is room for, and the NULL
    members are marked. *)
Theorem bind_then_read p sch row nulls sql args d :
  row_ok (Z.of_nat (length row)) sch nulls → p ≠ NULL → cursors d !! p = Some (MkCursor sql args None) →
  ∃ r d1, c2sql_internal_tm_bind_row drv p (Some sch) (Some row) nulls d = Some (r, d1) ∧ plain_code r = true ∧
  (r = SQL_RDB_OK → ∃ cu, cursors d1 = <[p := cu]> (cursors d) ∧ cu_sql cu = sql ∧ cu_rows cu = None ∧
     ∀ q d2 sql2 args2 rows buf nulls', q ≠ NULL → row_ok (Z.of_nat (length buf)) sch nulls' → length buf = length row →
       cursors d2 !! q = Some (MkCursor sql2 args2 (Some (arg_cells (args_of cu) (length (sch_cols sch)) :: rows))) →
       ∃ r2 t, c2sql_internal_tm_read_row drv q (Some sch) (MkT buf nulls' d2) = Some (r2, t) ∧
         match r2 with
         | SQL_RDB_OK | SQL_RDB_WARN_TRUNCATED => read_back True sch row nulls (r2, t_row t, t_nulls t)
         | _ => plain_code r2 = true
         end).
Proof.
  intros Hrow Hp Hcu. pose proof (cursors_open _ _ _ Hcu) as Hin.
  destruct (bind_row_steady drv p sch row nulls Hrow Hp d Hin) as (r & d1 & E & _).
  destruct (bind_row_means drv ctx p sch row nulls Hrow Hp d r d1 sql args Hcu E) as (Hcode & _ & args1 & Hc1 & Hb).
  exists r, d1. split; [done|]. split; [done|]. intros Hr. destruct (Hb Hr) as [Hb1 _].
  exists (MkCursor sql args1 None). split_and!; try done.
  intros q d2 sql2 args2 rows buf nulls' Hq Hbuf Hlen Hcur.
  pose proof (row_cells_typed _ _ row _ Hrow) as Hty. pose proof (Forall2_length _ _ _ Hty) as Hl.
  assert (arg_cells (args_of (MkCursor sql args1 None)) (length (sch_cols sch)) = row_cells sch row nulls) as Hcells.
  { rewrite Hl, (arg_cells_ext _ (args_fun (row_cells sch row nulls))); [apply arg_cells_fun|].
    intros i Hi. unfold args_of, args_fun. cbn [cu_args].
    destruct (lookup_lt_is_Some_2 (row_cells sch row nulls) (Z.to_nat (i - 1)) ltac:(lia)) as [c Hc]. rewrite Hc.
    specialize (Hb1 _ _ Hc). by replace (Z.of_nat (0 + Z.to_nat (i - 1) + 1)) with i in Hb1 by lia; rewrite Hb1. }
  rewrite Hcells in Hcur. pose proof Hbuf as ((Hf & _) & Hcnt & _). pose proof (row_ok_bits _ _ _ Hbuf) as Hbits.
  destruct (read_row_safe drv q d2 (length buf) (length <$> nulls') sch Hf) with (s := MkT buf nulls' d2)
    as (r2 & t & E2 & _); [lia| |done|split_and!; try done; by eapply cursors_open|].
  { destruct nulls' as [m|]; [|done]. intros x [= <-]. specialize (Hbits m eq_refl). lia. }
  exists r2, t. split; [done|].
  destruct (read_row_means drv ctx q sch _ sql2 args2 rows (MkT buf nulls' d2) r2 t Hcur Hbuf Hty Hq E2) as (_ & _ & [Hx|[Hx Hne]]).
  - cbn [t_row t_nulls] in Hx. pose proof (row_read_shows True _ _ _ _ _ _ _ Hbuf Hty Hx) as Hsh.
    apply (shows_read_back _ _ _ _ _ _ _ Hrow Hlen) in Hsh. destruct Hx as (-> & _). by destruct (existsb _ _).
  - by destruct r2.
Qed.

(** C1: a struct that was written can be read.  After a SqlRDBWrite that
    returned OK, of a struct with a primary key, SqlRDBRead with the condition
    that the key equals that of the struct returns, and never NOT_FOUND or
    MULTIPLE_ROWS.  With OK each member that was not NULL has in the caller's
    buffer the value it was written with, and with WARN_TRUNCATED each one that
    its member has room for; the bits of the NULL members are set in the
    caller's bitmap, if no allocation of the call fails; any other code is an
    error. *)
Theorem write_then_read nm sch t T row nulls s s1 ty v buf nulls' opts :
  at_rest drv ctx V o T s → stored V nm sch t T → row_fine drv ctx sch row nulls → has_pk sch = true →
  SqlRDBWrite drv (Some nm) (Some row) nulls s = Some (SQL_RDB_OK, s1) →
  cond_plain (by_key sch ty v) →
  value_cell v = cell_at (new_row (col_names sch) (row_cells sch row nulls)) (pk_name sch) →
  buffers_ok sch buf nulls' → length buf = length row →
  ∃ x s2, SqlRDBRead drv (Some nm) (Some (by_key sch ty v)) (Some buf) nulls' opts s1 = Some (x, s2) ∧
    match x.1.1 with
    | SQL_RDB_OK | SQL_RDB_WARN_TRUNCATED => read_back (no_oom (hs_alloc s1)) sch row nulls x
    | SQL_RDB_ERR_NOT_FOUND | SQL_RDB_ERR_MULTIPLE_ROWS => False
    | _ => True
    end.
Proof.
  intros Hs Hst Hrow Hpk E Hv Hval Hbuf Hlen. pose proof Hrow as (Hw & Hok & Hcells).
  destruct (write_run drv ctx V o nm sch t T row nulls s Hs Hst Hrow) as (r & s1' & E' & Hs1).
  rewrite E in E'. injection E' as <- <-. cbn [res_ok] in Hs1.
  pose proof (written_stored drv ctx V nm sch t T row nulls Hst Hrow) as Hst1.
  set (cells := row_cells sch row nulls) in *. set (t1 := written_table drv ctx t sch cells) in *.
  pose proof (row_cells_typed _ _ row _ Hok) as Hty. fold cells in Hty.
  pose proof Hst as ((Hsch & _) & Hd & Ht & _).
  assert (searchable drv ctx t1 (Some (by_key sch ty v))) as Hc by (by eapply (by_key_searchable drv ctx)).
  destruct (read_run_now nm sch t1 _ _ buf nulls' opts s1 Hs1 Hst1 Hc Hbuf) as (x & s2 & E2 & _ & _ & Hx).
  exists x, s2. split; [done|].
  destruct (written_unique drv ctx t sch cells Hsch Ht Hd Hty Hcells Hpk) as (y & Hy & Hyc).
  assert (chosen drv ctx (Some (by_key sch ty v)) (t_rows t1) = [y]) as Hch
    by (unfold by_key; by rewrite (chosen_key drv ctx _ _ _ _ _ Hval)).
  unfold read_post in Hx. rewrite Hch in Hx. cbn [plenty_if st_plenty] in Hx.
  assert (∀ P r, r ∈ [y] → shows P sch (cells_of sch r) buf nulls' x → read_back P sch row nulls x) as Hread.
  { intros P r ->%list_elem_of_singleton Hsh. rewrite Hyc in Hsh. by eapply shows_read_back. }
  destruct x.1.1; try done; try (destruct Hx as (_ & r & Hr & _ & Hsh); by eapply Hread).
  - by destruct Hx as [_ Hx].
  - destruct Hx as (_ & Hx & _). simpl in Hx. lia.
Qed.
End roundtrip.

(** ** Examples: the struct of ApiTheorems.v on the driver with tables *)

Definition ex_setting : Setting := MkSetting (r_reg ex_r1) ex_config (MkTxn 0 (replicate 16 EmptyString)) True.

Definition ex_db_row (id : Z) (label : string) : Row :=
  {["id"%string := CInt id; "label"%string := CText (list_byte_of_string label)]}.
Definition ex_items (rows : list Row) : Table :=
  MkTable {["id"%string := KInt; "label"%string := KText]} (Some "id"%string) rows.
Definition ex_tables (rows : list Row) : Tables := {["item"%string := ex_items rows]}.
Definition ex_on_tab (rows : list Row) : HState Tab := MkH ex_handle (tab0 (ex_tables rows)) [] 5.

(** The rows 3 and 5. *)
Definition ex_two : list Row := [ex_db_row 3 "x"; ex_db_row 5 "x"].

(** A struct, with room for the label. *)
Definition ex_struct (id : Z) (label : string) : list byte :=
  take 40 (le_split 8 id ++ list_byte_of_string label ++ replicate 32 x00).

Definition ex_tab_T (rows : list Row) : Db → Z → Prop := λ b _, b = MkDb (ex_tables rows) [] false.

Lemma ex_tab_rest rows : at_rest tab_driver 1%N ex_setting ∅ (ex_tab_T rows) (ex_on_tab rows).
Proof.
  split.
  - split; [|done]. split; [done|]. split; [exact ex_r1_wf|]. split; [split_and!; try done; intros; simpl in *; lia|].
    exists [], (MkAbs 2 []). split_and!; [exact ex_rep|constructor|done|done|set_solver|set_solver].
  - split; [split_and!; try done; [by destruct ex_r1_wf|constructor]|]. split; [|by exists 0].
    exists [], (MkAbs 2 []). split_and!; [exact ex_rep|constructor| |done]. intros sql p Hp. by apply elem_of_nil in Hp.
Qed.

Lemma ex_tab_found : found (r_reg ex_r1) "item" ex_raw_e.
Proof. split_and!; [by destruct ex_r1_wf as (_ & [Hs _]%Forall_cons & _)|done|by left]. Qed.

Lemma ex_tab_declared rows : declared (ex_items rows) ex_raw_e.
Proof. split; [|done]. repeat constructor; eexists; split; vm_compute; reflexivity. Qed.

Lemma ex_db_row_typed rows id label : row_typed (ex_items rows) (ex_db_row id label).
Proof.
  intros col k Hk. cbn [ex_items t_kinds] in Hk. apply lookup_insert_Some in Hk as [[<- <-]|[_ [<- <-]%lookup_singleton_Some]]; vm_compute; reflexivity.
Qed.

Lemma ex_two_stored : stored ex_setting "item" ex_raw_e (ex_items ex_two) (ex_tab_T ex_two).
Proof.
  split; [exact ex_tab_found|]. split; [apply ex_tab_declared|]. split; [|by intros b n ->].
  split; [repeat constructor; apply ex_db_row_typed|]. intros key [= <-]. split; [by exists KInt|].
  change (keys "id" (t_rows (ex_items ex_two))) with [CInt 3; CInt 5].
  split; [by repeat constructor|]. by apply (bool_decide_unpack _); vm_compute.
Qed.

Lemma ex_struct_ok id label nulls :
  (∀ m, nulls = Some m → 1 ≤ Z.of_nat (length m)) →
  row_ok (Z.of_nat (length (ex_struct id label))) ex_raw_e nulls.
Proof.
  intros Hm. assert (length (ex_struct id label) = 40%nat) as ->; [|by apply ex_item_row].
  unfold ex_struct. rewrite length_take, !length_app, length_le_split, length_replicate. lia.
Qed.

Lemma ex_seven_fine : row_fine tab_driver 1%N ex_raw_e (ex_struct 7 "bob") None.
Proof.
  split; [done|]. split; [by apply ex_struct_ok|]. split; [|by vm_compute].
  apply Forall_forall. done.
Qed.

Lemma ex_small : searchable tab_driver 1%N (ex_items ex_two) (Some ex_where).
Proof.
  split; [apply ex_where_fits|]. split; [by vm_compute|]. split; [by eexists|]. split; [by repeat constructor|].
  split; eexists; (split; [vm_compute; reflexivity|done]).
Qed.

Lemma ex_buffers nulls :
  (∀ m, nulls = Some m → 1 ≤ Z.of_nat (length m)) → buffers_ok ex_raw_e (replicate 40 xff) nulls.
Proof.
  intros Hm. split; [by apply ex_item_row|]. split; [|done]. by repeat constructor.
Qed.

Lemma write_upserts_witness :
  ∃ r s', SqlRDBWrite tab_driver (Some "item"%string) (Some (ex_struct 7 "bob")) None (ex_on_tab ex_two) = Some (r, s') ∧
    let T' := written tab_driver 1%N "item" ex_raw_e (ex_items ex_two) (row_cells ex_raw_e (ex_struct 7 "bob") None) (ex_tab_T ex_two) in
    if res_ok r
    then at_rest tab_driver 1%N ex_setting ∅ T' s' ∧
      stored ex_setting "item" ex_raw_e
        (written_table tab_driver 1%N (ex_items ex_two) ex_raw_e (row_cells ex_raw_e (ex_struct 7 "bob") None)) T'
    else other_code r = true ∧ at_rest tab_driver 1%N ex_setting ∅ (hurting tab_driver 1%N (ex_tab_T ex_two)) s'.
Proof.
  apply (write_upserts tab_driver 1%N ex_setting ∅).
  - apply ex_tab_rest.
  - apply ex_two_stored.
  - apply ex_seven_fine.
Defined.

(** One row of two is chosen. *)
Lemma read_selects_witness :
  ∃ x s', SqlRDBRead tab_driver (Some "item"%string) (Some ex_where) (Some (replicate 40 xff)) (Some [x00]) None
      (ex_on_tab ex_two) = Some (x, s') ∧
    let l := chosen tab_driver 1%N (Some ex_where) ex_two in
    match x.1.1 with
    | SQL_RDB_OK | SQL_RDB_WARN_TRUNCATED => at_rest tab_driver 1%N ex_setting ∅ (ex_tab_T ex_two) s' ∧
        ∃ r, r ∈ l ∧ (false = false → l = [r]) ∧
          shows (no_oom []) ex_raw_e (cells_of ex_raw_e r) (replicate 40 xff) (Some [x00]) x
    | SQL_RDB_ERR_NOT_FOUND => at_rest tab_driver 1%N ex_setting ∅ (ex_tab_T ex_two) s' ∧ l = []
    | SQL_RDB_ERR_MULTIPLE_ROWS =>
        at_rest tab_driver 1%N ex_setting ∅ (ex_tab_T ex_two) s' ∧ (2 ≤ length l)%nat ∧ false = false
    | _ => at_rest tab_driver 1%N ex_setting ∅ (hurting tab_driver 1%N (ex_tab_T ex_two)) s'
    end.
Proof.
  apply (read_selects tab_driver 1%N ex_setting ∅ "item" ex_raw_e (ex_items ex_two) (ex_tab_T ex_two) (Some ex_where)
    (replicate 40 xff) (Some [x00]) None (ex_on_tab ex_two)).
  - apply ex_tab_rest.
  - apply ex_two_stored.
  - apply ex_small.
  - apply ex_buffers. intros m [= <-]. done.
Defined.

Lemma count_counts_witness :
  ∃ x s', SqlRDBCount tab_driver (Some "item"%string) (Some ex_where) (ex_on_tab ex_two) = Some (x, s') ∧
    api_inv tab_driver (r_reg ex_r1) ∅ s' ∧
    count_post tab_driver 1%N ex_setting (ex_items ex_two) (Some ex_where) (ex_tab_T ex_two) x s'.
Proof.
  apply (count_counts tab_driver 1%N ex_setting ∅ "item" ex_raw_e).
  - apply ex_tab_rest.
  - apply ex_two_stored.
  - apply ex_small.
Defined.

Lemma delete_then_count_witness :
  ∃ x s1, SqlRDBDelete tab_driver (Some "item"%string) (Some ex_where) true (ex_on_tab ex_two) = Some (x, s1).
Proof.
  destruct (delete_then_count tab_driver 1%N ex_setting ∅ "item" ex_raw_e (ex_items ex_two) (ex_tab_T ex_two) ex_where
    (ex_on_tab ex_two)) as (x & s1 & E & _).
  - apply ex_tab_rest.
  - apply ex_two_stored.
  - apply ex_small.
  - exists x, s1. exact E.
Defined.

Lemma read_many_enumerates_witness :
  ∃ x s1, SqlRDBReadMany tab_driver (Some "item"%string) None (ex_on_tab ex_two) = Some (x, s1).
Proof.
  destruct (read_many_enumerates tab_driver 1%N ex_setting ∅ "item" ex_raw_e (ex_items ex_two) (ex_tab_T ex_two) None
    (replicate 40 xff) None (ex_on_tab ex_two)) as (x & s1 & E & _).
  - apply ex_tab_rest.
  - apply ex_two_stored.
  - split; [apply no_cond_small|]. split_and!; done || constructor.
  - apply ex_item_row. done.
  - exists x, s1. exact E.
Defined.

(** A statement that is ready, and a row of its parameters. *)
Definition ex_bound : Tab := MkTab (MkDb (ex_tables []) [] false) {[2%N := MkCursor "INSERT" ∅ None]} 0 [1%N].

Lemma bind_then_read_witness :
  ∃ r d1, c2sql_internal_tm_bind_row tab_driver 2%N (Some ex_raw_e) (Some (ex_struct 7 "bob")) None ex_bound = Some (r, d1) ∧
    r = SQL_RDB_OK.
Proof.
  destruct (bind_then_read tab_driver 1%N 2%N ex_raw_e (ex_struct 7 "bob") None "INSERT" ∅ ex_bound)
    as (r & d1 & E & _ & _).
  - apply ex_struct_ok. discriminate.
  - discriminate.
  - reflexivity.
  - exists r, d1. split; [exact E|]. apply (f_equal (fmap fst)) in E. vm_compute in E. injection E as <-. reflexivity.
Defined.

(** The struct with the key 7 is written and read. *)
Definition ex_after_write : HState Tab :=
  match SqlRDBWrite tab_driver (Some "item"%string) (Some (ex_struct 7 "bob")) None (ex_on_tab ex_two) with
  | Some (_, s) => s
  | None => ex_on_tab []
  end.

Lemma write_then_read_witness :
  ∃ x s2, SqlRDBRead tab_driver (Some "item"%string) (Some (by_key ex_raw_e SQL_TYPE_INT64 (VInt 7)))
      (Some (replicate 40 xff)) None None ex_after_write = Some (x, s2) ∧
    match x.1.1 with
    | SQL_RDB_OK | SQL_RDB_WARN_TRUNCATED => read_back (no_oom (hs_alloc ex_after_write)) ex_raw_e (ex_struct 7 "bob") None x
    | SQL_RDB_ERR_NOT_FOUND | SQL_RDB_ERR_MULTIPLE_ROWS => False
    | _ => True
    end.
Proof.
  apply (write_then_read tab_driver 1%N ex_setting ∅ "item" ex_raw_e (ex_items ex_two) (ex_tab_T ex_two)
    (ex_struct 7 "bob") None (ex_on_tab ex_two)).
  - apply ex_tab_rest.
  - apply ex_two_stored.
  - apply ex_seven_fine.
  - reflexivity.
  - vm_compute. reflexivity.
  - exact I.
  - vm_compute. reflexivity.
  - apply ex_buffers. discriminate.
  - vm_compute. reflexivity.
Defined.

(** The same by computation: the id and the label come back. *)
Example write_then_read_example :
  (λ x, (x.1.1.1, take 11 x.1.1.2)) <$>
    SqlRDBRead tab_driver (Some "item"%string) (Some (by_key ex_raw_e SQL_TYPE_INT64 (VInt 7)))
      (Some (replicate 40 xff)) None None ex_after_write =
  Some (SQL_RDB_OK, take 11 (ex_struct 7 "bob")).
Proof. vm_compute. reflexivity. Qed.

(** The member that is NULL is marked; not so when the allocation of the
    temporary bitmap fails, which SqlRDBRead does not notice: the result is OK
    and the bitmap of the caller as it was. *)
Definition ex_read_null (al : list bool) : option (SqlRDBResult * option (list byte)) :=
  (λ x, (x.1.1.1, x.1.2)) <$>
    SqlRDBRead tab_driver (Some "item"%string) None (Some (replicate 40 xff)) (Some [x00]) None
      (MkH ex_handle (tab0 (ex_tables [{["id"%string := CInt 3]}])) al 5).

Example read_null_marked : ex_read_null [] = Some (SQL_RDB_OK, Some [x02]).
Proof. vm_compute. reflexivity. Qed.

Example read_null_flags_lost :
  ex_read_null [true; true; true; true; false] = Some (SQL_RDB_OK, Some [x00]).
Proof. vm_compute. reflexivity. Qed.
