(* ===== verification/SqlBlob.v ===== *)
(** * Blob fields on tables

    What SqlRDBWriteBlobField and SqlRDBReadBlobField do to the tables: the one
    row the condition selects gets the new bytes, and gives them back. *)

From Stdlib Require Import Ascii String Strings.Byte.
From coqutil Require Import Byte Word.LittleEndianList.
From S2P Require Import Prelude Types Support Driver StmtCacheSpec StmtCacheTheorems Condition QueryBuilder QueryBuilderProofs.
From S2P Require Import Registry RegistryProofs SqlText SqlTextProofs TypeMapping TypeMappingProofs Relational TableDriver.
From S2P Require Import Handle Api ApiProofs ApiSafety SqlHandle SqlBlocks SqlApi SqlRead SqlTables ApiTheorems SqlTheorems.
Import ErrorCtx Logger Mutex.

(** ** The values of a condition after another one *)

Lemma args_fun_cons x l i : 1 ≤ i → args_fun (x :: l) (i + 1) = args_fun l i.
Proof. intros Hi. unfold args_fun. by replace (Z.to_nat (i + 1 - 1)) with (S (Z.to_nat (i - 1))) by lia. Qed.

Lemma holds_shift cmp x l p r : ∀ n, 0 ≤ n → holds cmp (args_fun (x :: l)) (n + 1) p r = holds cmp (args_fun l) n p r.
Proof.
  induction p as [c op|p IHp q IHq|p IHp q IHq]; intros n Hn; cbn [holds]; [by rewrite args_fun_cons by lia|..];
    pose proof (pred_holes_pos p); rewrite IHp by done;
    replace (n + 1 + pred_holes p) with (n + pred_holes p + 1) by lia; by rewrite IHq by lia.
Qed.

Lemma selects_shift cmp x l w r : selects cmp (args_fun (x :: l)) 1 w r = selects cmp (args_fun l) 0 w r.
Proof. destruct w as [p|]; [|done]. by apply (holds_shift cmp x l p r 0). Qed.

Lemma pred_typed_shift t x l p : ∀ n, 0 ≤ n → pred_typed t (args_fun l) n p → pred_typed t (args_fun (x :: l)) (n + 1) p.
Proof.
  induction p as [c op|p IHp q IHq|p IHp q IHq]; intros n Hn; cbn [pred_typed]; [by rewrite args_fun_cons by lia|..];
    pose proof (pred_holes_pos p); intros [Hp Hq]; (split; [by apply IHp|]);
    replace (n + 1 + pred_holes p) with (n + pred_holes p + 1) by lia; apply IHq; done || lia.
Qed.

Lemma where_typed_shift t x l w : where_typed t (args_fun l) 0 w → where_typed t (args_fun (x :: l)) 1 w.
Proof. destruct w as [p|]; [|done]. by apply (pred_typed_shift t x l p 0). Qed.

(** ** The column *)

Definition blob_col (sch : SqlRDBSchema) (col : string) : Prop :=
  ∃ d, d ∈ sch_cols sch ∧ col_name d = col ∧ col_type d = SQL_TYPE_BLOB.

Lemma find_col_loop_hit cols col k : ∀ i j d,
  (i + k)%nat = length cols → (length cols ≤ 64)%nat → (i ≤ j)%nat → cols !! j = Some d → col_name d = col →
  ∃ x, find_col_loop cols i k col = Some x ∧ 0 ≤ x.
Proof.
  induction k as [|k IH]; intros i j d Hi Hl Hj Hd Hn; pose proof (lookup_lt_Some _ _ _ Hd); [lia|]; cbn [find_col_loop].
  destruct (lookup_lt_is_Some_2 cols i ltac:(lia)) as [c Hc]. rewrite Hc. cbn [mbind option_bind].
  case_decide as Hcn; [exists (to_signed 32 (Z.of_nat i)); rewrite to_signed_small by lia; split; [done|lia]|].
  apply (IH (S i) j d); try done; [lia|]. destruct (decide (i = j)) as [<-|]; [congruence|lia].
Qed.

Lemma find_blob_col sch col :
  schema_ok sch → blob_col sch col →
  ∃ x d, find_col_index sch col = Some x ∧ 0 ≤ x ∧ sch_cols sch !! Z.to_nat x = Some d ∧ col_type d = SQL_TYPE_BLOB.
Proof.
  intros Hs (d & Hin & Hn & Hty). pose proof (schema_ok_small sch Hs) as (_ & _ & Hl & Hcount).
  pose proof Hs as (_ & _ & _ & [Hnd _] & _). apply list_elem_of_lookup in Hin as [j Hj].
  destruct (find_col_loop_hit (sch_cols sch) col (Z.to_nat (sch_col_count sch)) 0 j d ltac:(lia) Hl ltac:(lia) Hj Hn) as (x & Hx & H0).
  destruct (find_col_loop_spec (sch_cols sch) 0 (Z.to_nat (sch_col_count sch)) col ltac:(lia) Hl) as (y & Hy & [Hneg|(c & Hc & Hcn)]);
    rewrite Hx in Hy; injection Hy as <-; [lia|].
  exists x, c. split; [done|]. split; [done|]. split; [done|].
  assert (Z.to_nat x = j) as <-; [|by rewrite Hj in Hc; injection Hc as <-].
  apply (NoDup_lookup _ _ _ col Hnd); rewrite list_lookup_fmap, ?Hc, ?Hj; simpl; congruence.
Qed.

Section blob.
Context {D : Type} (drv : SqlRDBDriver D) `{!DriverLaws drv} (ctx : ptr) `{!SqlLaws drv ctx}.
Context (V : Setting).

Local Abbreviation R := (st_registry V).
Local Abbreviation tidy := (tidy drv ctx V).
Local Abbreviation borrowed := (borrowed drv ctx V).
Local Abbreviation hurting := (hurting drv ctx).
Local Abbreviation gives_up := (gives_up drv ctx V).

Section field.
Context (nm : string) (sch : SqlRDBSchema) (col : string) (c : SqlRDBCondition) (t : Table) (T : Db → Z → Prop).
Hypotheses (Hf : found R nm sch) (Hcol : blob_col sch col) (Hd : declared t sch) (Hc : searchable drv ctx t (Some c))
  (HT : ∀ b n, T b n → db_tables b !! nm = Some t).

Local Abbreviation rows := (chosen drv ctx (Some c) (t_rows t)).

(** The checks of the column pass. *)
Lemma with_blob_col_tidy {A} what (ret : SqlRDBResult → A) k Q :
  gives_up T ret Q → hoare (tidy T) (k sch) Q → hoare (tidy T) (with_blob_col what nm col ret k) Q.
Proof.
  intros Hg Hk. apply with_schema_tidy with sch; [done|done|]. pose proof Hf as (Hs & _).
  destruct (find_blob_col sch col Hs Hcol) as (x & d & Hx & H0 & Hi & Hty). rewrite Hx.
  eapply (hoare_bind _ _ (λ y s, tidy T s ∧ y = x)); [eapply hoare_post; [apply hoare_def|]; by intros y s [? [= <-]]|].
  intros y. apply hoare_pure. intros ->. rewrite (proj2 (Z.ltb_ge x 0)) by done. rewrite Hi.
  eapply (hoare_bind _ _ (λ y s, tidy T s ∧ y = d)); [eapply hoare_post; [apply hoare_def|]; by intros y s [? [= <-]]|].
  intros y. apply hoare_pure. intros ->. by rewrite bool_decide_true.
Qed.

(** ** The two statements *)

Definition field_op (op : C2SqlQBOp) : Prop := op = C2SQL_QB_UPDATE_FIELD ∨ op = C2SQL_QB_SELECT_FIELD.

Lemma field_spec_fits op : field_op op → spec_fits (query drv op sch (Some c) (Some col)) sch.
Proof.
  intros Hop. pose proof Hf as (Hs & _). pose proof Hc as (Hsmall & Hp & _). pose proof Hcol as (d & Hin & <- & _).
  pose proof (schema_ok_small sch Hs) as (_ & Hnames & _). unfold col_names in Hnames. rewrite Forall_fmap in Hnames.
  rewrite Forall_forall in Hnames. eapply field_fits; [done| |by apply Hnames|done]. split; [done|by apply cond_plain_ok].
Qed.

Lemma field_spec_proper op : field_op op → spec_proper (query drv op sch (Some c) (Some col)) sch.
Proof. pose proof Hc as (_ & _ & Hw & _). by intros [-> | ->]. Qed.

Lemma blob_kind : t_kinds t !! col = Some KBlob.
Proof.
  destruct Hd as [Hk _], Hcol as (d & Hin & <- & Hty). rewrite Forall_forall in Hk.
  destruct (Hk d Hin) as (k & Hk' & Hof). rewrite Hty in Hof. by injection Hof as <-.
Qed.

Definition select_field : Sql := qb_sql (query drv C2SQL_QB_SELECT_FIELD sch (Some c) (Some col)) sch.
Definition update_field : Sql := qb_sql (query drv C2SQL_QB_UPDATE_FIELD sch (Some c) (Some col)) sch.

Lemma where_count : Z.of_nat (length (where_cells (Some c))) = where_holes (where_of (Some c)).
Proof.
  pose proof Hc as (_ & _ & Hw & _). rewrite length_where_cells.
  destruct (where_of_print (drv_dialect drv) (Some c) 0 Hw) as [_ H]. lia.
Qed.

Lemma select_runnable : sql_ok select_field → runnable drv ctx select_field (where_cells (Some c)) t T.
Proof.
  intros Hok. pose proof Hf as (_ & Hn & _). pose proof Hc as (_ & _ & _ & Hex & Hty). pose proof where_count.
  unfold runnable, select_field, qb_sql, query in *. cbn [q_op q_cond sql_holes sql_typed sql_table] in *.
  rewrite Hn in *. split_and!; try done. constructor; [|done]. exists KBlob. apply blob_kind.
Qed.

Lemma update_runnable x :
  sql_ok update_field → sql_exact x → of_kind KBlob x = true →
  runnable drv ctx update_field (x :: where_cells (Some c)) t T.
Proof.
  intros Hok Hx Hkx. pose proof Hf as (_ & Hn & _). pose proof Hc as (_ & _ & _ & Hex & Hty). pose proof where_count.
  unfold runnable, update_field, qb_sql, query in *. cbn [q_op q_cond sql_holes sql_typed sql_table] in *.
  rewrite Hn in *. split; [done|]. split; [cbn [length]; lia|]. split; [by constructor|]. split; [|done]. split.
  - exists KBlob. split; [apply blob_kind|done].
  - by apply where_typed_shift.
Qed.

(** The rows the selection of the field gives. *)
Lemma select_rows l :
  l ≡ₚ ef_result (sql_effect sql_cmp select_field (args_fun (where_cells (Some c))) (t_rows t)) →
  ∃ rs, l = (λ r, [cell_at r col]) <$> rs ∧ rs ≡ₚ rows.
Proof. intros Hl. by apply (Permutation_map_inv (λ r : Row, [cell_at r col]) rows) in Hl as (rs & -> & Hp); exists rs. Qed.
(** ** Counting up to two *)

Definition matches (n : Z) : Prop := n = Z.min 2 (Z.of_nat (length rows)).

Definition matching_post (x : SqlRDBResult * Z) (s : HState D) : Prop :=
  if res_ok x.1 then tidy T s ∧ matches x.2 else other_code x.1 = true ∧ tidy (hurting T) s.

Lemma finalize_matching stmt (C : Cursor → Db → Z → Prop) r n :
  (∀ cu b k, C cu b k → if res_ok r then any T b k else hurting T b k) → (res_ok r = true → matches n) → plain_code r = true →
  hoare (borrowed stmt true C) (h_finalize drv stmt;; mret (r, n)) matching_post.
Proof.
  intros HC Hn Hr. set (T' := if res_ok r then T else hurting T).
  eapply hoare_bind; [apply (finalize_tidy drv ctx V stmt C T')|].
  - intros cu b k H. apply HC in H. unfold T'. destruct (res_ok r); [done|by apply any_intro].
  - intros ?. apply hoare_ret. intros s Hs. unfold matching_post, T' in *. cbn [fst snd]. destruct (res_ok r) eqn:Er.
    + split; [done|by apply Hn].
    + split; [by apply plain_other'|done].
Qed.

Lemma count_matching_tidy :
  hoare (tidy T) (count_matching_rows drv sch col (Some c)) matching_post.
Proof.
  assert (∀ r s, other_code r = true → tidy (hurting T) s → matching_post (r, 0) s) as Hbad
    by (intros r s Hr Hs; unfold matching_post; cbn [fst snd]; by destruct r).
  eapply hoare_bind; [apply (build_tidy drv ctx V T _ sch); [apply field_spec_fits; by right|apply field_spec_proper; by right|done]|].
  intros [r sql]. apply hoare_pure. cbn [fst snd]. fold select_field. destruct (res_ok r) eqn:Er; cbn [negb].
  2:{ intros Hr. apply hoare_ret. intros s Hs. apply Hbad; [done|by apply tidy_hurting]. }
  intros [Hok ->]. set (q := sql_print (drv_dialect drv) select_field).
  eapply (hoare_bind _ _ (λ x s, tidy T s ∧ x = q)); [eapply hoare_post; [apply hoare_def|]; by intros x s [? [= <-]]|].
  intros x. apply hoare_pure. intros ->. apply gets_ctx. eapply hoare_bind; [apply prepare_tidy|]. intros [r1 stmt].
  cbn [fst snd]. destruct (res_ok r1) eqn:Er1; cbn [negb].
  2:{ apply hoare_pure. intros Hr. apply hoare_ret. intros s. apply Hbad. by apply plain_other'. }
  eapply (bind_fetched drv ctx V stmt true T q (where_cells (Some c))).
  - intros _. apply (bind_where_means drv ctx stmt (Some c) 0). apply Hc.
  - intros r2 Hr2. eapply hoare_bind; [apply (finalize_tidy drv ctx V stmt _ (hurting T)); intros _ b1 k1 H1; by apply any_intro, hurting_intro|].
    intros ?. apply hoare_ret. intros s. by apply Hbad.
  - eapply hoare_bind; [apply first_step; by apply select_runnable|]. intros [r2 b]. cbn [fst snd].
    apply hoare_pure'. intros Hr2. destruct (res_ok r2) eqn:Er2; cbn [negb].
    2:{ apply finalize_matching; [by rewrite Er2|by rewrite Er2|done]. }
    apply hoare_exists. intros l. apply hoare_pure'. intros (rs & -> & Hp)%select_rows. apply hoare_pure'. intros ->.
    change (wrote select_field t _ T) with (any T). unfold matching_post. apply Permutation_length in Hp.
    destruct rs as [|r0 rs]; cbn [fmap list_fmap bool_decide negb].
    { apply finalize_matching; [by intros cu b k (? & _)| |done]. intros _. unfold matches. by rewrite <-Hp. }
    rewrite bool_decide_false by done. cbn [negb].
    eapply hoare_bind; [by apply (next_step drv ctx V stmt true T)|]. intros [r3 b3]. cbn [fst snd].
    apply hoare_pure'. intros Hr3. destruct (res_ok r3) eqn:Er3; cbn [negb]; apply hoare_pure'.
    2:{ intros ->. apply finalize_matching; [by rewrite Er3|by rewrite Er3|done]. }
    intros ->. apply finalize_matching; [by intros cu b k (? & _)| |done]. intros _. unfold matches. rewrite <-Hp.
    destruct rs; cbn [fmap list_fmap]; [by rewrite bool_decide_true|]. rewrite bool_decide_false by done. cbn [negb length]. lia.
Qed.
(** ** Writing the field *)

(** The rows the condition selects get the value. *)
Definition field_set (x : Cell) (l : list Row) : list Row :=
  (λ r, if selects sql_cmp (args_fun (where_cells (Some c))) 0 (where_of (Some c)) r then <[col := x]> r else r) <$> l.

Definition blob_written (x : Cell) : Db → Z → Prop :=
  λ b n, ∃ b0 n0, T b0 n0 ∧ b = with_rows nm t (field_set x (t_rows t)) b0.

Definition write_blob_post (x : Cell) (r : SqlRDBResult) (s : HState D) : Prop :=
  match r with
  | SQL_RDB_OK => length rows = 1%nat ∧ tidy (blob_written x) s
  | SQL_RDB_ERR_NOT_FOUND => rows = [] ∧ tidy T s
  | SQL_RDB_ERR_MULTIPLE_ROWS => (2 ≤ length rows)%nat ∧ tidy T s
  | _ => tidy (hurting T) s
  end.

Lemma update_wrote x b n :
  wrote update_field t (sql_effect sql_cmp update_field (args_fun (x :: where_cells (Some c))) (t_rows t)) T b n →
  blob_written x b n.
Proof.
  pose proof Hf as (_ & Hn & _). unfold wrote, update_field, qb_sql, query. cbn [q_op sql_writes sql_effect ef_rows q_cond].
  intros (b0 & n0 & HT0 & -> & _). exists b0, n0. split; [done|]. unfold put_rows, with_rows, field_set. cbn [sql_table].
  rewrite Hn. do 3 f_equal. apply list_fmap_ext. intros i r _. by rewrite selects_shift.
Qed.

Lemma write_blob_tidy bytes len :
  0 ≤ len ≤ Z.of_nat (length bytes) → len ≤ INT_MAX → sql_exact (CBlob (take (Z.to_nat len) bytes)) →
  hoare (tidy T) (SqlRDBWriteBlobField drv (Some nm) (Some c) (Some col) (Some bytes) len)
    (write_blob_post (CBlob (take (Z.to_nat len) bytes))).
Proof.
  intros Hlen Hmax Hex. set (x := CBlob _). set (Q := write_blob_post x).
  assert (gives_up T id Q) as Hg by (intros r s Hr Hs; unfold Q, write_blob_post, id; by destruct r).
  apply valid_or_tidy; [intros s Hs; apply Hg; [done|by apply tidy_hurting]|].
  eapply hoare_bind; [apply lock_tidy|]. intros ?. apply with_blob_col_tidy; [done|].
  eapply hoare_bind; [apply count_matching_tidy|]. intros [r n]. unfold matching_post. cbn [fst snd].
  destruct (res_ok r) eqn:Er; cbn [negb]; apply hoare_pure || apply hoare_pure'.
  2:{ intros Hr. apply unlock_ret_tidy. intros s. by apply Hg. }
  unfold matches. intros Hn. destruct (Z.eqb_spec n 0).
  { apply unlock_ret_tidy. intros s Hs. split; [|done]. apply length_zero_iff_nil. lia. }
  destruct (Z.leb_spec 2 n); [apply unlock_ret_tidy; intros s Hs; split; [lia|done]|].
  apply with_sql_tidy with sch; [apply field_spec_fits; by left|apply field_spec_proper; by left|done|done|].
  fold update_field. intros Hok. apply with_stmt_tidy; [done|]. intros stmt owned.
  assert (∀ r, other_code r = true → hoare (borrowed stmt owned (λ _, any T)) (release_ret drv stmt owned r) Q) as Hbad
    by (intros r2 Hr2; apply (release_gives_up drv ctx V T stmt owned _ id); [done|done|intros _; apply hurting_intro]).
  eapply (bind_fetched drv ctx V stmt owned T _ [x]); [intros _; apply (binds_all_one drv ctx _ stmt 0); by apply (bind_blob_means stmt 1)|exact Hbad|].
  apply (bind_rule drv ctx V stmt owned T _ [x] (where_cells (Some c)));
    [apply (bind_where_means drv ctx stmt (Some c) 1); apply Hc|intros r2 Hne Hr2; apply Hbad; by apply plain_other|].
  eapply hoare_bind; [apply first_step; by apply update_runnable|]. intros [r2 b]. apply hoare_pure'. cbn [fst snd]. intros Hr2.
  set (T' := if res_ok r2 then blob_written x else hurting T).
  apply (hoare_pre (borrowed stmt owned (λ _, T'))).
  - apply (write_tail drv ctx V _ _ _ T'); [by intros _; apply any_intro|]. intros s. unfold Q, write_blob_post, T'. destruct (res_ok r2) eqn:Er2.
    + apply res_ok_true in Er2 as ->. split; [lia|done].
    + intros Hs. apply Hg; [by apply plain_other'|done].
  - intros s Hs. unfold T'. destruct (res_ok r2); [|done]. destruct Hs as (l & _ & _ & Hs).
    eapply borrowed_mono; [|exact Hs]. intros cu b1 k (Hw & _). by apply update_wrote.
Qed.

(** ** Reading the field *)

Definition read_blob_post (x : SqlRDBResult * option (list byte * Z)) (s : HState D) : Prop :=
  match x.1 with
  | SQL_RDB_OK => tidy T s ∧ ∃ r bs n, rows = [r] ∧ x.2 = Some (bs, n) ∧
      ∀ b, cell_at r col = CBlob b → bs = b ∧ n = Z.of_nat (length b)
  | SQL_RDB_ERR_NOT_FOUND => rows = [] ∧ x.2 = None ∧ tidy T s
  | SQL_RDB_ERR_MULTIPLE_ROWS => (2 ≤ length rows)%nat ∧ x.2 = None ∧ tidy T s
  | _ => x.2 = None ∧ tidy (hurting T) s
  end.

(** The copy of a blob. *)
Lemma copied_blob {S} (raw : option (list byte)) n (b : list byte) (P : S → Prop) :
  holds_bytes b (raw, n) →
  hoare P (if 0 <? n then mdef (raw ≫= λ p, bytes_at p 0 n) else mret []) (λ x s, P s ∧ x = b).
Proof.
  intros [Hn Hr]. cbn [fst snd] in *. subst n. destruct (Z.ltb_spec 0 (Z.of_nat (length b))).
  - destruct Hr as [->|[-> _]]; [|done]. cbn [mbind option_bind]. rewrite bytes_at_slice by lia.
    eapply hoare_post; [apply hoare_def|]. intros x s [Hs [= <-]]. split; [done|].
    unfold slice. by rewrite drop_0, take_ge by lia.
  - apply hoare_ret. intros s Hs. split; [done|]. destruct b; [done|simpl in *; lia].
Qed.
Lemma copied {S} (raw : option (list byte)) n cell (P : S → Prop) :
  (∀ b, cell = CBlob b → holds_bytes b (raw, n)) →
  hoare P (if 0 <? n then mdef (raw ≫= λ p, bytes_at p 0 n) else mret [])
    (λ x s, P s ∧ ∀ b, cell = CBlob b → x = b ∧ n = Z.of_nat (length b)).
Proof.
  intros H. assert ((∃ b, cell = CBlob b) ∨ ∀ b, cell ≠ CBlob b) as [[b ->]|Hn] by (destruct cell; eauto).
  - pose proof (H b eq_refl) as Hb. eapply hoare_post; [by apply (copied_blob _ _ b)|].
    intros x s [Hs ->]. split; [done|]. intros b' [= <-]. split; [done|]. by destruct Hb.
  - destruct (0 <? n).
    + eapply hoare_post; [apply hoare_def|]. intros x s [Hs _]. split; [done|]. intros b Hb. by destruct (Hn b).
    + apply hoare_ret. intros s Hs. split; [done|]. intros b Hb. by destruct (Hn b).
Qed.

Lemma read_blob_tidy :
  hoare (tidy T) (SqlRDBReadBlobField drv (Some nm) (Some c) (Some col)) read_blob_post.
Proof.
  set (none r := (r, None) : SqlRDBResult * option (list byte * Z)).
  assert (gives_up T none read_blob_post) as Hg by (intros r s Hr Hs; unfold read_blob_post, none; cbn [fst snd]; by destruct r).
  apply valid_or_tidy; [intros s Hs; apply Hg; [done|by apply tidy_hurting]|].
  eapply hoare_bind; [apply lock_tidy|]. intros ?. apply with_blob_col_tidy; [done|].
  apply with_sql_tidy with sch; [apply field_spec_fits; by right|apply field_spec_proper; by right|done|done|].
  fold select_field. intros Hok. set (q := sql_print (drv_dialect drv) select_field).
  apply with_prepared_tidy; [done|]. intros stmt.
  assert (∀ (C : Cursor → Db → Z → Prop) r, (∀ cu b k, C cu b k → hurting T b k) → other_code r = true →
    hoare (borrowed stmt true C) (finalize_ret drv stmt (none r)) read_blob_post) as Hbad
    by (intros C r HC Hr; by apply (finalize_gives_up drv ctx V T stmt C none)).
  eapply (bind_fetched drv ctx V stmt true T q (where_cells (Some c)));
    [intros _; apply (bind_where_means drv ctx stmt (Some c) 0); apply Hc|intros r Hr; apply Hbad; [intros _; apply hurting_intro|done]|].
  eapply hoare_bind; [apply first_step; by apply select_runnable|]. intros [r b]. cbn [fst snd]. apply hoare_pure'. intros Hr.
  destruct (res_ok r) eqn:Er; cbn [negb]; [|apply Hbad; [done|by apply plain_other']].
  apply hoare_exists. intros l. apply hoare_pure'. intros (rs & -> & Hp)%select_rows. apply hoare_pure'. intros ->.
  change (wrote select_field t _ T) with (any T). fold q.
  destruct rs as [|r0 rs]; cbn [fmap list_fmap].
  { rewrite bool_decide_true by done. cbn [negb]. apply (finalize_ret_tidy drv ctx V stmt _ T); [by intros cu b k (? & _)|].
    intros s Hs. split; [by apply Permutation_nil_l in Hp|done]. }
  rewrite bool_decide_false by done. cbn [negb].
  assert (∀ cu b k, running (any T) q ([cell_at r0 col] :: ((λ r, [cell_at r col]) <$> rs)) cu b k → hurting T b k) as Hrun
    by (intros cu b k (? & _); by apply hurting_intro).
  eapply hoare_bind; [eapply (fetch_borrowed drv ctx V stmt true (any T) q [cell_at r0 col] _ 0); [apply blob_means|done]|].
  intros [r1 [raw n]]. apply hoare_pure'. cbn [fst snd]. intros [Hr1 Hblob].
  destruct (res_ok r1) eqn:Er1; cbn [negb]; [|apply Hbad; [done|by apply plain_other']].
  apply res_ok_true in Er1. specialize (Hblob Er1).
  eapply hoare_bind; [apply malloc_borrowed|]. intros ok. apply hoare_pure. intros _.
  destruct ok; cbn [negb]; [|by apply Hbad].
  eapply hoare_bind; [by apply (copied _ _ (cell_at r0 col))|]. intros copy. apply hoare_pure. intros Hcopy.
  eapply hoare_bind; [by apply (next_step drv ctx V stmt true T)|]. intros [r2 b2]. cbn [fst snd].
  apply hoare_pure'. intros Hr2. apply Permutation_length in Hp as Hl. cbn [length] in Hl.
  destruct (res_ok r2) eqn:Er2; apply hoare_pure'; intros ->.
  - eapply hoare_bind; [apply (finalize_tidy drv ctx V stmt _ T); by intros cu b k (? & _)|]. intros ?. cbn [negb].
    destruct rs as [|r3 rs]; cbn [fmap list_fmap].
    + rewrite bool_decide_true by done. cbn [negb]. apply unlock_ret_tidy. intros s Hs. split; [done|].
      exists r0, copy, n. split; [by apply Permutation_singleton_l in Hp|]. by split.
    + rewrite bool_decide_false by done. cbn [negb]. apply unlock_ret_tidy. intros s Hs. split; [cbn [length] in Hl; lia|done].
  - eapply hoare_bind; [apply (finalize_tidy drv ctx V stmt _ (hurting T)); intros _; apply any_intro|]. intros ?. cbn [negb].
    apply unlock_ret_tidy. intros s. apply Hg. by apply plain_other'.
Qed.
End field.
End blob.

(** ** The field after a write *)

Fixpoint pred_cols (p : Pred) : list string :=
  match p with
  | PCmp col _ => [col]
  | PAnd p q | POr p q => pred_cols p ++ pred_cols q
  end.

Lemma pred_of_cols c : ∀ p, pred_of c = Some p → pred_cols p = cond_cols c.
Proof.
  induction c as [col op ty v|l IHl r IHr|l IHl r IHr|]; simpl; intros p H; [by injection H as <-| | |done];
    apply option.bind_Some in H as (p1 & H1 & H); apply option.bind_Some in H as (p2 & H2 & H); injection H as <-;
    simpl; by rewrite (IHl p1), (IHr p2).
Qed.

Lemma cell_at_insert col x (r : Row) col' : cell_at (<[col := x]> r) col' = if decide (col = col') then x else cell_at r col'.
Proof. unfold cell_at. rewrite lookup_insert. by case_decide. Qed.

Lemma holds_insert cmp f p col x r : ∀ n, col ∉ pred_cols p → holds cmp f n p (<[col := x]> r) = holds cmp f n p r.
Proof.
  induction p as [c op|p IHp q IHq|p IHp q IHq]; intros n; cbn [pred_cols holds].
  - intros Hc. rewrite cell_at_insert, decide_False; [done|]. set_solver.
  - intros [Hp Hq]%not_elem_of_app. by rewrite IHp, IHq.
  - intros [Hp Hq]%not_elem_of_app. by rewrite IHp, IHq.
Qed.

Section after.
Context {D : Type} (drv : SqlRDBDriver D) `{!DriverLaws drv} (ctx : ptr) `{!SqlLaws drv ctx}.

(** The condition selects the same rows, with the new value. *)
Lemma chosen_field_set col c x l :
  col ∉ cond_cols c →
  chosen drv ctx (Some c) (field_set drv ctx col c x l) = (λ r : Row, <[col := x]> r) <$> chosen drv ctx (Some c) l.
Proof.
  intros Hc. unfold chosen, field_set. set (sel := λ r : Row, selects sql_cmp (args_fun (where_cells (Some c))) 0 (where_of (Some c)) r).
  assert (∀ r : Row, sel (<[col := x]> r) = sel r) as Hsel.
  { intros r. unfold sel. destruct (where_of (Some c)) as [p|] eqn:Ep; [|done]. apply holds_insert.
    by rewrite (pred_of_cols c p Ep). }
  induction l as [|r l IH]; [done|]. cbn [fmap list_fmap].
  change (selects sql_cmp (args_fun (where_cells (Some c))) 0 (where_of (Some c)) r) with (sel r). destruct (sel r) eqn:E.
  - rewrite filter_cons_True by (change (Is_true (sel (<[col := x]> r))); by rewrite Hsel, E).
    rewrite filter_cons_True by (change (Is_true (sel r)); by rewrite E). cbn [fmap list_fmap]. by f_equal.
  - rewrite !filter_cons_False by (change (¬ Is_true (sel r)); rewrite E; by intros []). exact IH.
Qed.
End after.

(** ** Properties *)

Section claims.
Context {D : Type} (drv : SqlRDBDriver D) `{!DriverLaws drv} (ctx : ptr) `{!SqlLaws drv ctx}.
Context (V : Setting) (o : gset ptr).

Lemma write_blob_run nm sch col c t T bytes len s :
  at_rest drv ctx V o T s → found (st_registry V) nm sch → blob_col sch col → declared t sch →
  searchable drv ctx t (Some c) → (∀ b n, T b n → db_tables b !! nm = Some t) →
  0 ≤ len ≤ Z.of_nat (length bytes) → len ≤ INT_MAX → sql_exact (CBlob (take (Z.to_nat len) bytes)) →
  ∃ r s', SqlRDBWriteBlobField drv (Some nm) (Some c) (Some col) (Some bytes) len s = Some (r, s') ∧
    api_inv drv (st_registry V) o s' ∧
    write_blob_post drv ctx V nm col c t T (CBlob (take (Z.to_nat len) bytes)) r s'.
Proof.
  intros Hs Hf Hcol Hd Hc HT Hlen Hmax Hex. apply (at_rest_call drv ctx V o T _ _ s Hs); [|by eapply write_blob_tidy].
  apply SqlRDBWriteBlobField_safe; [by eapply search_safe|lia|intros bs [= <-]; lia].
Qed.

Lemma read_blob_run nm sch col c t T s :
  at_rest drv ctx V o T s → found (st_registry V) nm sch → blob_col sch col → declared t sch →
  searchable drv ctx t (Some c) → (∀ b n, T b n → db_tables b !! nm = Some t) → blob_present drv →
  ∃ x s', SqlRDBReadBlobField drv (Some nm) (Some c) (Some col) s = Some (x, s') ∧
    api_inv drv (st_registry V) o s' ∧ read_blob_post drv ctx V col c t T x s'.
Proof.
  intros Hs Hf Hcol Hd Hc HT Hp. apply (at_rest_call drv ctx V o T _ _ s Hs); [|by eapply read_blob_tidy].
  apply SqlRDBReadBlobField_safe; [by eapply search_safe|done].
Qed.

(** C11: blob fields.  SqlRDBWriteBlobField returns: OK when the condition
    selects one row, which then has the bytes in the field while nothing else
    has changed, NOT_FOUND when it selects none and MULTIPLE_ROWS when it
    selects more; nothing is written then, nor with any other error.  After OK,
    SqlRDBReadBlobField with the same condition, which does not look at the
    field, gives back exactly these bytes and their number, whatever their
    number up to INT_MAX, or an error and no buffer, but never NOT_FOUND or
    MULTIPLE_ROWS. *)
Theorem blob_write_then_read nm sch col c t T bytes len s :
  at_rest drv ctx V o T s → found (st_registry V) nm sch → blob_col sch col → declared t sch →
  searchable drv ctx t (Some c) → (∀ b n, T b n → db_tables b !! nm = Some t) → blob_present drv →
  0 ≤ len ≤ Z.of_nat (length bytes) → len ≤ INT_MAX → sql_exact (CBlob (take (Z.to_nat len) bytes)) →
  col ∉ cond_cols c →
  ∃ r s1, SqlRDBWriteBlobField drv (Some nm) (Some c) (Some col) (Some bytes) len s = Some (r, s1) ∧
    write_blob_post drv ctx V nm col c t T (CBlob (take (Z.to_nat len) bytes)) r s1 ∧
    (r = SQL_RDB_OK → ∃ x s2, SqlRDBReadBlobField drv (Some nm) (Some c) (Some col) s1 = Some (x, s2) ∧
      match x.1 with
      | SQL_RDB_OK => x.2 = Some (take (Z.to_nat len) bytes, len)
      | SQL_RDB_ERR_NOT_FOUND | SQL_RDB_ERR_MULTIPLE_ROWS => False
      | _ => x.2 = None
      end).
Proof.
  intros Hs Hf Hcol Hd Hc HT Hp Hlen Hmax Hex Hnc. set (v := CBlob (take (Z.to_nat len) bytes)) in *.
  destruct (write_blob_run nm sch col c t T bytes len s Hs Hf Hcol Hd Hc HT Hlen Hmax Hex) as (r & s1 & E & Hinv & Hpost).
  exists r, s1. split; [done|]. split; [done|]. intros ->. destruct Hpost as [Hone Htidy].
  set (t1 := MkTable (t_kinds t) (t_key t) (field_set drv ctx col c v (t_rows t))).
  destruct (read_blob_run nm sch col c t1 _ s1 (conj Hinv Htidy) Hf Hcol Hd) as (x & s2 & E2 & _ & Hx);
    [by eapply searchable_kinds; [|exact Hc]| |done|].
  { intros b n (b0 & n0 & _ & ->). apply lookup_insert_eq. }
  exists x, s2. split; [done|]. unfold read_blob_post in Hx. cbn [t1 t_rows] in Hx. rewrite chosen_field_set in Hx by done.
  destruct (chosen drv ctx (Some c) (t_rows t)) as [|r0 [|]]; try done. cbn [fmap list_fmap length] in Hx.
  destruct x.1; try by destruct Hx as [Hx _].
  - destruct Hx as (_ & r & bs & n & [= <-] & -> & Hb). destruct (Hb (take (Z.to_nat len) bytes)) as [-> ->].
    { by rewrite cell_at_insert, decide_True. }
    f_equal. f_equal. rewrite length_take. lia.
  - destruct Hx as [Hx _]. lia.
Qed.
End claims.

(** ** Example: documents with a payload *)

Definition ex_docs_schema : SqlRDBSchema :=
  MkSchema "docs" [MkColumnDef "id"%string SQL_TYPE_INT32 0 4 SQL_COL_FLAG_PRIMARY_KEY;
                   MkColumnDef "label"%string SQL_TYPE_TEXT 4 16 0;
                   MkColumnDef "payload"%string SQL_TYPE_BLOB 20 8 SQL_COL_FLAG_NULLABLE] 3 0.

Definition ex_doc (id : Z) : Row :=
  {["id"%string := CInt id; "label"%string := CText (list_byte_of_string "alpha"); "payload"%string := CNull]}.
Definition ex_docs : Table :=
  MkTable {["id"%string := KInt; "label"%string := KText; "payload"%string := KBlob]} (Some "id"%string) [ex_doc 1; ex_doc 2].
Definition ex_docs_reg : SqlRDBSchemaRegistry := MkReg [ex_docs_schema] 8 1%N.
Definition ex_docs_setting : Setting := MkSetting ex_docs_reg ex_config (MkTxn 0 (replicate 16 EmptyString)) True.
Definition ex_docs_db : Db := MkDb {["docs"%string := ex_docs]} [] false.
Definition ex_on_docs : HState Tab := MkH (set_h_registry ex_docs_reg ex_handle) (tab0 (db_tables ex_docs_db)) [] 6.

(** More bytes than the member of the struct has room for. *)
Definition ex_payload : list byte := replicate 11 x07 ++ replicate 9 x00.

Lemma ex_docs_schema_ok : schema_ok ex_docs_schema.
Proof.
  split; [by apply identifier_valid_spec|]. split; [done|]. split; [done|]. split; [split|].
  - by apply (bool_decide_unpack _).
  - repeat constructor; try done; by apply identifier_valid_spec.
  - right. exists 0%nat. eexists. split_and!; [done|done|done|lia].
Qed.

Lemma ex_docs_rest : at_rest tab_driver 1%N ex_docs_setting ∅ (λ b _, b = ex_docs_db) ex_on_docs.
Proof.
  split.
  - split; [|done]. split; [done|]. split.
    { split; [apply NoDup_singleton|]. split; [by constructor; [apply ex_docs_schema_ok|]|]. by split_and!. }
    split; [split_and!; try done; intros; simpl in *; lia|].
    exists [], (MkAbs 2 []). split_and!; [exact ex_rep|constructor|done|done|set_solver|set_solver].
  - split; [split_and!; try done; [apply NoDup_singleton|constructor]|]. split; [|by exists 0].
    exists [], (MkAbs 2 []). split_and!; [exact ex_rep|constructor| |done]. intros sql p Hp. by apply elem_of_nil in Hp.
Qed.

Lemma tab_blob_present : blob_present tab_driver.
Proof.
  intros stmt d r q n d' E Hn. simpl in E. unfold tab_column, tab_at in E.
  destruct (tab_cursors d !! stmt) as [cu|]; [|done]. injection E as _ E _.
  destruct (default CNull _); injection E as <- <-; done || lia.
Qed.

Definition ex_first : SqlRDBCondition := by_key ex_docs_schema SQL_TYPE_INT64 (VInt 1).

Lemma blob_write_then_read_witness :
  ∃ r s1, SqlRDBWriteBlobField tab_driver (Some "docs"%string) (Some ex_first) (Some "payload"%string) (Some ex_payload) 20
      ex_on_docs = Some (r, s1) ∧
    write_blob_post tab_driver 1%N ex_docs_setting "docs" "payload" ex_first ex_docs (λ b _, b = ex_docs_db)
      (CBlob ex_payload) r s1 ∧
    (r = SQL_RDB_OK → ∃ x s2, SqlRDBReadBlobField tab_driver (Some "docs"%string) (Some ex_first) (Some "payload"%string) s1 = Some (x, s2) ∧
      match x.1 with
      | SQL_RDB_OK => x.2 = Some (ex_payload, 20)
      | SQL_RDB_ERR_NOT_FOUND | SQL_RDB_ERR_MULTIPLE_ROWS => False
      | _ => x.2 = None
      end).
Proof.
  apply (blob_write_then_read tab_driver 1%N ex_docs_setting ∅ "docs" ex_docs_schema "payload" ex_first ex_docs
    (λ b _, b = ex_docs_db) ex_payload 20 ex_on_docs).
  - apply ex_docs_rest.
  - split; [apply ex_docs_schema_ok|]. split; [reflexivity|by left].
  - eexists. split; [right; right; left|]. split; reflexivity.
  - split; [|reflexivity]. repeat constructor; eexists; split; vm_compute; reflexivity.
  - split; [apply leaf_small; vm_compute; discriminate|]. split; [exact I|]. split; [by eexists|]. split; [by repeat constructor|].
    exists KInt. split; vm_compute; reflexivity.
  - intros b n ->. vm_compute. reflexivity.
  - apply tab_blob_present.
  - split; [discriminate|]. vm_compute. discriminate.
  - discriminate.
  - exact I.
  - apply (bool_decide_unpack _). vm_compute. exact I.
Defined.

(** The 20 bytes come back; a condition on two rows is refused. *)
Example ex_blob_there_and_back :
  (out ← SqlRDBWriteBlobField tab_driver (Some "docs"%string) (Some ex_first) (Some "payload"%string) (Some ex_payload) 20 ex_on_docs;
   (λ x, (out.1, x.1)) <$> SqlRDBReadBlobField tab_driver (Some "docs"%string) (Some ex_first) (Some "payload"%string) out.2) =
  Some (SQL_RDB_OK, (SQL_RDB_OK, Some (ex_payload, 20))).
Proof. vm_compute. reflexivity. Qed.

Example ex_blob_refused :
  fst <$> SqlRDBWriteBlobField tab_driver (Some "docs"%string)
    (Some (COND_LEAF "id" SQL_OP_GT SQL_TYPE_INT64 (VInt 0))) (Some "payload"%string) (Some ex_payload) 20 ex_on_docs =
  Some SQL_RDB_ERR_MULTIPLE_ROWS.
Proof. vm_compute. reflexivity. Qed.
