(* ===== verification/SqlTx.v ===== *)
(** * Transactions on rows

    SqlRDBWriteMany writes all rows or none for good; SqlRDBRollbackTx undoes
    what was done since SqlRDBBeginTx, at every depth, and SqlRDBCommitTx keeps
    it when every call in between succeeded. *)

From Stdlib Require Import Ascii String Strings.Byte.
From coqutil Require Import Byte Word.LittleEndianList.
From S2P Require Import Prelude Types Support Driver MemDriver StmtCache StmtCacheSpec StmtCacheProofs StmtCacheRefine.
From S2P Require Import StmtCacheTheorems Condition QueryBuilder QueryBuilderProofs Registry RegistryProofs.
From S2P Require Import SqlText SqlTextProofs TypeMapping TypeMappingProofs Relational TableDriver Handle Api ApiProofs.
From S2P Require Import ApiSafety SqlHandle SqlBlocks SqlApi SqlRead SqlTables SqlWriteMany Transactions ApiTheorems SqlTheorems.
Import ErrorCtx Logger Mutex.

Section tx.
Context {D : Type} (drv : SqlRDBDriver D) `{!DriverLaws drv} (ctx : ptr) `{!SqlLaws drv ctx}.

(** ** What the commands mean *)

Lemma moved_none_trans (m1 m2 m3 : gmap ptr Cursor) : moved_none m1 m2 → moved_none m2 m3 → moved_none m1 m3.
Proof.
  intros H1 H2 q c Hq. destruct (H1 q c Hq) as (r1 & Hq1 & Hn1). destruct (H2 q _ Hq1) as (r2 & Hq2 & Hn2).
  exists r2. split; [done|]. intros Hn. by apply Hn2, Hn1.
Qed.

Lemma moved_none_refl (m : gmap ptr Cursor) : moved_none m m.
Proof. intros q [sql args rows] Hq. by exists rows. Qed.

(** The name of the frame at a depth. *)
Definition frame_name (k : Z) : string := if k =? 1 then EmptyString else sp_name k.

(** A call that succeeded at depth [k]. *)
Definition tx_effect (c : TxCall) (k : Z) (b b' : Db) : Prop :=
  match c with
  | TxBegin => Z.of_nat (length (db_frames b)) = k →
      b' = MkDb (db_tables b) ((frame_name (k + 1), db_tables b) :: db_frames b) false ∧ (k ≠ 0 → db_doomed b = false)
  | TxCommit => ∀ T F, db_frames b = (frame_name k, T) :: F → (k = 1 → F = []) →
      b' = if db_doomed b then undo_all b else MkDb (db_tables b) F false
  | TxRollback => (sql_drops → db_frames b ≠ []) ∧
      ∀ T F, db_frames b = (frame_name k, T) :: F → (k = 1 → F = []) → b' = MkDb T F false
  end.

Lemma begin_effect k d r k' d' :
  0 ≤ k → abs_tx drv TxBegin ctx k d = Some ((r, k'), d') →
  moved_none (cursors d) (cursors d') ∧ (r = SQL_RDB_OK → tx_effect TxBegin k (the_db d) (the_db d')).
Proof.
  intros Hk E. simpl in E. destruct (_ <=? k); [by injection E as <- _ <-; split; [apply moved_none_refl|]|].
  apply bind_Some in E as (r1 & d1 & E & E'). injection E' as -> _ ->. unfold tx_open in E.
  destruct (Z.eqb_spec (k + 1) 1).
  - destruct (begin_means d r d' E) as [Hm H]. split; [done|]. intros -> Hl. simpl in H.
    assert (k = 0) as -> by lia. destruct (db_frames (the_db d)) eqn:Ef; [|simpl in Hl; lia]. by rewrite (H eq_refl).
  - destruct (savepoint_means _ d r d' E) as [Hm H]. split; [done|]. intros -> Hl. simpl in H.
    destruct H as [Hdoom ->]; [left; intros Hf; rewrite Hf in Hl; simpl in Hl; lia|]. unfold frame_name.
    rewrite (proj2 (Z.eqb_neq (k + 1) 1)) by done. done.
Qed.

Lemma commit_effect k d r k' d' :
  1 ≤ k → abs_tx drv TxCommit ctx k d = Some ((r, k'), d') →
  moved_none (cursors d) (cursors d') ∧ (r = SQL_RDB_OK → tx_effect TxCommit k (the_db d) (the_db d')).
Proof.
  intros Hk E. simpl in E. rewrite (proj2 (Z.eqb_neq k 0)) in E by lia.
  apply bind_Some in E as (r1 & d1 & E & E'). injection E' as -> _ ->. unfold tx_keep in E.
  unfold tx_effect, frame_name. destruct (Z.eqb_spec k 1).
  - destruct (commit_means d r d' E) as [Hm H]. split; [done|]. intros -> T F Hf HF. simpl in H.
    rewrite (HF e) in *. apply H. by rewrite Hf.
  - destruct (release_means _ d r d' E) as [Hm H]. split; [done|]. intros -> T F Hf _. simpl in H.
    destruct H as (_ & -> & H). by apply (H T F).
Qed.

Lemma rollback_effect k d r k' d' :
  1 ≤ k → abs_tx drv TxRollback ctx k d = Some ((r, k'), d') →
  moved_none (cursors d) (cursors d') ∧ (r = SQL_RDB_OK → tx_effect TxRollback k (the_db d) (the_db d')).
Proof.
  intros Hk E. simpl in E. rewrite (proj2 (Z.eqb_neq k 0)) in E by lia.
  apply bind_Some in E as (r1 & d1 & E & E'). injection E' as -> _ ->. unfold tx_undo in E.
  unfold tx_effect, frame_name. destruct (Z.eqb_spec k 1).
  - destruct (rollback_means d r d' E) as [Hm H]. split; [done|]. intros -> . simpl in H. destruct H as [Hd H].
    split; [done|]. intros T F Hf HF. rewrite (HF e) in *. rewrite H by (by rewrite Hf). unfold undo_all. by rewrite Hf.
  - apply bind_Some in E as (ra & d1 & Ea & E). destruct (rollback_to_means _ d ra d1 Ea) as [Hm Ha].
    destruct (res_ok ra) eqn:Era; [|injection E as <- <-; by split; [|intros ->]].
    destruct (release_means _ d1 r d' E) as [Hm2 Hr]. split; [by eapply moved_none_trans|]. intros ->. simpl in Hr.
    destruct Ha as [Hin Ha]. split; [intros _ Hf; rewrite Hf in Hin; by apply elem_of_nil in Hin|].
    intros T F Hf _. destruct Hr as (_ & _ & Hr). specialize (Ha T F Hf). rewrite Ha in Hr. by apply (Hr T F).
Qed.

Lemma abs_effect c k d r k' d' :
  0 ≤ k → (c ≠ TxBegin → 1 ≤ k) → abs_tx drv c ctx k d = Some ((r, k'), d') →
  moved_none (cursors d) (cursors d') ∧
  (r = SQL_RDB_OK → k' = (if decide (c = TxBegin) then k + 1 else k - 1) ∧ tx_effect c k (the_db d) (the_db d')).
Proof.
  intros H0 Hk E.
  assert (r = SQL_RDB_OK → k' = (if decide (c = TxBegin) then k + 1 else k - 1)) as Hk'.
  { intros ->. destruct c; simpl in E |- *; [destruct (_ <=? k); [done|]|destruct (k =? 0); [done|]..];
      by apply bind_Some in E as (r1 & d1 & _ & [= -> <- _]). }
  destruct c; [destruct (begin_effect k d r k' d' H0 E)|destruct (commit_effect k d r k' d' (Hk ltac:(done)) E)
              |destruct (rollback_effect k d r k' d' (Hk ltac:(done)) E)]; split; auto.
Qed.

(** ** The calls *)

(** The setting at another depth. *)
Definition at_txn (t : SqlRDBTxnState) (V : Setting) : Setting :=
  MkSetting (st_registry V) (st_config V) t (st_plenty V).

(** The database is [b]. *)
Definition exactly (b : Db) : Db → Z → Prop := λ b' _, b' = b.

Lemma at_rest_exactly V o T s : at_rest drv ctx V o T s → at_rest drv ctx V o (exactly (the_db (hs_db s))) s.
Proof. intros [Hi (Hb & Hc & _)]. split; [done|]. split; [done|]. split; [done|]. by exists 0. Qed.

Lemma at_rest_is V o b s : at_rest drv ctx V o (exactly b) s → the_db (hs_db s) = b.
Proof. by intros (_ & _ & _ & n & H). Qed.

(** A call on a valid handle, given what it means. *)
Lemma tx_call_rest V o T s c r k' d' :
  at_rest drv ctx V o T s → h_magic (hs_h s) = SQL_RDB_HANDLE_MAGIC →
  abs_tx drv c ctx (tx_depth (st_txn V)) (hs_db s) = Some ((r, k'), d') →
  moved_none (cursors (hs_db s)) (cursors d') →
  ∃ t s', tx_call drv c s = Some (r, s') ∧ tx_depth t = k' ∧ hs_db s' = d' ∧
    at_rest drv ctx (at_txn t V) o (exactly (the_db d')) s'.
Proof.
  intros [Hinv Htidy] Hv E Hmv.
  pose proof Htidy as ((Hctx & HR & Hnd & Hcfg & Htxn & Hal) & (ps & a & Hrep & Hnda & Hready & Hown) & _).
  pose proof Hinv as [(_ & _ & Htx & _) Hm].
  assert (depth_of s = tx_depth (st_txn V)) as Hds by (unfold depth_of; by rewrite Htxn).
  rewrite <-Hctx, <-Hds in E.
  destruct (tx_call_did drv c s r k' d' (conj Hv (conj Hm Htx)) E)
    as (s' & Ec & Hdid & Htx' & Hm' & (Hmag & Hcfg' & Hctx' & Hreg' & Hc' & _ & Hal' & _)).
  rewrite E in Hdid. injection Hdid as -> ->.
  exists (h_txn (hs_h s')), s'. split; [done|]. split; [done|]. split; [done|].
  destruct (tx_call_safe drv _ o c s Hinv) as (r2 & s2 & Ec2 & Hinv'). rewrite Ec in Ec2. injection Ec2 as <- <-.
  split; [done|]. split; [|split; [|by exists 0]].
  - split_and!; simpl; try congruence. intros Hp. rewrite Hal'. by apply Hal.
  - exists ps, a. rewrite Hc'. split_and!; [done|done| |done]. intros sql p Hp.
    destruct (Hready sql p Hp) as (Hn & cu & Hcu & Hsql & Hrun). split; [done|].
    destruct (Hmv p cu Hcu) as (rows & Hp' & Hrows). eexists. split; [done|]. split; [done|].
    intros Hne. by apply Hrows, Hrun.
Qed.

Lemma tx_run V o T s c k :
  at_rest drv ctx V o T s → tx_depth (st_txn V) = k → (c ≠ TxBegin → 1 ≤ k) →
  ∃ r t s', tx_call drv c s = Some (r, s') ∧
    at_rest drv ctx (at_txn t V) o (exactly (the_db (hs_db s'))) s' ∧
    (r = SQL_RDB_OK → tx_depth t = (if decide (c = TxBegin) then k + 1 else k - 1) ∧
      tx_effect c k (the_db (hs_db s)) (the_db (hs_db s'))).
Proof.
  intros Hs <- Hc. destruct (decide (h_magic (hs_h s) = SQL_RDB_HANDLE_MAGIC)) as [Hv|Hv].
  2:{ exists SQL_RDB_ERR_INVALID_HANDLE, (st_txn V), s. split; [|split; [|done]].
      - destruct c; simpl; unfold SqlRDBBeginTx, SqlRDBCommitTx, SqlRDBRollbackTx, valid_or, mbind, M_bind,
          mgets, c2sql_handle_valid; by rewrite (proj2 (Z.eqb_neq _ _) Hv).
      - destruct V. by eapply at_rest_exactly. }
  pose proof Hs as [[(_ & _ & Htx & _ & _ & _ & _ & _ & _ & _ & Hcx) _] ((Hctx & _ & _ & _ & Htxn & _) & _)].
  rewrite Hctx in Hcx. rewrite Htxn in Htx.
  destruct (abs_tx_keeps drv c ctx (tx_depth (st_txn V)) (hs_db s) Hcx) as ([r k'] & d' & E & _).
  destruct (abs_effect c _ _ r k' d' ltac:(apply Htx) Hc E) as [Hmv Heff].
  destruct (tx_call_rest V o T s c r k' d' Hs Hv E Hmv) as (t & s' & Ec & <- & <- & Hs'). by exists r, t, s'.
Qed.

(** A commit or a rollback outside of a transaction. *)
Lemma tx_refused V o T s c :
  at_rest drv ctx V o T s → h_magic (hs_h s) = SQL_RDB_HANDLE_MAGIC → tx_depth (st_txn V) = 0 → c ≠ TxBegin →
  ∃ t s', tx_call drv c s = Some (SQL_RDB_ERR_NO_ACTIVE_TX, s') ∧ tx_depth t = 0 ∧ hs_db s' = hs_db s ∧
    at_rest drv ctx (at_txn t V) o (exactly (the_db (hs_db s))) s'.
Proof.
  intros Hs Hv H0 Hc. apply (tx_call_rest V o T s c _ 0 (hs_db s) Hs Hv); [|apply moved_none_refl].
  rewrite H0. by destruct c.
Qed.

(** ** Calls on rows in between *)

Inductive RowOp : Type :=
  | OpWrite (row : list byte) (nulls : option (list byte))
  | OpDelete (c : SqlRDBCondition).

Context (V : Setting) (o : gset ptr) (nm : string) (sch : SqlRDBSchema) (kinds : gmap string Kind).

Definition op_fine (op : RowOp) : Prop :=
  match op with
  | OpWrite row nulls => row_fine drv ctx sch row nulls
  | OpDelete c => searchable drv ctx (MkTable kinds None []) (Some c)
  end.

Definition run_op (op : RowOp) : M (HState D) SqlRDBResult :=
  match op with
  | OpWrite row nulls => SqlRDBWrite drv (Some nm) (Some row) nulls
  | OpDelete c => out ← SqlRDBDelete drv (Some nm) (Some c) false; mret out.1
  end.

(** The rows after the call. *)
Definition op_rows (op : RowOp) (rows : list Row) : list Row :=
  match op with
  | OpWrite row nulls => put_row drv ctx sch (row_cells sch row nulls) rows
  | OpDelete c => spared drv ctx (Some c) rows
  end.

Fixpoint run_ops (ops : list RowOp) : M (HState D) (list SqlRDBResult) :=
  match ops with
  | [] => mret []
  | op :: ops => r ← run_op op; l ← run_ops ops; mret (r :: l)
  end.

(** The table is there and in order. *)
Definition in_order (tb : Tables) : Prop :=
  ∃ t, tb !! nm = Some t ∧ t_kinds t = kinds ∧ declared t sch ∧ table_ok t.

Lemma op_run op b t s :
  found (st_registry V) nm sch → op_fine op → t_kinds t = kinds → declared t sch → table_ok t → db_tables b !! nm = Some t →
  at_rest drv ctx V o (exactly b) s →
  ∃ r s', run_op op s = Some (r, s') ∧ table_ok (MkTable (t_kinds t) (t_key t) (op_rows op (t_rows t))) ∧
    if res_ok r then at_rest drv ctx V o (exactly (with_rows nm t (op_rows op (t_rows t)) b)) s'
    else at_rest drv ctx V o (λ b' _, hurt sql_drops b b') s'.
Proof.
  intros Hf Hop Hk Hd Ht Htb Hs.
  assert (stored V nm sch t (exactly b)) as Hst by (split_and!; try done; by intros b' n ->).
  assert (∀ s', tidy drv ctx V (hurting drv ctx (exactly b)) s' → tidy drv ctx V (λ b' _, hurt sql_drops b b') s') as Hh
    by (intros s'; apply tidy_mono; by intros b' n (b0 & n0 & -> & Hh)).
  destruct op as [row nulls|c]; cbn [run_op op_rows op_fine] in *.
  - destruct (write_run drv ctx V o nm sch t _ row nulls s Hs Hst Hop) as (r & s' & E & H).
    exists r, s'. split; [done|]. split.
    { by destruct (written_stored drv ctx V nm sch t _ row nulls Hst Hop) as (_ & _ & Hok & _). }
    destruct (res_ok r); [|destruct H as (_ & Hi & Hti); split; [done|by apply Hh]].
    destruct H as [Hi Hti]. split; [done|]. eapply tidy_mono; [|exact Hti]. by intros b' n (b0 & n0 & -> & -> & _).
  - destruct (delete_run drv ctx V o nm sch t _ c false s Hs Hst) as (x & s' & E & Hi & H);
      [by eapply searchable_kinds; [|exact Hop]|].
    exists x.1, s'. rewrite (bind_run _ _ _ _ _ E). split; [done|]. split; [by apply spared_table_ok|].
    unfold delete_post in H. destruct (res_ok x.1).
    + destruct H as [Hti _]. split; [done|]. eapply tidy_mono; [|exact Hti]. by intros b' n (b0 & n0 & -> & -> & _).
    + destruct H as (_ & _ & Hti). split; [done|by apply Hh].
Qed.

(** What the calls keep: the frames, unless the database drops them all. *)
Definition framed (F : list (string * Tables)) (b : Db) : Prop :=
  in_order (db_tables b) ∧ Forall in_order (db_frames b).*2 ∧ frames_kept sql_drops (MkDb ∅ F false) b.

Lemma framed_hurt F b b' : framed F b → hurt sql_drops b b' → framed F b'.
Proof.
  intros (Ht & Hfr & Hk) [->|[Hne [->|[Hd ->]]]]; [done|by split_and!|].
  split_and!; [|constructor|by right]. simpl. destruct (db_frames b) as [|x l] using rev_ind; [done|].
  rewrite last_snoc. simpl. rewrite fmap_app, Forall_app in Hfr. destruct Hfr as [_ Hx]. by apply Forall_cons in Hx as [? _].
Qed.

Lemma ops_run F ops : ∀ b t s,
  found (st_registry V) nm sch → Forall op_fine ops → framed F b → db_tables b !! nm = Some t →
  at_rest drv ctx V o (exactly b) s →
  ∃ rs s', run_ops ops s = Some (rs, s') ∧ at_rest drv ctx V o (λ b' _, framed F b') s' ∧
    (Forall (λ r, r = SQL_RDB_OK) rs →
     at_rest drv ctx V o (exactly (with_rows nm t (foldl (λ l op, op_rows op l) (t_rows t) ops) b)) s').
Proof.
  induction ops as [|op ops IH]; intros b t s Hf Hops Hfr Htb Hs; cbn [run_ops foldl].
  - exists [], s. split; [done|]. split.
    + destruct Hs as [Hi Hti]. split; [done|]. eapply tidy_mono; [|exact Hti]. by intros b' n ->.
    + intros _. destruct Hs as [Hi Hti]. split; [done|]. eapply tidy_mono; [|exact Hti]. intros b' n ->.
      unfold exactly, with_rows. destruct b as [tb fr dm]. simpl in *. f_equal. symmetry. apply insert_id.
      rewrite Htb. by destruct t.
  - apply Forall_cons in Hops as [Hop Hops]. pose proof Hfr as ((t' & Ht' & Hkind & Hd & Hok) & Hfrs & Hkept).
    rewrite Htb in Ht'. injection Ht' as <-.
    destruct (op_run op b t s Hf Hop Hkind Hd Hok Htb Hs) as (r & s1 & E & Hok1 & H1).
    set (t1 := MkTable (t_kinds t) (t_key t) (op_rows op (t_rows t))) in *.
    rewrite (bind_run _ _ _ _ _ E). destruct (res_ok r) eqn:Er.
    + set (b1 := with_rows nm t (op_rows op (t_rows t)) b) in *.
      destruct (IH b1 t1 s1) as (rs & s2 & E2 & Hr2 & He2); [done|done| |apply lookup_insert_eq|done|].
      { split_and!; [|done|done]. exists t1. split_and!; try done. apply lookup_insert_eq. }
      rewrite (bind_run _ _ _ _ _ E2). exists (r :: rs), s2. split; [done|]. split; [done|].
      intros [_ Hrs]%Forall_cons. specialize (He2 Hrs). destruct He2 as [Hi Hti]. split; [done|].
      eapply tidy_mono; [|exact Hti]. intros b' n ->. unfold exactly, b1, with_rows. simpl. by rewrite insert_insert_eq.
    + pose proof (at_rest_exactly V o _ s1 H1) as Hs1. destruct H1 as (_ & _ & _ & _ & Hh).
      pose proof (framed_hurt F b _ Hfr Hh) as Hfr1. pose proof Hfr1 as ((t2 & Ht2 & _) & _).
      destruct (IH (the_db (hs_db s1)) t2 s1) as (rs & s2 & E2 & Hr2 & _); try done.
      rewrite (bind_run _ _ _ _ _ E2). exists (r :: rs), s2. split; [done|]. split; [done|].
      intros [-> _]%Forall_cons. done.
Qed.
End tx.

(** ** Properties *)

Section bracket.
Context {D : Type} (drv : SqlRDBDriver D) `{!DriverLaws drv} (ctx : ptr) `{!SqlLaws drv ctx}.
Context (V : Setting) (o : gset ptr) (nm : string) (sch : SqlRDBSchema) (kinds : gmap string Kind).

(** C3: a transaction.  After a SqlRDBBeginTx that returned OK, at any depth,
    and any calls of SqlRDBWrite and SqlRDBDelete, failing ones included,
    SqlRDBRollbackTx returns, and with OK the database is exactly as it was
    before the transaction, which is closed.  SqlRDBCommitTx returns also, and
    when it and every call returned OK, the table has the rows that the calls
    made, nothing else has changed, and the transaction is closed. *)
Theorem tx_bracket B t k ops s s1 :
  at_rest drv ctx V o (exactly B) s → tx_depth (st_txn V) = k → Z.of_nat (length (db_frames B)) = k →
  db_doomed B = false → found (st_registry V) nm sch → Forall (op_fine drv ctx sch kinds) ops →
  db_tables B !! nm = Some t → in_order nm sch kinds (db_tables B) → Forall (in_order nm sch kinds) (db_frames B).*2 →
  SqlRDBBeginTx drv s = Some (SQL_RDB_OK, s1) →
  ∃ rs s2, run_ops drv nm ops s1 = Some (rs, s2) ∧
    (∃ r s3, SqlRDBRollbackTx drv s2 = Some (r, s3) ∧
      (r = SQL_RDB_OK → ∃ tx, tx_depth tx = k ∧ at_rest drv ctx (at_txn tx V) o (exactly B) s3)) ∧
    (∃ r s3, SqlRDBCommitTx drv s2 = Some (r, s3) ∧
      (r = SQL_RDB_OK → Forall (λ r, r = SQL_RDB_OK) rs → ∃ tx, tx_depth tx = k ∧
        at_rest drv ctx (at_txn tx V) o
          (exactly (with_rows nm t (foldl (λ l op, op_rows drv ctx sch op l) (t_rows t) ops) B)) s3)).
Proof.
  intros Hs Hdep Hlen Hdoom Hf Hops Htb Hin Hfrs E.
  assert (the_db (hs_db s) = B) as HB by (by eapply at_rest_is).
  destruct (tx_run drv ctx V o _ s TxBegin k Hs Hdep ltac:(done)) as (r0 & t1 & s1' & E' & Hs1 & H1).
  simpl in E'. rewrite E in E'. injection E' as <- <-. destruct (H1 eq_refl) as [Hdep1 Heff]. rewrite HB in Heff.
  destruct (Heff Hlen) as [Hb1 _]. rewrite decide_True in Hdep1 by done. rewrite Hb1 in Hs1.
  set (F := (frame_name (k + 1), db_tables B) :: db_frames B) in *.
  assert (framed drv ctx nm sch kinds F (MkDb (db_tables B) F false)) as Hfr
    by (split; [done|]; split; [by constructor|by left]).
  destruct (ops_run drv ctx (at_txn t1 V) o nm sch kinds F ops _ t s1 Hf Hops Hfr Htb Hs1)
    as (rs & s2 & E2 & Hs2 & Hall).
  exists rs, s2. split; [done|].
  assert (k + 1 = 1 → db_frames B = []) as Houter by (intros Hk; destruct (db_frames B); [done|simpl in Hlen; lia]).
  split.
  - destruct (tx_run drv ctx (at_txn t1 V) o _ s2 TxRollback (k + 1) Hs2 Hdep1 ltac:(lia)) as (r & t2 & s3 & E3 & Hs3 & H3).
    exists r, s3. split; [done|]. intros Hr. destruct (H3 Hr) as [Hdep2 [Hdrop Heff3]]. exists t2.
    rewrite decide_False in Hdep2 by done. split; [lia|].
    destruct Hs2 as [_ (_ & _ & _ & _ & _ & [Hk|[Hd Hk]])]; [|by destruct (Hdrop Hd)]. simpl in Hk.
    rewrite (Heff3 _ _ Hk Houter) in Hs3. destruct B as [tb fr dm]. simpl in *. by subst dm.
  - destruct (tx_run drv ctx (at_txn t1 V) o _ s2 TxCommit (k + 1) Hs2 Hdep1 ltac:(lia)) as (r & t2 & s3 & E3 & Hs3 & H3).
    exists r, s3. split; [done|]. intros Hr Hrs. destruct (H3 Hr) as [Hdep2 Heff3]. exists t2.
    rewrite decide_False in Hdep2 by done. split; [lia|].
    destruct (Hall Hrs) as [_ (_ & _ & n2 & Hb2)]. unfold exactly in Hb2. simpl in Heff3. rewrite Hb2 in Heff3.
    rewrite (Heff3 _ _ eq_refl Houter) in Hs3. destruct B as [tb fr dm]. simpl in *. by subst dm.
Qed.
End bracket.

Section many.
Context {D : Type} (drv : SqlRDBDriver D) `{!DriverLaws drv} (ctx : ptr) `{!SqlLaws drv ctx}.
Context (V : Setting) (o : gset ptr).


End many.

(** ** Examples *)



(** Two calls in a transaction. *)
Definition ex_ops : list RowOp := [OpWrite (ex_struct 7 "bob") None; OpDelete ex_where].

Definition ex_begun : HState Tab :=
  match SqlRDBBeginTx tab_driver (ex_on_tab ex_two) with Some (_, s) => s | None => ex_on_tab [] end.

Lemma tx_bracket_witness :
  ∃ rs s2, run_ops tab_driver "item" ex_ops ex_begun = Some (rs, s2) ∧
    ∃ r s3, SqlRDBRollbackTx tab_driver s2 = Some (r, s3) ∧
      (r = SQL_RDB_OK → ∃ tx, tx_depth tx = 0 ∧
        at_rest tab_driver 1%N (at_txn tx ex_setting) ∅ (exactly (MkDb (ex_tables ex_two) [] false)) s3).
Proof.
  destruct (tx_bracket tab_driver 1%N ex_setting ∅ "item" ex_raw_e (t_kinds (ex_items [])) (MkDb (ex_tables ex_two) [] false)
    (ex_items ex_two) 0 ex_ops (ex_on_tab ex_two) ex_begun) as (rs & s2 & E & Hroll & _).
  - apply ex_tab_rest.
  - reflexivity.
  - reflexivity.
  - reflexivity.
  - apply ex_tab_found.
  - constructor; [apply ex_seven_fine|]. constructor; [|constructor].
    apply (searchable_kinds tab_driver 1%N (ex_items ex_two)); [reflexivity|apply ex_small].
  - reflexivity.
  - exists (ex_items ex_two). split; [reflexivity|]. split; [reflexivity|]. split; [apply ex_tab_declared|].
    apply ex_two_stored.
  - constructor.
  - vm_compute. reflexivity.
  - exists rs, s2. split; [exact E|exact Hroll].
Defined.
