(* ===== verification/TxTrace.v ===== *)
(** * The commands an operation sends on the connection

    A driver that records the commands it is given on the connection (the
    statements that are executed directly and the transaction commands), around
    any driver; what an operation adds to the record.  SqlRDBWriteMany is the
    operation that opens a transaction of its own. *)

From Stdlib Require Import String Strings.Byte.
From S2P Require Import Prelude Types Support Driver MemDriver StmtCache StmtCacheSpec.
From S2P Require Import StmtCacheProofs StmtCacheRefine StmtCacheTheorems Condition.
From S2P Require Import QueryBuilder QueryBuilderProofs Registry RegistryProofs TypeMapping.
From S2P Require Import TypeMappingProofs Handle Api ApiProofs ApiSafety Transactions.
From S2P Require Import ApiOutputs ApiTheorems.
Import ErrorCtx Logger Mutex.

Inductive TxCmd : Type :=
  | CmdExec (sql : string)
  | CmdBegin
  | CmdCommit
  | CmdRollback
  | CmdSavepoint (name : string)
  | CmdRelease (name : string)
  | CmdRollbackTo (name : string).

(** A command with what the driver answered. *)
Definition TxEvent : Type := TxCmd * SqlRDBResult.

(** ** The recording driver *)

Section traced.
Context {D : Type} (drv : SqlRDBDriver D).

Definition quiet {A} (m : M D A) : M (D * list TxEvent) A := zoom fst (λ d s, (d, s.2)) m.

Definition noted (c : TxCmd) (m : M D SqlRDBResult) : M (D * list TxEvent) SqlRDBResult :=
  r ← quiet m;
  mmodify (λ s : D * list TxEvent, (s.1, s.2 ++ [(c, r)]));;
  mret r.

Definition traced : SqlRDBDriver (D * list TxEvent) := {|
  drv_name := drv_name drv;
  drv_dialect := drv_dialect drv;
  drv_open c := quiet (drv_open drv c);
  drv_close c := quiet (drv_close drv c);
  drv_exec c sql := noted (CmdExec sql) (drv_exec drv c sql);
  drv_prepare c sql := quiet (drv_prepare drv c sql);
  drv_bind_int64 p i v := quiet (drv_bind_int64 drv p i v);
  drv_bind_int32 p i v := quiet (drv_bind_int32 drv p i v);
  drv_bind_real p i v := quiet (drv_bind_real drv p i v);
  drv_bind_text p i v n := quiet (drv_bind_text drv p i v n);
  drv_bind_blob p i v n := quiet (drv_bind_blob drv p i v n);
  drv_bind_null p i := quiet (drv_bind_null drv p i);
  drv_step p := quiet (drv_step drv p);
  drv_column_int64 p i := quiet (drv_column_int64 drv p i);
  drv_column_int32 p i := quiet (drv_column_int32 drv p i);
  drv_column_real p i := quiet (drv_column_real drv p i);
  drv_column_text p i := quiet (drv_column_text drv p i);
  drv_column_blob p i := quiet (drv_column_blob drv p i);
  drv_column_isnull p i := quiet (drv_column_isnull drv p i);
  drv_reset p := quiet (drv_reset drv p);
  drv_finalize p := quiet (drv_finalize drv p);
  drv_begin c := noted CmdBegin (drv_begin drv c);
  drv_commit c := noted CmdCommit (drv_commit drv c);
  drv_rollback c := noted CmdRollback (drv_rollback drv c);
  drv_savepoint c n := noted (CmdSavepoint n) (drv_savepoint drv c n);
  drv_release_sp c n := noted (CmdRelease n) (drv_release_sp drv c n);
  drv_rollback_sp c n := noted (CmdRollbackTo n) (drv_rollback_sp drv c n);
  drv_changes c := quiet (drv_changes drv c);
|}.

Definition traced_view (v : View D) : View (D * list TxEvent) :=
  MkView (v_stmts v ∘ fst) (λ c, v_stmts_of v c ∘ fst) (v_conns v ∘ fst) (v_good v ∘ fst).

Lemma quiet_keeps {A} (v : View D) (m : M D A) s :
  keeps v m s.1 → keeps (traced_view v) (quiet m) s.
Proof. intros (a & d' & E & Hs). exists a, (d', s.2). unfold quiet, zoom. by rewrite E. Qed.

Lemma noted_keeps (v : View D) c (m : M D SqlRDBResult) s :
  keeps v m s.1 → keeps (traced_view v) (noted c m) s.
Proof.
  intros (a & d' & E & Hs). eexists _, _. unfold noted, quiet, zoom, mbind, M_bind. by rewrite E.
Qed.

#[global] Instance traced_laws `{!DriverLaws drv} : DriverLaws traced.
Proof.
  refine {| view := traced_view view |}; simpl; intros.
  all: try (apply quiet_keeps; first [by apply bind_int64_law|by apply bind_int32_law|by apply bind_real_law
    |by apply bind_text_law|by apply bind_blob_law|by apply bind_null_law|by apply step_law
    |by apply column_int64_law|by apply column_int32_law|by apply column_real_law
    |by apply column_isnull_law|by apply reset_law|by apply changes_law]).
  all: try (apply noted_keeps; first [by apply exec_law|by apply begin_law|by apply commit_law
    |by apply rollback_law|by apply savepoint_law|by apply release_sp_law|by apply rollback_sp_law]).
  all: unfold quiet, zoom.
  - destruct (prepare_law (drv := drv) c sql d.1 H H0) as (r & p & d' & E & Hs). rewrite E.
    by eexists _, _, (d', d.2).
  - destruct (finalize_law (drv := drv) p d.1 H) as (r & d' & E & Hs). rewrite E. by eexists _, (d', d.2).
  - destruct (column_text_law (drv := drv) p i d.1 H) as (r & q & n & d' & E & Hs). rewrite E.
    by eexists _, _, _, (d', d.2).
  - destruct (column_blob_law (drv := drv) p i d.1 H) as (r & q & n & d' & E & Hs). rewrite E.
    by eexists _, _, _, (d', d.2).
Defined.
End traced.

(** ** Computations that send no command *)

Section silent.
Context {D : Type} (drv : SqlRDBDriver D).
Local Abbreviation TD := (D * list TxEvent)%type.

Definition cache_log (s : CState TD) : list TxEvent := (cs_db s).2.
Definition tlog (s : HState TD) : list TxEvent := (hs_db s).2.

Lemma silent_quiet {A} (m : M D A) : silent snd (quiet m).
Proof. apply silent_zoom_away. done. Qed.
Local Hint Resolve silent_quiet : silent.

Lemma silent_h_db {A} (m : M TD A) : silent snd m → silent tlog (h_db m).
Proof. by apply silent_zoom. Qed.
Lemma silent_h_alloc {A} (m : M (list bool) A) : silent tlog (h_alloc (D := TD) m).
Proof. by apply silent_zoom_away. Qed.
Lemma silent_h_mtx {A} (m : M SqlRDBMutex A) : silent tlog (h_mtx (D := TD) m).
Proof. by apply silent_zoom_away. Qed.
Lemma silent_h_upd f : silent tlog (h_upd (D := TD) f).
Proof. by intros s a s' [= _ <-]. Qed.
Lemma silent_h_on_cache {A} (m : M (CState TD) A) : silent cache_log m → silent tlog (h_on_cache m).
Proof. by apply silent_zoom. Qed.

Lemma silent_on_cache {A} (m : M SqlRDBStmtCache A) : silent cache_log (on_cache m).
Proof. by apply silent_zoom_away. Qed.
Lemma silent_on_alloc {A} (m : M (list bool) A) : silent cache_log (on_alloc m).
Proof. by apply silent_zoom_away. Qed.
Lemma silent_finalize stmt : silent cache_log (finalize (Some (traced drv)) stmt).
Proof. apply silent_bind; [|intros ?; apply silent_ret]. apply (silent_zoom _ snd); [done|done|apply silent_quiet]. Qed.
Local Hint Resolve silent_h_db silent_h_alloc silent_h_mtx silent_h_upd silent_h_on_cache
  silent_on_cache silent_on_alloc silent_finalize : silent.

Lemma silent_cache_get sql : silent cache_log (c2sql_internal_cache_get sql).
Proof. unfold c2sql_internal_cache_get. silence. Qed.

Lemma silent_cache_put sql stmt : silent cache_log (c2sql_internal_cache_put sql stmt (Some (traced drv))).
Proof. unfold c2sql_internal_cache_put, evict_lru_tail, entry_finalize_and_free. silence. Qed.
Local Hint Resolve silent_cache_get silent_cache_put : silent.

Lemma silent_bind_row stmt sch row nulls :
  silent snd (c2sql_internal_tm_bind_row (traced drv) stmt sch row nulls).
Proof.
  unfold c2sql_internal_tm_bind_row. destruct sch as [sch|], row as [row|]; silence.
  generalize 0%nat as i. induction (Z.to_nat (sch_col_count sch)) as [|n IH]; intros i;
    cbn [bind_row_loop]; unfold bind_one; simpl; silence.
Qed.
Local Hint Resolve silent_bind_row : silent.

Lemma silent_step stmt : silent tlog (h_step (traced drv) stmt).
Proof. unfold h_step. simpl. silence. Qed.
Lemma silent_release stmt owned : silent tlog (release_cached_stmt (traced drv) stmt owned).
Proof. unfold release_cached_stmt. simpl. silence. Qed.
Lemma silent_unlock {A} (a : A) : silent tlog (unlock_ret (D := TD) a).
Proof. unfold unlock_ret, h_unlock. silence. Qed.
Local Hint Resolve silent_step silent_release silent_unlock : silent.
Lemma silent_release_ret {A} stmt owned (a : A) : silent tlog (release_ret (traced drv) stmt owned a).
Proof. unfold release_ret. silence. Qed.
Lemma silent_prepare ctx sql : silent snd (drv_prepare (traced drv) ctx sql).
Proof. apply silent_quiet. Qed.
Local Hint Resolve silent_prepare : silent.
Lemma silent_get_or_prepare sql : silent tlog (get_or_prepare (traced drv) sql).
Proof. unfold get_or_prepare. silence. Qed.
Lemma silent_reset stmt : silent tlog (h_db (drv_reset (traced drv) stmt)).
Proof. simpl. silence. Qed.
Local Hint Resolve silent_release_ret silent_get_or_prepare silent_reset : silent.

Lemma silent_write_rows stmt sch rows stride nulls i n :
  silent tlog (write_rows (traced drv) stmt sch rows stride nulls i n).
Proof. revert i. induction n as [|n IH]; intros i; cbn [write_rows]; silence. Qed.
Local Hint Resolve silent_write_rows : silent.

(** ** The commands of an operation *)

(** Every run of [m] adds commands [l] to the record [g] of the state, with [φ]
    of its result and [l]. *)
Definition emits {S A} (g : S → list TxEvent) (φ : A → list TxEvent → Prop) (m : M S A) : Prop :=
  ∀ s a s', m s = Some (a, s') → ∃ l, g s' = g s ++ l ∧ φ a l.

Lemma emits_bind {S A B} {g : S → list TxEvent} φ ψ (m : M S A) (k : A → M S B) :
  emits g φ m → (∀ a l, φ a l → emits g (λ b l', ψ b (l ++ l')) (k a)) → emits g ψ (m ≫= k).
Proof.
  intros Hm Hk s b s' (a & s1 & E1 & E2)%bind_Some. destruct (Hm _ _ _ E1) as (l & Hl & Hφ).
  destruct (Hk a l Hφ _ _ _ E2) as (l' & Hl' & Hψ). exists (l ++ l'). by rewrite Hl', Hl, app_assoc.
Qed.

Lemma emits_silent_bind {S A B} {g : S → list TxEvent} ψ (m : M S A) (k : A → M S B) :
  silent g m → (∀ a, emits g ψ (k a)) → emits g ψ (m ≫= k).
Proof.
  intros Hm Hk s b s' (a & s1 & E1 & E2)%bind_Some. rewrite <-(Hm _ _ _ E1). by eapply Hk.
Qed.

Lemma emits_ret {S A} {g : S → list TxEvent} ψ (m : M S A) (a : A) :
  silent g m → ensures (λ x, x = a) m → ψ a [] → emits g ψ m.
Proof.
  intros Hm Ha Hψ s b s' E. exists []. rewrite app_nil_r, (Ha _ _ _ E). split; [by eapply Hm|done].
Qed.

Lemma emits_unlock {A} ψ (a : A) : ψ a [] → emits tlog ψ (unlock_ret a).
Proof. apply emits_ret; [silence|by apply ensures_unlock]. Qed.

Lemma emits_release {A} ψ stmt owned (a : A) : ψ a [] → emits tlog ψ (release_ret (traced drv) stmt owned a).
Proof. apply emits_ret; [silence|by apply ensures_release]. Qed.

Lemma emits_noted ψ c (m : M D SqlRDBResult) :
  (∀ r, ψ r [(c, r)]) → emits tlog ψ (h_db (noted c m)).
Proof.
  intros Hψ s r s' (d & E & ->)%zoom_Some. unfold noted in E.
  apply bind_Some in E as (r0 & d1 & Eq & E). injection E as -> <-. exists [(c, r)].
  split; [|done]. unfold tlog. simpl. by rewrite (silent_quiet _ _ _ _ Eq).
Qed.

(** What SqlRDBWriteMany may add to the record: nothing inside of a
    transaction of the caller's; otherwise one transaction around all rows,
    committed exactly when every row was written. *)
Definition bracket (depth : Z) (r : SqlRDBResult) (l : list TxEvent) : Prop :=
  if depth =? 0 then
    (l = [] ∧ r ≠ SQL_RDB_OK) ∨
    (l = [(CmdBegin, r)] ∧ r ≠ SQL_RDB_OK) ∨
    (∃ rc, l = [(CmdBegin, SQL_RDB_OK); (CmdCommit, rc)] ∧ r = SQL_RDB_OK) ∨
    (∃ rc, l = [(CmdBegin, SQL_RDB_OK); (CmdRollback, rc)] ∧ r ≠ SQL_RDB_OK)
  else l = [].

Lemma bracket_early depth r : r ≠ SQL_RDB_OK → bracket depth r [].
Proof. intros Hr. unfold bracket. destruct (depth =? 0); [by left|done]. Qed.

(** The rows, inside or outside of a transaction of the caller's. *)
Lemma emits_rows ctx depth stmt owned sch rows stride nulls n :
  emits tlog (bracket depth)
    (br ← (if depth =? 0 then h_db (drv_begin (traced drv) ctx) else mret SQL_RDB_OK);
     if negb (res_ok br) then release_ret (traced drv) stmt owned br
     else
       r ← write_rows (traced drv) stmt sch rows stride nulls 0 n;
       (if depth =? 0 then
          (if res_ok r then h_db (drv_commit (traced drv) ctx)
           else h_db (drv_rollback (traced drv) ctx));; mret tt
        else mret tt);;
       release_ret (traced drv) stmt owned r).
Proof.
  unfold bracket. destruct (depth =? 0).
  - eapply emits_bind; [by apply (emits_noted (λ r l, l = [(CmdBegin, r)]))|]. intros br l ->. cbn beta.
    destruct (res_ok br) eqn:Eb; cbn [negb].
    2:{ apply emits_release. right; left. split; [done|]. by apply res_ok_false. }
    apply res_ok_true in Eb as ->. apply emits_silent_bind; [apply silent_write_rows|]. intros r.
    eapply (emits_bind (λ _ l, ∃ rc, l = [(if res_ok r then CmdCommit else CmdRollback, rc)])).
    { eapply (emits_bind (λ _ l, ∃ rc, l = [(if res_ok r then CmdCommit else CmdRollback, rc)])).
      - destruct (res_ok r); apply emits_noted; eauto.
      - intros _ l Hl. apply (emits_ret _ _ tt); [silence|by apply ensures_ret|by rewrite app_nil_r]. }
    intros [] l (rc & ->). apply emits_release. right; right. destruct (res_ok r) eqn:Er; simpl.
    + left. exists rc. by apply res_ok_true in Er.
    + right. exists rc. by apply res_ok_false in Er.
  - apply emits_silent_bind; [silence|]. intros br. destruct (res_ok br); cbn [negb]; [|by apply emits_release].
    apply emits_silent_bind; [apply silent_write_rows|]. intros r.
    apply emits_silent_bind; [silence|]. intros ?. by apply emits_release.
Qed.

(** The steps before the rows keep the transaction state. *)
Definition txn_of (s : HState TD) : SqlRDBTxnState := h_txn (hs_h s).

Lemma txn_h_db {A} (m : M TD A) : silent txn_of (h_db m).
Proof. by apply silent_zoom_away. Qed.
Lemma txn_h_alloc {A} (m : M (list bool) A) : silent txn_of (h_alloc (D := TD) m).
Proof. by apply silent_zoom_away. Qed.
Lemma txn_h_lock : silent txn_of (h_lock (D := TD)).
Proof. by apply silent_zoom_away. Qed.
Lemma txn_h_on_cache {A} (m : M (CState TD) A) : silent txn_of (h_on_cache m).
Proof. by apply silent_zoom_away. Qed.
Local Hint Resolve txn_h_db txn_h_alloc txn_h_lock txn_h_on_cache : silent.

Lemma txn_get_or_prepare sql : silent txn_of (get_or_prepare (traced drv) sql).
Proof. unfold get_or_prepare. silence. Qed.
Lemma txn_build spec : silent txn_of (h_build (D := TD) spec).
Proof. unfold h_build. silence. Qed.
Lemma silent_build spec : silent tlog (h_build (D := TD) spec).
Proof. unfold h_build. silence. Qed.
Lemma silent_lock : silent tlog (h_lock (D := TD)).
Proof. apply silent_h_mtx. Qed.

(** A step that neither sends a command nor moves the depth. *)
Lemma bracket_bind {A} (m : M (HState TD) A) (k : A → M (HState TD) SqlRDBResult) s r s' :
  silent tlog m → silent txn_of m →
  (∀ a s1, k a s1 = Some (r, s') → tlog s1 = tlog s → txn_of s1 = txn_of s →
    ∃ l, tlog s' = tlog s1 ++ l ∧ bracket (tx_depth (txn_of s1)) r l) →
  (m ≫= k) s = Some (r, s') →
  ∃ l, tlog s' = tlog s ++ l ∧ bracket (tx_depth (txn_of s)) r l.
Proof.
  intros Hl Ht Hk (a & s1 & E1 & E2)%bind_Some. specialize (Hl _ _ _ E1). specialize (Ht _ _ _ E1).
  destruct (Hk a s1 E2 Hl Ht) as (l & ? & ?). exists l. by rewrite <-Hl, <-Ht.
Qed.

Lemma bracket_unlock r r' s s' :
  r ≠ SQL_RDB_OK → unlock_ret r s = Some (r', s') →
  ∃ l, tlog s' = tlog s ++ l ∧ bracket (tx_depth (txn_of s)) r' l.
Proof. intros Hr. apply (emits_unlock (bracket _)). by apply bracket_early. Qed.

Lemma write_many_bracket name rows count stride nulls s r s' :
  SqlRDBWriteMany (traced drv) name rows count stride nulls s = Some (r, s') →
  ∃ l, tlog s' = tlog s ++ l ∧ bracket (depth_of s) r l.
Proof.
  change (depth_of s) with (tx_depth (txn_of s)). unfold SqlRDBWriteMany, valid_or.
  apply bracket_bind; [apply silent_gets..|]. intros h s1 H _ _. revert H.
  assert (∀ (r0 : SqlRDBResult) (s1 : HState TD), r0 ≠ SQL_RDB_OK → mret (M := M (HState TD)) r0 s1 = Some (r, s') →
    ∃ l, tlog s' = tlog s1 ++ l ∧ bracket (tx_depth (txn_of s1)) r l) as Hret.
  { intros r0 s2 Hr. apply (emits_ret (bracket _) _ r0); [apply silent_ret|by apply ensures_ret|by apply bracket_early]. }
  destruct (c2sql_handle_valid (Some h)); [|by apply Hret].
  destruct name as [nm|], rows as [rows|]; try by apply Hret.
  destruct ((count =? 0) || (stride =? 0)); [by apply Hret|].
  apply bracket_bind; [apply silent_lock|apply txn_h_lock|]. intros ? s2 H _ _. revert H.
  unfold with_schema. apply bracket_bind; [unfold h_lookup; silence..|]. intros sch s3 H _ _. revert H.
  destruct sch as [sch|].
  2:{ apply bracket_bind; [apply silent_h_upd|by intros ? ? ? [= _ <-]|]. intros ? s4 H _ _. revert H.
      by apply bracket_unlock. }
  unfold with_sql. apply bracket_bind; [apply silent_build|apply txn_build|]. intros [rb sql] s4 H _ _. revert H.
  destruct (res_ok rb) eqn:Eb; cbn [negb]; [|by apply bracket_unlock, res_ok_false].
  apply bracket_bind; [apply silent_def..|]. intros txt s5 H _ _. revert H.
  unfold with_stmt. apply bracket_bind; [apply silent_get_or_prepare|apply txn_get_or_prepare|].
  intros [[rg stmt] owned] s6 H _ _. revert H.
  destruct (res_ok rg) eqn:Eg; cbn [negb]; [|by apply bracket_unlock, res_ok_false].
  intros (h1 & s7 & [= <- <-] & H)%bind_Some. revert H. apply emits_rows.
Qed.
End silent.
#[export] Hint Resolve silent_h_db silent_h_alloc silent_h_mtx silent_h_upd silent_quiet : silent.

(** ** Properties *)

(** Writing several rows.  SqlRDBWriteMany is one transaction: outside of
    a transaction of the caller's it sends BEGIN before the first row and then
    COMMIT when it returns OK and ROLLBACK when it does not; when BEGIN itself fails it sends nothing more and returns
    the error; inside a transaction of the caller's it sends none of them. *)
Theorem write_many_atomic {D} (drv : SqlRDBDriver D) `{!DriverLaws drv} R o s name rows count stride nulls :
  api_inv (traced drv) R o s → rows_fit R name rows count stride nulls → 0 ≤ count →
  ∃ r s' l, SqlRDBWriteMany (traced drv) name (Some rows) count stride nulls s = Some (r, s') ∧
    api_inv (traced drv) R o s' ∧ tlog s' = tlog s ++ l ∧ bracket (depth_of s) r l.
Proof.
  intros Hinv Hrows Hcount.
  destruct (SqlRDBWriteMany_safe (traced drv) R o name (Some rows) count stride nulls) with (s := s)
    as (r & s' & E & Hinv'); [by intros ? [= <-]|done|done|].
  destruct (write_many_bracket drv _ _ _ _ _ _ _ _ E) as (l & Hl & Hb). by exists r, s', l.
Qed.

Definition ex_traced (bad : list string) : HState (Mem * list TxEvent) :=
  MkH ex_handle (MkMem [] [] [] [] [] bad [1%N], []) [] 5.

Lemma ex_traced_inv bad : api_inv (traced mem_driver) (r_reg ex_r1) ∅ (ex_traced bad).
Proof.
  destruct (ex_api_inv []) as [(HR & Hreg & Htx & ps & a & Hrep & Hnd & Hst & Hd & Hn & Hcx) Hm].
  split; [|done]. split_and!; try done. by exists ps, a.
Qed.

Lemma ex_rows_fit : rows_fit (r_reg ex_r1) (Some "item"%string) (ex_item ++ ex_item) 2 40 None.
Proof.
  intros nm sch _ ->%ex_found i Hi. assert (i = 0 ∨ i = 1) as [->| ->] by lia.
  - destruct (ex_item_row None) as ([Hf Hd] & Hr); [done|]. split; [|done]. split; [|done].
    change (Z.of_nat (length (drop _ _))) with 80. eapply Forall_impl; [exact Hf|].
    intros c (? & ? & ? & ? & ?). unfold fits_in. split_and!; try done; lia.
  - by apply ex_item_row.
Qed.

Lemma write_many_atomic_witness :
  ∃ r s' l, SqlRDBWriteMany (traced mem_driver) (Some "item"%string) (Some (ex_item ++ ex_item)) 2 40 None
      (ex_traced []) = Some (r, s') ∧
    api_inv (traced mem_driver) (r_reg ex_r1) ∅ s' ∧ tlog s' = tlog (ex_traced []) ++ l ∧
    bracket (depth_of (ex_traced [])) r l.
Proof.
  apply (write_many_atomic mem_driver (r_reg ex_r1) ∅).
  - apply ex_traced_inv.
  - apply ex_rows_fit.
  - discriminate.
Defined.

(** A failing COMMIT is not reported.  SqlRDBWriteMany returns OK although
    the driver refused to commit the rows. *)
Example write_many_commit_ignored :
  (λ x, (x.1, tlog x.2)) <$>
    SqlRDBWriteMany (traced mem_driver) (Some "item"%string) (Some (ex_item ++ ex_item)) 2 40 None
      (ex_traced ["COMMIT"%string]) =
  Some (SQL_RDB_OK, [(CmdBegin, SQL_RDB_OK); (CmdCommit, SQL_RDB_ERR_DRIVER)]).
Proof. vm_compute. reflexivity. Qed.
