(* ===== verification/Lifecycle.v ===== *)
(** * Opening and closing handles (src/c2sql.c: the registry of live handles,
      SqlRDBInit, SqlRDBClose)

    The state of the process: the handle structs in memory, the global array
    of the handles that are open, and the driver they share. *)

From Stdlib Require Import String.
From S2P Require Import Prelude Types Support Driver StmtCache Condition QueryBuilder.
From S2P Require Import Registry TypeMapping Handle.
Import ErrorCtx Logger Mutex.

(** ** The choice of a backend *)

Definition strncmp_eq (s p : string) (n : nat) : bool :=
  bool_decide (substring 0 n s = substring 0 n p).

Definition dsn_is_postgres (dsn : string) : bool :=
  strncmp_eq dsn "postgresql://" 13 || strncmp_eq dsn "postgres://" 11.

Definition DEFAULT_CONFIG : SqlRDBConfig := MkConfig true 64 false 0 false.

Section lifecycle.
Context {D : Type}.

(** [g_sqlite3_driver], [g_postgres_driver], and whether HAVE_POSTGRES was
    defined when the library was built. *)
Record Backends : Type := MkBackends {
  g_sqlite3_driver : SqlRDBDriver D;
  g_postgres_driver : SqlRDBDriver D;
  have_postgres : bool;
}.

Definition select_driver (bk : Backends) (dsn : string) : option (SqlRDBDriver D) :=
  if dsn_is_postgres dsn then
    if have_postgres bk then Some (g_postgres_driver bk) else None
  else Some (g_sqlite3_driver bk).

(** ** The process *)

(** A handle struct in memory: its members, [h->driver], and the count of the
    blocks its registry owns. *)
Record HandleBlock : Type := MkBlock {
  b_h : SqlRDBHandle;
  b_driver : SqlRDBDriver D;
  b_blocks : Z;
}.

(** [w_live] is [g_live_handles[0..g_live_count)]. *)
Record World : Type := MkWorld {
  w_heap : gmap ptr HandleBlock;
  w_live : list ptr;
  w_capacity : Z;
  w_mutex : SqlRDBMutex;
  w_db : D;
  w_alloc : list bool;
}.

Definition w_count (w : World) : Z := Z.of_nat (length (w_live w)).

Definition set_w_live (l : list ptr) (cap : Z) (w : World) : World :=
  MkWorld (w_heap w) l cap (w_mutex w) (w_db w) (w_alloc w).

Definition set_w_heap (h : gmap ptr HandleBlock) (w : World) : World :=
  MkWorld h (w_live w) (w_capacity w) (w_mutex w) (w_db w) (w_alloc w).

Definition on_g_mutex {A} (m : M SqlRDBMutex A) : M World A :=
  zoom w_mutex (λ x w, MkWorld (w_heap w) (w_live w) (w_capacity w) x (w_db w) (w_alloc w)) m.

Definition on_w_db {A} (m : M D A) : M World A :=
  zoom w_db (λ d w, MkWorld (w_heap w) (w_live w) (w_capacity w) (w_mutex w) d (w_alloc w)) m.

Definition on_w_alloc {A} (m : M (list bool) A) : M World A :=
  zoom w_alloc (λ al w, MkWorld (w_heap w) (w_live w) (w_capacity w) (w_mutex w) (w_db w) al) m.

(** Work on the struct at [p]; undefined where there is none. *)
Definition on_handle {A} (p : ptr) (m : M (HState D) A) : M World A := λ w,
  match w_heap w !! p with
  | None => None
  | Some b =>
      match m (MkH (b_h b) (w_db w) (w_alloc w) (b_blocks b)) with
      | None => None
      | Some (a, s) =>
          Some (a, MkWorld (<[p := MkBlock (hs_h s) (b_driver b) (hs_live s)]> (w_heap w))
                     (w_live w) (w_capacity w) (w_mutex w) (hs_db s) (hs_alloc s))
      end
  end.

Definition free_handle (p : ptr) : M World unit := λ w,
  match w_heap w !! p with
  | None => None
  | Some _ => Some (tt, set_w_heap (delete p (w_heap w)) w)
  end.

(** ** The live handles *)

Definition g_lock : M World unit := on_g_mutex c2sql_internal_mutex_lock.
Definition g_unlock : M World unit := on_g_mutex c2sql_internal_mutex_unlock.

(** [for (i = 0; i < g_live_count; i++) if (g_live_handles[i] == h)] *)
Fixpoint live_find (l : list ptr) (i : nat) (h : ptr) : option nat :=
  match l with
  | [] => None
  | q :: l => if (q =? h)%N then Some i else live_find l (S i) h
  end.

Definition live_register (h : ptr) : M World bool :=
  g_lock;;
  w ← mget;
  ok ← (if w_count w =? w_capacity w then
          let new_cap := if negb (w_capacity w =? 0) then size_t (w_capacity w * 2) else 8 in
          ok ← on_w_alloc malloc;
          (if ok : bool then mmodify (set_w_live (w_live w) new_cap) else mret tt);;
          mret ok
        else mret true);
  if negb ok then g_unlock;; mret false
  else
    w ← mget;
    (if w_count w <? w_capacity w then mmodify (set_w_live (w_live w ++ [h]) (w_capacity w)) else ub);;
    g_unlock;;
    mret true.

Definition live_remove (h : ptr) : M World bool :=
  g_lock;;
  w ← mget;
  match live_find (w_live w) 0 h with
  | Some i =>
      let n := (length (w_live w) - 1)%nat in
      lst ← mdef (w_live w !! n);
      mmodify (set_w_live (take n (<[i := lst]> (w_live w))) (w_capacity w));;
      g_unlock;;
      mret true
  | None => g_unlock;; mret false
  end.

Definition live_contains (h : ptr) : M World bool :=
  if (h =? NULL)%N then mret false
  else
    g_lock;;
    w ← mget;
    g_unlock;;
    mret (match live_find (w_live w) 0 h with Some _ => true | None => false end).

(** ** SqlRDBInit *)

(** The struct calloc gives. *)
Definition zero_handle : SqlRDBHandle :=
  MkHandle 0 (MkConfig false 0 false 0 false) NULL (MkReg [] 0 0%N) zero_cache
    (MkTxn 0 (replicate 16 EmptyString)) (MkErr SQL_RDB_OK EmptyString) (MkLogger NULL NULL)
    (MkMutex false false).

Definition fresh_handle (h : gmap ptr HandleBlock) : ptr := fresh ({[NULL]} ∪ dom h).

(** NULL when the allocation fails. *)
Definition calloc_handle (drv : SqlRDBDriver D) : M World ptr :=
  ok ← on_w_alloc malloc;
  if negb ok then mret NULL
  else
    w ← mget;
    let p := fresh_handle (w_heap w) in
    mmodify (set_w_heap (<[p := MkBlock zero_handle drv 0]> (w_heap w)));;
    mret p.

(** [c2sql_internal_mutex_init(&h->mutex, h->config.threadsafe)]; [init_rc] is
    what pthread_mutex_init returns. *)
Definition h_mutex_init (init_rc : Z) : M (HState D) SqlRDBResult := λ s,
  let '(r, m) := c2sql_internal_mutex_init init_rc (cfg_threadsafe (h_config (hs_h s))) (h_mutex (hs_h s)) in
  Some (r, MkH (set_h_mutex m (hs_h s)) (hs_db s) (hs_alloc s) (hs_live s)).

Definition h_mutex_destroy : M (HState D) unit := h_mtx c2sql_internal_mutex_destroy.
Definition h_cache_destroy (drv : SqlRDBDriver D) : M (HState D) unit :=
  h_on_cache (c2sql_internal_cache_destroy (Some drv)).
Definition h_registry_destroy : M (HState D) unit :=
  h_on_reg c2sql_internal_schema_registry_destroy.

(** [drv->close(driver_ctx); free(h); return NULL;] *)
Definition init_fail (drv : SqlRDBDriver D) (ctx h : ptr) : M World ptr :=
  on_w_db (drv_close drv ctx);;
  free_handle h;;
  mret NULL.

Definition SqlRDBInit (bk : Backends) (init_rc : Z) (connection_string : option string) : M World ptr :=
  match connection_string with
  | None => mret NULL
  | Some dsn =>
      match select_driver bk dsn with
      | None => mret NULL
      | Some drv =>
          out ← on_w_db (drv_open drv dsn);
          let '(r, driver_ctx) := out in
          if negb (res_ok r) then mret NULL
          else
            h ← calloc_handle drv;
            if (h =? NULL)%N then on_w_db (drv_close drv driver_ctx);; mret NULL
            else
              on_handle h (h_upd (λ x, set_h_ctx driver_ctx (set_h_config DEFAULT_CONFIG x)));;
              r ← on_handle h (h_mutex_init init_rc);
              if negb (res_ok r) then init_fail drv driver_ctx h
              else
                on_handle h (h_upd (λ x,
                  set_h_logger (MkLogger NULL NULL) (set_h_error (c2sql_internal_err_clear (h_error x)) x)));;
                on_handle h (h_on_reg c2sql_internal_schema_registry_init);;
                r ← on_handle h (h_on_cache (c2sql_internal_cache_init (cfg_stmt_cache_size DEFAULT_CONFIG)));
                if negb (res_ok r) then
                  on_handle h h_registry_destroy;;
                  on_handle h h_mutex_destroy;;
                  init_fail drv driver_ctx h
                else
                  on_handle h (h_upd (λ x, set_h_magic SQL_RDB_HANDLE_MAGIC
                    (set_h_txn (MkTxn 0 (replicate 16 EmptyString)) x)));;
                  ok ← live_register h;
                  if negb ok then
                    on_handle h (h_upd (set_h_magic SQL_RDB_HANDLE_DEAD));;
                    on_handle h (h_cache_destroy drv);;
                    on_handle h h_registry_destroy;;
                    on_handle h h_mutex_destroy;;
                    init_fail drv driver_ctx h
                  else mret h
      end
  end.

(** ** SqlRDBClose *)

(** The teardown of the struct, before it is freed. *)
Definition teardown (drv : SqlRDBDriver D) : M (HState D) unit :=
  h_upd (set_h_magic SQL_RDB_HANDLE_DEAD);;
  h ← mgets hs_h;
  (if (0 <? tx_depth (h_txn h)) && negb (h_driver_ctx h =? NULL)%N then
     h_db (drv_rollback drv (h_driver_ctx h));;
     h_upd (λ x, set_h_txn (MkTxn 0 (tx_sp_names (h_txn x))) x)
   else mret tt);;
  h_cache_destroy drv;;
  h_registry_destroy;;
  (if negb (h_driver_ctx h =? NULL)%N then
     h_db (drv_close drv (h_driver_ctx h));;
     h_upd (set_h_ctx NULL)
   else mret tt);;
  h_mutex_destroy.

(** [h->driver] of the struct at [p]. *)
Definition driver_of (p : ptr) : M World (SqlRDBDriver D) := λ w,
  match w_heap w !! p with Some b => Some (b_driver b, w) | None => None end.

Definition SqlRDBClose (h : ptr) : M World SqlRDBResult :=
  live ← live_contains h;
  if negb live then mret SQL_RDB_ERR_INVALID_HANDLE
  else
    x ← on_handle h (mgets hs_h);
    if negb (h_magic x =? SQL_RDB_HANDLE_MAGIC) then mret SQL_RDB_ERR_INVALID_HANDLE
    else
      live_remove h;;
      drv ← driver_of h;
      on_handle h (teardown drv);;
      free_handle h;;
      mret SQL_RDB_OK.
End lifecycle.
Arguments Backends D : clear implicits.
Arguments HandleBlock D : clear implicits.
Arguments World D : clear implicits.
