(* ===== verification/LifecycleProofs.v ===== *)
(** * Opening and closing handles: properties

    SqlRDBInit leaves no trace when it fails and gives a handle that satisfies
    the invariant of the API when it succeeds; SqlRDBClose accepts exactly the
    handles that are open, without touching the memory of any other pointer. *)

From Stdlib Require Import String.
From S2P Require Import Prelude Types Support Driver MemDriver StmtCache StmtCacheSpec.
From S2P Require Import StmtCacheProofs StmtCacheRefine StmtCacheTheorems Condition QueryBuilder.
From S2P Require Import Registry RegistryProofs TypeMapping Handle Api ApiProofs ApiTheorems Lifecycle.
Import ErrorCtx Logger Mutex.

Section lifecycle.
Context {D : Type}.
Implicit Types (w : World D) (H : gmap ptr (HandleBlock D)) (l : list ptr).

(** The state of a handle in a process. *)
Definition handle_state (b : HandleBlock D) (w : World D) : HState D :=
  MkH (b_h b) (w_db w) (w_alloc w) (b_blocks b).

(** Between two calls: the mutex is free, the array has a slot for each live
    handle, and each of them is a struct in memory with the magic number. *)
Record world_wf w : Prop := {
  wf_mutex : w_mutex w = MkMutex true false;
  wf_count : 0 ≤ w_capacity w ∧ w_count w ≤ w_capacity w;
  wf_nodup : NoDup (w_live w);
  wf_null : (NULL ∉ w_live w) ∧ (NULL ∉ dom (w_heap w));
  wf_live p : p ∈ w_live w → ∃ b, w_heap w !! p = Some b ∧ h_magic (b_h b) = SQL_RDB_HANDLE_MAGIC;
}.

(** ** Runs *)

Lemma on_handle_run {A} p (b : HandleBlock D) H l cap mu d al (m : M (HState D) A) a s :
  m (MkH (b_h b) d al (b_blocks b)) = Some (a, s) →
  on_handle p m (MkWorld (<[p := b]> H) l cap mu d al) =
  Some (a, MkWorld (<[p := MkBlock (hs_h s) (b_driver b) (hs_live s)]> H) l cap mu (hs_db s) (hs_alloc s)).
Proof. intros E. unfold on_handle. simpl. by rewrite lookup_insert_eq, E, insert_insert_eq. Qed.

Lemma free_handle_run p (b : HandleBlock D) H l cap mu d al :
  p ∉ dom H → free_handle p (MkWorld (<[p := b]> H) l cap mu d al) = Some (tt, MkWorld H l cap mu d al).
Proof.
  intros Hp. unfold free_handle, set_w_heap. simpl. rewrite lookup_insert_eq, delete_insert_id; [done|].
  by apply not_elem_of_dom.
Qed.

Lemma live_find_Some l i h k : live_find l i h = Some k → ∃ j, k = (i + j)%nat ∧ l !! j = Some h.
Proof.
  revert i. induction l as [|q l IH]; intros i; simpl; [done|]. destruct (N.eqb_spec q h) as [->|].
  - intros [= <-]. exists 0%nat. split; [lia|done].
  - intros (j & -> & Hj)%IH. exists (S j). split; [lia|done].
Qed.

Lemma live_find_None l i h : live_find l i h = None ↔ h ∉ l.
Proof.
  revert i. induction l as [|q l IH]; intros i; simpl; [split; [set_solver|done]|].
  rewrite not_elem_of_cons. destruct (N.eqb_spec q h) as [->|]; [naive_solver|]. rewrite IH. naive_solver.
Qed.

Lemma live_contains_run p H l cap d al :
  live_contains p (MkWorld H l cap (MkMutex true false) d al) =
  Some (negb (p =? NULL)%N && bool_decide (p ∈ l), MkWorld H l cap (MkMutex true false) d al).
Proof.
  unfold live_contains. destruct (p =? NULL)%N; [done|]. cbn [negb andb].
  unfold g_lock, g_unlock, on_g_mutex, zoom, mbind, M_bind, mget. simpl.
  destruct (live_find l 0 p) as [k|] eqn:E; simpl.
  - apply live_find_Some in E as (j & _ & Hj). rewrite bool_decide_true; [done|]. by eapply list_elem_of_lookup_2.
  - apply live_find_None in E. by rewrite bool_decide_false.
Qed.

(** The last element goes into the place of the removed one. *)
Lemma take_last_permutation l i x h :
  l !! i = Some h → last l = Some x →
  h :: take (length l - 1) (<[i := x]> l) ≡ₚ l.
Proof.
  intros Hi (l' & ->)%last_Some. rewrite length_app, Nat.add_sub. simpl.
  destruct (decide (i = length l')) as [->|Hne].
  - rewrite list_lookup_middle in Hi by done. injection Hi as ->.
    rewrite insert_app_r_alt, Nat.sub_diag by lia. simpl. rewrite take_app_length.
    by rewrite Permutation_app_comm.
  - apply lookup_lt_Some in Hi as Hlt. rewrite length_app in Hlt. simpl in Hlt.
    rewrite lookup_app_l in Hi by lia. rewrite insert_app_l by lia.
    rewrite take_app_length' by (by rewrite length_insert).
    rewrite insert_take_drop by lia. rewrite <-(take_drop_middle l' i h) at 3 by done. solve_Permutation.
Qed.

Lemma live_remove_run p H l cap d al :
  p ∈ l → ∃ l', p :: l' ≡ₚ l ∧
    live_remove p (MkWorld H l cap (MkMutex true false) d al) =
    Some (true, MkWorld H l' cap (MkMutex true false) d al).
Proof.
  intros Hp. unfold live_remove, g_lock, g_unlock, on_g_mutex, zoom, mbind, M_bind, mget. simpl.
  destruct (live_find l 0 p) as [k|] eqn:E; [|by apply live_find_None in E].
  apply live_find_Some in E as (j & -> & Hj). simpl.
  destruct (last l) as [x|] eqn:Hx; [|by apply last_None in Hx as ->].
  exists (take (length l - 1) (<[j := x]> l)). split; [by apply take_last_permutation|].
  rewrite last_lookup in Hx. rewrite <-Nat.sub_1_r in Hx. by rewrite Hx.
Qed.

Lemma live_register_run p H l cap d al :
  0 ≤ cap < 2 ^ 62 → Z.of_nat (length l) ≤ cap →
  ∃ ok cap' al', live_register p (MkWorld H l cap (MkMutex true false) d al) =
      Some (ok, MkWorld H (if ok : bool then l ++ [p] else l) cap' (MkMutex true false) d al') ∧
    0 ≤ cap' ∧ Z.of_nat (length (if ok then l ++ [p] else l)) ≤ cap' ∧ (no_oom al → ok = true).
Proof.
  intros Hcap Hl. unfold live_register, g_lock, g_unlock, on_g_mutex, on_w_alloc, zoom, mbind, M_bind, mget.
  simpl. unfold w_count. simpl. destruct (Z.eqb_spec (Z.of_nat (length l)) cap) as [E|E]; simpl.
  - unfold malloc. destruct (malloc_ok al) as [ok al'] eqn:Eal. destruct ok; simpl.
    + set (cap' := if negb (cap =? 0) then size_t (cap * 2) else 8).
      assert (Z.of_nat (length l) < cap') as Hc.
      { unfold cap'. destruct (Z.eqb_spec cap 0); cbn [negb]; [lia|].
        rewrite size_t_small by (unfold SIZE_MOD; lia). lia. }
      rewrite (proj2 (Z.ltb_lt _ _) Hc). simpl. eexists true, _, _. split; [done|].
      rewrite length_app. simpl. split_and!; [lia|lia|done].
    + eexists false, _, _. split; [done|]. split_and!; [lia|lia|]. intros Hno.
      destruct (malloc_no_oom al Hno) as (? & Em & _). rewrite malloc_run, Eal in Em. done.
  - assert (Z.of_nat (length l) < cap) as Hc by lia. rewrite (proj2 (Z.ltb_lt _ _) Hc). simpl.
    eexists true, _, _. split; [done|]. rewrite length_app. simpl. split_and!; [lia|lia|done].
Qed.

(** ** Opening *)

Context (drv : SqlRDBDriver D) `{!DriverLaws drv, !ConnLaws drv}.

(** [d] is [d0] with the connection [ctx] opened. *)
Definition opened (d0 d : D) (ctx : ptr) : Prop :=
  stmts d = stmts d0 ∧ ctx ≠ NULL ∧ (ctx ∉ conns d0) ∧ conns d = {[ctx]} ∪ conns d0 ∧ stmts_of ctx d = ∅ ∧ good d.

(** The same statements and connections are open. *)
Definition unharmed (d0 d : D) : Prop := stmts d = stmts d0 ∧ conns d = conns d0 ∧ good d.

Lemma close_opened d0 d ctx :
  opened d0 d ctx → ∃ r d', drv_close drv ctx d = Some (r, d') ∧ unharmed d0 d'.
Proof.
  intros (Hs & _ & Hn & Hc & Ho & _).
  destruct (close_law (drv := drv) ctx d) as (r & d' & E & Hg & H1 & H2 & H3); [set_solver|].
  exists r, d'. split; [done|]. split_and!; [apply set_eq; set_solver|apply set_eq; set_solver|done].
Qed.

Lemma init_fail_run d0 ctx p b H l cap mu d al :
  p ∉ dom H → opened d0 d ctx →
  ∃ d', init_fail drv ctx p (MkWorld (<[p := b]> H) l cap mu d al) = Some (NULL, MkWorld H l cap mu d' al) ∧
    unharmed d0 d'.
Proof.
  intros Hp Ho. destruct (close_opened d0 d ctx Ho) as (r & d' & E & Hu). exists d'. split; [|done].
  unfold init_fail, on_w_db. erewrite bind_run by (apply zoom_run; exact E). simpl.
  by rewrite (bind_run _ _ _ _ _ (free_handle_run _ _ _ _ _ _ _ _ Hp)).
Qed.

(** The handle SqlRDBInit has built when it registers it. *)
Definition new_handle (ctx : ptr) (c : SqlRDBStmtCache) : SqlRDBHandle :=
  MkHandle SQL_RDB_HANDLE_MAGIC DEFAULT_CONFIG ctx (MkReg [] 0 0%N) c
    (MkTxn 0 (replicate 16 EmptyString)) (MkErr SQL_RDB_OK EmptyString) (MkLogger NULL NULL)
    (MkMutex true false).

(** What a call of SqlRDBInit may do to a process. *)
Definition init_post w p w' : Prop :=
  w_mutex w' = w_mutex w ∧
  if decide (p = NULL) then unharmed (w_db w) (w_db w') ∧ w_heap w' = w_heap w ∧ w_live w' = w_live w ∧
    0 ≤ w_capacity w' ∧ w_count w' ≤ w_capacity w'
  else (p ∉ dom (w_heap w)) ∧ w_live w' = w_live w ++ [p] ∧
    0 ≤ w_capacity w' ∧ w_count w' ≤ w_capacity w' ∧
    ∃ ctx c ps, w_heap w' = <[p := MkBlock (new_handle ctx c) drv 0]> (w_heap w) ∧
      rep c ps (MkAbs 64 []) ∧ opened (w_db w) (w_db w') ctx.

Lemma default_buckets : bucket_count_for 64 = Some (2 ^ 7).
Proof. by vm_compute. Qed.

(** The part of SqlRDBInit after the cache: registration. *)
Lemma init_register_run w ctx p c d al :
  world_wf w → w_capacity w < 2 ^ 62 → (p ∉ dom (w_heap w)) → p ≠ NULL → rep c [] (MkAbs 64 []) →
  opened (w_db w) d ctx →
  ∃ q w', (ok ← live_register p;
    if negb ok then
      on_handle p (h_upd (set_h_magic SQL_RDB_HANDLE_DEAD));;
      on_handle p (h_cache_destroy drv);;
      on_handle p h_registry_destroy;;
      on_handle p h_mutex_destroy;;
      init_fail drv ctx p
    else mret p) (MkWorld (<[p := MkBlock (new_handle ctx c) drv 0]> (w_heap w)) (w_live w)
      (w_capacity w) (w_mutex w) d al) = Some (q, w') ∧ init_post w q w' ∧ (no_oom al → q = p).
Proof.
  intros Hwf Hcap Hp Hnull Hrep Hd. destruct Hwf as [Hmu [Hc0 Hcc] Hnd Hnn Hlive].
  destruct (live_register_run p (<[p := MkBlock (new_handle ctx c) drv 0]> (w_heap w)) (w_live w)
    (w_capacity w) d al) as (ok & cap' & al' & E & H0 & H1 & Hno); [lia|done|].
  rewrite Hmu, (bind_run _ _ _ _ _ E). destruct ok; cbn [negb].
  - eexists p, _. split; [done|]. split; [|done]. unfold init_post. simpl. rewrite Hmu.
    rewrite decide_False by done. split_and!; try done. eauto 10.
  - erewrite bind_run by (by apply on_handle_run). simpl.
    erewrite bind_run.
    2:{ apply on_handle_run. unfold h_cache_destroy, h_on_cache. apply zoom_run. simpl.
        by eapply (cache_destroy_refines (Some drv) c d al' [] (MkAbs 64 [])). }
    simpl. erewrite bind_run by (by apply on_handle_run). simpl.
    erewrite bind_run by (by apply on_handle_run). simpl.
    edestruct (init_fail_run (w_db w) ctx p) as (d' & Ef & Hs); [exact Hp|exact Hd|]. rewrite Ef.
    eexists NULL, _. split; [done|]. split.
    + unfold init_post. simpl. rewrite Hmu. by split_and!.
    + intros Hoom. by specialize (Hno Hoom).
Qed.

Lemma fresh_handle_spec H : fresh_handle H ≠ NULL ∧ (fresh_handle H ∉ dom H).
Proof. pose proof (is_fresh ({[NULL]} ∪ dom H : gset ptr)). unfold fresh_handle. set_solver. Qed.

(** A failure before the registration of the handle. *)
Lemma init_post_fail w d al :
  world_wf w → unharmed (w_db w) d →
  init_post w NULL (MkWorld (w_heap w) (w_live w) (w_capacity w) (w_mutex w) d al).
Proof. intros [_ ? _ _ _] Hd. by split_and!. Qed.

Lemma calloc_handle_run H l cap mu d al :
  calloc_handle drv (MkWorld H l cap mu d al) =
  let p := fresh_handle H in
  if (malloc_ok al).1
  then Some (p, MkWorld (<[p := MkBlock zero_handle drv 0]> H) l cap mu d (malloc_ok al).2)
  else Some (NULL, MkWorld H l cap mu d (malloc_ok al).2).
Proof.
  unfold calloc_handle, on_w_alloc, zoom, mbind, M_bind, malloc. simpl.
  by destruct (malloc_ok al) as [[] al'].
Qed.


(** The part of SqlRDBInit after the allocation of the struct. *)
Lemma init_built_run init_rc ctx p w d al :
  world_wf w → w_capacity w < 2 ^ 62 → (p ∉ dom (w_heap w)) → p ≠ NULL → opened (w_db w) d ctx →
  ∃ q w', (on_handle p (h_upd (λ x, set_h_ctx ctx (set_h_config DEFAULT_CONFIG x)));;
    r ← on_handle p (h_mutex_init init_rc);
    if negb (res_ok r) then init_fail drv ctx p
    else
      on_handle p (h_upd (λ x,
        set_h_logger (MkLogger NULL NULL) (set_h_error (c2sql_internal_err_clear (h_error x)) x)));;
      on_handle p (h_on_reg c2sql_internal_schema_registry_init);;
      r ← on_handle p (h_on_cache (c2sql_internal_cache_init (cfg_stmt_cache_size DEFAULT_CONFIG)));
      if negb (res_ok r) then
        on_handle p h_registry_destroy;;
        on_handle p h_mutex_destroy;;
        init_fail drv ctx p
      else
        on_handle p (h_upd (λ x, set_h_magic SQL_RDB_HANDLE_MAGIC
          (set_h_txn (MkTxn 0 (replicate 16 EmptyString)) x)));;
        ok ← live_register p;
        if negb ok then
          on_handle p (h_upd (set_h_magic SQL_RDB_HANDLE_DEAD));;
          on_handle p (h_cache_destroy drv);;
          on_handle p h_registry_destroy;;
          on_handle p h_mutex_destroy;;
          init_fail drv ctx p
        else mret p) (MkWorld (<[p := MkBlock zero_handle drv 0]> (w_heap w)) (w_live w)
          (w_capacity w) (w_mutex w) d al) = Some (q, w') ∧
    init_post w q w' ∧ (no_oom al → init_rc = 0 → q ≠ NULL).
Proof.
  intros Hwf Hcap Hp Hnull Hd.
  erewrite bind_run by (by apply on_handle_run). simpl.
  destruct (Z.eqb_spec init_rc 0) as [->|Hrc].
  2:{ erewrite bind_run.
      2:{ apply on_handle_run. unfold h_mutex_init, c2sql_internal_mutex_init. simpl.
          rewrite (proj2 (Z.eqb_neq _ _) Hrc). done. }
      simpl. edestruct (init_fail_run (w_db w) ctx p) as (d' & -> & Hs); [exact Hp|exact Hd|].
      eexists NULL, _. split; [done|]. split; [|done]. by apply init_post_fail. }
  erewrite bind_run by (by apply on_handle_run). simpl.
  erewrite bind_run by (by apply on_handle_run). simpl.
  erewrite bind_run by (by apply on_handle_run). simpl.
  destruct (cache_init_spec zero_cache d al 64 (2 ^ 7) 7) as (c & n & Ec & Hrep);
    [done|simpl; by rewrite default_buckets|]. simpl in Ec, Hrep.
  erewrite bind_run by (apply on_handle_run; unfold h_on_cache; apply zoom_run; exact Ec). simpl.
  destruct (malloc_ok al) as [ok al'] eqn:Eal. simpl in *. destruct ok; simpl.
  - erewrite bind_run by (by apply on_handle_run). simpl.
    destruct (init_register_run w ctx p c d (drop n al)) as (q & w' & E & Hpost & Hno); [done..|].
    exists q, w'. split; [exact E|]. split; [done|]. intros Hoom _. rewrite Hno; [done|].
    by apply Forall_drop.
  - erewrite bind_run by (by apply on_handle_run). simpl.
    erewrite bind_run by (by apply on_handle_run). simpl.
    edestruct (init_fail_run (w_db w) ctx p) as (d' & -> & Hs); [exact Hp|exact Hd|].
    eexists NULL, _. split; [done|]. split; [by apply init_post_fail|].
    intros Hoom. apply no_oom_malloc in Hoom as [Hoom _]. by rewrite Eal in Hoom.
Qed.

Lemma init_run bk init_rc dsn w :
  world_wf w → w_capacity w < 2 ^ 62 → select_driver bk dsn = Some drv → good (w_db w) →
  ∃ p w', SqlRDBInit bk init_rc (Some dsn) w = Some (p, w') ∧ init_post w p w' ∧
    (no_oom (w_alloc w) → init_rc = 0 → (∃ ctx d', drv_open drv dsn (w_db w) = Some ((SQL_RDB_OK, ctx), d')) →
     p ≠ NULL).
Proof.
  intros Hwf Hcap Hsel Hg. destruct w as [H l cap mu d al]. unfold SqlRDBInit. rewrite Hsel.
  destruct (open_law (drv := drv) dsn d Hg) as (r & ctx & d1 & Eo & Hg1 & Hd1 & Hoc).
  erewrite bind_run by (unfold on_w_db; apply zoom_run; exact Eo). simpl.
  destruct (res_ok r) eqn:Er; cbn [negb].
  2:{ eexists NULL, _. split; [done|].
      split; [apply (init_post_fail (MkWorld H l cap mu d al)); [done|split_and!; simpl; [done|by rewrite Hoc|done]]|].
      intros _ _ (? & ? & E). rewrite Eo in E. injection E as -> _ _. done. }
  assert (opened d d1 ctx) as Hop by (by destruct Hoc as (? & ? & ? & ?)).
  pose proof (calloc_handle_run H l cap mu d1 al) as Ea. cbv zeta in Ea.
  destruct (malloc_ok al) as [ok al'] eqn:Eal. simpl in Ea. destruct ok; rewrite (bind_run _ _ _ _ _ Ea).
  - destruct (fresh_handle_spec H) as [Hn Hf]. rewrite (proj2 (N.eqb_neq _ _) Hn).
    destruct (init_built_run init_rc ctx (fresh_handle H) (MkWorld H l cap mu d al) d1 al')
      as (q & w' & E & Hpost & Hno); [done..|].
    exists q, w'. split; [exact E|]. split; [done|]. intros Hoom Hrc _. apply Hno; [|done].
    apply no_oom_malloc in Hoom as [_ Hoom]. by rewrite Eal in Hoom.
  - change (NULL =? NULL)%N with true. cbv iota.
    destruct (close_opened d d1 ctx Hop) as (rc & d2 & E2 & Hd2).
    erewrite bind_run by (unfold on_w_db; apply zoom_run; exact E2).
    eexists NULL, _. split; [done|].
    split; [by apply (init_post_fail (MkWorld H l cap mu d al))|].
    intros Hoom. apply no_oom_malloc in Hoom as [Hoom _]. by rewrite Eal in Hoom.
Qed.

Lemma init_post_wf w p w' : world_wf w → init_post w p w' → world_wf w'.
Proof.
  intros [Hmu Hc Hnd [Hn1 Hn2] Hlive] (Hmu' & Hp). destruct (decide (p = NULL)) as [->|Hnull].
  - destruct Hp as (_ & Hh & Hl & Hc0 & Hc1). split; [congruence|done|by rewrite Hl|by rewrite Hl, Hh|].
    intros q. rewrite Hl, Hh. apply Hlive.
  - destruct Hp as (Hf & Hl & Hc0 & Hc1 & ctx & c & ps & Hh & _).
    assert (p ∉ w_live w) as Hpl.
    { intros (b & Hb & _)%Hlive. apply Hf. by apply elem_of_dom_2 in Hb. }
    split; [congruence|done| |rewrite Hl, Hh; set_solver|].
    + rewrite Hl. apply NoDup_app. split_and!; [done|set_solver|apply NoDup_singleton].
    + intros q. rewrite Hl, Hh. intros [Hq|Hq]%elem_of_app.
      * rewrite lookup_insert_ne by (intros ->; done). by apply Hlive.
      * apply list_elem_of_singleton in Hq as ->. rewrite lookup_insert_eq. by eexists.
Qed.

(** The new handle satisfies the invariant of the API; the statements of the
    other handles are those it does not own. *)
Lemma new_handle_inv ctx c ps d al :
  rep c ps (MkAbs 64 []) → (NULL ∉ stmts d) → ctx ∈ conns d →
  api_inv drv (MkReg [] 0 0%N) (stmts d) (MkH (new_handle ctx c) d al 0).
Proof.
  intros Hrep Hn Hcx. split; [|done]. split; [done|]. split; [apply (ex_r0_wf [])|].
  split; [split_and!; try done; intros k Hk; simpl in Hk; lia|].
  exists ps, (MkAbs 64 []). split_and!; [done|constructor|set_solver|set_solver|done|done].
Qed.

(** ** Closing *)

Lemma h_cache_destroy_run (s : HState D) ps a o :
  rep (h_cache (hs_h s)) ps a → NoDup (held a) → stmts (hs_db s) = list_to_set (held a) ∪ o →
  (list_to_set (held a) : gset ptr) ## o →
  ∃ d', h_cache_destroy drv s = Some (tt, MkH (set_h_cache zero_cache (hs_h s)) d' (hs_alloc s) (hs_live s)) ∧
    stmts d' = o ∧ calm view (hs_db s) d'.
Proof.
  intros Hrep Hnd Hst Hd.
  destruct (fin_all_laws drv (held a) (hs_db s)) as (d' & Hfin & Hs' & Hc); [done|rewrite Hst; set_solver|].
  exists d'. split_and!; [| |done].
  - unfold h_cache_destroy, h_on_cache, zoom.
    by rewrite (cache_destroy_refines (Some drv) _ (hs_db s) (hs_alloc s) ps a d' Hrep Hfin).
  - rewrite Hs', Hst. set_solver.
Qed.

(** The rollback of an open transaction. *)
Lemma tidy_run (b : bool) (m : M D SqlRDBResult) f (s : HState D) :
  keeps view m (hs_db s) →
  ∃ s', (if b then h_db m;; h_upd f else mret tt) s = Some (tt, s') ∧
    stmts (hs_db s') = stmts (hs_db s) ∧ calm view (hs_db s) (hs_db s') ∧
    hs_alloc s' = hs_alloc s ∧ hs_live s' = hs_live s ∧
    hs_h s' = if b then f (hs_h s) else hs_h s.
Proof.
  intros (r & d' & E & Hs & Hc%still_calm). destruct b; [|by eexists]. eexists. unfold h_db.
  erewrite bind_run by (apply zoom_run; exact E). split; [done|]. by split_and!.
Qed.

(** The connection [ctx] of [d] is closed: what is left of the statements [o]. *)
Definition conn_closed (ctx : ptr) (o : gset ptr) (d d' : D) : Prop :=
  stmts d' ⊆ o ∧ o ∖ stmts_of ctx d ⊆ stmts d' ∧ good d' ∧
  conns d' = if decide (ctx = NULL) then conns d else conns d ∖ {[ctx]}.

Lemma close_conn_run o d0 (s : HState D) ctx :
  stmts (hs_db s) = o → ctx ∈ conns (hs_db s) → calm view d0 (hs_db s) →
  ∃ s', (if negb (ctx =? NULL)%N then h_db (drv_close drv ctx);; h_upd (set_h_ctx NULL) else mret tt) s =
      Some (tt, s') ∧ conn_closed ctx o d0 (hs_db s') ∧ hs_live s' = hs_live s ∧
    h_mutex (hs_h s') = h_mutex (hs_h s).
Proof.
  intros Hs Hcx [Hc Ho]. specialize (Ho ctx). unfold conn_closed. destruct (N.eqb_spec ctx NULL) as [E0|Hn]; cbn [negb].
  - eexists. split; [done|]. split_and!; try done; [set_solver|set_solver|by eapply conns_good|by rewrite decide_True].
  - destruct (close_law (drv := drv) ctx (hs_db s) Hcx) as (r & d' & E & Hg & H1 & H2 & H3).
    eexists. unfold h_db. erewrite bind_run by (apply zoom_run; exact E). split; [done|].
    split_and!; try done; simpl; [set_solver|set_solver|]. by rewrite decide_False, H1, Hc.
Qed.

Lemma teardown_run R o (s : HState D) :
  api_inv drv R o s →
  ∃ s', teardown drv s = Some (tt, s') ∧ conn_closed (h_driver_ctx (hs_h s)) o (hs_db s) (hs_db s') ∧
    hs_live s' = 0.
Proof.
  intros [(HR & Hreg & Htx & ps & a & Hrep & Hnd & Hst & Hd & Hn & Hcx) Hm].
  unfold teardown. erewrite bind_run by done. erewrite bind_run by done.
  set (s1 := MkH (set_h_magic SQL_RDB_HANDLE_DEAD (hs_h s)) (hs_db s) (hs_alloc s) (hs_live s)).
  destruct (tidy_run ((0 <? tx_depth (h_txn (hs_h s1))) && negb (h_driver_ctx (hs_h s1) =? NULL)%N) (drv_rollback drv (h_driver_ctx (hs_h s1)))
    (λ x, set_h_txn (MkTxn 0 (tx_sp_names (h_txn x))) x) s1) as (s2 & E2 & Hd2 & Hc2 & Ha2 & Hl2 & Hh2);
    [by apply rollback_law|].
  rewrite (bind_run _ _ _ _ _ E2). clear E2.
  destruct (h_cache_destroy_run s2 ps a o) as (d3 & E3 & Hd3 & Hc3).
  { rewrite Hh2. by destruct (_ && _). } { done. } { by rewrite Hd2. } { done. }
  rewrite (bind_run _ _ _ _ _ E3). clear E3.
  erewrite bind_run.
  2:{ unfold h_registry_destroy, h_on_reg. apply zoom_run, destroy_spec. simpl.
      destruct s2 as [h2 d2 al2 lv2]. simpl in *. subst al2 lv2.
      replace (h_registry h2) with R; [|rewrite Hh2; by destruct (_ && _)].
      replace (h_error h2) with (h_error (hs_h s)); [done|rewrite Hh2; by destruct (_ && _)]. }
  edestruct (close_conn_run o (hs_db s)) as (s4 & E4 & Hd4 & Hl4 & Hh4); [| | |rewrite (bind_run _ _ _ _ _ E4)].
  { exact Hd3. } { simpl. by rewrite (proj1 Hc3), (proj1 Hc2). } { simpl. by eapply calm_trans. }
  clear E4. simpl in *.
  assert (h_mutex (hs_h s4) = h_mutex (hs_h s)) as Hmu by (rewrite Hh4, Hh2; by destruct (_ && _)).
  unfold h_mutex_destroy, h_mtx, zoom, c2sql_internal_mutex_destroy. rewrite Hmu.
  unfold mutex_ok in Hm. destruct (mtx_threadsafe (h_mutex (hs_h s))); simpl in *;
    rewrite ?Hm; eexists; (split; [done|]); split; simpl; congruence.
Qed.

Lemma close_not_live p w :
  world_wf w → (p ∉ w_live w) → SqlRDBClose p w = Some (SQL_RDB_ERR_INVALID_HANDLE, w).
Proof.
  intros Hwf Hp. destruct w as [H l cap mu d al]. pose proof (wf_mutex _ Hwf) as Hmu. simpl in *. subst mu.
  unfold SqlRDBClose. rewrite (bind_run _ _ _ _ _ (live_contains_run p H l cap d al)).
  rewrite (bool_decide_false (p ∈ l)) by done. by rewrite andb_false_r.
Qed.

Lemma close_run p b R o w :
  world_wf w → p ∈ w_live w → w_heap w !! p = Some b → b_driver b = drv →
  api_inv drv R o (handle_state b w) →
  ∃ w', SqlRDBClose p w = Some (SQL_RDB_OK, w') ∧ world_wf w' ∧ w_heap w' = delete p (w_heap w) ∧
    p :: w_live w' ≡ₚ w_live w ∧ conn_closed (h_driver_ctx (b_h b)) o (w_db w) (w_db w') ∧
    ∃ s', teardown drv (handle_state b w) = Some (tt, s') ∧ hs_live s' = 0 ∧ w_db w' = hs_db s'.
Proof.
  intros Hwf Hp Hb Hdrv Hinv. pose proof Hwf as [Hmu [Hc0 Hc1] Hnd [Hn1 Hn2] Hlive].
  destruct (Hlive p Hp) as (b' & Hb' & Hmagic). rewrite Hb in Hb'. injection Hb' as <-.
  destruct w as [H l cap mu d al]. simpl in *. subst mu.
  unfold SqlRDBClose. rewrite (bind_run _ _ _ _ _ (live_contains_run p H l cap d al)).
  assert (p ≠ NULL) as Hpn by (intros ->; done).
  rewrite (proj2 (N.eqb_neq _ _) Hpn), (bool_decide_true (p ∈ l)) by done. cbn [negb andb].
  assert (H = <[p := b]> (delete p H)) as HH by (by rewrite insert_delete_id).
  rewrite HH. erewrite bind_run by (by apply on_handle_run). simpl. rewrite Hmagic. cbn [negb Z.eqb].
  rewrite Z.eqb_refl. cbn [negb].
  destruct (live_remove_run p (<[p := MkBlock (b_h b) (b_driver b) (b_blocks b)]> (delete p H)) l cap d al Hp)
    as (l' & Hperm & El). rewrite (bind_run _ _ _ _ _ El).
  erewrite bind_run by (unfold driver_of; simpl; by rewrite lookup_insert_eq).
  simpl. rewrite Hdrv.
  destruct (teardown_run R o _ Hinv) as (s' & Et & Hst & Hl0). pose proof Et as Et0. unfold handle_state in Et. simpl in Et.
  erewrite bind_run by (by apply on_handle_run). simpl.
  rewrite (bind_run _ _ _ _ _ (free_handle_run p _ (delete p H) _ _ _ _ _ ltac:(set_solver))).
  eexists. split; [done|]. split; [|split_and!; [|done|done|by exists s']]; simpl.
  2:{ by rewrite insert_delete_id. }
  assert (NoDup (p :: l')) as [Hpl' Hnd']%NoDup_cons by (by rewrite Hperm).
  split; simpl; [done| |done| |].
  - unfold w_count in *. simpl in *. apply Permutation_length in Hperm. simpl in Hperm. lia.
  - split; [intros Hin; apply Hn1; rewrite <-Hperm; by right|set_solver].
  - intros q Hq. rewrite lookup_delete_ne by (intros ->; done). apply Hlive. rewrite <-Hperm. by right.
Qed.
End lifecycle.

(** ** Examples *)

Definition ex_backends : Backends Mem := MkBackends mem_driver mem_driver false.
Definition ex_world (al : list bool) : World Mem := MkWorld ∅ [] 0 (MkMutex true false) mem0 al.

Lemma ex_world_wf al : world_wf (ex_world al).
Proof. split; simpl; [done|done|constructor|set_solver|set_solver]. Qed.

(** ** Properties *)

(** C30: opening a handle.  With a connection string for which the library has
    a backend, SqlRDBInit is defined whatever fails, and leaves the other
    connections and all statements open.  When it returns NULL the
    handles in memory and the array of live handles are as before.  Otherwise
    the new handle is a new struct, is the last of the live ones, and satisfies
    the invariant of the API with an empty registry and the default
    configuration.  NULL is returned only when the driver, an allocation or
    the initialization of the mutex fails. *)
Theorem init_correct {D} (drv : SqlRDBDriver D) `{!DriverLaws drv, !ConnLaws drv} bk init_rc dsn w :
  world_wf w → w_capacity w < 2 ^ 62 → select_driver bk dsn = Some drv → good (w_db w) →
  (NULL ∉ stmts (w_db w)) →
  ∃ p w', SqlRDBInit bk init_rc (Some dsn) w = Some (p, w') ∧ world_wf w' ∧
    (if decide (p = NULL) then unharmed drv (w_db w) (w_db w') ∧ w_heap w' = w_heap w ∧ w_live w' = w_live w
     else (p ∉ dom (w_heap w)) ∧ w_live w' = w_live w ++ [p] ∧
       ∃ b, opened drv (w_db w) (w_db w') (h_driver_ctx (b_h b)) ∧ w_heap w' = <[p := b]> (w_heap w) ∧ b_driver b = drv ∧
         h_magic (b_h b) = SQL_RDB_HANDLE_MAGIC ∧ h_config (b_h b) = DEFAULT_CONFIG ∧
         api_inv drv (MkReg [] 0 0%N) (stmts (w_db w)) (handle_state b w')) ∧
    (no_oom (w_alloc w) → init_rc = 0 → (∃ ctx d', drv_open drv dsn (w_db w) = Some ((SQL_RDB_OK, ctx), d')) →
     p ≠ NULL).
Proof.
  intros Hwf Hcap Hsel Hg Hn. destruct (init_run drv bk init_rc dsn w Hwf Hcap Hsel Hg) as (p & w' & E & Hpost & Hno).
  exists p, w'. split; [done|]. split; [by eapply init_post_wf|]. destruct Hpost as (_ & Hp).
  split; [|done]. destruct (decide (p = NULL)); [by destruct Hp as (? & ? & ? & _)|].
  destruct Hp as (Hf & Hl & _ & _ & ctx & c & ps & Hh & Hrep & Hop). split_and!; [done|done|].
  pose proof Hop as (Hst' & _ & _ & Hc & _).
  eexists. split; [|split; [done|]]; [done|]. split_and!; try done. unfold handle_state. simpl. rewrite <-Hst'.
  eapply new_handle_inv; [apply _|done|by rewrite Hst'|]. rewrite Hc. set_solver.
Qed.

(** The allocation of the array of live handles fails. *)
Lemma init_correct_witness :
  ∃ p w', SqlRDBInit ex_backends 0 (Some ":memory:"%string) (ex_world [true; true; false]) = Some (p, w') ∧
    world_wf w' ∧ (p = NULL → unharmed mem_driver mem0 (w_db w')).
Proof.
  destruct (init_correct mem_driver ex_backends 0 ":memory:" (ex_world [true; true; false]))
    as (p & w' & H1 & H2 & H3 & _).
  - apply ex_world_wf.
  - reflexivity.
  - reflexivity.
  - exact I.
  - simpl. set_solver.
  - exists p, w'. split; [exact H1|]. split; [exact H2|]. intros ->. exact (proj1 H3).
Defined.

(** C18: closing a handle.  SqlRDBClose of a live handle whose iterators are
    freed or abandoned is defined and returns OK.  It takes the handle out of the
    live ones, runs the teardown of the struct, which leaves none of the blocks
    of its registry behind, and frees the struct and nothing else.  Of the
    statements only those may be left that are not the cache's, and those of
    other connections all are; of the connections the handle's is gone and the
    others are left.  Closing the same pointer again is then refused, without an
    access to the freed struct. *)
Theorem close_correct {D} (drv : SqlRDBDriver D) `{!DriverLaws drv, !ConnLaws drv} p b R o w :
  world_wf w → p ∈ w_live w → w_heap w !! p = Some b → b_driver b = drv →
  api_inv drv R o (handle_state b w) →
  ∃ w', SqlRDBClose p w = Some (SQL_RDB_OK, w') ∧ world_wf w' ∧ w_heap w' = delete p (w_heap w) ∧
    p :: w_live w' ≡ₚ w_live w ∧ conn_closed drv (h_driver_ctx (b_h b)) o (w_db w) (w_db w') ∧
    (∃ s', teardown drv (handle_state b w) = Some (tt, s') ∧ hs_live s' = 0 ∧ w_db w' = hs_db s') ∧
    SqlRDBClose p w' = Some (SQL_RDB_ERR_INVALID_HANDLE, w').
Proof.
  intros Hwf Hp Hb Hdrv Hinv.
  destruct (close_run drv p b R o w Hwf Hp Hb Hdrv Hinv) as (w' & E & Hwf' & Hh & Hperm & Hst & Htd).
  exists w'. split_and!; try done. apply close_not_live; [done|].
  pose proof (wf_nodup _ Hwf) as Hnd. rewrite <-Hperm in Hnd. by apply NoDup_cons in Hnd as [? _].
Qed.

Definition ex_open_world : World Mem :=
  MkWorld {[5%N := MkBlock ex_handle mem_driver 5]} [5%N] 8 (MkMutex true false) mem0 [].

Lemma close_correct_witness :
  ∃ w', SqlRDBClose 5%N ex_open_world = Some (SQL_RDB_OK, w') ∧ conn_closed mem_driver 1%N ∅ mem0 (w_db w') ∧
    SqlRDBClose 5%N w' = Some (SQL_RDB_ERR_INVALID_HANDLE, w').
Proof.
  destruct (close_correct mem_driver 5%N (MkBlock ex_handle mem_driver 5) (r_reg ex_r1) ∅ ex_open_world)
    as (w' & H1 & _ & _ & _ & H2 & _ & H3).
  - split; simpl.
    + reflexivity.
    + split; discriminate.
    + apply NoDup_singleton.
    + unfold NULL. set_solver.
    + intros p Hp. apply list_elem_of_singleton in Hp. subst p. eexists. split; reflexivity.
  - simpl. set_solver.
  - reflexivity.
  - reflexivity.
  - apply (ex_api_inv []).
  - exists w'. split; [exact H1|]. split; [exact H2|exact H3].
Defined.

(** Closing what is not a handle.  SqlRDBClose of a pointer that is not
    live - NULL, a handle closed before, any other address - returns
    INVALID_HANDLE and changes nothing; it does not read the memory there. *)
Theorem close_not_live_refused {D} (p : ptr) (w : World D) :
  world_wf w → (p ∉ w_live w) → SqlRDBClose p w = Some (SQL_RDB_ERR_INVALID_HANDLE, w).
Proof. apply close_not_live. Qed.

Lemma close_not_live_refused_witness :
  SqlRDBClose 9%N (ex_world []) = Some (SQL_RDB_ERR_INVALID_HANDLE, ex_world []).
Proof. apply close_not_live_refused; [apply ex_world_wf|simpl; set_solver]. Defined.
