(* ===== verification/Migration.v ===== *)
(** * Table synchronisation (src/migration.c) and SqlRDBRegisterStruct

    Creating the table of a struct, reading the columns it has in the database
    through the catalogue queries of each backend, comparing them with the
    registered ones, and adding the missing columns.  The loops over the rows
    of a catalogue query run as long as the driver returns rows; they are given
    a [fuel] of rows, and running out of it is [None]. *)

From Stdlib Require Import String Strings.Byte Strings.Ascii.
From coqutil Require Import Byte.
From S2P Require Import Prelude Types Support Driver StmtCache Condition QueryBuilder.
From S2P Require Import Registry TypeMapping Handle Api.
Import ErrorCtx Logger Mutex.

(** ** Strings *)

(** The C string at the start of an array. *)
Fixpoint c_string (bs : list byte) : string :=
  match bs with
  | [] => EmptyString
  | b :: bs => if byte.unsigned b =? 0 then EmptyString else String (ascii_of_byte b) (c_string bs)
  end.

Fixpoint starts_with (p s : string) : bool :=
  match p, s with
  | EmptyString, _ => true
  | String a p, String b s => bool_decide (a = b) && starts_with p s
  | String _ _, EmptyString => false
  end.

(** [strstr(s, p) != NULL] *)
Fixpoint strstr (s p : string) : bool :=
  starts_with p s || match s with EmptyString => false | String _ s => strstr s p end.

(** ** Columns of the database *)

Definition MIG_MAX_NAME : Z := 128.

Record DbCol : Type := MkDbCol {
  dc_cid : Z;
  dc_name : string;
  dc_type_class : SqlRDBType;
  dc_notnull : bool;
  dc_pk : bool;
  dc_is_unique : bool;
}.

Definition set_dc_pk (c : DbCol) : DbCol :=
  MkDbCol (dc_cid c) (dc_name c) (dc_type_class c) (dc_notnull c) true (dc_is_unique c).
Definition set_dc_unique (c : DbCol) : DbCol :=
  MkDbCol (dc_cid c) (dc_name c) (dc_type_class c) (dc_notnull c) (dc_pk c) true.

Definition schema_type_class (t : SqlRDBType) : SqlRDBType :=
  match t with
  | SQL_TYPE_INT32 | SQL_TYPE_INT64 => SQL_TYPE_INT64
  | _ => t
  end.

(** The argument is never NULL at the calls. *)
Definition type_class_from_str (s : string) : SqlRDBType :=
  let up := string_map toupper (substring 0 31 s) in
  if strstr up "INT" then SQL_TYPE_INT64
  else if strstr up "REAL" || strstr up "FLOA" || strstr up "DOUB" then SQL_TYPE_REAL
  else if strstr up "BLOB" then SQL_TYPE_BLOB
  else SQL_TYPE_TEXT.

Definition type_class_from_pg (s : string) : SqlRDBType :=
  if strstr s "int" then SQL_TYPE_INT64
  else if strstr s "double" || strstr s "real" || strstr s "numeric" || strstr s "float" then SQL_TYPE_REAL
  else if strstr s "bytea" then SQL_TYPE_BLOB
  else SQL_TYPE_TEXT.

(** The kind of the first difference, 0 when there is none. *)
Definition compare_columns (sc : SqlRDBColumnDef) (dc : DbCol) : Z :=
  let sc_notnull := negb (has_flag (col_flags sc) SQL_COL_FLAG_NULLABLE) in
  let sc_pk := has_flag (col_flags sc) SQL_COL_FLAG_PRIMARY_KEY in
  let sc_unique := if sc_pk then false else has_flag (col_flags sc) SQL_COL_FLAG_UNIQUE in
  if negb (bool_decide (col_name sc = dc_name dc)) then 1
  else if negb (bool_decide (schema_type_class (col_type sc) = dc_type_class dc)) then 2
  else if negb (Bool.eqb sc_notnull (dc_notnull dc)) then 3
  else if negb (Bool.eqb sc_pk (dc_pk dc)) then 4
  else if sc_unique && negb (dc_is_unique dc) then 5
  else 0.

(** ** The STRICT keyword *)

Definition is_sep (c : ascii) : bool :=
  bool_decide (c = " "%char ∨ c = "009"%char ∨ c = ","%char ∨ c = "010"%char).
Definition is_word (c : ascii) : bool := isalnum c || bool_decide (c = "_"%char).

Fixpoint drop_while (f : ascii → bool) (l : list ascii) : list ascii :=
  match l with
  | [] => []
  | c :: l' => if f c then drop_while f l' else l
  end.

(** [strncasecmp(q, "STRICT", 6) == 0 && (q + 6 == end || !isalnum(q[6]))] *)
Definition strict_at (q : list ascii) : bool :=
  bool_decide (toupper <$> take 6 q = list_ascii_of_string "STRICT") &&
  match q !! 6%nat with None => true | Some c => negb (isalnum c) end.

(** The loop over the characters [q] from the last parenthesis on. *)
Fixpoint strict_scan (fuel : nat) (q : list ascii) : option bool :=
  match fuel with
  | O => None
  | S fuel =>
      match q with
      | [] => Some false
      | _ =>
          let q := drop_while is_sep q in
          if (length q <? 6)%nat then Some false
          else if strict_at q then Some true
          else strict_scan fuel (drop_while is_word q)
      end
  end.

(** The part after the last closing parenthesis. *)
Fixpoint after_last_paren (l : list ascii) : option (list ascii) :=
  match l with
  | [] => None
  | c :: l =>
      match after_last_paren l with
      | Some t => Some t
      | None => if bool_decide (c = ")"%char) then Some l else None
      end
  end.

(** The answer of check_strict for the text of the CREATE statement. *)
Definition strict_text (txt : list byte) : option bool :=
  match after_last_paren (ascii_of_byte <$> txt) with
  | None => Some false
  | Some q => strict_scan (S (length q)) q
  end.

Section migration.
Context {D : Type} (drv : SqlRDBDriver D) (fuel : nat).
Implicit Types (table : string).

(** ** Reading the catalogue *)

(** [p && plen < limit ? memcpy : ""] into an array of [limit] zero bytes. *)
Definition text_into (limit : Z) (x : option (list byte) * Z) : option string :=
  match x.1 with
  | Some p => if x.2 <? limit then bs ← bytes_at p 0 x.2; Some (c_string bs) else Some EmptyString
  | None => Some EmptyString
  end.

Definition h_column_text (stmt : ptr) (i : Z) : M (HState D) (option (list byte) * Z) :=
  out ← h_db (drv_column_text drv stmt i); mret out.2.
Definition h_column_int32 (stmt : ptr) (i : Z) : M (HState D) Z :=
  out ← h_db (drv_column_int32 drv stmt i); mret out.2.

Definition h_prepare (sql : string) : M (HState D) (SqlRDBResult * ptr) :=
  ctx ← mgets (λ s, h_driver_ctx (hs_h s));
  h_db (drv_prepare drv ctx sql).

(** The rows of a query that has been prepared: [row acc] is what the body
    makes of one more row, [None] when an allocation of it failed.  The result
    is that of the last step, and whether an allocation failed. *)
Fixpoint each_row {A} (n : nat) (stmt : ptr) (row : A → M (HState D) (option A)) (acc : A) :
    M (HState D) (SqlRDBResult * bool * A) :=
  match n with
  | O => ub
  | S n =>
      out ← h_step drv stmt;
      let '(r, has_row) := out in
      if negb (res_ok r) || negb has_row then mret (r, false, acc)
      else
        acc' ← row acc;
        match acc' with
        | None => mret (r, true, acc)
        | Some acc' => each_row n stmt row acc'
        end
  end.

(** [if (n == cap) { ... realloc ... }]: the new capacity. *)
Definition grow_cols (n : nat) (cap : Z) : M (HState D) (option Z) :=
  if Z.of_nat n =? cap then
    ok ← h_alloc malloc;
    mret (if ok : bool then Some (if cap =? 0 then 8 else size_t (cap * 2)) else None)
  else mret (Some cap).

(** One row of PRAGMA table_info. *)
Definition table_info_row (stmt : ptr) (acc : list DbCol * Z) : M (HState D) (option (list DbCol * Z)) :=
  let '(cols, cap) := acc in
  cap' ← grow_cols (length cols) cap;
  match cap' with
  | None => mret None
  | Some cap =>
      cid ← h_column_int32 stmt 0;
      name ← h_column_text stmt 1;
      name ← mdef (text_into MIG_MAX_NAME name);
      ty ← h_column_text stmt 2;
      raw ← mdef (text_into 32 ty);
      nn ← h_column_int32 stmt 3;
      pk ← h_column_int32 stmt 5;
      mret (Some (cols ++ [MkDbCol cid name (type_class_from_str raw) (negb (nn =? 0)) (negb (pk =? 0)) false],
                  cap))
  end.

(** The result, [*out_cols] and [*out_n]. *)
Definition read_table_info table : M (HState D) (SqlRDBResult * list DbCol) :=
  out ← h_prepare (vsnprintf 256 ("PRAGMA table_info(" +:+ DQ +:+ table +:+ DQ +:+ ")"));
  let '(r, stmt) := out in
  if negb (res_ok r) then mret (r, [])
  else
    out ← each_row fuel stmt (table_info_row stmt) ([], 0);
    let '(r, nomem, (cols, _)) := out in
    h_finalize drv stmt;;
    if nomem : bool then mret (SQL_RDB_ERR_NO_MEMORY, [])
    else if negb (res_ok r) then mret (r, [])
    else mret (SQL_RDB_OK, cols).

(** One row of PRAGMA index_list: the names of the UNIQUE constraints. *)
Definition index_list_row (stmt : ptr) (names : list string) : M (HState D) (option (list string)) :=
  uniq ← h_column_int32 stmt 2;
  if uniq =? 0 then mret (Some names)
  else
    origin ← h_column_text stmt 3;
    is_u ← mdef (match origin with
                 | (Some p, len) =>
                     if len =? 1 then c ← p !! 0%nat; Some (bool_decide (ascii_of_byte c = "u"%char))
                     else Some false
                 | (None, _) => Some false
                 end);
    if negb is_u then mret (Some names)
    else
      name ← h_column_text stmt 1;
      if (Z.of_nat (length names) <? 64) && bool_decide (is_Some name.1) && (name.2 <? 96) then
        s ← mdef (text_into 96 name);
        mret (Some (names ++ [s]))
      else mret (Some names).

(** One row of PRAGMA index_info: the columns of an index, at most 8. *)
Definition index_info_row (stmt : ptr) (cols : list string) : M (HState D) (option (list string)) :=
  cn ← h_column_text stmt 2;
  if bool_decide (is_Some cn.1) && (Z.of_nat (length cols) <? 8) && (cn.2 <? MIG_MAX_NAME) then
    s ← mdef (text_into MIG_MAX_NAME cn);
    mret (Some (cols ++ [s]))
  else mret (Some cols).

(** The first column with a name gets the flag. *)
Fixpoint mark_first (cols : list DbCol) (name : string) : list DbCol :=
  match cols with
  | [] => []
  | c :: cols =>
      if decide (dc_name c = name) then set_dc_unique c :: cols else c :: mark_first cols name
  end.

(** The loop over the indexes: the result and the columns. *)
Fixpoint unique_loop (idx : list string) (cols : list DbCol) : M (HState D) (SqlRDBResult * list DbCol) :=
  match idx with
  | [] => mret (SQL_RDB_OK, cols)
  | nm :: idx =>
      out ← h_prepare (vsnprintf 256 ("PRAGMA index_info(" +:+ DQ +:+ nm +:+ DQ +:+ ")"));
      let '(r, stmt) := out in
      if negb (res_ok r) then mret (r, cols)
      else
        out ← each_row fuel stmt (index_info_row stmt) [];
        let '(r, _, refs) := out in
        h_finalize drv stmt;;
        if negb (res_ok r) then mret (r, cols)
        else unique_loop idx (match refs with [c] => mark_first cols c | _ => cols end)
  end.

Definition apply_unique_flags table (cols : list DbCol) : M (HState D) (SqlRDBResult * list DbCol) :=
  out ← h_prepare (vsnprintf 256 ("PRAGMA index_list(" +:+ DQ +:+ table +:+ DQ +:+ ")"));
  let '(r, stmt) := out in
  if negb (res_ok r) then mret (r, cols)
  else
    out ← each_row fuel stmt (index_list_row stmt) [];
    let '(r, _, names) := out in
    h_finalize drv stmt;;
    if negb (res_ok r) then mret (r, cols) else unique_loop names cols.

(** The result and [*out_strict]. *)
Definition check_strict table : M (HState D) (SqlRDBResult * bool) :=
  out ← h_prepare (vsnprintf 256
    ("SELECT sql FROM sqlite_schema WHERE type='table' AND name='" +:+ table +:+ "'"));
  let '(r, stmt) := out in
  if negb (res_ok r) then mret (r, false)
  else
    out ← h_step drv stmt;
    let '(r, has_row) := out in
    if negb (res_ok r) || negb has_row then h_finalize drv stmt;; mret (SQL_RDB_OK, false)
    else
      txt ← h_column_text stmt 0;
      strict ← mdef (match txt with
                     | (Some p, plen) => bs ← bytes_at p 0 plen; strict_text bs
                     | (None, _) => Some false
                     end);
      h_finalize drv stmt;;
      mret (SQL_RDB_OK, strict).

(** *** PostgreSQL *)

Definition collect_row (stmt : ptr) (max : Z) (names : list string) : M (HState D) (option (list string)) :=
  t ← h_column_text stmt 0;
  if bool_decide (is_Some t.1) && (Z.of_nat (length names) <? max) && (t.2 <? MIG_MAX_NAME) then
    s ← mdef (text_into MIG_MAX_NAME t);
    mret (Some (names ++ [s]))
  else mret (Some names).

Definition pg_collect_names (sql table : string) (max : Z) : M (HState D) (SqlRDBResult * list string) :=
  out ← h_prepare sql;
  let '(r, stmt) := out in
  if negb (res_ok r) then mret (r, [])
  else
    r ← h_db (drv_bind_text drv stmt 1 (Some (cstr table)) (-1));
    if negb (res_ok r) then h_finalize drv stmt;; mret (r, [])
    else
      out ← each_row fuel stmt (collect_row stmt max) [];
      let '(r, _, names) := out in
      h_finalize drv stmt;;
      mret (r, names).

Definition pg_info_row (stmt : ptr) (acc : list DbCol * Z) : M (HState D) (option (list DbCol * Z)) :=
  let '(cols, cap) := acc in
  cap' ← grow_cols (length cols) cap;
  match cap' with
  | None => mret None
  | Some cap =>
      name ← h_column_text stmt 0;
      name ← mdef (text_into MIG_MAX_NAME name);
      ty ← h_column_text stmt 1;
      raw ← mdef (text_into 40 ty);
      nn ← h_column_text stmt 2;
      notnull ← mdef (match nn with
                      | (Some p, len) =>
                          if 2 <=? len then
                            c ← p !! 0%nat;
                            Some (bool_decide (ascii_of_byte c = "N"%char ∨ ascii_of_byte c = "n"%char))
                          else Some false
                      | (None, _) => Some false
                      end);
      mret (Some (cols ++ [MkDbCol (to_signed 32 (Z.of_nat (length cols))) name (type_class_from_pg raw)
                             notnull false false], cap))
  end.

(** [for i, for k: if (strcmp(cols[k].name, names[i]) == 0) set cols[k]] *)
Definition mark_named (set : DbCol → DbCol) (names : list string) (cols : list DbCol) : list DbCol :=
  foldl (λ cols nm, (λ c, if decide (dc_name c = nm) then set c else c) <$> cols) cols names.

Definition pg_columns_sql : string :=
  "SELECT column_name, data_type, is_nullable " +:+ "FROM information_schema.columns " +:+
  "WHERE table_name = $1 AND table_schema = current_schema() " +:+ "ORDER BY ordinal_position".
Definition pg_pk_sql : string :=
  "SELECT a.attname FROM pg_index i " +:+
  "JOIN pg_attribute a ON a.attrelid = i.indrelid AND a.attnum = ANY(i.indkey) " +:+
  "WHERE i.indrelid = $1::regclass AND i.indisprimary".
Definition pg_unique_sql : string :=
  "SELECT a.attname FROM pg_index i " +:+
  "JOIN pg_attribute a ON a.attrelid = i.indrelid AND a.attnum = ANY(i.indkey) " +:+
  "WHERE i.indrelid = $1::regclass AND i.indisunique AND NOT i.indisprimary " +:+
  "AND array_length(i.indkey, 1) = 1".

Definition read_table_info_pg table : M (HState D) (SqlRDBResult * list DbCol) :=
  out ← h_prepare pg_columns_sql;
  let '(r, stmt) := out in
  if negb (res_ok r) then mret (r, [])
  else
    r ← h_db (drv_bind_text drv stmt 1 (Some (cstr table)) (-1));
    if negb (res_ok r) then h_finalize drv stmt;; mret (r, [])
    else
      out ← each_row fuel stmt (pg_info_row stmt) ([], 0);
      let '(r, nomem, (cols, _)) := out in
      h_finalize drv stmt;;
      if nomem : bool then mret (SQL_RDB_ERR_NO_MEMORY, [])
      else if negb (res_ok r) then mret (r, [])
      else
        out ← pg_collect_names pg_pk_sql table 64;
        let '(r, pk_names) := out in
        if negb (res_ok r) then mret (r, [])
        else
          let cols := mark_named set_dc_pk pk_names cols in
          out ← pg_collect_names pg_unique_sql table 64;
          let '(r, uq_names) := out in
          if negb (res_ok r) then mret (r, [])
          else mret (SQL_RDB_OK, mark_named set_dc_unique uq_names cols).

Definition read_existing table : M (HState D) (SqlRDBResult * list DbCol) :=
  match drv_dialect drv with
  | C2SQL_DIALECT_POSTGRES => read_table_info_pg table
  | C2SQL_DIALECT_SQLITE =>
      out ← read_table_info table;
      let '(r, cols) := out in
      if negb (res_ok r) then mret (r, cols)
      else
        out ← apply_unique_flags table cols;
        let '(r, cols) := out in
        mret (r, if res_ok r then cols else [])
  end.

(** ** Comparing and migrating *)

(** The index and the kind of the first mismatch among the first [n] columns. *)
Fixpoint first_diff (scs : list SqlRDBColumnDef) (dcs : list DbCol) (i n : nat) : option (option (Z * Z)) :=
  match n with
  | O => Some None
  | S n =>
      sc ← scs !! i;
      dc ← dcs !! i;
      let diff := compare_columns sc dc in
      if negb (diff =? 0) then Some (Some (Z.of_nat i, diff)) else first_diff scs dcs (S i) n
  end.

(** The handle and the calls of the logger. *)
Record MigState : Type := MkMig {
  ms_h : HState D;
  ms_log : list LogEvent;
}.

Definition on_h {A} (m : M (HState D) A) : M MigState A :=
  zoom ms_h (λ s x, MkMig s (ms_log x)) m.

Definition mig_log (code : SqlRDBResult) (sql msg : option string) : M MigState unit :=
  mmodify (λ x, MkMig (ms_h x) (c2sql_internal_log (Some (h_logger (hs_h (ms_h x)))) code sql msg (ms_log x))).

(** [c2sql_internal_err_set(...); return SQL_RDB_ERR_SCHEMA_MISMATCH;] *)
Definition mismatch (msg : string) : M MigState SqlRDBResult :=
  on_h (h_err SQL_RDB_ERR_SCHEMA_MISMATCH msg);; mret SQL_RDB_ERR_SCHEMA_MISMATCH.

Definition h_exec (sql : string) : M (HState D) SqlRDBResult :=
  ctx ← mgets (λ s, h_driver_ctx (hs_h s));
  h_db (drv_exec drv ctx sql).

(** The loop that adds the columns from [i] on. *)
Fixpoint alter_loop (schema : SqlRDBSchema) (i n : nat) : M MigState SqlRDBResult :=
  match n with
  | O => mret SQL_RDB_OK
  | S n =>
      new_col ← mdef (sch_cols schema !! i);
      out ← on_h (h_build (MkSpec C2SQL_QB_ALTER_ADD (Some schema) None (Some new_col) None (drv_dialect drv)));
      let '(r, sql) := out in
      if negb (res_ok r) then mret r
      else
        sql ← mdef sql;
        r ← on_h (h_exec sql);
        if negb (res_ok r) then
          on_h (h_err r ("Migrate: ALTER TABLE ADD COLUMN '" +:+ col_name new_col +:+ "' failed"));; mret r
        else alter_loop schema (S i) n
  end.

(** The validation after the columns were added. *)
Definition revalidate (schema : SqlRDBSchema) : M MigState SqlRDBResult :=
  out ← on_h (read_existing (sch_name schema));
  let '(r, db_cols) := out in
  if negb (res_ok r) then mret r
  else
    let db_n := Z.of_nat (length db_cols) in
    if negb (db_n =? sch_col_count schema) then
      mismatch ("Migrate: post-migration column count mismatch (" +:+ dec db_n +:+ " vs " +:+
                dec (sch_col_count schema) +:+ ")")
    else
      d ← mdef (first_diff (sch_cols schema) db_cols 0 (length db_cols));
      match d with
      | Some (i, diff) =>
          mismatch ("Migrate: post-migration column " +:+ dec i +:+ " mismatch (kind=" +:+ dec diff +:+ ")")
      | None => mret SQL_RDB_OK
      end.

(** The STRICT check: [true] when the migration must stop. *)
Definition strict_check (schema : SqlRDBSchema) : M MigState bool :=
  is_strict ← match drv_dialect drv with
              | C2SQL_DIALECT_POSTGRES => mret true
              | C2SQL_DIALECT_SQLITE => out ← on_h (check_strict (sch_name schema)); mret out.2
              end;
  if is_strict : bool then mret false
  else
    cfg ← on_h (mgets (λ s, h_config (hs_h s)));
    if cfg_require_strict cfg then
      mismatch ("Migrate: '" +:+ sch_name schema +:+ "' is non-STRICT but require_strict=true");; mret true
    else mig_log SQL_RDB_OK None (Some "Migrate: table is non-STRICT (allowed)"%string);; mret false.

(** The comparison with the columns [db_cols] that were read. *)
Definition sync_columns (schema : SqlRDBSchema) (db_cols : list DbCol) : M MigState SqlRDBResult :=
  let db_n := Z.of_nat (length db_cols) in
  let common := if db_n <? sch_col_count schema then db_n else sch_col_count schema in
  d ← mdef (first_diff (sch_cols schema) db_cols 0 (Z.to_nat common));
  match d with
  | Some (i, diff) =>
      mismatch ("Migrate: column " +:+ dec i +:+ " of '" +:+ sch_name schema +:+ "' mismatch (kind=" +:+
                dec diff +:+ ")")
  | None =>
      if sch_col_count schema <? db_n then
        mismatch ("Migrate: '" +:+ sch_name schema +:+ "' has " +:+ dec db_n +:+ " columns, schema has " +:+
                  dec (sch_col_count schema))
      else if db_n <? sch_col_count schema then
        cfg ← on_h (mgets (λ s, h_config (hs_h s)));
        if negb (cfg_auto_migrate cfg) then
          mismatch ("Migrate: '" +:+ sch_name schema +:+ "' missing " +:+ dec (sch_col_count schema - db_n) +:+
                    " trailing column(s); set auto_migrate=true")
        else
          r ← alter_loop schema (length db_cols) (Z.to_nat (sch_col_count schema - db_n));
          if negb (res_ok r) then mret r else revalidate schema
      else mret SQL_RDB_OK
  end.

(** The CREATE statement, and the columns the table then has; with an error,
    no columns. *)
Definition create_and_read (schema : SqlRDBSchema) : M MigState (SqlRDBResult * list DbCol) :=
  out ← on_h (h_build (MkSpec C2SQL_QB_CREATE (Some schema) None None None (drv_dialect drv)));
  let '(r, sql) := out in
  if negb (res_ok r) then mret (r, [])
  else
    sql ← mdef sql;
    r ← on_h (h_exec sql);
    if negb (res_ok r) then
      on_h (h_err r ("Migrate: CREATE TABLE failed for '" +:+ sch_name schema +:+ "'"));; mret (r, [])
    else
      out ← on_h (read_existing (sch_name schema));
      let '(r, db_cols) := out in
      if negb (res_ok r) then mret (r, [])
      else if (length db_cols =? 0)%nat then mret (SQL_RDB_ERR_INTERNAL, [])
      else mret (SQL_RDB_OK, db_cols).

Definition c2sql_internal_migrate_table (schema : SqlRDBSchema) : M MigState SqlRDBResult :=
  out ← create_and_read schema;
  let '(r, db_cols) := out in
  if negb (res_ok r) then mret r
  else
    stop ← strict_check schema;
    if stop : bool then mret SQL_RDB_ERR_SCHEMA_MISMATCH
    else sync_columns schema db_cols.

(** ** SqlRDBRegisterStruct *)

(** On a pointer that is not NULL. *)
Definition SqlRDBRegisterStruct (struct_name : option string) (cols : option (list RawColumnDef))
    (col_count : Z) : M MigState SqlRDBResult :=
  h ← on_h (mgets hs_h);
  if negb (c2sql_handle_valid (Some h)) then mret SQL_RDB_ERR_INVALID_HANDLE
  else
    match struct_name, cols, col_count =? 0 with
    | Some name, Some cols, false =>
        on_h h_lock;;
        r ← on_h (h_on_reg (c2sql_internal_schema_register true (Some name) (Some cols) col_count));
        if negb (res_ok r) then on_h (unlock_ret r)
        else
          schema ← on_h (h_lookup name);
          match schema : option SqlRDBSchema with
          | None => on_h (unlock_ret SQL_RDB_ERR_INTERNAL)
          | Some schema =>
              r ← c2sql_internal_migrate_table schema;
              (if negb (res_ok r) then
                 on_h (h_on_reg (c2sql_internal_schema_unregister true (Some name)));; mret tt
               else mret tt);;
              on_h (unlock_ret r)
          end
    | _, _, _ =>
        on_h (h_err SQL_RDB_ERR_INVALID_ARG "RegisterStruct: struct_name, cols, col_count required");;
        mret SQL_RDB_ERR_INVALID_ARG
    end.
End migration.
Arguments MigState D : clear implicits.
