(* ===== verification/MigrationProofs.v ===== *)
(** * Table synchronisation: properties of the parts

    The comparison of columns and the search for the STRICT keyword against
    reference definitions. *)

From Stdlib Require Import String Strings.Byte Strings.Ascii.
From coqutil Require Import Byte.
From S2P Require Import Prelude Types Support Driver MemDriver StmtCache StmtCacheSpec.
From S2P Require Import StmtCacheProofs StmtCacheRefine StmtCacheTheorems Condition QueryBuilder.
From S2P Require Import QueryBuilderProofs Registry RegistryProofs TypeMapping TypeMappingProofs.
From S2P Require Import Handle Api ApiProofs ApiSafety Migration.
Import ErrorCtx Logger Mutex.

(** ** Columns *)

(** What the migration checks of a column: the name, the class of the type, NOT
    NULL, PRIMARY KEY, and that a UNIQUE column is unique in the database. *)
Definition agrees (sc : SqlRDBColumnDef) (dc : DbCol) : Prop :=
  col_name sc = dc_name dc ∧ schema_type_class (col_type sc) = dc_type_class dc ∧
  dc_notnull dc = negb (has_flag (col_flags sc) SQL_COL_FLAG_NULLABLE) ∧
  dc_pk dc = has_flag (col_flags sc) SQL_COL_FLAG_PRIMARY_KEY ∧
  (has_flag (col_flags sc) SQL_COL_FLAG_UNIQUE = true → dc_pk dc = false → dc_is_unique dc = true).

Lemma compare_agrees sc dc : compare_columns sc dc = 0 ↔ agrees sc dc.
Proof.
  unfold compare_columns, agrees. destruct dc as [cid nm ty nn pk un]. simpl.
  generalize (has_flag (col_flags sc) SQL_COL_FLAG_NULLABLE) as n.
  generalize (has_flag (col_flags sc) SQL_COL_FLAG_PRIMARY_KEY) as p.
  generalize (has_flag (col_flags sc) SQL_COL_FLAG_UNIQUE) as u. intros u p n.
  case_bool_decide; simpl; [|naive_solver].
  case_bool_decide; simpl; [|naive_solver].
  destruct u, p, n, nn, pk, un; simpl; naive_solver.
Qed.

Lemma first_diff_defined scs dcs i n :
  (i + n ≤ length scs)%nat → (i + n ≤ length dcs)%nat →
  ∃ d, first_diff scs dcs i n = Some d ∧
    (d = None ↔ ∀ j sc dc, (i ≤ j < i + n)%nat → scs !! j = Some sc → dcs !! j = Some dc → agrees sc dc).
Proof.
  revert i. induction n as [|n IH]; intros i Hs Hd; cbn [first_diff].
  { exists None. split; [done|]. split; [intros _ j sc dc ?; lia|done]. }
  destruct (lookup_lt_is_Some_2 scs i ltac:(lia)) as [sc Hsc].
  destruct (lookup_lt_is_Some_2 dcs i ltac:(lia)) as [dc Hdc]. rewrite Hsc, Hdc. cbn [mbind option_bind].
  destruct (Z.eqb_spec (compare_columns sc dc) 0) as [E|E]; cbn [negb].
  - destruct (IH (S i)) as (d & -> & Hiff); [lia|lia|]. exists d. split; [done|]. rewrite Hiff.
    apply compare_agrees in E. split; intros H j sc' dc' Hj Hs' Hd'.
    + destruct (decide (j = i)) as [->|]; [by simplify_eq|]. eapply H; eauto; lia.
    + eapply H; eauto; lia.
  - eexists. split; [done|]. split; [done|]. intros H. destruct E. apply compare_agrees.
    eapply (H i); eauto. lia.
Qed.

(** ** The STRICT keyword *)

(** The reference: some token (a place at the start or after a separator, where
    there is no separator) begins with STRICT in any case, not followed by a
    letter or a digit. *)
Fixpoint strict_ref (start : bool) (q : list ascii) : bool :=
  match q with
  | [] => false
  | c :: q' => (start && negb (is_sep c) && strict_at q) || strict_ref (is_sep c) q'
  end.

(** A tail of separators and words. *)
Definition plain_tail (q : list ascii) : Prop := Forall (λ c, is_sep c || is_word c = true) q.

Lemma drop_while_suffix f q : ∃ p, q = p ++ drop_while f q ∧ Forall (λ c, f c = true) p.
Proof.
  induction q as [|c q (p & E & Hp)]; simpl; [by exists []|].
  destruct (f c) eqn:Ec; [|by exists []]. exists (c :: p). rewrite E at 1. split; [done|]. by constructor.
Qed.

Lemma drop_while_head f q c q' : drop_while f q = c :: q' → f c = false.
Proof. induction q as [|d q IH]; simpl; [done|]. destruct (f d) eqn:E; [done|]. by intros [= <- <-]. Qed.

Lemma strict_ref_seps p q : Forall (λ c, is_sep c = true) p → strict_ref true (p ++ q) = strict_ref true q.
Proof. induction 1 as [|c p Hc _ IH]; simpl; [done|]. by rewrite Hc, IH. Qed.

Lemma sep_not_word c : is_sep c = true → is_word c = false.
Proof. unfold is_sep. intros H%bool_decide_eq_true. by destruct H as [->|[->|[->| ->]]]. Qed.

(** Inside a word nothing is found. *)
Lemma strict_ref_word p q :
  Forall (λ c, is_word c = true) p → strict_ref false (p ++ q) = strict_ref false q.
Proof.
  induction 1 as [|c p Hc _ IH]; simpl; [done|].
  destruct (is_sep c) eqn:E; [by rewrite (sep_not_word c) in Hc|]. done.
Qed.

Lemma strict_ref_false_true q c q' : q = c :: q' → is_sep c = true → strict_ref false q = strict_ref true q.
Proof. intros -> Hc. simpl. by rewrite Hc. Qed.

Lemma strict_at_length q : strict_at q = true → (6 ≤ length q)%nat.
Proof.
  unfold strict_at. intros [H%bool_decide_eq_true _]%andb_true_iff.
  apply (f_equal length) in H. rewrite length_fmap, length_take in H.
  change (length (list_ascii_of_string _)) with 6%nat in H. lia.
Qed.

Lemma strict_ref_short b q : (length q < 6)%nat → strict_ref b q = false.
Proof.
  revert b. induction q as [|c q IH]; intros b Hl; simpl; [done|]. simpl in Hl. rewrite IH by lia.
  destruct (strict_at (c :: q)) eqn:E; [|by rewrite andb_false_r].
  apply strict_at_length in E. simpl in E. lia.
Qed.

Lemma strict_scan_ref fuel q :
  plain_tail q → (length q < fuel)%nat → strict_scan fuel q = Some (strict_ref true q).
Proof.
  revert q. induction fuel as [|fuel IH]; intros q Hq Hl; [lia|]. cbn [strict_scan].
  destruct q as [|c0 q0] eqn:Eq; [done|]. rewrite <-Eq in *. clear c0 q0 Eq.
  destruct (drop_while_suffix is_sep q) as (p & Hp & Hpf). set (t := drop_while is_sep q) in *.
  assert (strict_ref true q = strict_ref true t) as -> by (rewrite Hp at 1; by apply strict_ref_seps).
  destruct (Nat.ltb_spec (length t) 6); [by rewrite strict_ref_short|].
  destruct t as [|c t'] eqn:Et; [simpl in *; lia|]. subst t.
  pose proof (drop_while_head is_sep q c t' Et) as Hc.
  assert (plain_tail (c :: t')) as Ht by (unfold plain_tail in *; rewrite Hp in Hq; by apply Forall_app in Hq as [_ ?]).
  destruct (strict_at (c :: t')) eqn:Est; [cbn [strict_ref]; by rewrite Hc, Est|].
  apply Forall_cons in Ht as [Hcw Ht']. rewrite Hc in Hcw. cbn [orb] in Hcw.
  cbn [drop_while strict_ref]. rewrite Hcw, Hc, Est.
  cbn [orb andb negb].
  destruct (drop_while_suffix is_word t') as (w & Hw & Hwf). rewrite Hw at 2. rewrite strict_ref_word by done.
  assert (plain_tail (drop_while is_word t')) as Hpl by (unfold plain_tail in *; rewrite Hw in Ht'; by apply Forall_app in Ht' as [_ ?]).
  rewrite IH; [|done|].
  - f_equal. destruct (drop_while is_word t') as [|d u] eqn:Eu; [done|].
    pose proof (drop_while_head is_word t' d u Eu) as Hd. apply Forall_cons in Hpl as [Hds _].
    rewrite Hd, orb_false_r in Hds. symmetry. by eapply strict_ref_false_true.
  - apply (f_equal length) in Hp, Hw. rewrite !length_app in *. simpl in Hp. lia.
Qed.

(** A character that is neither stops the scan from advancing. *)
Lemma strict_scan_stuck fuel c q :
  is_sep c = false → is_word c = false → (6 ≤ length (c :: q))%nat → strict_at (c :: q) = false →
  strict_scan fuel (c :: q) = None.
Proof.
  intros Hs Hw Hl Hst. induction fuel as [|fuel IH]; cbn [strict_scan]; [done|].
  cbn [drop_while]. rewrite Hs. destruct (Nat.ltb_spec (length (c :: q)) 6); [lia|].
  rewrite Hst. cbn [drop_while]. rewrite Hw. done.
Qed.

Lemma strict_at_word q c q' : q = c :: q' → strict_at q = true → is_word c = true.
Proof.
  intros ->. unfold strict_at. intros [H%bool_decide_eq_true _]%andb_true_iff.
  simpl in H. injection H as Hc _.
  unfold is_word, isalnum. assert (isalpha c = true) as ->; [|done].
  revert Hc. by destruct c as [[] [] [] [] [] [] [] []]; vm_compute.
Qed.

(** *** The scan ends or stands still *)

Lemma drop_while_length f q : (length (drop_while f q) ≤ length q)%nat.
Proof. induction q as [|c q IH]; simpl; [done|]. destruct (f c); simpl; lia. Qed.

Lemma drop_while_same f q : length (drop_while f q) = length q → drop_while f q = q.
Proof.
  destruct q as [|c q]; simpl; [done|]. destruct (f c); [|done]. pose proof (drop_while_length f q). lia.
Qed.

(** A scan that needs more turns than there are characters needs ever more. *)
Lemma strict_scan_forever fuel q :
  (length q < fuel)%nat → strict_scan fuel q = None → ∀ f, strict_scan f q = None.
Proof.
  revert q. induction fuel as [|fuel IH]; intros q Hl E; [lia|]. cbn [strict_scan] in E.
  destruct q as [|c0 q0] eqn:Eq; [done|]. rewrite <-Eq in *.
  set (t := drop_while is_sep q) in *. destruct (length t <? 6)%nat eqn:E6; [done|].
  destruct (strict_at t) eqn:Est; [done|]. set (u := drop_while is_word t) in *.
  assert (∀ f, strict_scan (S f) q = strict_scan f u) as Hturn.
  { intros f. cbn [strict_scan]. rewrite Eq at 1. fold t. by rewrite E6, Est. }
  pose proof (drop_while_length is_sep q) as Ht. pose proof (drop_while_length is_word t) as Hu. fold t in Ht. fold u in Hu.
  destruct (decide (length u = length q)) as [Hsame|].
  - assert (u = q) as Huq.
    { unfold u. rewrite drop_while_same by (fold u; lia). unfold t. by rewrite drop_while_same by (fold t; lia). }
    intros f. induction f as [|f IHf]; [done|]. by rewrite Hturn, Huq.
  - intros [|f]; [done|]. rewrite Hturn. apply IH; [lia|done].
Qed.
