(* ===== verification/MigrationSafety.v ===== *)
(** * Registration and migration are safe and end

    Every function of Migration.v, on a handle in order and a driver whose
    result sets are finite, is defined, ends, and finalizes the statements it
    prepared; a registration that fails leaves the registry with the entries it
    had.  The one exception is the scan of check_strict, which may stand still:
    then the computation has no result, and [strict_stuck] and what is built on
    it say that this is why. *)

From Stdlib Require Import String Strings.Byte Strings.Ascii.
From coqutil Require Import Byte.
From S2P Require Import Prelude Types Support Driver MemDriver StmtCache StmtCacheSpec.
From S2P Require Import StmtCacheProofs StmtCacheRefine StmtCacheTheorems Condition QueryBuilder.
From S2P Require Import QueryBuilderProofs Registry RegistryProofs TypeMapping TypeMappingProofs.
From S2P Require Import Handle Api ApiProofs ApiSafety Migration MigrationProofs.
Import ErrorCtx Logger Mutex.

(** ** The length of the statements *)

Lemma slen_type t d : slen (type_to_sql_str t d) ≤ 16.
Proof. destruct t, d; by vm_compute. Qed.

Lemma slen_constraints c : slen (constraints_text c) ≤ 40.
Proof.
  unfold constraints_text. repeat case_match; rewrite ?slen_app; slen_literals;
    repeat match goal with |- context [slen ?x] => progress change (slen x) with 0 end; lia.
Qed.

Lemma slen_column d c : slen (col_name c) ≤ 128 → slen (column_text d c) ≤ 187.
Proof.
  intros Hc. unfold column_text. rewrite !slen_app, slen_quoted. slen_literals.
  pose proof (slen_type (col_type c) d). pose proof (slen_constraints c). lia.
Qed.

Lemma schema_cols_small s c : schema_ok s → c ∈ sch_cols s → slen (col_name c) ≤ 128.
Proof.
  intros (_ & Hc & _)%schema_ok_small Hin. unfold col_names in Hc. rewrite Forall_fmap in Hc.
  by eapply Forall_forall in Hc.
Qed.

Lemma create_fits s d :
  schema_ok s → spec_fits (MkSpec C2SQL_QB_CREATE (Some s) None None None d) s.
Proof.
  intros Hs. pose proof (schema_ok_small s Hs) as (Hn & _ & Hl & _).
  split_and!; [done|by split; [|intros [?|?]]|by apply schema_ok_wf| |by vm_compute|done|done].
  unfold qb_text. cbn [q_op q_dialect]. rewrite !slen_app, slen_quoted. slen_literals.
  assert (slen (join "," (column_text d <$> sch_cols s)) ≤ 64 * 188) as Hj.
  { assert (Forall (λ x, slen x ≤ 187) (column_text d <$> sch_cols s)) as Hf.
    { apply Forall_fmap, Forall_forall. intros c Hc. by eapply slen_column, schema_cols_small. }
    apply slen_join_le in Hf. rewrite length_fmap in Hf. lia. }
  unfold MAX_TEXT. destruct d; slen_literals; lia.
Qed.

Lemma alter_fits s c d :
  schema_ok s → c ∈ sch_cols s →
  spec_fits (MkSpec C2SQL_QB_ALTER_ADD (Some s) None (Some c) None d) s.
Proof.
  intros Hs Hc. pose proof (schema_ok_small s Hs) as (Hn & _ & Hl & _).
  split_and!; [done|by split; [|intros [?|?]]|by apply schema_ok_wf| |by vm_compute|done|by intros ? [= <-]].
  unfold qb_text. cbn [q_op q_dialect q_new_col]. rewrite !slen_app, slen_quoted. slen_literals.
  pose proof (slen_column d c (schema_cols_small s c Hs Hc)). unfold MAX_TEXT. lia.
Qed.

(** ** Reading the catalogue *)

(** The text of the CREATE statement in the catalogue, if check_strict gets one. *)
Definition read_ddl {D} (drv : SqlRDBDriver D) (table : string) : M (HState D) (option (list byte)) :=
  out ← h_prepare drv (vsnprintf 256
    ("SELECT sql FROM sqlite_schema WHERE type='table' AND name='" +:+ table +:+ "'"));
  let '(r, stmt) := out in
  if negb (res_ok r) then mret None
  else
    out ← h_step drv stmt;
    let '(r, has_row) := out in
    if negb (res_ok r) || negb has_row then mret None
    else
      txt ← h_column_text drv stmt 0;
      mret (p ← txt.1; bytes_at p 0 txt.2).

(** check_strict does not come to an end: in the text it reads from the
    catalogue no number of turns takes its scan to the end. *)
Definition strict_stuck {D} (drv : SqlRDBDriver D) (table : string) (s : HState D) : Prop :=
  drv_dialect drv = C2SQL_DIALECT_SQLITE ∧
  ∃ bs q s', read_ddl drv table s = Some (Some bs, s') ∧
    after_last_paren (ascii_of_byte <$> bs) = Some q ∧ ∀ f, strict_scan f q = None.

(** The same for a migration that comes to this check, and for a registration. *)
Definition migrate_stuck {D} (drv : SqlRDBDriver D) (fuel : nat) (sch : SqlRDBSchema) (x : MigState D) : Prop :=
  ∃ cols x1, create_and_read drv fuel sch x = Some ((SQL_RDB_OK, cols), x1) ∧
    strict_stuck drv (sch_name sch) (ms_h x1).

(** SqlRDBRegisterStruct up to the migration: the entry that was added. *)
Definition register_entry {D} (name : string) (cols : list RawColumnDef) (n : Z) :
    M (MigState D) (option SqlRDBSchema) :=
  on_h h_lock;;
  r ← on_h (h_on_reg (c2sql_internal_schema_register true (Some name) (Some cols) n));
  if negb (res_ok r) then mret None else on_h (h_lookup name).

Definition register_stuck {D} (drv : SqlRDBDriver D) (fuel : nat) name cols n (x : MigState D) : Prop :=
  ∃ sch x1, register_entry name cols n x = Some (Some sch, x1) ∧ migrate_stuck drv fuel sch x1.

(** [m] ends as [Q] says, or it is [stuck]. *)
Definition ends_or {S A} (stuck : S → Prop) (m : M S A) (Q : A → S → Prop) (s : S) : Prop :=
  (∃ a s', m s = Some (a, s') ∧ Q a s') ∨ (m s = None ∧ stuck s).

Section safety.
Context {D : Type} (drv : SqlRDBDriver D) `{!DriverLaws drv} (N : nat) `{!FiniteRows drv N}.
Context (o : gset ptr).
Implicit Types (R : SqlRDBSchemaRegistry).

(** A statement of ours with [k] rows to come. *)
Definition scanning R (stmt : ptr) (k : nat) (s : HState D) : Prop :=
  in_use drv R o stmt true s ∧ rows_left stmt (hs_db s) = k.

Lemma text_spec R stmt k i :
  triple (scanning R stmt k) (h_column_text drv stmt i)
    (λ x s, scanning R stmt k s ∧ buffer_ok x.1 x.2).
Proof.
  intros s [Hu Hk]. pose proof Hu as (_ & Hin & _).
  destruct (column_text_law stmt i (hs_db s) Hin) as (r & q & n & d' & E & Hs & _ & Hb).
  destruct (in_use_db drv R o stmt true _ (steady_column_text drv stmt i) s Hu) as (x & s' & E' & Hu').
  unfold h_column_text. rewrite (bind_run _ _ _ _ _ E'). exists x.2, s'. split; [done|].
  unfold h_db, zoom in E'. rewrite E in E'. injection E' as <- <-. split; [|done]. split; [done|].
  simpl. by rewrite (text_rows _ _ _ _ _ E).
Qed.

Lemma int32_spec R stmt k i :
  triple (scanning R stmt k) (h_column_int32 drv stmt i) (λ _, scanning R stmt k).
Proof.
  intros s [Hu Hk]. pose proof Hu as (_ & Hin & _).
  destruct (in_use_db drv R o stmt true (drv_column_int32 drv stmt i)) with (s := s) as (x & s' & E' & Hu');
    [intros d Hd; by apply column_int32_law|done|].
  unfold h_column_int32. rewrite (bind_run _ _ _ _ _ E'). exists x.2, s'. split; [done|].
  unfold h_db in E'. apply zoom_Some in E' as (d' & E & ->). split; [done|].
  simpl. by rewrite (int32_rows _ _ _ _ _ E).
Qed.

Lemma text_into_defined limit x : buffer_ok x.1 x.2 → is_Some (text_into limit x).
Proof.
  intros [H0 Hn]. unfold text_into. destruct x as [[p|] n]; simpl in *; [|by eexists].
  destruct (n <? limit); [|by eexists]. rewrite bytes_at_slice by (try specialize (Hn p eq_refl); lia).
  by eexists.
Qed.

(** A pure part of a row that is defined. *)
Lemma def_spec {A B} R stmt k (x : option A) (f : A → M (HState D) B) Q :
  is_Some x → (∀ a, triple (scanning R stmt k) (f a) Q) → triple (scanning R stmt k) (mdef x ≫= f) Q.
Proof.
  intros [a ->] Hf. eapply triple_bind; [by apply triple_def|]. intros b. apply triple_pure. intros _. apply Hf.
Qed.

Lemma grow_cols_spec R stmt k n cap :
  stays (scanning R stmt k) (grow_cols n cap).
Proof.
  unfold grow_cols. destruct (_ =? _); [|by apply triple_ret].
  eapply (triple_bind _ _ (λ _, scanning R stmt k)); [|intros ok; by apply triple_ret].
  intros s [Hu Hk]. destruct (in_use_malloc drv R o stmt true s Hu) as (x & s' & E & Hu').
  exists x, s'. split; [done|]. split; [done|]. unfold h_alloc in E. by apply zoom_Some in E as (? & _ & ->).
Qed.

(** The text of a column, and what is made of it. *)
Lemma text_bind {B} R stmt k i (f : option (list byte) * Z → M (HState D) B) Q :
  (∀ x, buffer_ok x.1 x.2 → triple (scanning R stmt k) (f x) Q) →
  triple (scanning R stmt k) (h_column_text drv stmt i ≫= f) Q.
Proof. intros Hf. eapply triple_bind; [apply text_spec|]. intros x. apply triple_pure. apply Hf. Qed.

Lemma int32_bind {B} R stmt k i (f : Z → M (HState D) B) Q :
  (∀ x, triple (scanning R stmt k) (f x) Q) → triple (scanning R stmt k) (h_column_int32 drv stmt i ≫= f) Q.
Proof. intros Hf. eapply triple_bind; [apply int32_spec|]. apply Hf. Qed.

Lemma table_info_row_spec R stmt k acc : stays (scanning R stmt k) (table_info_row drv stmt acc).
Proof.
  destruct acc as [cols cap]. eapply triple_bind; [apply grow_cols_spec|]. intros [cap'|]; [|by apply triple_ret].
  apply int32_bind. intros cid. apply text_bind. intros x Hx. apply def_spec; [by apply text_into_defined|].
  intros nm. apply text_bind. intros y Hy. apply def_spec; [by apply text_into_defined|]. intros raw.
  apply int32_bind. intros nn. apply int32_bind. intros pk. by apply triple_ret.
Qed.

(** The first character of a text that is long enough. *)
Lemma first_char_defined {A} (x : option (list byte) * Z) n (f : byte → A) (z : A) :
  buffer_ok x.1 x.2 → 1 ≤ n →
  is_Some (match x with
           | (Some p, len) => if n <=? len then c ← p !! 0%nat; Some (f c) else Some z
           | (None, _) => Some z
           end) ∧
  is_Some (match x with
           | (Some p, len) => if len =? n then c ← p !! 0%nat; Some (f c) else Some z
           | (None, _) => Some z
           end).
Proof.
  intros [H0 Hn] H1. destruct x as [[p|] len]; simpl in *; [|split; by eexists].
  specialize (Hn p eq_refl).
  assert (n ≤ len → is_Some (p !! 0%nat)) as Hp by (intros; apply lookup_lt_is_Some_2; lia).
  destruct (Z.leb_spec n len), (Z.eqb_spec len n); split; try (by eexists);
    (destruct Hp as [c ->]; [lia|]; by eexists).
Qed.

Lemma index_list_row_spec R stmt k names : stays (scanning R stmt k) (index_list_row drv stmt names).
Proof.
  apply int32_bind. intros uniq. destruct (uniq =? 0); [by apply triple_ret|].
  apply text_bind. intros x Hx. apply def_spec; [by eapply first_char_defined|]. intros u.
  destruct u; cbn [negb]; [|by apply triple_ret].
  apply text_bind. intros y Hy. destruct (_ && _ && _); [|by apply triple_ret].
  apply def_spec; [by apply text_into_defined|]. intros s. by apply triple_ret.
Qed.

Lemma index_info_row_spec R stmt k cols : stays (scanning R stmt k) (index_info_row drv stmt cols).
Proof.
  apply text_bind. intros y Hy. destruct (_ && _ && _); [|by apply triple_ret].
  apply def_spec; [by apply text_into_defined|]. intros s. by apply triple_ret.
Qed.

Lemma collect_row_spec R stmt k max names : stays (scanning R stmt k) (collect_row drv stmt max names).
Proof.
  apply text_bind. intros y Hy. destruct (_ && _ && _); [|by apply triple_ret].
  apply def_spec; [by apply text_into_defined|]. intros s. by apply triple_ret.
Qed.

Lemma pg_info_row_spec R stmt k acc : stays (scanning R stmt k) (pg_info_row drv stmt acc).
Proof.
  destruct acc as [cols cap]. eapply triple_bind; [apply grow_cols_spec|]. intros [cap'|]; [|by apply triple_ret].
  apply text_bind. intros x Hx. apply def_spec; [by apply text_into_defined|]. intros nm.
  apply text_bind. intros y Hy. apply def_spec; [by apply text_into_defined|]. intros raw.
  apply text_bind. intros z Hz. apply def_spec; [by eapply first_char_defined|]. intros nn. by apply triple_ret.
Qed.

(** The loop over the rows ends: each turn uses up one. *)
Lemma each_row_spec {A} R stmt (row : A → M (HState D) (option A)) n acc :
  (∀ k a, stays (scanning R stmt k) (row a)) →
  triple (λ s, in_use drv R o stmt true s ∧ (rows_left stmt (hs_db s) < n)%nat)
    (each_row drv n stmt row acc) (λ _, in_use drv R o stmt true).
Proof.
  intros Hrow. revert acc. induction n as [|n IH]; intros acc s [Hu Hk]; [lia|]. cbn [each_row].
  destruct (in_use_step drv R o stmt true s Hu) as ([r b] & s1 & E & Hu1).
  rewrite (bind_run _ _ _ _ _ E).
  destruct (negb (res_ok r) || negb b) eqn:Eb; [by eexists _, _|].
  apply orb_false_iff in Eb as [Er%negb_false_iff Eb%negb_false_iff]. subst b.
  assert (rows_left stmt (hs_db s1) < rows_left stmt (hs_db s))%nat as Hlt.
  { unfold h_step, h_db in E. apply bind_Some in E as ([r0 b0] & s2 & Ez & E).
    apply zoom_Some in Ez as (d' & Ed & ->). simpl in E. injection E as -> Eb <-.
    destruct b0 as [b0|]; simpl in Eb; subst; [|done]. eapply (step_rows _ _ _ _); [|exact Ed|done]. by destruct Hu as (_ & ? & _). }
  destruct (Hrow _ acc s1 (conj Hu1 eq_refl)) as (x & s2 & E2 & Hu2 & Hk2).
  rewrite (bind_run _ _ _ _ _ E2). destruct x as [acc'|]; [|by eexists _, _].
  apply IH. split; [done|lia].
Qed.

(** ** Queries of the catalogue *)

Context (fuel : nat) (Hfuel : (N < fuel)%nat).

Lemma h_prepare_spec R sql :
  sql_text (drv_dialect drv) sql →
  triple (locked drv R o) (h_prepare drv sql)
    (λ x s, if res_ok x.1 then in_use drv R o x.2 true s else locked drv R o s).
Proof.
  intros Hsql. eapply triple_bind; [apply triple_gets|]. intros ctx. cbn beta. by apply prepare_spec.
Qed.

(** All rows of a query, and then the end of the statement. *)
Lemma rows_bind {A B} R stmt (row : A → M (HState D) (option A)) acc
    (f : SqlRDBResult * bool * A → M (HState D) B) Q :
  (∀ k a, stays (scanning R stmt k) (row a)) →
  (∀ x, triple (in_use drv R o stmt true) (f x) Q) →
  triple (in_use drv R o stmt true) (each_row drv fuel stmt row acc ≫= f) Q.
Proof.
  intros Hrow Hf. eapply triple_bind; [|exact Hf].
  eapply triple_pre; [by apply each_row_spec|]. intros s Hu. split; [done|].
  pose proof (rows_bound stmt (hs_db s) (proj1 (proj2 Hu))). lia.
Qed.

Lemma finalize_bind {B} R stmt (k : unit → M (HState D) B) Q :
  triple (locked drv R o) (k tt) Q →
  triple (in_use drv R o stmt true) (h_finalize drv stmt ≫= k) Q.
Proof. intros Hk. eapply triple_bind; [by apply in_use_finalize|]. by intros []. Qed.

(** A text of the SQLite catalogue queries. *)
Lemma sqlite_text sql :
  drv_dialect drv = C2SQL_DIALECT_SQLITE →
  match sql with String c _ => isalpha c = true | EmptyString => False end → sql_text (drv_dialect drv) sql.
Proof. intros Hd Hs. split; [done|]. by rewrite Hd. Qed.

(** The queries of the PostgreSQL catalogue. *)
Lemma pg_texts d :
  sql_text d pg_columns_sql ∧ sql_text d pg_pk_sql ∧ sql_text d pg_unique_sql.
Proof. split_and!; (split; [done|]; intros _; exists 1; vm_compute; reflexivity). Qed.

Ltac on_prepared H :=
  eapply triple_bind; [apply h_prepare_spec; H|]; intros [r stmt]; cbn [fst snd];
  destruct (res_ok r); cbn [negb]; [|by apply triple_ret].

Lemma read_table_info_spec R table :
  drv_dialect drv = C2SQL_DIALECT_SQLITE → stays (locked drv R o) (read_table_info drv fuel table).
Proof.
  intros Hd. unfold read_table_info. on_prepared ltac:(by apply sqlite_text). apply rows_bind; [intros; apply table_info_row_spec|].
  intros [[r' nomem] [cols cap]]. apply finalize_bind. destruct nomem; [by apply triple_ret|].
  destruct (res_ok r'); by apply triple_ret.
Qed.

Lemma unique_loop_spec R idx cols :
  drv_dialect drv = C2SQL_DIALECT_SQLITE → stays (locked drv R o) (unique_loop drv fuel idx cols).
Proof.
  intros Hd. revert cols. induction idx as [|nm idx IH]; intros cols; cbn [unique_loop]; [by apply triple_ret|].
  on_prepared ltac:(by apply sqlite_text). apply rows_bind; [intros; apply index_info_row_spec|].
  intros [[r' nomem] refs]. apply finalize_bind. destruct (res_ok r'); cbn [negb]; [apply IH|by apply triple_ret].
Qed.

Lemma apply_unique_flags_spec R table cols :
  drv_dialect drv = C2SQL_DIALECT_SQLITE → stays (locked drv R o) (apply_unique_flags drv fuel table cols).
Proof.
  intros Hd. unfold apply_unique_flags. on_prepared ltac:(by apply sqlite_text). apply rows_bind; [intros; apply index_list_row_spec|].
  intros [[r' nomem] names]. apply finalize_bind. destruct (res_ok r'); cbn [negb]; [by apply unique_loop_spec|by apply triple_ret].
Qed.

(** Binding the name of the table. *)
Lemma bind_name_spec R stmt table :
  stays (in_use drv R o stmt true) (h_db (drv_bind_text drv stmt 1 (Some (cstr table)) (-1))).
Proof. apply in_use_db. intros d Hd. apply bind_text_law; [done|]. intros bs _. unfold INT_MAX. lia. Qed.

Lemma pg_collect_names_spec R sql table max :
  sql_text (drv_dialect drv) sql → stays (locked drv R o) (pg_collect_names drv fuel sql table max).
Proof.
  intros Hsql. unfold pg_collect_names. on_prepared ltac:(exact Hsql). eapply triple_bind; [apply bind_name_spec|]. intros r'.
  destruct (res_ok r'); cbn [negb]; [|by apply finalize_bind, triple_ret].
  apply rows_bind; [intros; apply collect_row_spec|].
  intros [[r'' nomem] names]. apply finalize_bind. by apply triple_ret.
Qed.

Lemma read_table_info_pg_spec R table : stays (locked drv R o) (read_table_info_pg drv fuel table).
Proof.
  destruct (pg_texts (drv_dialect drv)) as (H1 & H2 & H3).
  unfold read_table_info_pg. on_prepared ltac:(exact H1). eapply triple_bind; [apply bind_name_spec|]. intros r'.
  destruct (res_ok r'); cbn [negb]; [|by apply finalize_bind, triple_ret].
  apply rows_bind; [intros; apply pg_info_row_spec|].
  intros [[r'' nomem] [cols cap]]. apply finalize_bind.
  destruct nomem; [by apply triple_ret|]. destruct (res_ok r''); cbn [negb]; [|by apply triple_ret].
  eapply triple_bind; [by apply pg_collect_names_spec|]. intros [r1 pks].
  destruct (res_ok r1); cbn [negb]; [|by apply triple_ret].
  eapply triple_bind; [by apply pg_collect_names_spec|]. intros [r2 uqs].
  destruct (res_ok r2); by apply triple_ret.
Qed.

Lemma read_existing_spec R table : stays (locked drv R o) (read_existing drv fuel table).
Proof.
  unfold read_existing. destruct (drv_dialect drv) eqn:Hd; [|apply read_table_info_pg_spec].
  eapply triple_bind; [by apply read_table_info_spec|]. intros [r cols].
  destruct (res_ok r); cbn [negb]; [|by apply triple_ret].
  eapply triple_bind; [by apply apply_unique_flags_spec|]. intros [r' cols']. by apply triple_ret.
Qed.

(** ** The STRICT check *)

Lemma check_strict_spec R table s :
  drv_dialect drv = C2SQL_DIALECT_SQLITE → locked drv R o s →
  ends_or (strict_stuck drv table) (check_strict drv table) (λ _, locked drv R o) s.
Proof.
  intros Hd Hs. unfold ends_or, check_strict, strict_stuck, read_ddl. set (sql := vsnprintf 256 _).
  assert (sql_text (drv_dialect drv) sql) as Hsql by (by apply sqlite_text).
  destruct (h_prepare_spec R sql Hsql s Hs) as ([r stmt] & s1 & E1 & H1). cbn [fst snd] in H1.
  rewrite !(bind_run _ _ _ _ _ E1). destruct (res_ok r); cbn [negb]; [|left; by eexists _, _].
  destruct (in_use_step drv R o stmt true s1 H1) as ([r2 b] & s2 & E2 & H2). rewrite !(bind_run _ _ _ _ _ E2).
  assert (∀ A (a : A) s', in_use drv R o stmt true s' →
    ∃ s'', (h_finalize drv stmt;; mret a) s' = Some (a, s'') ∧ locked drv R o s'') as Hfin.
  { intros A a s' Hu. destruct (finalize_bind R stmt (λ _, mret a) (λ x s, x = a ∧ locked drv R o s)) with (s := s')
      as (x & s'' & E & -> & Hl); [by apply triple_ret|done|]. by exists s''. }
  destruct (negb (res_ok r2) || negb b).
  { left. destruct (Hfin _ (SQL_RDB_OK, false) s2 H2) as (s3 & E3 & H3). by eexists _, s3. }
  destruct (text_spec R stmt _ 0 s2 (conj H2 eq_refl)) as ([q n] & s3 & E3 & [H3 _] & Hb).
  rewrite !(bind_run _ _ _ _ _ E3). cbn [fst snd] in *.
  destruct q as [q|]; cbn [mbind option_bind]; [|left; destruct (Hfin _ (SQL_RDB_OK, false) s3 H3) as (s4 & E4 & H4); by eexists _, s4].
  destruct Hb as [H0 Hn]. specialize (Hn q eq_refl).
  pose proof (bytes_at_slice q 0 n ltac:(lia) ltac:(lia) ltac:(lia)) as Hbs. rewrite Hbs. cbn [mbind option_bind].
  set (bs := slice q _ _) in *. destruct (strict_text bs) as [strict|] eqn:Est.
  { left. destruct (Hfin _ (SQL_RDB_OK, strict) s3 H3) as (s4 & E4 & H4). exists (SQL_RDB_OK, strict), s4. split; [exact E4|exact H4]. }
  right. split; [done|]. split; [done|]. unfold strict_text in Est.
  destruct (after_last_paren _) as [tl|] eqn:Etl; [|done]. exists bs, tl, s3. split; [done|]. split; [done|].
  apply (strict_scan_forever (S (length tl))); [lia|done].
Qed.

(** ** Migrating a table *)

Definition mig (P : HState D → Prop) (x : MigState D) : Prop := P (ms_h x).

Lemma on_h_spec {A} P (m : M (HState D) A) Q :
  triple P m Q → triple (mig P) (on_h m) (λ a, mig (Q a)).
Proof.
  intros H x Hx. destruct (H _ Hx) as (a & s & E & Hq). eexists _, _. split; [by apply zoom_run|done].
Qed.

Lemma on_h_stays {A} P (m : M (HState D) A) : stays P m → stays (mig P) (on_h m).
Proof. intros H. exact (on_h_spec P m (λ _, P) H). Qed.

Lemma mig_log_spec P code sql msg : stays (mig P) (mig_log (D := D) code sql msg).
Proof. intros x Hx. by eexists _, _. Qed.

Lemma on_h_gets {A} P (f : HState D → A) : stays (mig P) (on_h (mgets f)).
Proof. intros x Hx. by eexists _, _. Qed.

Lemma mismatch_spec R msg : stays (mig (locked drv R o)) (mismatch (D := D) msg).
Proof. eapply triple_bind; [apply on_h_stays, err_spec|]. intros ?. by apply triple_ret. Qed.

Lemma exec_spec R sql : stays (mig (locked drv R o)) (on_h (h_exec drv sql)).
Proof.
  apply on_h_stays. intros s Hs.
  destruct (on_conn_spec drv R o (λ c, drv_exec drv c sql) mret (λ _, locked drv R o)) with (s := s)
    as (r & s' & E & Hs'); [intros c d; apply exec_law|by intros; apply triple_ret|done|].
  exists r, s'. split; [|done]. unfold on_conn in E. unfold h_exec, mbind, M_bind, mgets in *.
  by destruct (h_db _ s) as [[? ?]|].
Qed.

(** A statement is built and executed. *)
Lemma build_exec_spec {A} R spec sch (bad : SqlRDBResult → M (MigState D) A) k Q :
  spec_fits spec sch →
  (∀ r, triple (mig (locked drv R o)) (bad r) Q) →
  triple (mig (locked drv R o)) (k (qb_text spec sch)) Q →
  triple (mig (locked drv R o))
    (out ← on_h (h_build spec);
     let '(r, sql) := out in
     if negb (res_ok r) then bad r else sql ← mdef sql; k sql) Q.
Proof.
  intros Hf Hbad Hk. eapply triple_bind; [by apply on_h_spec, build_spec|]. intros [r sql]. cbn [fst snd].
  apply (triple_pure (mig (locked drv R o))). intros Hsql. destruct (res_ok r) eqn:Er; cbn [negb]; [|apply Hbad].
  destruct (Hsql eq_refl) as [-> _]. eapply triple_bind; [by apply triple_def|]. intros x. apply triple_pure. by intros ->.
Qed.

Lemma alter_loop_spec R sch i n :
  schema_ok sch → (i + n ≤ length (sch_cols sch))%nat →
  stays (mig (locked drv R o)) (alter_loop drv sch i n).
Proof.
  intros Hs. revert i. induction n as [|n IH]; intros i Hi; cbn [alter_loop]; [by apply triple_ret|].
  destruct (lookup_lt_is_Some_2 (sch_cols sch) i ltac:(lia)) as [c Hc].
  eapply triple_bind; [by apply triple_def|]. intros c'. apply triple_pure. intros ->.
  apply build_exec_spec with sch; [apply alter_fits; [done|by eapply list_elem_of_lookup_2]|by intros; apply triple_ret|].
  eapply triple_bind; [apply exec_spec|]. intros r. destruct (res_ok r); cbn [negb]; [apply IH; lia|].
  eapply triple_bind; [apply on_h_stays, err_spec|]. intros ?. by apply triple_ret.
Qed.

Lemma diff_bind {A} P scs dcs n (k : option (Z * Z) → M (MigState D) A) Q :
  (n ≤ length scs)%nat → (n ≤ length dcs)%nat → (∀ d, triple P (k d) Q) →
  triple P (mdef (first_diff scs dcs 0 n) ≫= k) Q.
Proof.
  intros Hs Hd Hk. destruct (first_diff_defined scs dcs 0 n Hs Hd) as (d & E & _).
  eapply triple_bind; [by apply triple_def|]. intros x. apply triple_pure. intros ->. apply Hk.
Qed.

Lemma revalidate_spec R sch : schema_ok sch → stays (mig (locked drv R o)) (revalidate drv fuel sch).
Proof.
  intros (_ & Hn & _). unfold revalidate.
  eapply triple_bind; [apply on_h_stays, read_existing_spec|]. intros [r cols].
  destruct (res_ok r); cbn [negb]; [|by apply triple_ret].
  destruct (Z.eqb_spec (Z.of_nat (length cols)) (sch_col_count sch)); cbn [negb]; [|apply mismatch_spec].
  apply diff_bind; [lia|lia|]. intros [[i d]|]; [apply mismatch_spec|by apply triple_ret].
Qed.

Lemma strict_check_spec R sch x :
  mig (locked drv R o) x →
  ends_or (λ x, strict_stuck drv (sch_name sch) (ms_h x)) (strict_check drv sch) (λ _, mig (locked drv R o)) x.
Proof.
  intros Hx. unfold ends_or, strict_check.
  assert (∀ b : bool, stays (mig (locked drv R o)) (if b then mret false else
    cfg ← on_h (mgets (λ s, h_config (hs_h s)));
    if cfg_require_strict cfg then
      mismatch ("Migrate: '" +:+ sch_name sch +:+ "' is non-STRICT but require_strict=true");; mret true
    else mig_log SQL_RDB_OK None (Some "Migrate: table is non-STRICT (allowed)"%string);; mret false)) as Hrest.
  { intros b. destruct b; [by apply triple_ret|]. eapply triple_bind; [apply on_h_gets|]. intros cfg.
    destruct (cfg_require_strict cfg).
    - eapply triple_bind; [apply mismatch_spec|]. intros ?. by apply triple_ret.
    - eapply triple_bind; [apply mig_log_spec|]. intros ?. by apply triple_ret. }
  destruct (drv_dialect drv) eqn:Hd; [|left; destruct (Hrest true x Hx) as (a & x' & E & H); by exists a, x'].
  destruct (check_strict_spec R (sch_name sch) (ms_h x) Hd Hx) as [([r b] & s' & E & H)|[E H]].
  - left. destruct (Hrest b (MkMig s' (ms_log x)) H) as (a & x' & E' & H'). exists a, x'. split; [|done].
    rewrite (bind_run _ _ x b (MkMig s' (ms_log x))); [exact E'|].
    rewrite (bind_run _ _ x (r, b) (MkMig s' (ms_log x))); [done|]. by apply (zoom_run ms_h (λ s x, MkMig s (ms_log x))).
  - right. split; [|done]. unfold on_h, zoom, mbind, M_bind. by rewrite E.
Qed.

Lemma sync_columns_spec R sch cols :
  schema_ok sch → stays (mig (locked drv R o)) (sync_columns drv fuel sch cols).
Proof.
  intros Hs. pose proof Hs as (_ & Hn & _). unfold sync_columns.
  apply diff_bind; [destruct (Z.ltb_spec (Z.of_nat (length cols)) (sch_col_count sch)); lia..|].
  intros [[i d]|]; [apply mismatch_spec|].
  destruct (Z.ltb_spec (sch_col_count sch) (Z.of_nat (length cols))); [apply mismatch_spec|].
  destruct (Z.ltb_spec (Z.of_nat (length cols)) (sch_col_count sch)); [|by apply triple_ret].
  eapply triple_bind; [apply on_h_gets|]. intros cfg.
  destruct (cfg_auto_migrate cfg); cbn [negb]; [|apply mismatch_spec].
  eapply triple_bind; [apply alter_loop_spec; [done|lia]|]. intros r.
  destruct (res_ok r); cbn [negb]; [by apply revalidate_spec|by apply triple_ret].
Qed.

Lemma create_and_read_spec R sch :
  schema_ok sch → stays (mig (locked drv R o)) (create_and_read drv fuel sch).
Proof.
  intros Hs. unfold create_and_read.
  apply build_exec_spec with sch; [by apply create_fits|by intros; apply triple_ret|].
  eapply triple_bind; [apply exec_spec|]. intros r. destruct (res_ok r); cbn [negb].
  2:{ eapply triple_bind; [apply on_h_stays, err_spec|]. intros ?. by apply triple_ret. }
  eapply triple_bind; [apply on_h_stays, read_existing_spec|]. intros [r' cols].
  destruct (res_ok r'); cbn [negb]; [|by apply triple_ret]. destruct (_ =? _)%nat; by apply triple_ret.
Qed.

(** A migration ends and keeps the handle in order, or the scan does not end. *)
Lemma migrate_table_spec R sch x :
  schema_ok sch → mig (locked drv R o) x →
  ends_or (migrate_stuck drv fuel sch) (c2sql_internal_migrate_table drv fuel sch) (λ _, mig (locked drv R o)) x.
Proof.
  intros Hs Hx. unfold ends_or, c2sql_internal_migrate_table.
  destruct (create_and_read_spec R sch Hs x Hx) as ([r cols] & x1 & E1 & H1). rewrite (bind_run _ _ _ _ _ E1).
  destruct (res_ok r) eqn:Er; cbn [negb]; [|left; by eexists _, _]. apply res_ok_true in Er as ->.
  destruct (strict_check_spec R sch x1 H1) as [(stop & x2 & E2 & H2)|[E2 H2]].
  - left. rewrite (bind_run _ _ _ _ _ E2). destruct stop; [by eexists _, _|].
    destruct (sync_columns_spec R sch cols Hs x2 H2) as (r & x' & E & H). by exists r, x'.
  - right. split; [unfold mbind, M_bind; by rewrite E2|]. by exists cols, x1.
Qed.

(** ** Registering a struct *)

(** An operation on the registry, from its own specification. *)
Lemma on_reg_spec {A} R (m : M RState A) (Q : A → RState → Prop) :
  (∀ t, reg_wf t → r_reg t = R → ∃ a t', m t = Some (a, t') ∧ reg_wf t' ∧ Q a t') →
  triple (locked drv R o) (h_on_reg m)
    (λ a s, ∃ R', locked drv R' o s ∧ ∃ t', r_reg t' = R' ∧ Q a t').
Proof.
  intros H s [(HR & Hreg & Htx & Hrest) Hm].
  destruct (H (MkR (h_registry (hs_h s)) (h_error (hs_h s)) (hs_alloc s) (hs_live s))) as (a & t' & E & Hwf & Hq);
    [by rewrite HR|done|].
  eexists _, _. split; [by apply zoom_run|]. exists (r_reg t'). split; [|by exists t'].
  split; [|done]. split_and!; done.
Qed.

(** The registry after a call: one more entry, or the entries it had. *)
Definition reg_outcome R (name : string) (cols : list RawColumnDef) (n : Z) (r : SqlRDBResult) R' : Prop :=
  if res_ok r then
    registrable R name cols n ∧
    ∃ e, reg_entries R' = reg_entries R ++ [e] ∧ sch_name e = name ∧
      describes cols (Z.to_nat n) (sch_cols e) ∧ sch_col_count e = n
  else reg_entries R' = reg_entries R.

Lemma on_reg_register R name cols n :
  reg_capacity R < 2 ^ 62 → 0 ≤ n < SIZE_MOD → (n ≤ C2SQL_MAX_COLUMNS → n ≤ Z.of_nat (length cols)) →
  triple (locked drv R o) (h_on_reg (c2sql_internal_schema_register true (Some name) (Some cols) n))
    (λ r s, ∃ R', locked drv R' o s ∧ reg_outcome R name cols n r R' ∧ reg_grown R R').
Proof.
  intros Hroom Hn Hl.
  eapply triple_conseq; [apply (on_reg_spec R _ (λ r t', reg_outcome R name cols n r (r_reg t') ∧ reg_grown R (r_reg t')))|done|].
  - intros t Hwf <-. destruct (register_spec name cols n t Hwf Hroom Hn Hl) as (r & t' & E & [Hwf' Hr] & Hok & _).
    exists r, t'. split; [done|]. split; [done|]. split; [|by eapply register_grown]. unfold reg_outcome. destruct (res_ok r) eqn:Er.
    + apply res_ok_true in Er as ->. auto.
    + apply Hr.
  - intros r s (R' & Hl' & t' & <- & Hq). eauto.
Qed.

Lemma on_reg_unregister R e es :
  reg_entries R = es ++ [e] →
  triple (locked drv R o) (h_on_reg (c2sql_internal_schema_unregister true (Some (sch_name e))))
    (λ _ s, ∃ R', locked drv R' o s ∧ reg_entries R' = es ∧ reg_capacity R' = reg_capacity R).
Proof.
  intros He.
  eapply triple_conseq; [apply (on_reg_spec R _ (λ _ t', reg_entries (r_reg t') = es ∧ reg_capacity (r_reg t') = reg_capacity R))|done|].
  - intros t Hwf <-. destruct (unregister_spec (sch_name e) t (length es) e) as (t' & E & Hwf' & Hd & _); [done| |done|].
    { rewrite He. by apply list_lookup_middle. }
    eexists _, _. split; [done|]. split; [done|]. split; [by rewrite Hd, He, delete_middle, app_nil_r|by eapply unregister_grown].
  - intros r s (R' & Hl' & t' & <- & Hq). eauto.
Qed.

(** The entry that was just added is found. *)
Lemma lookup_last R e es :
  reg_entries R = es ++ [e] →
  triple (locked drv R o) (h_lookup (sch_name e)) (λ x s, (locked drv R o s ∧ schema_ok e) ∧ x = Some e).
Proof.
  intros He s Hl. pose proof Hl as [(HR & (Hnd & Hok & _) & _) _]. simpl in Hnd, Hok.
  assert (reg_entries R !! length es = Some e) as Hi by (rewrite He; by apply list_lookup_middle).
  unfold h_lookup, mbind, M_bind, mgets. rewrite HR, (lookup_entry _ _ _ Hnd Hi).
  unfold schema_at. cbn [fst snd]. rewrite decide_True, Hi by done. cbn [mdef].
  eexists _, _. split; [done|]. split; [|done]. split; [done|]. by eapply Forall_lookup_1 in Hok.
Qed.

(** After a migration with the result [r]: an entry that was added is taken
    out again unless it succeeded. *)
Lemma register_finish R R' e es r :
  reg_entries R' = es ++ [e] → reg_entries R = es →
  triple (mig (locked drv R' o))
    ((if negb (res_ok r) then
        on_h (h_on_reg (c2sql_internal_schema_unregister true (Some (sch_name e))));; mret tt
      else mret tt);;
     on_h (unlock_ret r))
    (λ r' x, r' = r ∧ ∃ R2, mig (api_inv drv R2 o) x ∧
       if res_ok r then R2 = R' else reg_entries R2 = reg_entries R ∧ reg_capacity R2 = reg_capacity R').
Proof.
  intros He He0. rewrite He0.
  assert (∀ R2 : SqlRDBSchemaRegistry, triple (mig (locked drv R2 o)) (on_h (unlock_ret r))
    (λ r' x, r' = r ∧ mig (api_inv drv R2 o) x)) as Hun.
  { intros R2 x Hx. destruct (unlock_spec drv R2 o _ Hx) as ([] & s' & E & Hi).
    eexists r, _. split; [apply zoom_run; unfold unlock_ret; by rewrite (bind_run _ _ _ _ _ E)|done]. }
  destruct (res_ok r); cbn [negb].
  - eapply triple_bind; [by apply triple_ret with (Q := λ _, mig (locked drv R' o))|]. intros ?.
    eapply triple_conseq; [apply Hun|done|]. intros ? ? [-> ?]. eauto.
  - eapply (triple_bind _ _ (λ _ x, ∃ R2, mig (locked drv R2 o) x ∧ reg_entries R2 = es ∧ reg_capacity R2 = reg_capacity R')).
    { eapply triple_bind; [by apply on_h_spec, on_reg_unregister|]. intros ?. by apply triple_ret. }
    intros ? x (R2 & Hx & HR2). destruct (Hun R2 x Hx) as (r' & x' & E & -> & Hi). eauto 8.
Qed.

(** What a registration that succeeds did: the entry was added, the table
    migrated with OK, and the mutex released, nothing else. *)
Definition synced R name cols n (x x' : MigState D) R' : Prop :=
  ∃ sch x1 x2, register_entry name cols n x = Some (Some sch, x1) ∧ reg_entries R' = reg_entries R ++ [sch] ∧
    schema_ok sch ∧ c2sql_internal_migrate_table drv fuel sch x1 = Some (SQL_RDB_OK, x2) ∧ on_h h_unlock x2 = Some (tt, x').

Lemma unlock_run {A} (r : A) (x : MigState D) x' :
  on_h h_unlock x = Some (tt, x') → on_h (unlock_ret r) x = Some (r, x').
Proof.
  intros (s & E & ->)%zoom_Some. apply (zoom_run ms_h (λ s x, MkMig s (ms_log x))). unfold unlock_ret.
  by rewrite (bind_run _ _ _ _ _ E).
Qed.

Lemma register_struct_spec R name cols n x :
  reg_capacity R < 2 ^ 62 → 0 ≤ n < SIZE_MOD → (n ≤ C2SQL_MAX_COLUMNS → n ≤ Z.of_nat (length cols)) →
  mig (api_inv drv R o) x →
  ends_or (register_stuck drv fuel name cols n) (SqlRDBRegisterStruct drv fuel (Some name) (Some cols) n)
    (λ r x', ∃ R', mig (api_inv drv R' o) x' ∧ reg_outcome R name cols n r R' ∧ reg_grown R R' ∧
       (r = SQL_RDB_OK → synced R name cols n x x' R')) x.
Proof.
  intros Hroom Hn Hl Hx. unfold ends_or, SqlRDBRegisterStruct, register_stuck, synced, register_entry.
  rewrite (bind_run _ _ x (hs_h (ms_h x)) x) by (by destruct x).
  destruct (c2sql_handle_valid (Some (hs_h (ms_h x)))); cbn [negb]; [|left; eexists _, x; split; [done|]; by exists R].
  destruct (n =? 0).
  { left. eexists _, _. split; [done|]. by exists R. }
  destruct (on_h_spec _ _ _ (lock_spec drv R o) x Hx) as ([] & x1 & E1 & H1). rewrite !(bind_run _ _ _ _ _ E1).
  destruct (on_h_spec _ _ _ (on_reg_register R name cols n Hroom Hn Hl) x1 H1) as (r & x2 & E2 & R' & Hx2 & Ho & Hg).
  rewrite !(bind_run _ _ _ _ _ E2). unfold reg_outcome in Ho. destruct (res_ok r) eqn:Er; cbn [negb].
  2:{ left. destruct (on_h_spec _ _ _ (unlock_spec drv R' o) x2 Hx2) as ([] & x' & E & Hi).
      exists r, x'. split; [by apply unlock_run|]. exists R'. unfold reg_outcome. rewrite Er. split_and!; try done. by intros ->. }
  destruct Ho as (Hreg & e & He & <- & Hd & Hc).
  destruct (on_h_spec _ _ _ (lookup_last R' e _ He) x2 Hx2) as (sch & x3 & E3 & [Hx3 Hok] & ->).
  rewrite !(bind_run _ _ _ _ _ E3).
  destruct (migrate_table_spec R' e x3 Hok Hx3) as [(r2 & x4 & E4 & Hx4)|[E4 Hst]].
  - left. rewrite (bind_run _ _ _ _ _ E4).
    destruct (register_finish R R' e _ r2 He eq_refl x4 Hx4) as (? & x5 & E5 & -> & R2 & Hi & HR2).
    exists r2, x5. split; [exact E5|]. exists R2. split; [done|]. apply and_assoc. split.
    + unfold reg_outcome. destruct (res_ok r2); [subst R2; eauto 8|].
      destruct HR2 as [? Hcap]. split; [done|]. unfold reg_grown in *. by rewrite Hcap.
    + intros ->. cbn [res_ok] in HR2. subst R2. exists e, x3, x4. split; [done|]. split; [done|]. split; [done|]. split; [done|].
      destruct (on_h_spec _ _ _ (unlock_spec drv R' o) x4 Hx4) as ([] & x' & E & _). cbn [res_ok negb] in E5.
      rewrite (bind_run _ _ x4 tt x4) in E5 by done. rewrite (unlock_run SQL_RDB_OK _ _ E) in E5. by injection E5 as <-.
  - right. split; [unfold mbind, M_bind; by rewrite E4|]. by exists e, x3.
Qed.
End safety.
