(* ===== verification/MigrationTrace.v ===== *)
(** * What a migration establishes and executes

    Reading the catalogue executes nothing on the connection; a migration
    executes the CREATE statement and, only with auto_migrate, one ALTER for
    each missing column in order; when it succeeds, the columns it read back
    after the last of them agree with the schema. *)

From Stdlib Require Import String Strings.Byte Strings.Ascii.
From S2P Require Import Prelude Types Support Driver MemDriver StmtCache StmtCacheSpec.
From S2P Require Import StmtCacheProofs StmtCacheRefine StmtCacheTheorems Condition QueryBuilder.
From S2P Require Import QueryBuilderProofs Registry RegistryProofs TypeMapping TypeMappingProofs.
From S2P Require Import Handle Api ApiProofs ApiSafety ApiOutputs TxTrace Migration MigrationProofs.
From S2P Require Import MigrationSafety.
Import ErrorCtx Logger Mutex.

(** ** Reading the catalogue is quiet *)

Section quiet.
Context {D : Type} (drv : SqlRDBDriver D) (fuel : nat).
Local Abbreviation TD := (D * list TxEvent)%type.

(** An observation of the handle that no quiet call of the driver, allocation
    or error message changes. *)
Context {L : Type} (g : HState TD → L).
Hypothesis g_quiet : ∀ A (m : M D A), silent g (h_db (quiet m)).
Hypothesis g_alloc : ∀ A (m : M (list bool) A), silent g (h_alloc m).
Hypothesis g_err : ∀ code msg, silent g (h_err (D := TD) code msg).
Local Hint Resolve g_quiet g_alloc g_err : silent.

Lemma silent_column_text stmt i : silent g (h_column_text (traced drv) stmt i).
Proof. unfold h_column_text. simpl. silence. Qed.
Lemma silent_column_int32 stmt i : silent g (h_column_int32 (traced drv) stmt i).
Proof. unfold h_column_int32. simpl. silence. Qed.
Lemma silent_h_prepare sql : silent g (h_prepare (traced drv) sql).
Proof. unfold h_prepare. simpl. silence. Qed.
Lemma silent_h_step stmt : silent g (h_step (traced drv) stmt).
Proof. unfold h_step. simpl. silence. Qed.
Lemma silent_h_finalize stmt : silent g (h_finalize (traced drv) stmt).
Proof. unfold h_finalize. simpl. silence. Qed.
Lemma silent_bind_name stmt i v n : silent g (h_db (drv_bind_text (traced drv) stmt i v n)).
Proof. simpl. silence. Qed.
Lemma silent_grow_cols n cap : silent g (grow_cols (D := TD) n cap).
Proof. unfold grow_cols. silence. Qed.
Local Hint Resolve silent_column_text silent_column_int32 silent_h_prepare silent_h_step
  silent_h_finalize silent_bind_name silent_grow_cols : silent.

Lemma silent_each_row {A} n stmt (row : A → M (HState TD) (option A)) acc :
  (∀ a, silent g (row a)) → silent g (each_row (traced drv) n stmt row acc).
Proof. intros Hrow. revert acc. induction n as [|n IH]; intros acc; cbn [each_row]; silence. Qed.
Local Hint Resolve silent_each_row : silent.

Lemma silent_read_table_info table : silent g (read_table_info (traced drv) fuel table).
Proof.
  unfold read_table_info. silence. apply silent_each_row. intros [cols cap]. unfold table_info_row. silence.
Qed.

Lemma silent_unique_loop idx cols : silent g (unique_loop (traced drv) fuel idx cols).
Proof.
  revert cols. induction idx as [|nm idx IH]; intros cols; cbn [unique_loop]; silence.
  apply silent_each_row. intros refs. unfold index_info_row. silence.
Qed.
Local Hint Resolve silent_read_table_info silent_unique_loop : silent.

Lemma silent_apply_unique_flags table cols : silent g (apply_unique_flags (traced drv) fuel table cols).
Proof. unfold apply_unique_flags. silence. apply silent_each_row. intros names. unfold index_list_row. silence. Qed.

Lemma silent_pg_collect_names sql table max : silent g (pg_collect_names (traced drv) fuel sql table max).
Proof. unfold pg_collect_names. silence. apply silent_each_row. intros names. unfold collect_row. silence. Qed.
Local Hint Resolve silent_apply_unique_flags silent_pg_collect_names : silent.

Lemma silent_read_existing table : silent g (read_existing (traced drv) fuel table).
Proof.
  unfold read_existing, read_table_info_pg. silence.
  apply silent_each_row. intros [cols cap]. unfold pg_info_row. silence.
Qed.

Lemma silent_check_strict table : silent g (check_strict (traced drv) table).
Proof. unfold check_strict. silence. Qed.
Local Hint Resolve silent_read_existing silent_check_strict : silent.

(** *** On the state of a migration *)

Definition mobs (x : MigState TD) : L := g (ms_h x).

Lemma silent_on_h {A} (m : M (HState TD) A) : silent g m → silent mobs (on_h m).
Proof. by apply silent_zoom. Qed.
Lemma silent_mig_log code sql msg : silent mobs (mig_log (D := TD) code sql msg).
Proof. by intros x a x' [= _ <-]. Qed.
Local Hint Resolve silent_on_h silent_mig_log : silent.

Lemma silent_mismatch msg : silent mobs (mismatch (D := TD) msg).
Proof. unfold mismatch. silence. Qed.
Local Hint Resolve silent_mismatch : silent.

Lemma silent_strict_check sch : silent mobs (strict_check (traced drv) sch).
Proof. unfold strict_check. simpl. silence. Qed.

Lemma silent_revalidate sch : silent mobs (revalidate (traced drv) fuel sch).
Proof. unfold revalidate. silence. Qed.

Lemma silent_mig_build spec : silent mobs (on_h (h_build (D := TD) spec)).
Proof. apply silent_on_h. unfold h_build. silence. Qed.
End quiet.

(** ** The statements that are executed *)

Definition create_sql (d : C2SqlDialect) (sch : SqlRDBSchema) : string :=
  qb_text (MkSpec C2SQL_QB_CREATE (Some sch) None None None d) sch.
Definition alter_sql (d : C2SqlDialect) (sch : SqlRDBSchema) (c : SqlRDBColumnDef) : string :=
  qb_text (MkSpec C2SQL_QB_ALTER_ADD (Some sch) None (Some c) None d) sch.

(** The columns [cs] are added in order until one fails, with the result [r]:
    that of the statement, or NO_MEMORY if its text could not be built. *)
Fixpoint altered (d : C2SqlDialect) (sch : SqlRDBSchema) (cs : list SqlRDBColumnDef)
    (r : SqlRDBResult) (l : list TxEvent) {struct l} : Prop :=
  match l, cs with
  | [], [] => r = SQL_RDB_OK
  | [], _ :: _ => r = SQL_RDB_ERR_NO_MEMORY
  | _ :: _, [] => False
  | e :: l, c :: cs => e.1 = CmdExec (alter_sql d sch c) ∧
      (if res_ok e.2 then altered d sch cs r l else l = [] ∧ r = e.2)
  end.

(** The CREATE statement was executed, and its error is the result; or its text
    could not be built. *)
Definition created (d : C2SqlDialect) (sch : SqlRDBSchema) (r : SqlRDBResult) (l : list TxEvent) : Prop :=
  (l = [] ∧ r = SQL_RDB_ERR_NO_MEMORY) ∨
  ∃ rc, l = [(CmdExec (create_sql d sch), rc)] ∧ (rc ≠ SQL_RDB_OK → r = rc).

(** The columns of the schema and of the table agree as far as both go. *)
Definition prefix_agrees (sch : SqlRDBSchema) (cols : list DbCol) : bool :=
  forallb (λ x, compare_columns x.1 x.2 =? 0) (zip (sch_cols sch) cols).

(** What follows when the table has the columns [cols]: with a refusal, or
    columns that differ or are too many, or too few without [auto], nothing and
    SCHEMA_MISMATCH; nothing and OK when all of them are there; else the ALTERs
    for the columns the table does not have. *)
Definition sync_commands (d : C2SqlDialect) (auto : bool) (sch : SqlRDBSchema) (stop : bool) (cols : list DbCol)
    (r : SqlRDBResult) (l : list TxEvent) : Prop :=
  let k := length cols in
  let n := length (sch_cols sch) in
  if stop || negb (prefix_agrees sch cols) || (n <? k)%nat || ((k <? n)%nat && negb auto)
  then r = SQL_RDB_ERR_SCHEMA_MISMATCH ∧ l = []
  else if (k =? n)%nat then r = SQL_RDB_OK ∧ l = []
  else ∃ r', altered d sch (drop k (sch_cols sch)) r' l ∧ (r' ≠ SQL_RDB_OK → r = r').

Section commands.
Context {D : Type} (drv : SqlRDBDriver D) (fuel : nat).
Local Abbreviation TD := (D * list TxEvent)%type.

Definition hcfg (s : HState TD) : SqlRDBConfig := h_config (hs_h s).
Definition mlog (x : MigState TD) : list TxEvent := tlog (ms_h x).
Definition mcfg (x : MigState TD) : SqlRDBConfig := hcfg (ms_h x).

(** As [emits], for the runs from a state with the configuration [c]. *)
Definition emits_at {A} (c : SqlRDBConfig) (φ : A → list TxEvent → Prop) (m : M (MigState TD) A) : Prop :=
  ∀ x a x', mcfg x = c → m x = Some (a, x') → mcfg x' = c ∧ ∃ l, mlog x' = mlog x ++ l ∧ φ a l.

Lemma emits_at_bind {A B} c φ ψ (m : M (MigState TD) A) (k : A → M (MigState TD) B) :
  emits_at c φ m → (∀ a l, φ a l → emits_at c (λ b l', ψ b (l ++ l')) (k a)) → emits_at c ψ (m ≫= k).
Proof.
  intros Hm Hk x b x' Hx (a & x1 & E1 & E2)%bind_Some. destruct (Hm _ _ _ Hx E1) as (H1 & l & Hl & Hφ).
  destruct (Hk a l Hφ _ _ _ H1 E2) as (H2 & l' & Hl' & Hψ). split; [done|].
  exists (l ++ l'). by rewrite Hl', Hl, app_assoc.
Qed.

(** A step that the record does not see. *)
Lemma emits_at_silent {A B} c ψ (m : M (MigState TD) A) (k : A → M (MigState TD) B) :
  silent (mobs tlog) m → silent (mobs hcfg) m → (∀ a, emits_at c ψ (k a)) → emits_at c ψ (m ≫= k).
Proof.
  intros Hl Hc Hk x b x' Hx (a & x1 & E1 & E2)%bind_Some.
  assert (mcfg x1 = c) as H1 by (rewrite <-Hx; by apply Hc in E1).
  apply Hl in E1. change (mlog x1 = mlog x) in E1. rewrite <-E1. by eapply Hk.
Qed.

Lemma emits_at_end {A} c ψ (m : M (MigState TD) A) :
  silent (mobs tlog) m → silent (mobs hcfg) m → (∀ a, ψ a []) → emits_at c ψ m.
Proof.
  intros Hl Hc Hψ x a x' Hx E. pose proof (Hl _ _ _ E) as H1. pose proof (Hc _ _ _ E) as H2.
  split; [by rewrite <-Hx|]. exists []. by rewrite app_nil_r.
Qed.

Lemma emits_at_ret {A} c (ψ : A → list TxEvent → Prop) a : ψ a [] → emits_at c ψ (mret a).
Proof. intros Hψ x b x' Hx [= <- <-]. split; [done|]. exists []. by rewrite app_nil_r. Qed.

Lemma emits_at_exec c sql :
  emits_at c (λ r l, l = [(CmdExec sql, r)]) (on_h (h_exec (traced drv) sql)).
Proof.
  intros x r x' Hx (s & E & ->)%zoom_Some. unfold h_exec in E. apply bind_Some in E as (ctx & s1 & [= <- <-] & E).
  split; [|by eapply (emits_noted (λ r l, l = [(CmdExec sql, r)])) in E].
  apply zoom_Some in E as (d & _ & ->). done.
Qed.

Lemma silent_cfg_h_db {A} (m : M TD A) : silent hcfg (h_db m).
Proof. by apply silent_zoom_away. Qed.
Lemma silent_cfg_alloc {A} (m : M (list bool) A) : silent hcfg (h_alloc m).
Proof. by apply silent_zoom_away. Qed.
Lemma silent_cfg_err code msg : silent hcfg (h_err code msg).
Proof. by intros s a s' [= _ <-]. Qed.
Lemma silent_log_quiet {A} (m : M D A) : silent tlog (h_db (quiet m)).
Proof. silence. Qed.
Lemma silent_log_err code msg : silent tlog (h_err (D := TD) code msg).
Proof. apply silent_h_upd. Qed.

Local Hint Resolve silent_cfg_h_db silent_cfg_alloc silent_cfg_err silent_log_quiet silent_log_err : silent.
Local Hint Resolve silent_on_h silent_mismatch silent_strict_check silent_revalidate silent_read_existing
  silent_mig_build : silent.

(** The text of a statement that was built. *)
Lemma build_text spec sch (s : HState TD) r sql s' :
  spec_fits spec sch → qb_result spec sch = SQL_RDB_OK → h_build spec s = Some ((r, sql), s') →
  if res_ok r then sql = Some (qb_text spec sch) else r = SQL_RDB_ERR_NO_MEMORY.
Proof.
  intros (Hs & Hok & Hwf & Ht & Hb & _) Hq E.
  assert (qb_binds spec sch < MAX_BINDS) as Hb' by (unfold MAX_BINDS, INT_MAX in *; lia).
  destruct (qb_build_promise spec sch (hs_alloc s) Hs Hok Hwf Ht Hb') as (r' & sql' & n & al' & Eq & Hp & _).
  unfold h_build, h_alloc, zoom, mbind, M_bind in E. rewrite Eq in E. injection E as -> -> _.
  destruct Hp as (Hr & _ & Hp). destruct (res_ok r) eqn:Er; [by destruct Hp|]. destruct Hr as [Hr|Hr]; [|done].
  rewrite Hq in Hr. by subst r.
Qed.

(** A statement is built and executed: the branches after it. *)
Lemma emits_build_exec {A} c spec sch ψ (bad : SqlRDBResult → M (MigState TD) A) k :
  spec_fits spec sch → qb_result spec sch = SQL_RDB_OK →
  emits_at c ψ (bad SQL_RDB_ERR_NO_MEMORY) →
  (∀ r, emits_at c (λ a l, ψ a ((CmdExec (qb_text spec sch), r) :: l)) (k r)) →
  emits_at c ψ
    (out ← on_h (h_build spec);
     let '(r, sql) := out in
     if negb (res_ok r) then bad r else sql ← mdef sql; r ← on_h (h_exec (traced drv) sql); k r).
Proof.
  intros Hf Hq Hbad Hk x a x' Hx ([r sql] & x1 & E1 & E2)%bind_Some.
  assert (silent (mobs (D := D) tlog) (on_h (h_build spec))) as H1 by silence.
  assert (silent (mobs (D := D) hcfg) (on_h (h_build spec))) as H2 by silence.
  pose proof (H1 _ _ _ E1 : mlog x1 = mlog x) as Hl1. specialize (H2 _ _ _ E1). rewrite <-Hl1.
  apply zoom_Some in E1 as (s1 & E1 & ->). assert (mcfg (MkMig s1 (ms_log x)) = c) as Hc by (by rewrite <-Hx).
  pose proof (build_text _ _ _ _ _ _ Hf Hq E1) as Ht.
  destruct (res_ok r) eqn:Er; cbn [negb] in E2; [|subst r; by eapply Hbad].
  rewrite Ht in E2. cbn [mdef] in E2.
  apply bind_Some in E2 as (sql' & x2 & [= <- <-] & E2).
  eapply (emits_at_bind c) in E2; [exact E2|apply emits_at_exec| |done].
  intros r' l ->. apply Hk.
Qed.

Lemma emits_alter_loop c sch i n :
  schema_ok sch → (i + n = length (sch_cols sch))%nat →
  emits_at c (altered (drv_dialect drv) sch (drop i (sch_cols sch))) (alter_loop (traced drv) sch i n).
Proof.
  intros Hs. revert i. induction n as [|n IH]; intros i Hi; cbn [alter_loop].
  { apply emits_at_ret. by rewrite drop_ge by lia. }
  destruct (lookup_lt_is_Some_2 (sch_cols sch) i ltac:(lia)) as [col Hc]. rewrite Hc.
  intros x a x' Hx (col' & x1 & [= <- <-] & E)%bind_Some. revert x a x' Hx E.
  rewrite (drop_S _ _ _ Hc).
  apply (emits_build_exec c _ sch); [apply alter_fits; [done|by eapply list_elem_of_lookup_2]|done| |].
  - by apply emits_at_ret.
  - intros r. cbn [altered fst snd]. destruct (res_ok r) eqn:Er; cbn [negb].
    + assert (∀ φ : SqlRDBResult → list TxEvent → Prop, emits_at c φ (alter_loop (traced drv) sch (S i) n) →
        emits_at c (λ a l, CmdExec (qb_text (MkSpec C2SQL_QB_ALTER_ADD (Some sch) None (Some col) None (drv_dialect (traced drv))) sch) =
          CmdExec (alter_sql (drv_dialect drv) sch col) ∧ φ a l) (alter_loop (traced drv) sch (S i) n)) as Hand.
      { intros φ H x a x' Hx E. destruct (H _ _ _ Hx E) as (? & l & ? & ?). eauto. }
      apply Hand, IH. lia.
    + apply emits_at_silent; [silence..|]. intros ?. by apply emits_at_ret.
Qed.

(** The comparison of the columns that both have. *)
Lemma first_diff_prefix sch cols (n : nat) d :
  n = Nat.min (length (sch_cols sch)) (length cols) →
  first_diff (sch_cols sch) cols 0 n = Some d → (prefix_agrees sch cols = true ↔ d = None).
Proof.
  intros -> E. destruct (first_diff_defined (sch_cols sch) cols 0 (Nat.min (length (sch_cols sch)) (length cols))) as (d' & E' & Hd);
    [lia..|]. rewrite E in E'. injection E' as <-. rewrite Hd. unfold prefix_agrees. rewrite forallb_forall. split.
  - intros H j sc dc _ Hs Hc. apply compare_agrees, Z.eqb_eq, (H (sc, dc)), list_elem_of_In, list_elem_of_lookup.
    exists j. by apply lookup_zip_Some.
  - intros H [sc dc] [j Hj]%list_elem_of_In%list_elem_of_lookup. apply Z.eqb_eq, compare_agrees.
    apply lookup_zip_Some in Hj as [Hs Hc]. apply (H j); [|done|done].
    apply lookup_lt_Some in Hs, Hc. lia.
Qed.

Lemma emits_mismatch c ψ msg : ψ SQL_RDB_ERR_SCHEMA_MISMATCH [] → emits_at c ψ (mismatch (D := TD) msg).
Proof. intros Hψ. unfold mismatch. apply emits_at_silent; [silence..|]. intros ?. by apply emits_at_ret. Qed.

Lemma emits_sync_columns c sch cols :
  schema_ok sch →
  emits_at c (sync_commands (drv_dialect drv) (cfg_auto_migrate c) sch false cols)
    (sync_columns (traced drv) fuel sch cols).
Proof.
  intros Hs. pose proof Hs as (_ & Hn & _). unfold sync_columns.
  intros x a x' Hx (d & x1 & E1 & E)%bind_Some. unfold mdef in E1.
  destruct (first_diff _ _ _ _) as [d0|] eqn:Ed; [|done]. injection E1 as -> <-.
  apply first_diff_prefix in Ed; [|destruct (Z.ltb_spec (Z.of_nat (length cols)) (sch_col_count sch)); lia].
  revert x a x' Hx E. unfold sync_commands. destruct d as [[i d]|].
  { assert (prefix_agrees sch cols = false) as -> by (apply not_true_iff_false; naive_solver). by apply emits_mismatch. }
  assert (prefix_agrees sch cols = true) as -> by (by apply Ed). cbn [orb negb].
  destruct (Z.ltb_spec (sch_col_count sch) (Z.of_nat (length cols))).
  { rewrite (proj2 (Nat.ltb_lt _ _)) by lia. by apply emits_mismatch. }
  rewrite (proj2 (Nat.ltb_ge _ _)) by lia. cbn [orb].
  destruct (Z.ltb_spec (Z.of_nat (length cols)) (sch_col_count sch)).
  2:{ rewrite (proj2 (Nat.ltb_ge _ _)) by lia. cbn [andb]. rewrite (proj2 (Nat.eqb_eq _ _)) by lia. by apply emits_at_ret. }
  rewrite (proj2 (Nat.ltb_lt (length cols) _)) by lia. cbn [andb].
  intros x a x' Hx (cfg & x1 & E1 & E)%bind_Some. injection E1 as <- <-. change (h_config _) with (mcfg x) in E.
  replace (MkMig (ms_h x) (ms_log x)) with x in E by (by destruct x).
  rewrite Hx in E. destruct (cfg_auto_migrate c) eqn:Ea; cbn [negb] in *.
  2:{ revert x a x' Hx E. by apply emits_mismatch. }
  rewrite (proj2 (Nat.eqb_neq _ _)) by lia. revert x a x' Hx E.
  eapply emits_at_bind; [apply emits_alter_loop; [done|lia]|]. intros r l Hl.
  destruct (res_ok r) eqn:Er; cbn [negb].
  - apply res_ok_true in Er as ->. apply emits_at_end; [silence..|]. intros r'. rewrite app_nil_r. by exists SQL_RDB_OK.
  - apply emits_at_ret. rewrite app_nil_r. by exists r.
Qed.

Lemma emits_create c sch :
  schema_ok sch → emits_at c (λ y, created (drv_dialect drv) sch y.1) (create_and_read (traced drv) fuel sch).
Proof.
  intros Hs. unfold create_and_read.
  apply (emits_build_exec c _ sch); [by apply create_fits|done|apply emits_at_ret; by left|].
  intros r. change (qb_text _ sch) with (create_sql (drv_dialect drv) sch).
  assert (∀ y : SqlRDBResult * list DbCol, (r ≠ SQL_RDB_OK → y.1 = r) →
    created (drv_dialect drv) sch y.1 [(CmdExec (create_sql (drv_dialect drv) sch), r)]) as Hc
    by (intros y Hy; right; by exists r).
  destruct (res_ok r) eqn:Er; cbn [negb].
  2:{ apply emits_at_silent; [silence..|]. intros ?. apply emits_at_ret. by apply Hc. }
  apply res_ok_true in Er as ->.
  apply emits_at_silent; [silence..|]. intros [r' cols].
  destruct (res_ok r'); cbn [negb]; [destruct (_ =? _)%nat|]; apply emits_at_ret; by apply Hc.
Qed.

(** A migration: the CREATE and the columns read after it, the check for
    STRICT, and what follows from the two. *)
Lemma migrate_emits sch x r x' :
  schema_ok sch → c2sql_internal_migrate_table (traced drv) fuel sch x = Some (r, x') →
  ∃ rd cols x1 l1 l2, create_and_read (traced drv) fuel sch x = Some ((rd, cols), x1) ∧
    mlog x' = mlog x ++ l1 ++ l2 ∧ created (drv_dialect drv) sch rd l1 ∧
    if res_ok rd
    then ∃ stop x2, strict_check (traced drv) sch x1 = Some (stop, x2) ∧
      sync_commands (drv_dialect drv) (cfg_auto_migrate (mcfg x)) sch stop cols r l2
    else r = rd ∧ l2 = [].
Proof.
  intros Hs ([rd cols] & x1 & E1 & E)%bind_Some.
  destruct (emits_create (mcfg x) sch Hs x _ _ eq_refl E1) as (Hc1 & l1 & Hl1 & Hcr).
  destruct (res_ok rd) eqn:Er; cbn [negb] in E.
  2:{ injection E as <- <-. exists rd, cols, x1, l1, []. rewrite Er, app_nil_r. by split_and!. }
  apply bind_Some in E as (stop & x2 & E2 & E).
  assert (silent (mobs (D := D) tlog) (strict_check (traced drv) sch)) as H1 by silence.
  assert (silent (mobs (D := D) hcfg) (strict_check (traced drv) sch)) as H2 by silence.
  pose proof (H1 _ _ _ E2 : mlog x2 = mlog x1) as Hl2. pose proof (H2 _ _ _ E2 : mcfg x2 = mcfg x1) as Hc2.
  destruct stop.
  - injection E as <- <-. exists rd, cols, x1, l1, []. rewrite Er, app_nil_r. split_and!; [done|congruence|done|].
    by exists true, x2.
  - destruct (emits_sync_columns (mcfg x) sch cols Hs x2 r x' ltac:(congruence) E) as (_ & l2 & Hl & Hsync).
    exists rd, cols, x1, l1, l2. rewrite Er. split; [done|]. split; [by rewrite Hl, Hl2, Hl1, app_assoc|].
    split; [done|]. by exists false, x2.
Qed.
End commands.
