(* ===== verification/MigrationTheorems.v ===== *)
(** * Registration and migration: theorems

    A registration is all or nothing; the statements a migration executes; the
    columns it leaves; the search for the STRICT keyword. *)

From Stdlib Require Import String Strings.Byte Strings.Ascii.
From S2P Require Import Prelude Types Support Driver MemDriver CatDriver StmtCache StmtCacheSpec.
From S2P Require Import StmtCacheProofs StmtCacheRefine StmtCacheTheorems Condition QueryBuilder.
From S2P Require Import QueryBuilderProofs Registry RegistryProofs TypeMapping TypeMappingProofs.
From S2P Require Import Handle Api ApiProofs ApiSafety ApiOutputs ApiTheorems TxTrace Migration.
From S2P Require Import MigrationProofs MigrationSafety MigrationTrace.
Import ErrorCtx Logger Mutex.

(** ** The recording driver keeps the assumptions *)

Lemma quiet_Some {D A} (m : M D A) s a s' :
  quiet m s = Some (a, s') → m s.1 = Some (a, s'.1).
Proof. intros (d & E & ->)%zoom_Some. done. Qed.

#[global] Instance traced_finite {D} (drv : SqlRDBDriver D) N `{!DriverLaws drv, !FiniteRows drv N} : FiniteRows (traced drv) N.
Proof.
  refine {| rows_left p d := rows_left p d.1 |}; simpl.
  - intros p d. apply rows_bound.
  - intros p d r d' Hp E%quiet_Some. by apply step_rows.
  - intros p i d x d' E%quiet_Some. by eapply text_rows.
  - intros p i d x d' E%quiet_Some. by eapply int32_rows.
Defined.

(** ** The columns after a migration *)

Section agree.
Context {D : Type} (drv : SqlRDBDriver D) (fuel : nat).

(** All columns of the schema were compared with all columns that were read. *)
Lemma first_diff_agree scs dcs :
  length scs = length dcs → first_diff scs dcs 0 (length dcs) = Some None → Forall2 agrees scs dcs.
Proof.
  intros Hl E. destruct (first_diff_defined scs dcs 0 (length dcs)) as (d & E' & Hd); [lia|lia|].
  rewrite E in E'. injection E' as <-. apply Forall2_same_length_lookup_2; [done|].
  intros i sc dc Hs Hdc. eapply Hd; [done| |done|done]. apply lookup_lt_Some in Hdc. lia.
Qed.

Lemma mismatch_not_ok msg (x : MigState D) r x' : mismatch msg x = Some (r, x') → r ≠ SQL_RDB_OK.
Proof. unfold mismatch. intros (a & x1 & _ & E)%bind_Some. by injection E as <- _. Qed.

(** How a migration went that returned OK: the table has, after the CREATE,
    columns that agree with all of the schema, and nothing was done after that
    but the check for STRICT; or with the first of them, and, as auto_migrate is
    set, the others were added, and the columns read last, after that, agree
    with all of the schema. *)
Definition checked (sch : SqlRDBSchema) (x x' : MigState D) : Prop :=
  ∃ cols x1 x2, create_and_read drv fuel sch x = Some ((SQL_RDB_OK, cols), x1) ∧
    strict_check drv sch x1 = Some (false, x2) ∧
    ((Forall2 agrees (sch_cols sch) cols ∧ x' = x2) ∨
     ∃ x3 cols', (length cols < length (sch_cols sch))%nat ∧ prefix_agrees sch cols = true ∧
       cfg_auto_migrate (h_config (hs_h (ms_h x2))) = true ∧
       alter_loop drv sch (length cols) (length (sch_cols sch) - length cols) x2 = Some (SQL_RDB_OK, x3) ∧
       on_h (read_existing drv fuel (sch_name sch)) x3 = Some ((SQL_RDB_OK, cols'), x') ∧
       Forall2 agrees (sch_cols sch) cols').

Lemma revalidate_agrees sch x x' :
  sch_col_count sch = Z.of_nat (length (sch_cols sch)) → revalidate drv fuel sch x = Some (SQL_RDB_OK, x') →
  ∃ cols, on_h (read_existing drv fuel (sch_name sch)) x = Some ((SQL_RDB_OK, cols), x') ∧ Forall2 agrees (sch_cols sch) cols.
Proof.
  intros Hn ([r cols] & x1 & E1 & E)%bind_Some. destruct (res_ok r) eqn:Er; cbn [negb] in E.
  2:{ injection E as -> _. done. }
  apply res_ok_true in Er as ->.
  destruct (Z.eqb_spec (Z.of_nat (length cols)) (sch_col_count sch)) as [Hc|]; cbn [negb] in E;
    [|by apply mismatch_not_ok in E].
  apply bind_Some in E as ([[i d]|] & x2 & E2 & E); [by apply mismatch_not_ok in E|].
  unfold mdef in E2. destruct (first_diff _ _ _ _) as [d|] eqn:Ed; [|done]. injection E2 as -> <-.
  injection E as <-. exists cols. split; [done|]. apply first_diff_agree; [lia|done].
Qed.

Lemma migrate_checked sch x x' :
  sch_col_count sch = Z.of_nat (length (sch_cols sch)) →
  c2sql_internal_migrate_table drv fuel sch x = Some (SQL_RDB_OK, x') → checked sch x x'.
Proof.
  intros Hn ([r cols] & x1 & E1 & E)%bind_Some. destruct (res_ok r) eqn:Er; cbn [negb] in E; [|by injection E as -> _].
  apply res_ok_true in Er as ->. apply bind_Some in E as ([|] & x2 & E2 & E); [done|].
  exists cols, x1, x2. split; [done|]. split; [done|]. unfold sync_columns in E.
  apply bind_Some in E as ([[i d]|] & x3 & E3 & E); [by apply mismatch_not_ok in E|].
  unfold mdef in E3. destruct (first_diff _ _ _ _) as [d|] eqn:Ed; [|done]. injection E3 as -> <-.
  destruct (Z.ltb_spec (sch_col_count sch) (Z.of_nat (length cols))); [by apply mismatch_not_ok in E|].
  destruct (Z.ltb_spec (Z.of_nat (length cols)) (sch_col_count sch)).
  - right. apply bind_Some in E as (cfg & x4 & Ec & E). injection Ec as <- <-.
    replace (MkMig (ms_h x2) (ms_log x2)) with x2 in E by (by destruct x2).
    destruct (cfg_auto_migrate _) eqn:Ea; cbn [negb] in E; [|by apply mismatch_not_ok in E].
    apply bind_Some in E as (r & x4 & E4 & E). destruct (res_ok r) eqn:Er; cbn [negb] in E; [|by injection E as -> _].
    apply res_ok_true in Er as ->. destruct (revalidate_agrees sch x4 x' Hn E) as (cols' & E5 & Ha).
    exists x4, cols'. split; [lia|]. split; [apply (first_diff_prefix sch cols _ None) in Ed; [by apply Ed|lia]|].
    split; [done|]. split; [|done]. by replace (length (sch_cols sch) - length cols)%nat
      with (Z.to_nat (sch_col_count sch - Z.of_nat (length cols))) by lia.
  - left. injection E as <-. split; [|done].
    apply first_diff_agree; [lia|]. by replace (Z.to_nat (sch_col_count sch)) with (length cols) in Ed by lia.
Qed.
End agree.

(** ** Example: the table lacks its last column *)

Definition txt (s : string) : Cell := CText (cstr s).

Definition ex_id_row : list Cell := [CInt 0; txt "id"; txt "INTEGER"; CInt 1; CNull; CInt 1].
Definition ex_label_row : list Cell := [CInt 1; txt "label"; txt "TEXT"; CInt 1; CNull; CInt 0].
Definition ex_ddl : string := "CREATE TABLE pair (id INTEGER NOT NULL PRIMARY KEY) STRICT".

Definition pragma (what table : string) : string := "PRAGMA " +:+ what +:+ "(" +:+ DQ +:+ table +:+ DQ +:+ ")".
Definition ddl_query (table : string) : string :=
  "SELECT sql FROM sqlite_schema WHERE type='table' AND name='" +:+ table +:+ "'".

(** Before anything was executed; after the CREATE; after the ALTER. *)
Definition ex_cat : Catalogue :=
  [[];
   [(pragma "table_info" "pair", [ex_id_row]); (ddl_query "pair", [[txt ex_ddl]])];
   [(pragma "table_info" "pair", [ex_id_row; ex_label_row]); (ddl_query "pair", [[txt ex_ddl]])]].

Definition ex_drv : SqlRDBDriver Cat := cat_driver C2SQL_DIALECT_SQLITE ex_cat.

Definition ex_mig_handle (auto : bool) : SqlRDBHandle :=
  set_h_config (MkConfig true 2 auto 0 true) ex_handle.
Definition ex_mig (auto : bool) : MigState Cat := MkMig (MkH (ex_mig_handle auto) cat0 [] 5) [].
Definition ex_mig_traced (auto : bool) : MigState (Cat * list TxEvent) :=
  MkMig (MkH (ex_mig_handle auto) (cat0, []) [] 5) [].

Lemma ex_mig_inv auto : mig (api_inv ex_drv (r_reg ex_r1) ∅) (ex_mig auto).
Proof.
  split; [|done]. split; [done|]. split; [exact ex_r1_wf|]. split; [split_and!; try done; intros; simpl in *; lia|].
  exists [], (MkAbs 2 []). split_and!; [exact ex_rep|constructor|done|done| |simpl; set_solver].
  unfold ex_mig, ex_drv. simpl. unfold cat_stmts. simpl. rewrite dom_empty_L. set_solver.
Qed.

(** ** Properties *)

(** C7: registering a struct is all or nothing.  From a handle in order, on
    any backend whose result sets are finite, SqlRDBRegisterStruct returns and
    the handle is in order again: the mutex is released, every statement that
    was prepared for the catalogue is finalized.  When the result is OK the
    struct was registrable and is the one new entry of the registry, describing
    the columns that were given, and its table was synchronised: the migration
    ran on the entry, returned OK, and found the columns of the table to agree.
    With any other result, from the validation, an allocation, a refused
    statement or a table that does not agree, the registry has the entries it
    had.  Only when the text of the CREATE statement that check_strict reads in
    this call is one its scan never gets through (C38), it does not return. *)
Theorem register_struct_atomic {D} (drv : SqlRDBDriver D) `{!DriverLaws drv} N `{!FiniteRows drv N}
    (fuel : nat) R o x name cols n :
  (N < fuel)%nat → mig (api_inv drv R o) x →
  reg_capacity R < 2 ^ 62 → 0 ≤ n < SIZE_MOD → (n ≤ C2SQL_MAX_COLUMNS → n ≤ Z.of_nat (length cols)) →
  (∃ r x' R', SqlRDBRegisterStruct drv fuel (Some name) (Some cols) n x = Some (r, x') ∧
    mig (api_inv drv R' o) x' ∧ reg_outcome R name cols n r R' ∧
    (r = SQL_RDB_OK → ∃ sch x1 x2, register_entry name cols n x = Some (Some sch, x1) ∧
       reg_entries R' = reg_entries R ++ [sch] ∧
       c2sql_internal_migrate_table drv fuel sch x1 = Some (SQL_RDB_OK, x2) ∧ checked drv fuel sch x1 x2 ∧
       on_h h_unlock x2 = Some (tt, x'))) ∨
  (SqlRDBRegisterStruct drv fuel (Some name) (Some cols) n x = None ∧ register_stuck drv fuel name cols n x).
Proof.
  intros Hf Hx Hroom Hn Hl.
  destruct (register_struct_spec drv N o fuel Hf R name cols n x Hroom Hn Hl Hx)
    as [(r & x' & E & R' & Hi & Ho & _ & Hs)|H]; [left|by right].
  exists r, x', R'. split; [done|]. split; [done|]. split; [done|]. intros ->.
  destruct (Hs eq_refl) as (sch & x1 & x2 & E1 & He & (_ & Hc & _) & E2 & E3). exists sch, x1, x2.
  split_and!; try done. by apply migrate_checked.
Qed.

Lemma register_struct_atomic_witness :
  ∃ r x' R', SqlRDBRegisterStruct ex_drv 3 (Some "pair"%string) (Some ex_raw) 2 (ex_mig true) = Some (r, x') ∧
    mig (api_inv ex_drv R' ∅) x' ∧ reg_outcome (r_reg ex_r1) "pair" ex_raw 2 r R'.
Proof.
  destruct (register_struct_atomic ex_drv 2 3 (r_reg ex_r1) ∅ (ex_mig true) "pair" ex_raw 2)
    as [(r & x' & R' & E & Hi & Ho & _)|[E _]].
  - vm_compute. constructor.
  - apply ex_mig_inv.
  - reflexivity.
  - split; [discriminate|reflexivity].
  - intros _. discriminate.
  - exists r, x', R'. split; [exact E|]. split; [exact Hi|exact Ho].
  - apply (f_equal (fmap fst)) in E. vm_compute in E. discriminate E.
Defined.

(** A comment at the end of the CREATE statement: the registration does not return. *)
Definition ex_stuck_ddl : string := "CREATE TABLE pair (id INTEGER NOT NULL PRIMARY KEY, label TEXT NOT NULL) /* v2 */ STRICT".
Definition ex_stuck_cat : Catalogue :=
  [[]; [(pragma "table_info" "pair", [ex_id_row; ex_label_row]); (ddl_query "pair", [[txt ex_stuck_ddl]])]].

Example ex_register_stuck :
  SqlRDBRegisterStruct (cat_driver C2SQL_DIALECT_SQLITE ex_stuck_cat) 3 (Some "pair"%string) (Some ex_raw) 2 (ex_mig true) = None.
Proof. vm_compute. reflexivity. Qed.

Example ex_register_ok :
  (λ y, (y.1, sch_name <$> reg_entries (h_registry (hs_h (ms_h y.2))))) <$>
    SqlRDBRegisterStruct ex_drv 3 (Some "pair"%string) (Some ex_raw) 2 (ex_mig true) =
  Some (SQL_RDB_OK, ["item"%string; "pair"%string]).
Proof. vm_compute. reflexivity. Qed.

Example ex_register_refused :
  (λ y, (y.1, sch_name <$> reg_entries (h_registry (hs_h (ms_h y.2))))) <$>
    SqlRDBRegisterStruct ex_drv 3 (Some "pair"%string) (Some ex_raw) 2 (ex_mig false) =
  Some (SQL_RDB_ERR_SCHEMA_MISMATCH, ["item"%string]).
Proof. vm_compute. reflexivity. Qed.

(** *** Migrating one table *)

Definition ex_pair : SqlRDBSchema := MkSchema "pair" (sch_cols ex_raw_e) 2 0.

Lemma ex_pair_ok : schema_ok ex_pair.
Proof.
  destruct ex_r1_wf as (_ & [(_ & Hrest) _]%Forall_cons & _). split; [|exact Hrest].
  by apply identifier_valid_spec.
Qed.

Definition ex_locked (auto : bool) : MigState (Cat * list TxEvent) :=
  MkMig (MkH (set_h_mutex (MkMutex true true) (ex_mig_handle auto)) (cat0, []) [] 5) [].

Lemma ex_locked_inv auto : mig (locked (traced ex_drv) (r_reg ex_r1) ∅) (ex_locked auto).
Proof.
  destruct (ex_mig_inv auto) as [(HR & Hreg & Htx & ps & a & Hrep & Hnd & Hst & Hd & Hn & Hcx) _].
  split; [|done]. split_and!; try done. by exists ps, a.
Qed.

(** C20: the statements of a migration.  Synchronising a table with a schema
    returns, unless the scan of check_strict never ends, keeps the handle in
    order, and executes on the connection exactly this.  First the CREATE
    statement, whose error is the result; nothing and NO_MEMORY if its text
    could not be built.  Then, if the columns of the table could not be read,
    nothing, and that error is the result.  Then, with the columns that were
    read: nothing and SCHEMA_MISMATCH, if the STRICT check refuses, the columns
    that both have differ, the table has more, or it has fewer and auto_migrate
    is not set; nothing and OK, if they are all there; and otherwise the ALTER
    statements of exactly the columns the table does not have, in the order of
    the schema, up to the first that fails, whose error is the result. *)
Theorem migrate_commands {D} (drv : SqlRDBDriver D) `{!DriverLaws drv} N `{!FiniteRows drv N}
    (fuel : nat) R o x sch :
  (N < fuel)%nat → mig (locked (traced drv) R o) x → schema_ok sch →
  (∃ r x' rd cols x1 l1 l2, c2sql_internal_migrate_table (traced drv) fuel sch x = Some (r, x') ∧
    mig (locked (traced drv) R o) x' ∧ mlog x' = mlog x ++ l1 ++ l2 ∧
    create_and_read (traced drv) fuel sch x = Some ((rd, cols), x1) ∧ created (drv_dialect drv) sch rd l1 ∧
    if res_ok rd
    then ∃ stop x2, strict_check (traced drv) sch x1 = Some (stop, x2) ∧
      sync_commands (drv_dialect drv) (cfg_auto_migrate (mcfg x)) sch stop cols r l2
    else r = rd ∧ l2 = []) ∨
  (c2sql_internal_migrate_table (traced drv) fuel sch x = None ∧ migrate_stuck (traced drv) fuel sch x).
Proof.
  intros Hf Hx Hs.
  destruct (migrate_table_spec (traced drv) N o fuel Hf R sch x Hs Hx) as [(r & x' & E & Hx')|H]; [left|by right].
  destruct (migrate_emits drv fuel sch x r x' Hs E) as (rd & cols & x1 & l1 & l2 & E1 & Hl & Hc & H).
  by exists r, x', rd, cols, x1, l1, l2.
Qed.

Lemma migrate_commands_witness :
  ∃ r x' rd cols l1 l2, c2sql_internal_migrate_table (traced ex_drv) 3 ex_pair (ex_locked true) = Some (r, x') ∧
    mlog x' = mlog (ex_locked true) ++ l1 ++ l2 ∧ created C2SQL_DIALECT_SQLITE ex_pair rd l1 ∧
    if res_ok rd then ∃ stop, sync_commands C2SQL_DIALECT_SQLITE true ex_pair stop cols r l2 else r = rd ∧ l2 = [].
Proof.
  destruct (migrate_commands ex_drv 2 3 (r_reg ex_r1) ∅ (ex_locked true) ex_pair)
    as [(r & x' & rd & cols & x1 & l1 & l2 & E & _ & Hl & _ & Hc & H)|[E _]].
  - vm_compute. constructor.
  - apply ex_locked_inv.
  - exact ex_pair_ok.
  - exists r, x', rd, cols, l1, l2. split; [exact E|]. split; [exact Hl|]. split; [exact Hc|].
    destruct (res_ok rd); [|exact H]. destruct H as (stop & x2 & _ & H). exists stop. exact H.
  - apply (f_equal (fmap fst)) in E. vm_compute in E. discriminate E.
Defined.

Example ex_migrate_commands :
  (λ y, (y.1, mlog y.2)) <$> c2sql_internal_migrate_table (traced ex_drv) 3 ex_pair (ex_locked true) =
  Some (SQL_RDB_OK,
    [(CmdExec (create_sql C2SQL_DIALECT_SQLITE ex_pair), SQL_RDB_OK);
     (CmdExec (alter_sql C2SQL_DIALECT_SQLITE ex_pair (MkColumnDef "label"%string SQL_TYPE_TEXT 8 32 0)), SQL_RDB_OK)]).
Proof. vm_compute. reflexivity. Qed.

(** C29: a migration that succeeds has checked the table.  When the result is
    OK, it has read the columns of the table in this very run, after its CREATE
    and, when there were columns to add, after its last ALTER; after that
    reading nothing was executed, and the columns it gave are those of the
    schema: the same number, in the same order, each with the name, the class of
    the type, NOT NULL and PRIMARY KEY of its definition, and unique if the
    definition says so. *)
Theorem migrate_ok_agrees {D} (drv : SqlRDBDriver D) (fuel : nat) sch x x' :
  schema_ok sch →
  c2sql_internal_migrate_table (traced drv) fuel sch x = Some (SQL_RDB_OK, x') →
  ∃ cols x1 x2, create_and_read (traced drv) fuel sch x = Some ((SQL_RDB_OK, cols), x1) ∧
    strict_check (traced drv) sch x1 = Some (false, x2) ∧
    ((Forall2 agrees (sch_cols sch) cols ∧ x' = x2 ∧ mlog x' = mlog x1) ∨
     ∃ x3 cols', (length cols < length (sch_cols sch))%nat ∧ cfg_auto_migrate (mcfg x2) = true ∧
       alter_loop (traced drv) sch (length cols) (length (sch_cols sch) - length cols) x2 = Some (SQL_RDB_OK, x3) ∧
       on_h (read_existing (traced drv) fuel (sch_name sch)) x3 = Some ((SQL_RDB_OK, cols'), x') ∧
       mlog x' = mlog x3 ∧ Forall2 agrees (sch_cols sch) cols').
Proof.
  intros (_ & Hn & _) E. destruct (migrate_checked _ _ _ _ _ Hn E) as (cols & x1 & x2 & E1 & E2 & H).
  exists cols, x1, x2. split; [done|]. split; [done|]. destruct H as [[Ha ->]|(x3 & cols' & Hl & _ & Hc & E3 & E4 & Ha)].
  - left. split_and!; [done|done|].
    eapply (silent_strict_check drv tlog), E2; intros; [apply silent_log_quiet|apply silent_log_err].
  - right. exists x3, cols'. split_and!; try done.
    eapply (silent_on_h tlog), E4. apply silent_read_existing; intros; [apply silent_log_quiet|apply silent_h_alloc].
Qed.

Lemma migrate_ok_agrees_witness :
  ∃ x' cols x1 x2, c2sql_internal_migrate_table (traced ex_drv) 3 ex_pair (ex_locked true) = Some (SQL_RDB_OK, x') ∧
    create_and_read (traced ex_drv) 3 ex_pair (ex_locked true) = Some ((SQL_RDB_OK, cols), x1) ∧
    strict_check (traced ex_drv) ex_pair x1 = Some (false, x2).
Proof.
  destruct (c2sql_internal_migrate_table (traced ex_drv) 3 ex_pair (ex_locked true)) as [[r x']|] eqn:E;
    [|vm_compute in E; discriminate E].
  assert (r = SQL_RDB_OK) as ->.
  { apply (f_equal (fmap fst)) in E. vm_compute in E. injection E as <-. reflexivity. }
  destruct (migrate_ok_agrees ex_drv 3 ex_pair (ex_locked true) x' ex_pair_ok E) as (cols & x1 & x2 & E1 & E2 & _).
  exists x', cols, x1, x2. split; [reflexivity|]. split; [exact E1|exact E2].
Defined.

(** ** The STRICT keyword *)



(** C38: the search for STRICT may not end.  A table whose CREATE statement
    has a comment after its last parenthesis makes the scan stand still on the
    first character that is neither a separator nor part of a word: no number
    of turns is enough. *)
Theorem strict_scan_diverges fuel : strict_scan fuel (list_ascii_of_string " /* v2 */ STRICT") = None.
Proof.
  destruct fuel as [|fuel]; [done|]. cbn [strict_scan list_ascii_of_string].
  change (drop_while is_sep _) with (list_ascii_of_string "/* v2 */ STRICT").
  change (drop_while is_word _) with (list_ascii_of_string "/* v2 */ STRICT").
  change (strict_at _) with false. change (length _ <? 6)%nat with false. cbn iota.
  apply strict_scan_stuck; [done|done|simpl; lia|done].
Qed.
