(* ===== verification/Generated.v ===== *)
(** * The generated accessors (src/generated/persons_schema.c, sessions_schema.c)

    The structs, their column tables and the calls that register them, and the
    capacity-guarded write, on a handle and the heap of the conditions.  The
    offsets are those of the layout of a C struct. *)

From Stdlib Require Import Ascii String Strings.Byte.
From coqutil Require Import Byte Word.LittleEndianList.
From S2P Require Import Prelude Types Support Driver Condition Registry RegistryProofs TypeMapping TypeMappingProofs.
From S2P Require Import Handle Api ApiSafety SqlRead Migration.

(** ** Layout of structs *)

(** A member: its size and its alignment. *)
Record Member : Type := MkMember { mb_size : Z; mb_align : Z }.

Definition int32_member : Member := MkMember 4 4.
Definition double_member : Member := MkMember 8 8.
Definition char_array (n : Z) : Member := MkMember n 1.

Definition align_up (n a : Z) : Z := (n + a - 1) / a * a.

(** The offsets of the members from [off] on, and where the last one ends. *)
Fixpoint member_offsets (off : Z) (ms : list Member) : list Z * Z :=
  match ms with
  | [] => ([], off)
  | m :: ms =>
      let o := align_up off (mb_align m) in
      let '(os, stop) := member_offsets (o + mb_size m) ms in
      (o :: os, stop)
  end.

Definition offsetof (ms : list Member) (i : nat) : Z := default 0 ((member_offsets 0 ms).1 !! i).
Definition sizeof_member (ms : list Member) (i : nat) : Z := from_option mb_size 0 (ms !! i).
Definition sizeof (ms : list Member) : Z :=
  align_up (member_offsets 0 ms).2 (foldr Z.max 1 (mb_align <$> ms)).

(** ** persons_schema.c *)

(** int32_t id; char name[32]; double score. *)
Definition Person : list Member := [int32_member; char_array 32; double_member].

Definition PERSONS_COL_COUNT : Z := 3.

Definition PERSONS_COLS : list RawColumnDef :=
  [MkColumnDef (Some "id"%string) SQL_TYPE_INT32 (offsetof Person 0) (sizeof_member Person 0) SQL_COL_FLAG_PRIMARY_KEY;
   MkColumnDef (Some "name"%string) SQL_TYPE_TEXT (offsetof Person 1) (sizeof_member Person 1) SQL_COL_FLAG_NONE;
   MkColumnDef (Some "score"%string) SQL_TYPE_REAL (offsetof Person 2) (sizeof_member Person 2) SQL_COL_FLAG_NULLABLE].

(** ** sessions_schema.c *)

(** int32_t id; char token[64]. *)
Definition Session : list Member := [int32_member; char_array 64].

Definition SESSIONS_COL_COUNT : Z := 2.
Definition SESSIONS_MAX_RECORDS : Z := 3.

Definition SESSIONS_COLS : list RawColumnDef :=
  [MkColumnDef (Some "id"%string) SQL_TYPE_INT32 (offsetof Session 0) (sizeof_member Session 0) SQL_COL_FLAG_PRIMARY_KEY;
   MkColumnDef (Some "token"%string) SQL_TYPE_TEXT (offsetof Session 1) (sizeof_member Session 1) SQL_COL_FLAG_NONE].

Section calls.
Context {D : Type} (drv : SqlRDBDriver D).

Definition RegisterPersons (fuel : nat) : M (MigState D) SqlRDBResult :=
  SqlRDBRegisterStruct drv fuel (Some "persons"%string) (Some PERSONS_COLS) PERSONS_COL_COUNT.

Definition RegisterSessions (fuel : nat) : M (MigState D) SqlRDBResult :=
  SqlRDBRegisterStruct drv fuel (Some "sessions"%string) (Some SESSIONS_COLS) SESSIONS_COL_COUNT.

(** The handle, and the memory of the caller's conditions. *)
Record GState : Type := MkG {
  g_h : HState D;
  g_cond : CondMem;
}.

Definition in_handle {A} (m : M (HState D) A) : M GState A := zoom g_h (λ h s, MkG h (g_cond s)) m.
Definition in_cond {A} (m : M CondMem A) : M GState A := zoom g_cond (λ c s, MkG (g_h s) c) m.

(** The condition a pointer that is not NULL designates. *)
Definition cond_arg (p : ptr) : M GState SqlRDBCondition := λ s,
  t ← cond_tree (S (size (cm_heap (g_cond s)))) (cm_heap (g_cond s)) p; Some (t, s).

(** row->id *)
Definition session_id (row : list byte) : option Z :=
  bs ← bytes_at row (offsetof Session 0) 4; Some (to_signed 32 (le_combine bs)).

(** The counts are 0 until SqlRDBCount writes them; SQL_OP_EQ is 1. *)
Definition WriteSessionsGuarded (row : option (list byte)) (null_map : option (list byte)) : M GState SqlRDBResult :=
  match row with
  | None => mret SQL_RDB_ERR_INVALID_ARG
  | Some row =>
      out ← in_handle (SqlRDBCount drv (Some "sessions"%string) None);
      let '(r, total) := out in
      if negb (res_ok r) then mret r
      else
        id ← mdef (session_id row);
        pk ← in_cond (SqlRDBCondInt (Some "id"%string) 1 id);
        if (pk =? NULL)%N then mret SQL_RDB_ERR_NO_MEMORY
        else
          cond ← cond_arg pk;
          out ← in_handle (SqlRDBCount drv (Some "sessions"%string) (Some cond));
          let '(r, existing) := out in
          in_cond (SqlRDBCondFree pk);;
          if negb (res_ok r) then mret r
          else if (default 0 existing =? 0) && (SESSIONS_MAX_RECORDS <=? default 0 total) then
            mret SQL_RDB_ERR_CAPACITY_EXCEEDED
          else in_handle (SqlRDBWrite drv (Some "sessions"%string) (Some row) null_map)
  end.
End calls.
Arguments GState D : clear implicits.
Arguments MkG {D} _ _.

(** What the registry holds once they are registered. *)
Definition persons_schema : SqlRDBSchema :=
  MkSchema "persons" [MkColumnDef "id"%string SQL_TYPE_INT32 0 4 1; MkColumnDef "name"%string SQL_TYPE_TEXT 4 32 0;
                      MkColumnDef "score"%string SQL_TYPE_REAL 40 8 2] 3 0.
Definition sessions_schema : SqlRDBSchema :=
  MkSchema "sessions" [MkColumnDef "id"%string SQL_TYPE_INT32 0 4 1; MkColumnDef "token"%string SQL_TYPE_TEXT 4 64 0] 2 0.
