(* ===== verification/GeneratedTheorems.v ===== *)
(** * The generated accessors: registered as declared, never over capacity

    Registration gives the registry exactly the schema of the struct, whose
    columns lie inside of it; a guarded write never makes the table longer than
    SESSIONS_MAX_RECORDS and frees the condition it built on every path. *)

From Stdlib Require Import Ascii String Strings.Byte.
From coqutil Require Import Byte Word.LittleEndianList.
From S2P Require Import Prelude Types Support Driver StmtCacheSpec StmtCacheTheorems Condition QueryBuilder QueryBuilderProofs Registry.
From S2P Require Import RegistryProofs SqlText SqlTextProofs TypeMapping TypeMappingProofs Relational TableDriver Handle Api.
From S2P Require Import ApiProofs ApiSafety SqlHandle SqlBlocks SqlApi SqlRead SqlTables ApiTheorems SqlTheorems SqlTx.
From S2P Require Import Migration MigrationSafety MigrationTheorems Generated.

(** ** The schemas *)

Lemma describes_inj cols n ds ds' : describes cols n ds → describes cols n ds' → ds = ds'.
Proof.
  intros H H'. apply list_eq. intros i. unfold describes in *.
  destruct (take n cols !! i) as [c|] eqn:Hc.
  - destruct (Forall2_lookup_l _ _ _ _ _ H Hc) as (d & -> & Hd).
    destruct (Forall2_lookup_l _ _ _ _ _ H' Hc) as (d' & -> & Hd'). congruence.
  - apply lookup_ge_None in Hc. rewrite !lookup_ge_None_2; [done| |].
    + by rewrite <-(Forall2_length _ _ _ H').
    + by rewrite <-(Forall2_length _ _ _ H).
Qed.

Lemma pk_ok_inj {T} (cols : list (ColumnDef T)) pk pk' : pk_ok cols pk → pk_ok cols pk' → pk = pk'.
Proof.
  intros H H'. destruct H as [(-> & Hn)|(i & c & -> & Hi & Hc & Hb)], H' as [(-> & Hn')|(j & c' & -> & Hj & Hc' & Hb')];
    [done| | |].
  - by rewrite (Hn _ _ Hj) in Hc'.
  - by rewrite (Hn' _ _ Hi) in Hc.
  - f_equal. destruct (lt_eq_lt_dec i j) as [[Hlt| ->]|Hlt]; [|done|].
    + by rewrite (Hb' _ _ Hlt Hi) in Hc.
    + by rewrite (Hb _ _ Hlt Hj) in Hc'.
Qed.

(** A registration that succeeds adds the schema the definitions describe. *)
Lemma registered_is R R' cols r sch :
  Forall schema_ok (reg_entries R') → schema_ok sch → describes cols (Z.to_nat (sch_col_count sch)) (sch_cols sch) →
  reg_outcome R (sch_name sch) cols (sch_col_count sch) r R' →
  reg_entries R' = reg_entries R ++ (if res_ok r then [sch] else []).
Proof.
  intros Hok Hsch Hd Ho. unfold reg_outcome in Ho. destruct (res_ok r); [|by rewrite app_nil_r].
  destruct Ho as (_ & e & He & Hn & Hd' & Hc). rewrite He in Hok |- *. f_equal. f_equal.
  apply Forall_app in Hok as [_ Hok]. apply Forall_singleton in Hok as (_ & _ & _ & _ & Hpk).
  pose proof (describes_inj _ _ _ _ Hd Hd') as Hcols. destruct Hsch as (_ & _ & _ & _ & Hpk').
  destruct e as [ne ce nce pe], sch as [ns cs ncs ps]. simpl in *. subst. f_equal. by eapply pk_ok_inj.
Qed.

Lemma persons_schema_ok : schema_ok persons_schema.
Proof.
  split; [by apply identifier_valid_spec|]. split; [done|]. split; [done|]. split; [split|].
  - by apply (bool_decide_unpack _).
  - repeat constructor; try done; by apply identifier_valid_spec.
  - right. exists 0%nat. eexists. split_and!; [done|done|done|lia].
Qed.

Lemma sessions_schema_ok : schema_ok sessions_schema.
Proof.
  split; [by apply identifier_valid_spec|]. split; [done|]. split; [done|]. split; [split|].
  - by apply (bool_decide_unpack _).
  - repeat constructor; try done; by apply identifier_valid_spec.
  - right. exists 0%nat. eexists. split_and!; [done|done|done|lia].
Qed.

(** Buffers of the size of the struct, with a bitmap of a byte. *)
Definition struct_buffers (ms : list Member) (row : list byte) (nulls : option (list byte)) : Prop :=
  Z.of_nat (length row) = sizeof ms ∧ ∀ m, nulls = Some m → 1 ≤ Z.of_nat (length m).

Ltac layout_tac :=
  split; [repeat constructor; unfold width, INT_MAX; simpl; try lia; done|];
  intros [|[|[|i]]] [|[|[|j]]] c1 c2 Hij H1 H2; simplify_eq/=; unfold disjoint_cols, width; simpl; lia.

Lemma person_buffers row nulls : struct_buffers Person row nulls → buffers_ok persons_schema row nulls.
Proof.
  intros [Hl Hm]. change (sizeof Person) with 48 in Hl. unfold buffers_ok. rewrite Hl.
  split; [|split; [by repeat constructor|done]]. split_and!; [layout_tac|done|simpl; lia|done].
Qed.

Lemma session_buffers row nulls : struct_buffers Session row nulls → buffers_ok sessions_schema row nulls.
Proof.
  intros [Hl Hm]. change (sizeof Session) with 68 in Hl. unfold buffers_ok. rewrite Hl.
  split; [|split; [by repeat constructor|done]]. split_and!; [layout_tac|done|simpl; lia|done].
Qed.

(** ** The guarded write *)

Lemma chosen_all {D} (drv : SqlRDBDriver D) `{!DriverLaws drv} ctx `{!SqlLaws drv ctx} rows :
  chosen drv ctx None rows = rows.
Proof. unfold chosen. induction rows as [|r rows IH]; [done|]. by rewrite filter_cons_True, IH. Qed.

(** A write makes the table longer only when no row has the key. *)
Lemma length_upsert cmp key sets new rows :
  length (upsert cmp key sets new rows) =
    if decide (filter (λ r, same_key cmp key new r) rows = []) then S (length rows) else length rows.
Proof.
  unfold upsert. destruct (existsb _ rows) eqn:Ex.
  - apply existsb_exists in Ex as (r & Hr%list_elem_of_In & E). rewrite length_fmap, decide_False; [done|].
    intros Hn. assert (r ∈ filter (λ r, same_key cmp key new r) rows) as Hin by (apply list_elem_of_filter; by rewrite E).
    rewrite Hn in Hin. by apply elem_of_nil in Hin.
  - rewrite length_app, Nat.add_1_r, decide_True; [done|]. apply list.elem_of_nil_inv.
    intros r [Hk Hr]%list_elem_of_filter. apply not_true_iff_false in Ex. apply Ex, existsb_exists.
    exists r. split; [by apply list_elem_of_In|]. by apply Is_true_true.
Qed.

(** The condition of the guard, built on the heap and freed. *)
Lemma cond_int_run col id h al :
  ∃ p, SqlRDBCondInt (Some col) 1 id (MkCondMem h al) =
      Some (if (malloc_ok al).1 then p else NULL,
            MkCondMem (if (malloc_ok al).1 then <[p := NLeaf col SQL_OP_EQ SQL_TYPE_INT64 (VInt id)]> h else h) (malloc_ok al).2) ∧
    p ≠ NULL ∧ h !! p = None.
Proof. exact (alloc_node_spec (NLeaf col SQL_OP_EQ SQL_TYPE_INT64 (VInt id)) h al). Qed.

Lemma leaf_free_run h al p col id :
  p ≠ NULL → h !! p = None →
  SqlRDBCondFree p (MkCondMem (<[p := NLeaf col SQL_OP_EQ SQL_TYPE_INT64 (VInt id)]> h) al) = Some (tt, MkCondMem h al).
Proof.
  intros Hp Hh. unfold SqlRDBCondFree. erewrite (cond_free_spec (COND_LEAF col SQL_OP_EQ SQL_TYPE_INT64 (VInt id)) _ _ _ _ {[p]}).
  - do 3 f_equal. rewrite without_singleton. by apply delete_insert_id.
  - split; [done|]. by rewrite lookup_insert_eq.
  - simpl. lia.
Qed.

Section guarded.
Context {D : Type} (drv : SqlRDBDriver D) `{!DriverLaws drv} (ctx : ptr) `{!SqlLaws drv ctx}.
Context (V : Setting) (o : gset ptr).

(** The condition of the guard. *)
Definition with_id (id : Z) : SqlRDBCondition := by_key sessions_schema SQL_TYPE_INT64 (VInt id).

Lemma row_id row nulls :
  row_fine drv ctx sessions_schema row nulls →
  ∃ id, session_id row = Some id ∧
    cell_at (new_row (col_names sessions_schema) (row_cells sessions_schema row nulls)) "id" = CInt id.
Proof.
  intros (_ & ([Hf _] & _) & _ & Hkey). specialize (Hkey eq_refl). apply Forall_cons in Hf as [(_ & _ & Hl & _) _].
  change (0 + 4 ≤ Z.of_nat (length row)) in Hl.
  exists (to_signed 32 (le_combine (slice row 0 4))). split.
  - unfold session_id. by rewrite bytes_at_slice by (change (offsetof Session 0) with 0; lia).
  - change (pk_name sessions_schema) with "id"%string in Hkey.
    assert (∀ c, row_cells sessions_schema row nulls !! 0%nat = Some c →
      cell_at (new_row (col_names sessions_schema) (row_cells sessions_schema row nulls)) "id" = c) as Hat
      by (intros c Hc; by apply (cell_at_new _ _ 0%nat); [apply names_nodup, sessions_schema_ok|unfold row_cells; by rewrite length_imap|done|]).
    unfold row_cells in Hat at 1. cbn [sessions_schema sch_cols imap] in Hat.
    specialize (Hat _ eq_refl). rewrite Hat in Hkey |- *.
    by destruct (match nulls with Some m => bit m 0 | None => false end).
Qed.

(** What a call does: refuse, write, or give up. *)
Definition refused (t : Table) (id : Z) : Prop :=
  SESSIONS_MAX_RECORDS ≤ Z.of_nat (length (t_rows t)) ∧ chosen drv ctx (Some (with_id id)) (t_rows t) = [].

#[local] Instance refused_dec t id : Decision (refused t id).
Proof. unfold refused. apply _. Defined.

Definition guarded_post (t : Table) (T : Db → Z → Prop) (row : list byte) (nulls : option (list byte)) (id : Z)
    (r : SqlRDBResult) (s : HState D) : Prop :=
  let t' := written_table drv ctx t sessions_schema (row_cells sessions_schema row nulls) in
  let T' := written drv ctx "sessions" sessions_schema t (row_cells sessions_schema row nulls) T in
  (refused t id ∧ r = SQL_RDB_ERR_CAPACITY_EXCEEDED ∧ at_rest drv ctx V o T s) ∨
  (¬ refused t id ∧ r = SQL_RDB_OK ∧ at_rest drv ctx V o T' s ∧ stored V "sessions" sessions_schema t' T' ∧
   Z.of_nat (length (t_rows t')) ≤ Z.max SESSIONS_MAX_RECORDS (Z.of_nat (length (t_rows t)))) ∨
  (other_code r = true ∧ at_rest drv ctx V o (hurting drv ctx T) s).

Lemma guarded_bound t row nulls id :
  ¬ refused t id →
  cell_at (new_row (col_names sessions_schema) (row_cells sessions_schema row nulls)) "id" = CInt id →
  Z.of_nat (length (t_rows (written_table drv ctx t sessions_schema (row_cells sessions_schema row nulls)))) ≤
    Z.max SESSIONS_MAX_RECORDS (Z.of_nat (length (t_rows t))).
Proof.
  intros Hr Hc. unfold written_table. cbn [t_rows]. unfold put_row.
  change (has_pk sessions_schema) with true. cbn iota. rewrite length_upsert. case_decide as Hk; [|lia].
  assert (¬ SESSIONS_MAX_RECORDS ≤ Z.of_nat (length (t_rows t))); [|lia]. intros Hm. apply Hr. split; [done|].
  unfold with_id, by_key. by erewrite (chosen_key drv ctx); [exact Hk|].
Qed.

Lemma searchable_all t : searchable drv ctx t None.
Proof. split; [apply no_cond_small|]. by repeat split; try constructor. Qed.

Lemma in_handle_run {A} (m : M (HState D) A) (s : GState D) x h :
  m (g_h s) = Some (x, h) → in_handle m s = Some (x, MkG h (g_cond s)).
Proof. apply (zoom_run g_h (λ h s, MkG h (g_cond s))). Qed.

Lemma in_cond_run {A} (m : M CondMem A) (s : GState D) x c :
  m (g_cond s) = Some (x, c) → in_cond m s = Some (x, MkG (g_h s) c).
Proof. apply (zoom_run g_cond (λ c s, MkG (g_h s) c)). Qed.

Section call.
Context (t : Table) (T : Db → Z → Prop) (row : list byte) (nulls : option (list byte)) (id : Z).
Hypotheses (Hst : stored V "sessions" sessions_schema t T) (Hrow : row_fine drv ctx sessions_schema row nulls)
  (Hid : cell_at (new_row (col_names sessions_schema) (row_cells sessions_schema row nulls)) "id" = CInt id).

(** Counting, and what a failure leaves. *)
Lemma count_sessions c h :
  at_rest drv ctx V o T h → searchable drv ctx t c →
  ∃ r n h', SqlRDBCount drv (Some "sessions"%string) c h = Some ((r, n), h') ∧
    if res_ok r then n = Some (Z.of_nat (length (chosen drv ctx c (t_rows t)))) ∧ at_rest drv ctx V o T h'
    else guarded_post t T row nulls id r h'.
Proof.
  intros Hs Hc. destruct (count_run drv ctx V o "sessions" sessions_schema t T c h Hs Hst Hc) as ([r n] & h' & E & Hi & Hx).
  exists r, n, h'. split; [done|]. unfold count_post in Hx. cbn [fst snd] in Hx. destruct (res_ok r) eqn:Er.
  - by destruct Hx.
  - right; right. by destruct Hx as (? & _ & ?).
Qed.

Lemma with_id_searchable : searchable drv ctx t (Some (with_id id)).
Proof.
  destruct Hst as (_ & Hd & _), Hrow as (_ & Hok & Hcells). eapply by_key_searchable; try done.
  - apply sessions_schema_ok.
  - by eapply row_cells_typed.
Qed.

(** The counts tell whether the row is refused. *)
Lemma guard_test :
  (Z.of_nat (length (chosen drv ctx (Some (with_id id)) (t_rows t))) =? 0) &&
  (SESSIONS_MAX_RECORDS <=? Z.of_nat (length (chosen drv ctx None (t_rows t)))) = bool_decide (refused t id).
Proof.
  rewrite chosen_all. apply eq_true_iff_eq. rewrite bool_decide_eq_true, andb_true_iff, Z.eqb_eq, Z.leb_le.
  unfold refused. destruct (chosen _ _ _ _); simpl; split; intros [H1 H2]; (split; [|done || lia]); done || lia.
Qed.

(** The write, when it is allowed. *)
Lemma guarded_write h :
  at_rest drv ctx V o T h → ¬ refused t id →
  ∃ r h', SqlRDBWrite drv (Some "sessions"%string) (Some row) nulls h = Some (r, h') ∧ guarded_post t T row nulls id r h'.
Proof.
  intros Hs Hr. destruct (write_run drv ctx V o "sessions" sessions_schema t T row nulls h Hs Hst Hrow) as (r & h' & E & H).
  exists r, h'. split; [done|]. destruct (res_ok r) eqn:Er.
  - right; left. apply res_ok_true in Er. split; [done|]. split; [done|]. split; [done|].
    split; [by apply written_stored|by eapply guarded_bound].
  - by right; right.
Qed.

Lemma guarded_run s :
  session_id row = Some id → at_rest drv ctx V o T (g_h s) →
  ∃ r s', WriteSessionsGuarded drv (Some row) nulls s = Some (r, s') ∧
    cm_heap (g_cond s') = cm_heap (g_cond s) ∧ guarded_post t T row nulls id r (g_h s').
Proof.
  intros Hrid Hs. destruct s as [h [heap al]]. unfold WriteSessionsGuarded.
  destruct (count_sessions None h Hs (searchable_all t)) as (r1 & n1 & h1 & E1 & H1).
  rewrite (bind_run _ _ _ _ _ (in_handle_run _ (MkG h (MkCondMem heap al)) _ _ E1)). cbn [g_cond].
  destruct (res_ok r1) eqn:Er1; cbn [negb]; [destruct H1 as [-> Hs1]|by eexists _, _].
  rewrite Hrid. cbn [mdef]. erewrite bind_run by reflexivity.
  destruct (cond_int_run "id" id heap al) as (p & Ep & Hp & Hfresh).
  rewrite (bind_run _ _ _ _ _ (in_cond_run _ (MkG h1 (MkCondMem heap al)) _ _ Ep)). cbn [g_h].
  destruct (malloc_ok al) as [[] al']; cbn [fst snd].
  2:{ rewrite N.eqb_refl. eexists _, _. split; [done|]. split; [done|]. right; right. split; [done|].
      destruct Hs1 as [Hi Ht]. split; [done|by apply tidy_hurting]. }
  rewrite (proj2 (N.eqb_neq _ _) Hp). set (heap' := <[p := _]> heap).
  assert (cond_arg p (MkG h1 (MkCondMem heap' al')) = Some (with_id id, MkG h1 (MkCondMem heap' al'))) as Ea
    by (unfold cond_arg, heap'; simpl; by rewrite lookup_insert_eq).
  rewrite (bind_run _ _ _ _ _ Ea).
  destruct (count_sessions (Some (with_id id)) h1 Hs1 with_id_searchable) as (r2 & n2 & h2 & E2 & H2).
  rewrite (bind_run _ _ _ _ _ (in_handle_run _ (MkG h1 (MkCondMem heap' al')) _ _ E2)). cbn [g_cond].
  rewrite (bind_run _ _ _ _ _ (in_cond_run _ (MkG h2 (MkCondMem heap' al')) _ _ (leaf_free_run heap al' p "id" id Hp Hfresh))).
  cbn [g_h]. destruct (res_ok r2) eqn:Er2; cbn [negb]; [destruct H2 as [-> Hs2]|by eexists _, _].
  cbn [from_option Datatypes.id]. rewrite guard_test. case_bool_decide as Href.
  - eexists _, _. split; [done|]. split; [done|]. by left.
  - destruct (guarded_write h2 Hs2 Href) as (r & h' & E & H).
    rewrite (in_handle_run _ (MkG h2 (MkCondMem heap al')) _ _ E). by eexists _, _.
Qed.
End call.

(** ** Many guarded writes *)

Fixpoint guarded_writes (rows : list (list byte)) : M (GState D) (list SqlRDBResult) :=
  match rows with
  | [] => mret []
  | row :: rows => r ← WriteSessionsGuarded drv (Some row) None; l ← guarded_writes rows; mret (r :: l)
  end.

(** No transaction is open and the table has at most [n] rows. *)
Definition at_most (n : Z) : Db → Z → Prop := λ b _,
  db_frames b = [] ∧ ∃ t, db_tables b !! "sessions"%string = Some t ∧ declared t sessions_schema ∧ table_ok t ∧
    Z.of_nat (length (t_rows t)) ≤ n.

Lemma at_most_table n h :
  found (st_registry V) "sessions" sessions_schema → at_rest drv ctx V o (at_most n) h →
  ∃ t b, stored V "sessions" sessions_schema t (exactly b) ∧ db_frames b = [] ∧ Z.of_nat (length (t_rows t)) ≤ n ∧
    at_rest drv ctx V o (exactly b) h.
Proof.
  intros Hf Hs. pose proof Hs as (_ & _ & _ & n0 & Hfr & t & Ht & Hd & Hok & Hn).
  exists t, (the_db (hs_db h)). split; [by split_and!; try (by destruct Hok); intros b m ->|].
  split; [done|]. split; [done|]. by eapply at_rest_exactly.
Qed.

Lemma at_most_intro n t b h :
  db_frames b = [] → stored V "sessions" sessions_schema t (exactly b) → Z.of_nat (length (t_rows t)) ≤ n →
  at_rest drv ctx V o (exactly b) h → at_rest drv ctx V o (at_most n) h.
Proof.
  intros Hfr (_ & Hd & Hok & HT) Hn [Hi Ht]. split; [done|]. eapply tidy_mono; [|exact Ht].
  intros b' m ->. split; [done|]. exists t. by rewrite (HT b 0 eq_refl).
Qed.

Lemma guarded_step n row s :
  SESSIONS_MAX_RECORDS ≤ n → found (st_registry V) "sessions" sessions_schema →
  row_fine drv ctx sessions_schema row None → at_rest drv ctx V o (at_most n) (g_h s) →
  ∃ r s', WriteSessionsGuarded drv (Some row) None s = Some (r, s') ∧
    cm_heap (g_cond s') = cm_heap (g_cond s) ∧ at_rest drv ctx V o (at_most n) (g_h s').
Proof.
  intros Hn Hf Hrow Hs. destruct (at_most_table n _ Hf Hs) as (t & b & Hst & Hfr & Hlen & Hb).
  destruct (row_id row None Hrow) as (id & Hrid & Hid).
  destruct (guarded_run t (exactly b) row None id Hst Hrow Hid s Hrid Hb) as (r & s' & E & Hheap & Hpost).
  exists r, s'. split; [done|]. split; [done|].
  destruct Hpost as [(_ & _ & Hr)|[(_ & _ & [Hi Ht] & Hst' & Hl)|(_ & [Hi Ht])]].
  - by eapply at_most_intro.
  - split; [done|]. eapply tidy_mono; [|exact Ht]. intros b' m Hw. pose proof Hst' as (_ & Hd & Hok & HT).
    split; [by destruct Hw as (b0 & n0 & -> & -> & _)|]. eexists. split; [by eapply HT|]. split; [done|]. split; [done|]. lia.
  - eapply at_most_intro; [done..|]. split; [done|]. eapply tidy_mono; [|exact Ht].
    by intros b' m (b0 & n0 & -> & [->|[? _]]).
Qed.
End guarded.

(** ** Properties *)

(** C31: the schemas of the generated structs.  On a handle in order and any
    backend whose result sets are finite, RegisterPersons and RegisterSessions
    return and keep the handle in order; with OK the registry has one entry
    more, the schema of the struct, and with an error the entries it had.  They
    do not return only when the catalogue has, for the table, the text of a
    CREATE statement that the scan of check_strict never gets through (C38).
    And every buffer of the size of the struct has room for the columns, which
    do not overlap and have the size that reading them needs. *)
Theorem generated_registered {D} (drv : SqlRDBDriver D) `{!DriverLaws drv} N `{!FiniteRows drv N} (fuel : nat) R o x :
  (N < fuel)%nat → mig (api_inv drv R o) x → reg_capacity R < 2 ^ 62 →
  ends_or (register_stuck drv fuel "persons" PERSONS_COLS 3) (RegisterPersons drv fuel)
    (λ r x', ∃ R', mig (api_inv drv R' o) x' ∧
       reg_entries R' = reg_entries R ++ (if res_ok r then [persons_schema] else [])) x ∧
  ends_or (register_stuck drv fuel "sessions" SESSIONS_COLS 2) (RegisterSessions drv fuel)
    (λ r x', ∃ R', mig (api_inv drv R' o) x' ∧
       reg_entries R' = reg_entries R ++ (if res_ok r then [sessions_schema] else [])) x ∧
  (∀ row nulls, struct_buffers Person row nulls → buffers_ok persons_schema row nulls) ∧
  (∀ row nulls, struct_buffers Session row nulls → buffers_ok sessions_schema row nulls).
Proof.
  intros Hf Hx Hroom.
  assert (∀ cols sch, schema_ok sch → describes cols (Z.to_nat (sch_col_count sch)) (sch_cols sch) →
    (sch_col_count sch ≤ C2SQL_MAX_COLUMNS → sch_col_count sch ≤ Z.of_nat (length cols)) → 0 ≤ sch_col_count sch < SIZE_MOD →
    ends_or (register_stuck drv fuel (sch_name sch) cols (sch_col_count sch))
      (SqlRDBRegisterStruct drv fuel (Some (sch_name sch)) (Some cols) (sch_col_count sch))
      (λ r x', ∃ R', mig (api_inv drv R' o) x' ∧ reg_entries R' = reg_entries R ++ (if res_ok r then [sch] else [])) x) as Hreg.
  { intros cols sch Hok Hd Hl Hn.
    destruct (register_struct_spec drv N o fuel Hf R (sch_name sch) cols (sch_col_count sch) x ltac:(lia) Hn Hl Hx)
      as [(r & x' & E & R' & Hi & Ho & _)|H]; [left|by right].
    exists r, x'. split; [done|]. exists R'. split; [done|]. eapply registered_is; try done. by destruct Hi as [(_ & (_ & ? & _) & _) _]. }
  split; [apply (Hreg PERSONS_COLS persons_schema persons_schema_ok); [by repeat constructor|done|done]|].
  split; [apply (Hreg SESSIONS_COLS sessions_schema sessions_schema_ok); [by repeat constructor|done|done]|].
  split; [apply person_buffers|apply session_buffers].
Qed.

Section claims.
Context {D : Type} (drv : SqlRDBDriver D) `{!DriverLaws drv} (ctx : ptr) `{!SqlLaws drv ctx}.
Context (V : Setting) (o : gset ptr).

(** C17: the guarded write.  WriteSessionsGuarded of a session that may be
    written returns, and the condition it built is freed on every path.  If the
    table has SESSIONS_MAX_RECORDS rows or more and none with the id, it
    refuses: CAPACITY_EXCEEDED, or an error before that, and nothing is
    written.  Otherwise OK means that the session was written as SqlRDBWrite
    does, and the table has at most SESSIONS_MAX_RECORDS rows or as many as
    before; an error, which CAPACITY_EXCEEDED then is not, leaves it as it was,
    but for a transaction that was open, which may be doomed or undone. *)
Theorem guarded_write_capacity t T row nulls s :
  at_rest drv ctx V o T (g_h s) → stored V "sessions" sessions_schema t T → row_fine drv ctx sessions_schema row nulls →
  ∃ id r s', session_id row = Some id ∧ WriteSessionsGuarded drv (Some row) nulls s = Some (r, s') ∧
    cm_heap (g_cond s') = cm_heap (g_cond s) ∧ guarded_post drv ctx V o t T row nulls id r (g_h s').
Proof.
  intros Hs Hst Hrow. destruct (row_id drv ctx row nulls Hrow) as (id & Hrid & Hid).
  destruct (guarded_run drv ctx V o t T row nulls id Hst Hrow Hid s Hrid Hs) as (r & s' & H). by exists id, r, s'.
Qed.

(** C25: the capacity holds.  Outside of a transaction, however many sessions
    are written with WriteSessionsGuarded, new ones, known ones and failing
    calls in any order, the table is well-formed with at most
    SESSIONS_MAX_RECORDS rows (or as many as there were, if more) after each
    of the calls, and no condition is left in memory. *)
Theorem guarded_writes_bounded n rows s :
  SESSIONS_MAX_RECORDS ≤ n → found (st_registry V) "sessions" sessions_schema →
  Forall (λ row, row_fine drv ctx sessions_schema row None) rows →
  at_rest drv ctx V o (at_most n) (g_h s) →
  ∃ rs s', guarded_writes drv rows s = Some (rs, s') ∧ length rs = length rows ∧
    cm_heap (g_cond s') = cm_heap (g_cond s) ∧ at_rest drv ctx V o (at_most n) (g_h s').
Proof.
  intros Hn Hf Hrows. revert s. induction Hrows as [|row rows Hrow Hrows IH]; intros s Hs; [by exists [], s|].
  destruct (guarded_step drv ctx V o n row s Hn Hf Hrow Hs) as (r & s1 & E & Hh & Hs1).
  destruct (IH s1 Hs1) as (rs & s2 & E2 & Hl & Hh2 & Hs2). cbn [guarded_writes].
  rewrite (bind_run _ _ _ _ _ E), (bind_run _ _ _ _ _ E2). exists (r :: rs), s2.
  split; [done|]. split; [simpl; congruence|]. split; [congruence|done].
Qed.
End claims.

(** ** Examples: sessions on the driver with tables *)

Definition ex_sreg : SqlRDBSchemaRegistry := MkReg [sessions_schema] 8 1%N.
Definition ex_ssetting : Setting := MkSetting ex_sreg ex_config (MkTxn 0 (replicate 16 EmptyString)) True.

Definition ex_session_row (id : Z) : Row := {["id"%string := CInt id; "token"%string := CText (list_byte_of_string "t")]}.
Definition ex_sessions (ids : list Z) : Table :=
  MkTable {["id"%string := KInt; "token"%string := KText]} (Some "id"%string) (ex_session_row <$> ids).
Definition ex_sdb (ids : list Z) : Db := MkDb {["sessions"%string := ex_sessions ids]} [] false.
Definition ex_on_sessions (ids : list Z) : GState Tab :=
  MkG (MkH (set_h_registry ex_sreg ex_handle) (tab0 (db_tables (ex_sdb ids))) [] 5) (MkCondMem ex_heap []).

Definition ex_session (id : Z) : list byte := take 68 (le_split 4 id ++ list_byte_of_string "t" ++ replicate 64 x00).

Lemma ex_sessions_rest ids : at_rest tab_driver 1%N ex_ssetting ∅ (exactly (ex_sdb ids)) (g_h (ex_on_sessions ids)).
Proof.
  split.
  - split; [|done]. split; [done|]. split.
    { split; [apply NoDup_singleton|]. split; [by constructor; [apply sessions_schema_ok|]|]. by split_and!. }
    split; [split_and!; try done; intros; simpl in *; lia|].
    exists [], (MkAbs 2 []). split_and!; [exact ex_rep|constructor|done|done|set_solver|set_solver].
  - split; [split_and!; try done; [apply NoDup_singleton|constructor]|]. split; [|by exists 0].
    exists [], (MkAbs 2 []). split_and!; [exact ex_rep|constructor| |done]. intros sql p Hp. by apply elem_of_nil in Hp.
Qed.

Lemma ex_sessions_found : found ex_sreg "sessions" sessions_schema.
Proof. split; [apply sessions_schema_ok|]. split; [done|]. by left. Qed.

Lemma ex_sessions_declared ids : declared (ex_sessions ids) sessions_schema.
Proof. split; [|done]. repeat constructor; eexists; split; vm_compute; reflexivity. Qed.

Lemma ex_sessions_ok ids : NoDup ids → table_ok (ex_sessions ids).
Proof.
  intros Hnd. assert (keys "id" (t_rows (ex_sessions ids)) = CInt <$> ids) as E
    by (unfold keys, ex_sessions; cbn [t_rows]; by rewrite <-list_fmap_compose).
  split.
  - apply Forall_fmap, Forall_true. intros i col k Hk. cbn [ex_sessions t_kinds] in Hk.
    apply lookup_insert_Some in Hk as [[<- <-]|[_ [<- <-]%lookup_singleton_Some]]; done.
  - intros key [= <-]. split; [by exists KInt|]. rewrite E. split; [by apply Forall_fmap, Forall_true|].
    apply NoDup_fmap_2; [|done]. by intros x y [= ->].
Qed.

Lemma ex_session_fine id : id = 2 ∨ id = 3 ∨ id = 4 → row_fine tab_driver 1%N sessions_schema (ex_session id) None.
Proof.
  intros Hid. assert (length (ex_session id) = 68%nat) as Hl.
  { unfold ex_session. rewrite length_take, !length_app, length_le_split, length_replicate. simpl. lia. }
  split; [done|]. split; [|split; [by apply Forall_true|]].
  - apply (session_buffers (ex_session id) None). split; [by rewrite Hl|done].
  - intros _. by destruct Hid as [->|[->| ->]]; vm_compute.
Qed.

Lemma generated_registered_witness :
  ends_or (register_stuck ex_drv 3 "persons" PERSONS_COLS 3) (RegisterPersons ex_drv 3)
    (λ r x', ∃ R', mig (api_inv ex_drv R' ∅) x' ∧
       reg_entries R' = reg_entries (r_reg ex_r1) ++ (if res_ok r then [persons_schema] else [])) (ex_mig true) ∧
  ends_or (register_stuck ex_drv 3 "sessions" SESSIONS_COLS 2) (RegisterSessions ex_drv 3)
    (λ r x', ∃ R', mig (api_inv ex_drv R' ∅) x' ∧
       reg_entries R' = reg_entries (r_reg ex_r1) ++ (if res_ok r then [sessions_schema] else [])) (ex_mig true) ∧
  (∀ row nulls, struct_buffers Person row nulls → buffers_ok persons_schema row nulls) ∧
  (∀ row nulls, struct_buffers Session row nulls → buffers_ok sessions_schema row nulls).
Proof.
  apply (generated_registered ex_drv 2).
  - vm_compute. constructor.
  - apply ex_mig_inv.
  - reflexivity.
Defined.

(** A fourth session. *)
Lemma guarded_write_capacity_witness :
  ∃ id r s', session_id (ex_session 4) = Some id ∧
    WriteSessionsGuarded tab_driver (Some (ex_session 4)) None (ex_on_sessions [1; 2; 3]) = Some (r, s') ∧
    cm_heap (g_cond s') = ex_heap ∧
    guarded_post tab_driver 1%N ex_ssetting ∅ (ex_sessions [1; 2; 3]) (exactly (ex_sdb [1; 2; 3])) (ex_session 4) None id r (g_h s').
Proof.
  apply (guarded_write_capacity tab_driver 1%N ex_ssetting ∅ _ _ (ex_session 4) None (ex_on_sessions [1; 2; 3])).
  - apply ex_sessions_rest.
  - split; [apply ex_sessions_found|]. split; [apply ex_sessions_declared|]. split; [|intros b n ->; reflexivity].
    apply ex_sessions_ok. apply (bool_decide_unpack _). vm_compute. exact I.
  - apply ex_session_fine. right. right. reflexivity.
Defined.

Lemma guarded_writes_bounded_witness :
  ∃ rs s', guarded_writes tab_driver [ex_session 3; ex_session 4; ex_session 2] (ex_on_sessions [1; 2]) = Some (rs, s') ∧
    length rs = 3%nat ∧ cm_heap (g_cond s') = ex_heap ∧ at_rest tab_driver 1%N ex_ssetting ∅ (at_most 3) (g_h s').
Proof.
  apply (guarded_writes_bounded tab_driver 1%N ex_ssetting ∅ 3 [ex_session 3; ex_session 4; ex_session 2] (ex_on_sessions [1; 2])).
  - discriminate.
  - apply ex_sessions_found.
  - constructor; [apply ex_session_fine; right; left; reflexivity|].
    constructor; [apply ex_session_fine; right; right; reflexivity|].
    constructor; [apply ex_session_fine; left; reflexivity|constructor].
  - apply (at_most_intro tab_driver 1%N ex_ssetting ∅ 3 (ex_sessions [1; 2]) (ex_sdb [1; 2])).
    + reflexivity.
    + split; [apply ex_sessions_found|]. split; [apply ex_sessions_declared|]. split; [|intros b n ->; reflexivity].
      apply ex_sessions_ok. apply (bool_decide_unpack _). vm_compute. exact I.
    + discriminate.
    + apply ex_sessions_rest.
Defined.

(** The third is written, a fourth refused, a known one updated. *)
Example ex_guarded :
  fst <$> guarded_writes tab_driver [ex_session 3; ex_session 4; ex_session 2] (ex_on_sessions [1; 2]) =
  Some [SQL_RDB_OK; SQL_RDB_ERR_CAPACITY_EXCEEDED; SQL_RDB_OK].
Proof. vm_compute. reflexivity. Qed.
