(* ===== verification/Alive.v ===== *)
(** * No call ends the life of a handle

    The magic number of a handle is written by SqlRDBInit and SqlRDBClose only:
    every other operation leaves it as it is. *)

From Stdlib Require Import String Strings.Byte.
From S2P Require Import Prelude Types Support Driver StmtCache Condition QueryBuilder Registry TypeMapping Handle Api.
From S2P Require Import Transactions ApiTheorems Migration.
Import ErrorCtx Logger Mutex.

Section magic.
Context {D : Type} (drv : SqlRDBDriver D) (fuel : nat).

Definition magic (s : HState D) : Z := h_magic (hs_h s).

(** ** The parts of the operations *)

Lemma magic_upd f : (∀ h, h_magic (f h) = h_magic h) → silent magic (h_upd (D := D) f).
Proof. intros Hf s a s' [= _ <-]. apply Hf. Qed.
Lemma magic_err code msg : silent magic (h_err (D := D) code msg).
Proof. by apply magic_upd. Qed.
Lemma magic_db {A} (m : M D A) : silent magic (h_db m).
Proof. by apply silent_zoom_away. Qed.
Lemma magic_alloc {A} (m : M (list bool) A) : silent magic (h_alloc (D := D) m).
Proof. by apply silent_zoom_away. Qed.
Lemma magic_mtx {A} (m : M SqlRDBMutex A) : silent magic (h_mtx (D := D) m).
Proof. by apply silent_zoom_away. Qed.
Lemma magic_cache {A} (m : M (CState D) A) : silent magic (h_on_cache m).
Proof. by apply silent_zoom_away. Qed.
Lemma magic_reg {A} (m : M RState A) : silent magic (h_on_reg (D := D) m).
Proof. by apply silent_zoom_away. Qed.
Lemma magic_read {A} row nulls (m : M (TState D) A) : silent magic (h_read row nulls m).
Proof. intros s a s' H. unfold h_read in H. destruct (m _) as [[? ?]|]; [|done]. by injection H as _ <-. Qed.
Lemma magic_lock : silent magic (h_lock (D := D)).
Proof. apply magic_mtx. Qed.
Lemma magic_unlock : silent magic (h_unlock (D := D)).
Proof. apply magic_mtx. Qed.
Lemma magic_txn_name i n : silent magic (txn_name (D := D) i n).
Proof. intros s a s' H. unfold txn_name in H. destruct (_ !! _); [|done]. by injection H as _ <-. Qed.
Lemma magic_ask {A} (f : HState D → A) : silent magic (mgets f).
Proof. by apply silent_gets. Qed.
Local Hint Resolve magic_err magic_db magic_alloc magic_mtx magic_cache magic_reg magic_read magic_lock magic_unlock
  magic_txn_name magic_ask : silent.

Lemma magic_unlock_ret {A} (a : A) : silent magic (unlock_ret (D := D) a).
Proof. unfold unlock_ret. silence. Qed.
Lemma magic_build spec : silent magic (h_build (D := D) spec).
Proof. unfold h_build. silence. Qed.
Lemma magic_lookup name : silent magic (h_lookup (D := D) name).
Proof. unfold h_lookup. silence. Qed.
Lemma magic_step stmt : silent magic (h_step drv stmt).
Proof. unfold h_step. silence. Qed.
Lemma magic_finalize stmt : silent magic (h_finalize drv stmt).
Proof. unfold h_finalize. silence. Qed.
Lemma magic_get_or_prepare sql : silent magic (get_or_prepare drv sql).
Proof. unfold get_or_prepare. silence. Qed.
Lemma magic_release stmt owned : silent magic (release_cached_stmt drv stmt owned).
Proof. unfold release_cached_stmt. silence. Qed.
Local Hint Resolve magic_unlock_ret magic_build magic_lookup magic_step magic_finalize magic_get_or_prepare magic_release : silent.

Lemma magic_release_ret {A} stmt owned (a : A) : silent magic (release_ret drv stmt owned a).
Proof. unfold release_ret. silence. Qed.
Lemma magic_finalize_ret {A} stmt (a : A) : silent magic (finalize_ret drv stmt a).
Proof. unfold finalize_ret. silence. Qed.
Lemma magic_txn_depth n : silent magic (txn_set_depth (D := D) n).
Proof. by apply magic_upd. Qed.
Lemma magic_txn_top : silent magic (txn_top (D := D)).
Proof. unfold txn_top. silence. Qed.
Local Hint Resolve magic_release_ret magic_finalize_ret magic_txn_depth magic_txn_top : silent.

(** The blocks that continue. *)
Lemma magic_valid_or {A} (bad : A) k : silent magic k → silent magic (valid_or (D := D) bad k).
Proof. intros. unfold valid_or. silence. Qed.
Lemma magic_with_schema {A} what name (ret : SqlRDBResult → A) k :
  (∀ sch, silent magic (k sch)) → silent magic (with_schema (D := D) what name ret k).
Proof. intros. unfold with_schema. silence. Qed.
Lemma magic_with_sql {A} spec (ret : SqlRDBResult → A) k :
  (∀ sql, silent magic (k sql)) → silent magic (with_sql (D := D) spec ret k).
Proof. intros. unfold with_sql. silence. Qed.
Lemma magic_with_stmt {A} sql (ret : SqlRDBResult → A) k :
  (∀ stmt owned, silent magic (k stmt owned)) → silent magic (with_stmt drv sql ret k).
Proof. intros. unfold with_stmt. silence. Qed.
Lemma magic_with_prepared {A} sql (ret : SqlRDBResult → A) k :
  (∀ stmt, silent magic (k stmt)) → silent magic (with_prepared drv sql ret k).
Proof. intros. unfold with_prepared. silence. Qed.
Lemma magic_with_blob_col {A} what name col (ret : SqlRDBResult → A) k :
  (∀ sch, silent magic (k sch)) → silent magic (with_blob_col (D := D) what name col ret k).
Proof. intros. unfold with_blob_col. apply magic_with_schema. intros sch. silence. Qed.

Ltac magical :=
  repeat first
    [ progress silence
    | apply magic_valid_or
    | apply magic_with_schema; intros ?
    | apply magic_with_sql; intros ?
    | apply magic_with_stmt; intros ? ?
    | apply magic_with_prepared; intros ?
    | apply magic_with_blob_col; intros ?
    | apply magic_upd; done ].

(** ** The operations *)

Lemma magic_write_rows stmt sch rows stride nulls i n : silent magic (write_rows drv stmt sch rows stride nulls i n).
Proof. revert i. induction n as [|n IH]; intros i; cbn [write_rows]; magical. Qed.
Lemma magic_read_single stmt owned sch row nulls : silent magic (read_single drv stmt owned sch row nulls).
Proof. unfold read_single. magical. Qed.
Lemma magic_count sch col c : silent magic (count_matching_rows drv sch col c).
Proof. unfold count_matching_rows. magical. Qed.
Local Hint Resolve magic_write_rows magic_read_single magic_count : silent.

Lemma magic_read_many name c : silent magic (SqlRDBReadMany drv name c).
Proof. unfold SqlRDBReadMany. magical. Qed.
Lemma magic_free it : silent magic (SqlRDBStmtFree drv it).
Proof. unfold SqlRDBStmtFree. magical. Qed.

Lemma magic_write name row nulls : silent magic (SqlRDBWrite drv name row nulls).
Proof. unfold SqlRDBWrite. magical. Qed.
Lemma magic_read_rows name c row nulls opts : silent magic (SqlRDBRead drv name c row nulls opts).
Proof. unfold SqlRDBRead. cbv zeta. magical. Qed.
Lemma magic_tx c : silent magic (tx_call drv c).
Proof. destruct c; cbn [tx_call]; unfold SqlRDBBeginTx, SqlRDBCommitTx, SqlRDBRollbackTx; cbv zeta; magical. Qed.
Local Hint Resolve magic_write magic_read_rows magic_tx : silent.

Definition cl_magic (c : Client (D := D)) : Z := magic (cl_state c).

Lemma magic_plain {A} (m : M (HState D) A) : silent magic m → silent cl_magic (plain m).
Proof.
  intros Hm. unfold plain. apply silent_bind; [|intros ?; apply silent_ret]. by eapply silent_zoom; [| |exact Hm].
Qed.

(** No call of a client. *)
Lemma magic_exec call : silent cl_magic (exec drv call).
Proof.
  intros c a c' E. destruct call; cbn [exec] in E;
    try (eapply magic_plain in E; [exact E|];
      unfold SqlRDBWriteMany, SqlRDBDelete, SqlRDBCount, SqlRDBWriteBlobField,
        SqlRDBReadBlobField, SqlRDBSetConfig, SqlRDBSetLogger; cbv zeta; magical).
  - destruct (SqlRDBReadMany drv (Some name) c0 (cl_state c)) as [[[r [it|]] s]|] eqn:Es; [| |done];
      injection E as _ <-; exact (magic_read_many _ _ _ _ _ Es).
  - destruct (cl_iters c !! k) as [[nm it]|]; [|by injection E as _ <-].
    destruct (decide (nm = name)); [|by injection E as _ <-]. eapply magic_plain in E; [exact E|].
    unfold SqlRDBStmtNext. magical.
  - destruct (cl_iters c !! k) as [[nm it]|]; [|by injection E as _ <-].
    destruct (SqlRDBStmtFree drv (Some it) (cl_state c)) as [[r s]|] eqn:Es; [|done].
    injection E as _ <-. exact (magic_free _ _ _ _ Es).
Qed.

Lemma magic_exec_all calls : silent cl_magic (exec_all drv calls).
Proof. induction calls as [|x calls IH]; cbn [exec_all]; [apply silent_ret|]. apply silent_bind; [apply magic_exec|done]. Qed.

(** ** Registering a struct *)

Lemma magic_column_text stmt i : silent magic (h_column_text drv stmt i).
Proof. unfold h_column_text. silence. Qed.
Lemma magic_column_int32 stmt i : silent magic (h_column_int32 drv stmt i).
Proof. unfold h_column_int32. silence. Qed.
Lemma magic_prepare sql : silent magic (h_prepare drv sql).
Proof. unfold h_prepare. silence. Qed.
Lemma magic_h_exec sql : silent magic (h_exec drv sql).
Proof. unfold h_exec. silence. Qed.
Lemma magic_grow n cap : silent magic (grow_cols (D := D) n cap).
Proof. unfold grow_cols. silence. Qed.
Local Hint Resolve magic_column_text magic_column_int32 magic_prepare magic_h_exec magic_grow : silent.

Lemma magic_each_row {A} n stmt (row : A → M (HState D) (option A)) acc :
  (∀ a, silent magic (row a)) → silent magic (each_row drv n stmt row acc).
Proof. intros Hr. revert acc. induction n as [|n IH]; intros acc; cbn [each_row]; silence. Qed.
Local Hint Resolve magic_each_row : silent.

Lemma magic_table_info table : silent magic (read_table_info drv fuel table).
Proof. unfold read_table_info. silence. apply magic_each_row. intros [cols cap]. unfold table_info_row. silence. Qed.
Lemma magic_unique_loop idx cols : silent magic (unique_loop drv fuel idx cols).
Proof.
  revert cols. induction idx as [|i idx IH]; intros cols; cbn [unique_loop]; silence.
  apply magic_each_row. intros refs. unfold index_info_row. silence.
Qed.
Local Hint Resolve magic_table_info magic_unique_loop : silent.

Lemma magic_unique_flags table cols : silent magic (apply_unique_flags drv fuel table cols).
Proof. unfold apply_unique_flags. silence. apply magic_each_row. intros names. unfold index_list_row. silence. Qed.
Lemma magic_collect_names sql table max : silent magic (pg_collect_names drv fuel sql table max).
Proof. unfold pg_collect_names. silence. apply magic_each_row. intros names. unfold collect_row. silence. Qed.
Local Hint Resolve magic_unique_flags magic_collect_names : silent.

Lemma magic_existing table : silent magic (read_existing drv fuel table).
Proof.
  unfold read_existing. silence. unfold read_table_info_pg. silence.
  apply magic_each_row. intros [cols cap]. unfold pg_info_row. silence.
Qed.
Lemma magic_check_strict table : silent magic (check_strict drv table).
Proof. unfold check_strict. silence. Qed.
Local Hint Resolve magic_existing magic_check_strict : silent.

Definition mig_magic (x : MigState D) : Z := magic (ms_h x).

Lemma magic_on_h {A} (m : M (HState D) A) : silent magic m → silent mig_magic (on_h m).
Proof. by apply silent_zoom. Qed.
Lemma magic_mig_log code sql msg : silent mig_magic (mig_log (D := D) code sql msg).
Proof. by intros x a x' [= _ <-]. Qed.
Local Hint Resolve magic_on_h magic_mig_log : silent.

Lemma magic_mismatch msg : silent mig_magic (mismatch (D := D) msg).
Proof. unfold mismatch. silence. Qed.
Local Hint Resolve magic_mismatch : silent.

Lemma magic_alter sch i n : silent mig_magic (alter_loop drv sch i n).
Proof. revert i. induction n as [|n IH]; intros i; cbn [alter_loop]; silence. Qed.
Lemma magic_revalidate sch : silent mig_magic (revalidate drv fuel sch).
Proof. unfold revalidate. silence. Qed.
Lemma magic_strict sch : silent mig_magic (strict_check drv sch).
Proof. unfold strict_check. silence. Qed.
Local Hint Resolve magic_alter magic_revalidate magic_strict : silent.

Lemma magic_sync sch cols : silent mig_magic (sync_columns drv fuel sch cols).
Proof. unfold sync_columns. cbv zeta. silence. Qed.
Local Hint Resolve magic_sync : silent.

Lemma magic_migrate sch : silent mig_magic (c2sql_internal_migrate_table drv fuel sch).
Proof. unfold c2sql_internal_migrate_table. silence. Qed.
Local Hint Resolve magic_migrate : silent.

Lemma magic_register name cols n : silent mig_magic (SqlRDBRegisterStruct drv fuel name cols n).
Proof. unfold SqlRDBRegisterStruct. silence. Qed.
End magic.
