(* ===== verification/Session.v ===== *)
(** * A whole session

    A client that opens a handle, registers structs, works on them, and closes
    the handle: the composition of all the parts.  Whatever fails on the way,
    every step is defined, and nothing of the session is left: no statement, no
    connection, no memory; and what other handles have open is untouched.
    The one other outcome is a registration that does not return
    ([session_stuck]). *)

From Stdlib Require Import String Strings.Byte.
From S2P Require Import Prelude Types Support Driver MemDriver CatDriver StmtCache StmtCacheSpec StmtCacheProofs StmtCacheTheorems.
From S2P Require Import Condition QueryBuilder QueryBuilderProofs Registry RegistryProofs TypeMapping TypeMappingProofs Handle Api.
From S2P Require Import ApiProofs Isolation ApiSafety ApiTheorems Lifecycle LifecycleProofs Migration MigrationSafety MigrationTheorems Alive.
From S2P Require Import Transactions GeneratedTheorems.
Import ErrorCtx Logger Mutex.

(** ** The program of a session *)

(** A struct to be registered: the arguments of SqlRDBRegisterStruct. *)
Record StructDef : Type := MkStruct {
  sd_name : string;
  sd_cols : list RawColumnDef;
  sd_count : Z;
}.

Section program.
Context {D : Type}.

Fixpoint register_all (drv : SqlRDBDriver D) (fuel : nat) (structs : list StructDef) : M (MigState D) (list SqlRDBResult) :=
  match structs with
  | [] => mret []
  | d :: structs =>
      r ← SqlRDBRegisterStruct drv fuel (Some (sd_name d)) (Some (sd_cols d)) (sd_count d);
      rs ← register_all drv fuel structs;
      mret (r :: rs)
  end.

(** One of the registrations does not return: those before it did, and its
    check for STRICT is stuck in the text of a CREATE statement. *)
Definition registers_stuck (drv : SqlRDBDriver D) (fuel : nat) (structs : list StructDef) (x : MigState D) : Prop :=
  ∃ before d after rs x1, structs = before ++ d :: after ∧
    register_all drv fuel before x = Some (rs, x1) ∧
    register_stuck drv fuel (sd_name d) (sd_cols d) (sd_count d) x1.

(** The client frees the iterators it has open. *)
Fixpoint free_iters (drv : SqlRDBDriver D) (n : nat) : M (Client (D := D)) unit :=
  match n with
  | O => mret tt
  | S n => exec drv (CFree 0);; free_iters drv n
  end.

Definition client_calls (drv : SqlRDBDriver D) (calls : list Call) : M (Client (D := D)) unit :=
  exec_all drv calls;;
  c ← mget;
  free_iters drv (length (cl_iters c)).

(** Work on the handle at [p], with a log, and with a list of iterators. *)
Definition on_mig {A} (p : ptr) (m : M (MigState D) A) : M (World D) A :=
  on_handle p (λ s, '(a, x) ← m (MkMig s []); Some (a, ms_h x)).

Definition on_client {A} (p : ptr) (m : M (Client (D := D)) A) : M (World D) A :=
  on_handle p (λ s, '(a, c) ← m (MkClient s []); Some (a, cl_state c)).

(** [None] when the handle could not be opened, else what closing it gave. *)
Definition session (bk : Backends D) (init_rc : Z) (dsn : string) (fuel : nat) (structs : list StructDef)
    (calls : list Call) : M (World D) (option SqlRDBResult) :=
  p ← SqlRDBInit bk init_rc (Some dsn);
  if (p =? NULL)%N then mret None
  else
    drv ← driver_of p;
    on_mig p (register_all drv fuel structs);;
    on_client p (client_calls drv calls);;
    r ← SqlRDBClose p;
    mret (Some r).

(** The same of a session whose handle was opened. *)
Definition session_stuck (drv : SqlRDBDriver D) (bk : Backends D) (init_rc : Z) (dsn : string) (fuel : nat)
    (structs : list StructDef) (w : World D) : Prop :=
  ∃ p w1 b, SqlRDBInit bk init_rc (Some dsn) w = Some (p, w1) ∧ w_heap w1 !! p = Some b ∧
    registers_stuck drv fuel structs (MkMig (handle_state b w1) []).
End program.

(** ** The calls of a session *)

Definition struct_ok (d : StructDef) : Prop :=
  0 ≤ sd_count d < SIZE_MOD ∧ (sd_count d ≤ C2SQL_MAX_COLUMNS → sd_count d ≤ Z.of_nat (length (sd_cols d))).

(** The entry is that of one of the structs. *)
Definition entry_of (structs : list StructDef) (e : SqlRDBSchema) : Prop :=
  ∃ d, d ∈ structs ∧ sch_name e = sd_name d ∧ describes (sd_cols d) (Z.to_nat (sd_count d)) (sch_cols e).

(** The registry holds structs of the list. *)
Definition holds_of (structs : list StructDef) (R : SqlRDBSchemaRegistry) : Prop :=
  Forall (entry_of structs) (reg_entries R).

Section calls.
Context {D : Type} (drv : SqlRDBDriver D) `{!DriverLaws drv} (N : nat) `{!FiniteRows drv N} (o : gset ptr).
Context (fuel : nat) (Hfuel : (N < fuel)%nat).

(** The registry has room for [k] structs and no more than it needs. *)
Definition sized (k : Z) (R : SqlRDBSchemaRegistry) : Prop :=
  reg_count R ≤ k ∧ reg_capacity R ≤ Z.max 8 (2 * k).

Lemma register_all_spec all structs : ∀ k R x,
  structs ⊆ all → Forall struct_ok structs → 0 ≤ k → k + Z.of_nat (length structs) < 2 ^ 60 →
  sized k R → holds_of all R → mig (api_inv drv R o) x →
  ends_or (registers_stuck drv fuel structs) (register_all drv fuel structs)
    (λ _ x', ∃ R', mig (api_inv drv R' o) x' ∧ holds_of all R') x.
Proof.
  induction structs as [|d structs IH]; intros k R x Hin Hok Hk Hlen [Hc Hcap] HR Hx;
    [left; eexists _, x; split; [done|by exists R]|].
  apply Forall_cons in Hok as [[Hn Hl] Hok]. cbn [length] in Hlen. unfold ends_or. cbn [register_all].
  destruct (register_struct_spec drv N o fuel Hfuel R (sd_name d) (sd_cols d) (sd_count d) x) as [(r & x1 & E1 & R' & H1 & Ho & Hg & _)|[E1 Hst]];
    [change (2 ^ 62) with (4 * 2 ^ 60); lia|done|done|done| |].
  2:{ right. split; [unfold mbind, M_bind; by rewrite E1|]. by exists [], d, structs, [], x. }
  rewrite (bind_run _ _ _ _ _ E1).
  assert (reg_count R' ≤ k + 1 ∧ holds_of all R') as [Hc' HR'].
  { unfold reg_outcome in Ho. unfold holds_of, reg_count in *. destruct (res_ok r); [|rewrite Ho; split; [lia|done]].
    destruct Ho as (_ & e & -> & He & Hd & _). rewrite length_app, Nat2Z.inj_add. cbn [length]. split; [lia|].
    apply Forall_app. split; [done|]. apply Forall_singleton. exists d. split; [apply Hin; by left|]. done. }
  unfold reg_grown in Hg.
  destruct (IH (k + 1) R' x1) as [(rs & x2 & E2 & H2)|[E2 Hst]]; try done; try lia.
  - intros y Hy. apply Hin. by right.
  - split; [done|lia].
  - left. rewrite (bind_run _ _ _ _ _ E2). by exists (r :: rs), x2.
  - right. split; [unfold mbind, M_bind; by rewrite E2|].
    destruct Hst as (before & d' & after & rs & x2 & -> & E3 & Hst). exists (d :: before), d', after, (r :: rs), x2.
    split; [done|]. split; [|done]. cbn [register_all]. by rewrite (bind_run _ _ _ _ _ E1), (bind_run _ _ _ _ _ E3).
Qed.

Lemma free_iters_run R n : ∀ c,
  client_inv drv R c → length (cl_iters c) = n →
  ∃ c', free_iters drv n c = Some (tt, c') ∧ client_inv drv R c' ∧ cl_iters c' = [].
Proof.
  induction n as [|n IH]; intros c Hc Hn; [exists c; by rewrite (nil_length_inv _ Hn)|].
  destruct (exec_free_run drv R 0 c Hc) as (c1 & E & Hc1 & Hi). cbn [free_iters]. rewrite (bind_run _ _ _ _ _ E).
  apply IH; [done|]. rewrite Hi. by destruct (cl_iters c); simplify_eq/=.
Qed.

Lemma client_calls_run R calls s :
  api_inv drv R ∅ s → Forall (call_ok drv R) calls →
  ∃ c, client_calls drv calls (MkClient s []) = Some (tt, c) ∧ api_inv drv R ∅ (cl_state c).
Proof.
  intros Hs Hcalls. assert (client_inv drv R (MkClient s [])) as Hc by (split; [constructor|]; split; [constructor|done]).
  destruct (exec_all_safe drv R calls Hcalls _ Hc) as ([] & c1 & E & Hc1).
  destruct (free_iters_run R _ c1 Hc1 eq_refl) as (c & E2 & (_ & _ & Hinv) & Hi).
  exists c. unfold client_calls. rewrite (bind_run _ _ _ _ _ E). split; [exact E2|]. by rewrite Hi in Hinv.
Qed.

Lemma magic_register_all structs : silent mig_magic (register_all drv fuel structs).
Proof.
  induction structs as [|d structs IH]; cbn [register_all]; [apply silent_ret|].
  apply silent_bind; [apply magic_register|]. intros r. apply silent_bind; [done|]. intros rs. apply silent_ret.
Qed.

Lemma magic_client_calls calls : silent cl_magic (client_calls drv calls).
Proof.
  unfold client_calls. apply silent_bind; [apply magic_exec_all|]. intros _.
  apply silent_bind; [by intros c a c' [= _ <-]|]. intros c. induction (length (cl_iters c)) as [|n IH]; cbn [free_iters];
    [apply silent_ret|]. apply silent_bind; [apply magic_exec|done].
Qed.
End calls.

(** ** The handle in the process *)

Section world.
Context {D : Type}.

(** The process after work on the handle at [p] that ended in [s]. *)
Definition with_handle (p : ptr) (b : HandleBlock D) (s : HState D) (w : World D) : World D :=
  MkWorld (<[p := MkBlock (hs_h s) (b_driver b) (hs_live s)]> (w_heap w)) (w_live w) (w_capacity w) (w_mutex w) (hs_db s) (hs_alloc s).

Lemma on_handle_at {A} p b (m : M (HState D) A) a s w :
  w_heap w !! p = Some b → m (handle_state b w) = Some (a, s) → on_handle p m w = Some (a, with_handle p b s w).
Proof. intros Hb E. unfold on_handle. rewrite Hb. unfold handle_state in E. by rewrite E. Qed.

Lemma with_handle_wf p b s w :
  world_wf w → p ∈ w_live w → w_heap w !! p = Some b → magic s = SQL_RDB_HANDLE_MAGIC → world_wf (with_handle p b s w).
Proof.
  intros [Hmu Hc Hnd [Hn1 Hn2] Hlive] Hp Hb Hs. split; simpl; [done|done|done| |].
  - split; [done|]. rewrite dom_insert_lookup_L by (by eexists). done.
  - intros q Hq. destruct (decide (q = p)) as [->|]; [rewrite lookup_insert_eq; by eexists|].
    rewrite lookup_insert_ne by done. by apply Hlive.
Qed.
End world.

(** ** A session, next to others *)

Section run.
Context {D : Type} (drv : SqlRDBDriver D) `{!DriverLaws drv, !ConnLaws drv} (N : nat) `{!FiniteRows drv N}.
Context (fuel : nat) (Hfuel : (N < fuel)%nat).
Context (structs : list StructDef) (calls : list Call).
Hypotheses (Hstructs : Forall struct_ok structs) (Hfew : Z.of_nat (length structs) < 2 ^ 60)
  (Hcalls : ∀ R, holds_of structs R → Forall (call_ok drv R) calls).

(** What is the handle's own, and what is the others'. *)
Section own.
Context (ctx : ptr) (C F : gset ptr) (HF : NULL ∉ F).

Local Abbreviation own_inv := (@api_inv D drv (own_laws drv ctx C F)).

Lemma session_registers s :
  own_inv (MkReg [] 0 0%N) ∅ s →
  ends_or (registers_stuck drv fuel structs) (register_all drv fuel structs)
    (λ _ x, ∃ R, own_inv R ∅ (ms_h x) ∧ holds_of structs R ∧ magic (ms_h x) = magic s) (MkMig s []).
Proof.
  intros Hs.
  destruct (@register_all_spec D drv (own_laws drv ctx C F) N (own_finite drv ctx C F N) ∅ fuel Hfuel
    structs structs 0 (MkReg [] 0 0%N) (MkMig s [])) as [(rs & x & E & R & Hx & HR)|H]; try done.
  - by apply Forall_nil.
  - left. exists rs, x. split; [done|]. exists R. split; [done|]. split; [done|].
    exact (magic_register_all drv fuel structs _ _ _ E).
  - by right.
Qed.

Lemma session_calls R s :
  own_inv R ∅ s → holds_of structs R →
  ∃ c, client_calls drv calls (MkClient s []) = Some (tt, c) ∧ own_inv R ∅ (cl_state c) ∧ magic (cl_state c) = magic s.
Proof.
  intros Hs HR. destruct (@client_calls_run D drv (own_laws drv ctx C F) R calls s Hs (Hcalls R HR)) as (c & E & Hc).
  exists c. split; [done|]. split; [done|]. exact (magic_client_calls drv calls _ _ _ E).
Qed.
End own.

(** The work on an open handle, and its end. *)
Lemma session_work p b w (F : gset ptr) :
  world_wf w → p ∈ w_live w → w_heap w !! p = Some b → b_driver b = drv → (NULL ∉ F) → h_driver_ctx (b_h b) ≠ NULL →
  api_inv drv (MkReg [] 0 0%N) F (handle_state b w) → stmts_of (h_driver_ctx (b_h b)) (w_db w) ## F →
  let work :=
    drv ← driver_of p;
    on_mig p (register_all drv fuel structs);;
    on_client p (client_calls drv calls);;
    r ← SqlRDBClose p;
    mret (Some r) in
  (work w = None ∧ registers_stuck drv fuel structs (MkMig (handle_state b w) [])) ∨
  ∃ w', work w = Some (Some SQL_RDB_OK, w') ∧ world_wf w' ∧ w_heap w' = delete p (w_heap w) ∧ p :: w_live w' ≡ₚ w_live w ∧
    stmts (w_db w') = F ∧ conns (w_db w') = conns (w_db w) ∖ {[h_driver_ctx (b_h b)]} ∧ good (w_db w').
Proof.
  intros Hwf Hp Hb Hdrv HF Hctx Hinv Hof work. set (ctx := h_driver_ctx (b_h b)) in *. set (C := conns (w_db w)).
  assert (apart drv ctx C F (w_db w)) as Hap.
  { destruct Hinv as [(_ & _ & _ & ps & a & _ & _ & Hst & _ & _ & Hcx) _]. split; [done|]. split; [done|].
    split; [simpl in Hst; rewrite Hst; clear; set_solver|done]. }
  assert (magic (handle_state b w) = SQL_RDB_HANDLE_MAGIC) as Hmg.
  { destruct (wf_live _ Hwf p Hp) as (b' & Hb' & Hm). rewrite Hb in Hb'. by injection Hb' as <-. }
  assert (driver_of p w = Some (drv, w)) as Ed by (unfold driver_of; by rewrite Hb, Hdrv).
  unfold work. rewrite (bind_run _ _ _ _ _ Ed).
  destruct (session_registers ctx C F (handle_state b w)) as [(rs & x & E1 & R & Hx & HR & Hm1)|[E1 Hst]].
  { apply own_enter; [by rewrite union_empty_l_L|clear; set_solver|done|done]. }
  2:{ left. split; [|done]. unfold mbind at 1, M_bind at 1, on_mig at 1, on_handle at 1. rewrite Hb.
      unfold handle_state in E1. unfold mbind, option_bind. by rewrite E1. }
  right.
  destruct (session_calls ctx C F R (ms_h x) Hx HR) as (c & E2 & Hc & Hm2).
  destruct (own_leave drv ctx C F R ∅ (cl_state c) Hc HF) as (Hc' & Hctx' & HC & Hin & HFs & HFo).
  rewrite union_empty_l_L in Hc'.
  set (w1 := with_handle p b (ms_h x) w).
  assert (on_mig p (register_all drv fuel structs) w = Some (rs, w1)) as Er.
  { apply on_handle_at; [done|]. unfold mbind, option_bind. by rewrite E1. }
  rewrite (bind_run _ _ _ _ _ Er).
  assert (w_heap w1 !! p = Some (MkBlock (hs_h (ms_h x)) (b_driver b) (hs_live (ms_h x)))) as Hb1
    by (unfold w1; simpl; by rewrite lookup_insert_eq).
  assert (world_wf w1) as Hwf1 by (apply with_handle_wf; congruence).
  set (w2 := with_handle p (MkBlock (hs_h (ms_h x)) (b_driver b) (hs_live (ms_h x))) (cl_state c) w1).
  assert (handle_state (MkBlock (hs_h (ms_h x)) (b_driver b) (hs_live (ms_h x))) w1 = ms_h x) as Hs1 by (by destruct (ms_h x)).
  assert (on_client p (client_calls drv calls) w1 = Some (tt, w2)) as Ec.
  { apply on_handle_at; [done|]. unfold mbind, option_bind. by rewrite Hs1, E2. }
  rewrite (bind_run _ _ _ _ _ Ec).
  assert (world_wf w2) as Hwf2 by (apply with_handle_wf; [done|done|done|congruence]).
  assert (w_heap w2 !! p = Some (MkBlock (hs_h (cl_state c)) (b_driver b) (hs_live (cl_state c)))) as Hb2
    by (unfold w2; simpl; by rewrite lookup_insert_eq).
  destruct (close_run drv p _ R F w2 Hwf2 Hp Hb2 Hdrv) as (w' & E3 & Hwf' & Hh & Hperm & Hcl & _); [by destruct (cl_state c)|].
  rewrite (bind_run _ _ _ _ _ E3). exists w'. split; [done|]. split; [done|].
  split; [rewrite Hh; unfold w2, w1; simpl; by rewrite insert_insert_eq, delete_insert_eq|]. split; [done|].
  destruct Hcl as (H1 & H2 & H3 & H4). cbn [b_h w2 with_handle w_db] in *. rewrite Hctx' in *.
  rewrite decide_False in H4 by done. rewrite H4, HC. split; [|done].
  clear -H1 H2 HFo. set_solver.
Qed.
End run.

(** ** Examples: a session on the driver with a catalogue *)

Definition ex_pairs : Catalogue :=
  [[]; [(pragma "table_info" "pair", [ex_id_row; ex_label_row]); (ddl_query "pair", [[txt ex_ddl]])]].
Definition ex_pairs_drv : SqlRDBDriver Cat := cat_driver C2SQL_DIALECT_SQLITE ex_pairs.
Definition ex_pairs_bk : Backends Cat := MkBackends ex_pairs_drv ex_pairs_drv false.

(** Another handle has a statement open. *)
Definition ex_pairs_world (al : list bool) : World Cat :=
  MkWorld ∅ [] 0 (MkMutex true false) (MkCat {[7%N := (0%nat, "SELECT 1"%string, 0%nat)]} [] false) al.

Definition ex_structs : list StructDef := [MkStruct "pair" ex_raw 2; MkStruct "no name" ex_raw 2].

Definition ex_session_calls : list Call :=
  [CTx TxBegin; CWrite (Some "pair"%string) (Some ex_item) None; CReadMany "pair" (Some ex_where);
   CNext 0 "pair" (Some ex_item) None; CSetConfig (Some (MkConfig true 4 false 0 false));
   CReadMany "pair" None; CCount (Some "pair"%string) None; CDelete (Some "other"%string) None true].

Lemma ex_holds R nm sch : holds_of ex_structs R → found R nm sch → sch_cols sch = sch_cols ex_pair ∧ sch_col_count sch = 2.
Proof.
  intros HR ((_ & Hn & _) & _ & Hin). unfold holds_of in HR. rewrite Forall_forall in HR.
  destruct (HR sch Hin) as (d & Hd & _ & Hdesc).
  assert (sch_cols sch = sch_cols ex_pair) as E.
  { assert (describes ex_raw 2 (sch_cols sch)) as H2.
    { unfold ex_structs in Hd. apply elem_of_cons in Hd as [->|Hd]; [exact Hdesc|].
      apply list_elem_of_singleton in Hd as ->. exact Hdesc. }
    apply (describes_inj ex_raw 2); [done|]. by repeat constructor. }
  split; [done|]. by rewrite Hn, E.
Qed.

Lemma ex_pair_fits R name : holds_of ex_structs R → row_fits R name (Z.of_nat (length ex_item)) None.
Proof.
  intros HR nm sch _ Hf. destruct (ex_holds R nm sch HR Hf) as [Hc Hn]. change (Z.of_nat (length ex_item)) with 40.
  destruct (ex_item_row None ltac:(done)) as (Hl & _). split; [rewrite Hc; exact Hl|].
  rewrite Hc, Hn. split; [done|]. split; [simpl; lia|done].
Qed.

Lemma ex_session_calls_ok R : holds_of ex_structs R → Forall (call_ok ex_pairs_drv R) ex_session_calls.
Proof.
  intros HR. unfold ex_session_calls. repeat (apply Forall_cons; split); simpl; try done; try exact ex_where_fits.
  all: try (intros ? [= <-]; first [by apply ex_pair_fits|simpl; lia]).
  all: split; [apply no_cond_small|done].
Qed.

Lemma ex_pairs_wf al : world_wf (ex_pairs_world al).
Proof. split; simpl; [done|done|constructor|set_solver|set_solver]. Qed.

(** ** Properties *)

(** C4: a session leaves no trace.  In any process, next to other handles, a
    client opens a handle, registers structs, makes any calls on rows,
    transactions and the configuration whose arguments are what the header asks
    for, frees its iterators and closes the handle.  Whatever the allocator and
    the driver refuse on the way, every step is defined; then SqlRDBInit had
    returned NULL or SqlRDBClose returns OK, and the process is as it was: the
    same handles in memory and alive, the same connections, and exactly the
    same statements open in the driver, those of the other handles among them.
    A handle is given when nothing fails.  The only other thing that can happen
    is that a registration does not return, because the text of the CREATE
    statement that its check_strict reads is one its scan never gets through
    (C38). *)
Theorem session_no_trace {D} (drv : SqlRDBDriver D) `{!DriverLaws drv, !ConnLaws drv} N `{!FiniteRows drv N}
    (fuel : nat) bk init_rc dsn structs calls w :
  (N < fuel)%nat →
  world_wf w → w_capacity w < 2 ^ 62 → select_driver bk dsn = Some drv → good (w_db w) → (NULL ∉ stmts (w_db w)) →
  Forall struct_ok structs → Z.of_nat (length structs) < 2 ^ 60 →
  (∀ R, holds_of structs R → Forall (call_ok drv R) calls) →
  (∃ r w', session bk init_rc dsn fuel structs calls w = Some (r, w') ∧ (r = None ∨ r = Some SQL_RDB_OK) ∧
    world_wf w' ∧ w_heap w' = w_heap w ∧ w_live w' ≡ₚ w_live w ∧
    stmts (w_db w') = stmts (w_db w) ∧ conns (w_db w') = conns (w_db w) ∧ good (w_db w') ∧
    (no_oom (w_alloc w) → init_rc = 0 → (∃ ctx d', drv_open drv dsn (w_db w) = Some ((SQL_RDB_OK, ctx), d')) →
     r = Some SQL_RDB_OK)) ∨
  (session bk init_rc dsn fuel structs calls w = None ∧ session_stuck drv bk init_rc dsn fuel structs w).
Proof.
  intros Hfuel Hwf Hcap Hsel Hg HF Hstructs Hfew Hcalls.
  destruct (init_run drv bk init_rc dsn w Hwf Hcap Hsel Hg) as (p & w1 & E & Hpost & Hno).
  pose proof (init_post_wf drv w p w1 Hwf Hpost) as Hwf1. destruct Hpost as [_ Hpost].
  unfold session. rewrite (bind_run _ _ _ _ _ E). destruct (decide (p = NULL)) as [->|Hp].
  - destruct Hpost as ((Hs & Hc & Hg') & Hh & Hl & _). left. exists None, w1. rewrite N.eqb_refl. split; [done|].
    rewrite Hl. split_and!; try done; [by left|]. intros H1 H2 H3. by destruct (Hno H1 H2 H3).
  - rewrite (proj2 (N.eqb_neq _ _) Hp). destruct Hpost as (Hf & Hl & _ & _ & ctx & c & ps & Hh & Hrep & Hop).
    pose proof Hop as (Hs & Hcn & Hcx & Hc & Hof & _). set (b := MkBlock (new_handle ctx c) drv 0) in *.
    destruct (session_work drv N fuel Hfuel structs calls Hstructs Hfew Hcalls p b w1 (stmts (w_db w)))
      as [[E' Hst]|(w' & E' & Hwf' & Hh' & Hl' & Hs' & Hc' & Hg')]; try done.
    + rewrite Hl. apply elem_of_app. right. by apply list_elem_of_singleton.
    + rewrite Hh. apply lookup_insert_eq.
    + rewrite <-Hs. apply (new_handle_inv drv ctx c ps _ _ Hrep); [by rewrite Hs|rewrite Hc; set_solver].
    + cbn [b b_h new_handle h_driver_ctx]. rewrite Hof. set_solver.
    + right. split; [exact E'|]. exists p, w1, b. split; [done|]. split; [rewrite Hh; apply lookup_insert_eq|done].
    + left. exists (Some SQL_RDB_OK), w'. split; [exact E'|]. split; [by right|]. split; [done|].
      split; [rewrite Hh', Hh; apply delete_insert_id; by apply not_elem_of_dom|].
      split; [apply (inj (p ::.)); rewrite Hl', Hl; by rewrite (comm (++))|]. split; [done|].
      split; [rewrite Hc', Hc; cbn [b b_h new_handle h_driver_ctx]; clear -Hcx; set_solver|]. by split.
Qed.

(** The fourth allocation fails. *)
Lemma session_no_trace_witness :
  ∃ r w', session ex_pairs_bk 0 ":memory:" 3 ex_structs ex_session_calls (ex_pairs_world [true; true; true; false]) = Some (r, w') ∧
    (r = None ∨ r = Some SQL_RDB_OK) ∧ v_stmts (view (drv := ex_pairs_drv)) (w_db w') = {[7%N]} ∧
    v_conns (view (drv := ex_pairs_drv)) (w_db w') = ∅.
Proof.
  destruct (session_no_trace ex_pairs_drv 2 3 ex_pairs_bk 0 ":memory:" ex_structs ex_session_calls
    (ex_pairs_world [true; true; true; false])) as [(r & w' & E & Hr & _ & _ & _ & Hs & Hc & _)|[E _]].
  - vm_compute. constructor.
  - apply ex_pairs_wf.
  - reflexivity.
  - reflexivity.
  - exact I.
  - vm_compute. discriminate.
  - repeat constructor; simpl; try lia; discriminate.
  - reflexivity.
  - exact ex_session_calls_ok.
  - exists r, w'. split; [exact E|]. split; [exact Hr|]. split; [exact Hs|exact Hc].
  - apply (f_equal (fmap fst)) in E. vm_compute in E. discriminate E.
Defined.

Example ex_session_ok :
  (λ x, (x.1, dom (cat_open (w_db x.2)), cat_up (w_db x.2), size (w_heap x.2))) <$>
    session ex_pairs_bk 0 ":memory:" 3 ex_structs ex_session_calls (ex_pairs_world []) =
  Some (Some SQL_RDB_OK, {[7%N]}, false, 0%nat).
Proof. vm_compute. reflexivity. Qed.

(** A table whose CREATE statement ends in a comment. *)
Example ex_session_hangs :
  let d := cat_driver C2SQL_DIALECT_SQLITE ex_stuck_cat in
  session (MkBackends d d false) 0 ":memory:" 3 ex_structs ex_session_calls (ex_pairs_world []) = None.
Proof. vm_compute. reflexivity. Qed.
