(* ===== verification/Examples.v ===== *)
(** * The example programs (src/examples: transactions.c, basic_crud.c,
      generated_crud.c, multi_row.c)

    The programs, as clients of the library.  A failing assertion ends the
    program: its result is the line.  Each program is split into the part
    between the registration and SqlRDBClose, which works on the open handle and
    the heap of the conditions, and main.  What is printed is left out; the
    padding of a struct, which nothing reads, is zero. *)

From Stdlib Require Import Ascii String Strings.Byte.
From coqutil Require Import Byte Word.LittleEndianList.
From S2P Require Import Prelude Types Support Driver Condition QueryBuilder Registry TypeMapping TypeMappingProofs Handle Api.
From S2P Require Import Lifecycle Migration Generated.

(** ** Programs with assertions *)

Inductive Outcome : Type :=
  | Returned (code : Z)
  | Aborted (line : Z).

(** [assert(b);] at a line, and the rest of the program. *)
Definition assert_at {S} (line : Z) (b : bool) (rest : M S Outcome) : M S Outcome :=
  if b then rest else mret (Aborted line).

(** [char x[n] = "..."], zero-filled. *)
Definition char_init (n : nat) (s : string) : list byte := take n (cstr s ++ replicate n x00).

Definition zeros (n : Z) : list byte := replicate (Z.to_nat n) x00.

Section body.
Context {D : Type} (drv : SqlRDBDriver D).

(** A condition as an argument: NULL is [None]. *)
Definition cond_or_null (p : ptr) : M (GState D) (option SqlRDBCondition) :=
  if (p =? NULL)%N then mret None else c ← cond_arg p; mret (Some c).

(** The value of [SqlRDBCondInt], the call that uses it, and the free. *)
Definition with_cond {A} (col : string) (op value : Z) (k : option SqlRDBCondition → M (HState D) A) : M (GState D) A :=
  p ← in_cond (SqlRDBCondInt (Some col) op value);
  c ← cond_or_null p;
  a ← in_handle (k c);
  in_cond (SqlRDBCondFree p);;
  mret a.

(** ** transactions.c *)

(** int32_t id; char note[32]. *)
Definition Entry : list Member := [int32_member; char_array 32].
Definition entry (id : Z) (note : string) : list byte := le_split 4 id ++ char_init 32 note.

Definition ENTRY_COLS : list RawColumnDef :=
  [MkColumnDef (Some "id"%string) SQL_TYPE_INT32 (offsetof Entry 0) 4 SQL_COL_FLAG_PRIMARY_KEY;
   MkColumnDef (Some "note"%string) SQL_TYPE_TEXT (offsetof Entry 1) 32 SQL_COL_FLAG_NONE].
Definition ENTRY_COL_COUNT : Z := 2.

Definition entry_exists (id : Z) : M (GState D) bool :=
  out ← with_cond "id" 1 id (λ c, SqlRDBRead drv (Some "entries"%string) c (Some (zeros (sizeof Entry))) None None);
  mret (res_ok out.1.1).

Definition write_entry (id : Z) (note : string) : M (GState D) SqlRDBResult :=
  in_handle (SqlRDBWrite drv (Some "entries"%string) (Some (entry id note)) None).

(** From the first SqlRDBBeginTx to the last SqlRDBRollbackTx. *)
Definition transactions_body : M (GState D) Outcome :=
  r ← in_handle (SqlRDBBeginTx drv);
  assert_at 45 (res_ok r) (
  r ← write_entry 1 "kept-on-commit";
  assert_at 47 (res_ok r) (
  r ← in_handle (SqlRDBCommitTx drv);
  assert_at 48 (res_ok r) (
  b ← entry_exists 1;
  assert_at 49 b (
  r ← in_handle (SqlRDBBeginTx drv);
  assert_at 52 (res_ok r) (
  r ← write_entry 2 "discarded";
  assert_at 54 (res_ok r) (
  r ← in_handle (SqlRDBRollbackTx drv);
  assert_at 55 (res_ok r) (
  b ← entry_exists 2;
  assert_at 56 (negb b) (
  r ← in_handle (SqlRDBBeginTx drv);
  assert_at 59 (res_ok r) (
  r ← write_entry 3 "outer-row";
  assert_at 61 (res_ok r) (
  r ← in_handle (SqlRDBBeginTx drv);
  assert_at 63 (res_ok r) (
  r ← write_entry 4 "inner-row-rolled-back";
  assert_at 65 (res_ok r) (
  r ← in_handle (SqlRDBRollbackTx drv);
  assert_at 66 (res_ok r) (
  r ← in_handle (SqlRDBCommitTx drv);
  assert_at 68 (res_ok r) (
  b ← entry_exists 3;
  assert_at 69 b (
  b ← entry_exists 4;
  assert_at 70 (negb b) (
  r ← in_handle (SqlRDBCommitTx drv);
  assert_at 73 (bool_decide (r = SQL_RDB_ERR_NO_ACTIVE_TX)) (
  r ← in_handle (SqlRDBRollbackTx drv);
  assert_at 74 (bool_decide (r = SQL_RDB_ERR_NO_ACTIVE_TX)) (
  mret (Returned 0))))))))))))))))))).

(** ** basic_crud.c

    The struct is that of persons_schema.c.  A double is its 64 bits, and == on
    doubles that are neither NaN nor zero the equality of the bits. *)

Definition PERSON_COLS : list RawColumnDef :=
  [MkColumnDef (Some "id"%string) SQL_TYPE_INT32 (offsetof Person 0) 4 SQL_COL_FLAG_PRIMARY_KEY;
   MkColumnDef (Some "name"%string) SQL_TYPE_TEXT (offsetof Person 1) 32 SQL_COL_FLAG_NONE;
   MkColumnDef (Some "score"%string) SQL_TYPE_REAL (offsetof Person 2) 8 SQL_COL_FLAG_NULLABLE].
Definition PERSON_COL_COUNT : Z := 3.

Definition person (id : Z) (name : string) (score : Z) : list byte :=
  le_split 4 id ++ char_init 32 name ++ replicate 4 x00 ++ le_split 8 score.

Definition dbl_7_0 : Z := 0x401C000000000000.
Definition dbl_8_0 : Z := 0x4020000000000000.
Definition dbl_9_5 : Z := 0x4023000000000000.

(** out.id == n; strcmp(out.name, s) == 0; out.score == x. *)
Definition id_is (out : list byte) (n : Z) : bool := to_signed 32 (le_combine (slice out 0 4)) =? n.
Definition name_is (out : list byte) (s : string) : bool := bool_decide (take_nul (slice out 4 32) = cstr s).
Definition score_is (out : list byte) (x : Z) : bool := le_combine (slice out 40 8) =? x.

Definition write_person (id : Z) (name : string) (score : Z) : M (GState D) SqlRDBResult :=
  in_handle (SqlRDBWrite drv (Some "persons"%string) (Some (person id name score)) None).

Definition read_person (id : Z) : M (GState D) ReadOut :=
  with_cond "id" 1 id (λ c, SqlRDBRead drv (Some "persons"%string) c (Some (zeros (sizeof Person))) None None).

(** From the first SqlRDBWrite to the test of [deleted]. *)
Definition basic_crud_body : M (GState D) Outcome :=
  r ← write_person 1 "Alice" dbl_9_5;
  assert_at 47 (res_ok r) (
  r ← write_person 2 "Bob" dbl_7_0;
  assert_at 48 (res_ok r) (
  r ← write_person 2 "Bob (updated)" dbl_8_0;
  assert_at 52 (res_ok r) (
  out ← read_person 2;
  assert_at 57 (res_ok out.1.1) (
  assert_at 60 (id_is out.1.2 2) (
  assert_at 61 (name_is out.1.2 "Bob (updated)") (
  assert_at 62 (score_is out.1.2 dbl_8_0) (
  x ← with_cond "id" 1 1 (λ c, SqlRDBDelete drv (Some "persons"%string) c true);
  assert_at 69 (res_ok x.1) (
  assert_at 71 (default 0 x.2 =? 1) (
  mret (Returned 0)))))))))).

(** ** generated_crud.c *)

Definition generated_crud_body : M (GState D) Outcome :=
  r ← write_person 1 "Alice" dbl_9_5;
  assert_at 27 (res_ok r) (
  out ← read_person 1;
  assert_at 31 (res_ok out.1.1) (
  assert_at 34 (id_is out.1.2 1) (
  assert_at 35 (name_is out.1.2 "Alice") (
  assert_at 36 (score_is out.1.2 dbl_9_5) (
  mret (Returned 0)))))).

(** ** multi_row.c *)

(** int32_t id; char label[16]; uint8_t payload[8]. *)
Definition Doc : list Member := [int32_member; char_array 16; char_array 8].
Definition doc (id : Z) (label : string) (payload : list Z) : list byte :=
  le_split 4 id ++ char_init 16 label ++ (byte.of_Z <$> payload).

Definition DOC_COLS : list RawColumnDef :=
  [MkColumnDef (Some "id"%string) SQL_TYPE_INT32 (offsetof Doc 0) 4 SQL_COL_FLAG_PRIMARY_KEY;
   MkColumnDef (Some "label"%string) SQL_TYPE_TEXT (offsetof Doc 1) 16 SQL_COL_FLAG_NONE;
   MkColumnDef (Some "payload"%string) SQL_TYPE_BLOB (offsetof Doc 2) 8 SQL_COL_FLAG_NULLABLE].
Definition DOC_COL_COUNT : Z := 3.

Definition doc_rows : list byte :=
  doc 1 "alpha" [0x01; 0x02; 0x03; 0x04; 0x05; 0x06; 0x07; 0x08] ++
  doc 2 "beta" [0x11; 0x12; 0x13; 0x14; 0x15; 0x16; 0x17; 0x18] ++
  doc 3 "gamma" [0x21; 0x22; 0x23; 0x24; 0x25; 0x26; 0x27; 0x28] ++
  doc 4 "delta" [0x31; 0x32; 0x33; 0x34; 0x35; 0x36; 0x37; 0x38].

(** big[i] = (uint8_t)(i * 7) *)
Definition big : list byte := (λ i, byte.of_Z (Z.of_nat i * 7 mod 2 ^ 8)) <$> seq 0 64.

(** The while loop: [fuel] bounds its turns. *)
Fixpoint count_docs (fuel : nat) (it : SqlRDBStmt) (row : list byte) (seen : Z) : M (GState D) Z :=
  match fuel with
  | O => ub
  | S fuel =>
      out ← in_handle (SqlRDBStmtNext drv (Some it) (Some row) None);
      if res_ok out.1.1 then count_docs fuel it out.1.2 (seen + 1) else mret seen
  end.

(** From SqlRDBWriteMany to the refused SqlRDBWriteBlobField.  The local [row]
    is not read before a row was put there. *)
Definition multi_row_body (fuel : nat) : M (GState D) Outcome :=
  r ← in_handle (SqlRDBWriteMany drv (Some "docs"%string) (Some doc_rows) 4 (sizeof Doc) None);
  assert_at 46 (res_ok r) (
  x ← with_cond "id" 6 2 (λ c, SqlRDBReadMany drv (Some "docs"%string) c);
  assert_at 51 (res_ok x.1) (
  it ← mdef x.2;
  seen ← count_docs fuel it (zeros (sizeof Doc)) 0;
  assert_at 60 (seen =? 3) (
  r ← in_handle (SqlRDBStmtFree drv (Some it));
  assert_at 61 (res_ok r) (
  r ← with_cond "id" 1 1 (λ c, SqlRDBWriteBlobField drv (Some "docs"%string) c (Some "payload"%string) (Some big) 64);
  assert_at 69 (res_ok r) (
  y ← with_cond "id" 1 1 (λ c, SqlRDBReadBlobField drv (Some "docs"%string) c (Some "payload"%string));
  assert_at 75 (res_ok y.1) (
  out ← mdef y.2;
  let '(buf, len) := out in
  assert_at 78 (len =? 64) (
  assert_at 79 (bool_decide (take 64 buf = big)) (
  err ← with_cond "id" 5 0 (λ c, SqlRDBWriteBlobField drv (Some "docs"%string) c (Some "payload"%string)
           (Some (cstr "x" ++ [x00])) 1);
  assert_at 87 (bool_decide (err = SQL_RDB_ERR_MULTIPLE_ROWS)) (
  mret (Returned 0)))))))))).
End body.

(** ** main *)

Section main.
Context {D : Type} (bk : Backends D) (init_rc : Z) (fuel : nat).

(** The process, and the heap of the conditions. *)
Record PState : Type := MkP {
  p_world : World D;
  p_cond : CondMem;
}.

Definition in_world {A} (m : M (World D) A) : M PState A := zoom p_world (λ w s, MkP w (p_cond s)) m.

Definition on_g {A} (h : ptr) (m : M (GState D) A) : M PState A := λ s,
  '((a, c), w) ← on_handle h (λ x, '(a, g) ← m (MkG x (p_cond s)); Some ((a, g_cond g), g_h g)) (p_world s);
  Some (a, MkP w c).

(** Opening, registering, the body, closing; at the lines given. *)
Definition program (l_init l_reg l_close : Z) (register : SqlRDBDriver D → M (MigState D) SqlRDBResult)
    (body : SqlRDBDriver D → M (GState D) Outcome) : M PState Outcome :=
  h ← in_world (SqlRDBInit bk init_rc (Some ":memory:"%string));
  assert_at l_init (negb (h =? NULL)%N) (
  drv ← in_world (driver_of h);
  r ← in_world (on_handle h (λ s, '(r, x) ← register drv (MkMig s []); Some (r, ms_h x)));
  assert_at l_reg (res_ok r) (
  out ← on_g h (body drv);
  match out with
  | Aborted l => mret (Aborted l)
  | Returned _ =>
      r ← in_world (SqlRDBClose h);
      assert_at l_close (res_ok r) (mret (Returned 0))
  end)).

Definition transactions_main : M PState Outcome :=
  program 41 42 76 (λ drv, SqlRDBRegisterStruct drv fuel (Some "entries"%string) (Some ENTRY_COLS) ENTRY_COL_COUNT)
    transactions_body.

Definition basic_crud_main : M PState Outcome :=
  program 38 41 74 (λ drv, SqlRDBRegisterStruct drv fuel (Some "persons"%string) (Some PERSON_COLS) PERSON_COL_COUNT)
    basic_crud_body.

Definition generated_crud_main : M PState Outcome :=
  program 21 24 41 (λ drv, RegisterPersons drv fuel) generated_crud_body.

Definition multi_row_main : M PState Outcome :=
  program 36 37 89 (λ drv, SqlRDBRegisterStruct drv fuel (Some "docs"%string) (Some DOC_COLS) DOC_COL_COUNT)
    (λ drv, multi_row_body drv fuel).
End main.
