(* ===== verification/ExamplesTheorems.v ===== *)
(** * transactions.c keeps its promises

    On a backend that obeys the laws of tables, the program can end early only
    where a call of the library reports an error: what it asserts of rows that
    were rolled back, and of calls without a transaction, holds.  The bodies of
    all example programs are evaluated on TableDriver. *)

From Stdlib Require Import Ascii String Strings.Byte.
From coqutil Require Import Byte Word.LittleEndianList.
From S2P Require Import Prelude Types Support Driver StmtCacheSpec StmtCacheTheorems Condition QueryBuilder QueryBuilderProofs Registry.
From S2P Require Import RegistryProofs SqlText SqlTextProofs TypeMapping TypeMappingProofs Relational TableDriver Handle Api.
From S2P Require Import ApiProofs ApiSafety SqlHandle SqlBlocks SqlApi SqlRead SqlTables SqlWriteMany Transactions ApiTheorems SqlTheorems.
From S2P Require Import SqlBlob SqlTx Lifecycle Migration MigrationSafety Generated GeneratedTheorems Alive Examples.
Import ErrorCtx Logger Mutex.

(** ** Programs that end *)

(** From a state in [P] the program ends: with 0 and in [Q], or at a line of [L]. *)
Definition ends {S} (L : list Z) (P : S → Prop) (m : M S Outcome) (Q : S → Prop) : Prop :=
  ∀ s, P s → ∃ out s', m s = Some (out, s') ∧
    match out with Returned c => c = 0 ∧ Q s' | Aborted l => l ∈ L end.

Lemma ends_return {S} L (P : S → Prop) : ends L P (mret (Returned 0)) P.
Proof. intros s Hs. by exists (Returned 0), s. Qed.

(** A call and the assertion on what it gave. *)
Lemma ends_step {S A} L (P : S → Prop) (m : M S A) (test : A → bool) (P' : A → S → Prop) line rest Q :
  (∀ s, P s → ∃ a s', m s = Some (a, s') ∧ if test a then P' a s' else line ∈ L) →
  (∀ a, test a = true → ends L (P' a) (rest a) Q) →
  ends L P (a ← m; assert_at line (test a) (rest a)) Q.
Proof.
  intros Hm Hr s Hs. destruct (Hm s Hs) as (a & s' & E & Ha). rewrite (bind_run _ _ _ _ _ E).
  unfold assert_at. destruct (test a) eqn:Et; [by apply Hr|]. by exists (Aborted line), s'.
Qed.

(** An assertion that holds. *)
Lemma ends_check {S} L (P : S → Prop) line b (rest : M S Outcome) Q :
  b = true → ends L P rest Q → ends L P (assert_at line b rest) Q.
Proof. by intros ->. Qed.

Section conditions.
Context {D : Type} (drv : SqlRDBDriver D).

(** A condition that is made, used and freed. *)
Lemma with_cond_run {A} col op v (k : option SqlRDBCondition → M (HState D) A) (s : GState D) a h' :
  no_oom (cm_alloc (g_cond s)) →
  k (Some (COND_LEAF col (SqlRDBOp_of_int op) SQL_TYPE_INT64 (VInt v))) (g_h s) = Some (a, h') →
  ∃ al', no_oom al' ∧ with_cond col op v k s = Some (a, MkG h' (MkCondMem (cm_heap (g_cond s)) al')).
Proof.
  destruct s as [h [heap al]]. intros Ho E. cbn [g_cond g_h cm_alloc cm_heap] in *. unfold with_cond.
  set (leaf := NLeaf col (SqlRDBOp_of_int op) SQL_TYPE_INT64 (VInt v)).
  destruct (alloc_node_spec leaf heap al) as (p & Ep & Hp & Hf).
  apply no_oom_malloc in Ho as [Hok Ho]. destruct (malloc_ok al) as [ok al']. cbn [fst snd] in *. subst ok.
  rewrite (bind_run _ _ _ _ _ (in_cond_run _ (MkG h (MkCondMem heap al)) _ _ Ep)). cbn [g_h].
  set (heap' := <[p := leaf]> heap).
  assert (cond_or_null p (MkG h (MkCondMem heap' al')) =
    Some (Some (COND_LEAF col (SqlRDBOp_of_int op) SQL_TYPE_INT64 (VInt v)), MkG h (MkCondMem heap' al'))) as Ec.
  { unfold cond_or_null. rewrite (proj2 (N.eqb_neq _ _) Hp). unfold cond_arg, heap', leaf, mbind, M_bind. simpl.
    by rewrite lookup_insert_eq. }
  rewrite (bind_run _ _ _ _ _ Ec).
  rewrite (bind_run _ _ _ _ _ (in_handle_run _ (MkG h (MkCondMem heap' al')) _ _ E)). cbn [g_cond].
  assert (SqlRDBCondFree p (MkCondMem heap' al') = Some (tt, MkCondMem heap al')) as Efree.
  { unfold SqlRDBCondFree. erewrite (cond_free_spec (COND_LEAF col (SqlRDBOp_of_int op) SQL_TYPE_INT64 (VInt v)) _ _ _ _ {[p]}).
    - do 3 f_equal. unfold heap'. rewrite without_singleton. by apply delete_insert_id.
    - split; [done|]. unfold heap', leaf. by rewrite lookup_insert_eq.
    - simpl. lia. }
  rewrite (bind_run _ _ _ _ _ (in_cond_run _ (MkG h' (MkCondMem heap' al')) _ _ Efree)). by exists al'.
Qed.
End conditions.

(** ** transactions.c *)

(** What SqlRDBRegisterStruct makes of ENTRY_COLS. *)
Definition entries_schema : SqlRDBSchema :=
  MkSchema "entries" [MkColumnDef "id"%string SQL_TYPE_INT32 0 4 SQL_COL_FLAG_PRIMARY_KEY;
                      MkColumnDef "note"%string SQL_TYPE_TEXT 4 32 SQL_COL_FLAG_NONE] 2 0.

Section transactions.
Context {D : Type} (drv : SqlRDBDriver D) `{!DriverLaws drv} (ctx : ptr) `{!SqlLaws drv ctx}.
Context (V : Setting) (o : gset ptr) (heap : gmap ptr CondNode) (tb : Tables) (kinds : gmap string Kind).
Hypothesis Hfound : found (st_registry V) "entries" entries_schema.
Hypothesis Hdecl : ∀ rows, declared (MkTable kinds (Some "id"%string) rows) entries_schema.

Definition entries (rows : list Row) : Table := MkTable kinds (Some "id"%string) rows.

(** The tables with these entries. *)
Definition with_entries (rows : list Row) : Tables := <["entries"%string := entries rows]> tb.

(** Between two calls at depth [k], with the entries and the open frames. *)
Definition stands (k : Z) (rows : list Row) (frames : list (string * Tables)) (s : GState D) : Prop :=
  (∃ t, tx_depth t = k ∧ at_rest drv ctx (at_txn t V) o (exactly (MkDb (with_entries rows) frames false)) (g_h s)) ∧
  Z.of_nat (length frames) = k ∧ table_ok (entries rows) ∧
  cm_heap (g_cond s) = heap ∧ no_oom (cm_alloc (g_cond s)) ∧ magic (g_h s) = SQL_RDB_HANDLE_MAGIC.

(** The rows after the entry is written. *)
Definition put_entry (id : Z) (note : string) (rows : list Row) : list Row :=
  put_row drv ctx entries_schema (row_cells entries_schema (entry id note) None) rows.

Definition entry_fine (id : Z) (note : string) : Prop := row_fine drv ctx entries_schema (entry id note) None.

Lemma stands_handle k rows frames k' rows' frames' s h t :
  stands k rows frames s → tx_depth t = k' → Z.of_nat (length frames') = k' → table_ok (entries rows') →
  at_rest drv ctx (at_txn t V) o (exactly (MkDb (with_entries rows') frames' false)) h →
  magic h = magic (g_h s) → stands k' rows' frames' (MkG h (g_cond s)).
Proof.
  intros (_ & _ & _ & Hh & Ha & Hm) Hk Hl Hok Hr Hmg. split; [by exists t|]. split_and!; try done. simpl. congruence.
Qed.

(** A call of SqlRDBBeginTx, SqlRDBCommitTx or SqlRDBRollbackTx; what it leaves when it succeeds. *)
Lemma tx_step c k rows frames rows' frames' s :
  stands k rows frames s →
  match c with
  | TxBegin => rows' = rows ∧ frames' = (frame_name (k + 1), with_entries rows) :: frames
  | TxCommit => rows' = rows ∧ ∃ T, frames = (frame_name k, T) :: frames'
  | TxRollback => frames = (frame_name k, with_entries rows') :: frames' ∧ table_ok (entries rows')
  end →
  ∃ r s', in_handle (tx_call drv c) s = Some (r, s') ∧
    if res_ok r then stands (if decide (c = TxBegin) then k + 1 else k - 1) rows' frames' s' else True.
Proof.
  destruct s as [h0 cm]. intros Hs Hc. pose proof Hs as ((t & Ht & Hr) & Hl & Hok & _).
  pose proof Hr as (_ & _ & _ & m0 & Hb). unfold exactly in Hb.
  assert (c ≠ TxBegin → 1 ≤ k) as Hk.
  { destruct c; [done|destruct Hc as (_ & T & ->)|destruct Hc as [-> _]]; simpl in Hl; lia. }
  destruct (tx_run drv ctx (at_txn t V) o _ h0 c k Hr Ht Hk) as (r & t' & h & E & Hr' & Heff).
  exists r, (MkG h cm). split; [by apply in_handle_run|].
  destruct (res_ok r) eqn:Er; [|done]. apply res_ok_true in Er. destruct (Heff Er) as [Ht' He]. simpl in Hb. rewrite Hb in He.
  assert (the_db (hs_db h) = MkDb (with_entries rows') frames' false ∧ table_ok (entries rows')) as [Hb' Hok'].
  { destruct c; cbn [tx_effect] in He.
    - destruct Hc as [-> ->]. destruct (He Hl) as [-> _]. done.
    - destruct Hc as [-> [T ->]]. split; [|done]. rewrite (He T frames' eq_refl); [done|]. intros ->. simpl in Hl.
      destruct frames'; [done|simpl in Hl; lia].
    - destruct Hc as [-> Hok']. split; [|done]. destruct He as [_ He]. rewrite (He _ frames' eq_refl); [done|]. intros ->.
      simpl in Hl. destruct frames'; [done|simpl in Hl; lia]. }
  rewrite Hb' in Hr'. eapply (stands_handle k rows frames _ _ _ (MkG h0 cm)); try done.
  - destruct c; [destruct Hc as [-> ->]|destruct Hc as (_ & T & ->)|destruct Hc as [-> _]]; simpl in Hl |- *; lia.
  - by apply (magic_tx drv c _ _ _ E).
Qed.

Lemma with_rows_entries rows rows' frames :
  with_rows "entries" (entries rows) rows' (MkDb (with_entries rows) frames false) = MkDb (with_entries rows') frames false.
Proof. unfold with_rows, with_entries. cbn [db_tables db_frames db_doomed]. by rewrite insert_insert_eq. Qed.

(** Writing an entry. *)
Lemma write_step id note k rows frames s :
  entry_fine id note → stands k rows frames s →
  ∃ r s', write_entry drv id note s = Some (r, s') ∧
    if res_ok r then stands k (put_entry id note rows) frames s' else True.
Proof.
  intros Hf Hs. destruct s as [h0 cm]. pose proof Hs as ((t & Ht & Hr) & Hl & Hok & _).
  destruct (op_run drv ctx (at_txn t V) o "entries" entries_schema kinds (OpWrite (entry id note) None)
    (MkDb (with_entries rows) frames false) (entries rows) h0) as (r & h & E & Hok' & Hr'); try done.
  { apply lookup_insert_eq. }
  exists r, (MkG h cm). split; [by apply in_handle_run|]. destruct (res_ok r); [|done].
  eapply (stands_handle k rows frames _ _ _ (MkG h0 cm)); try done.
  - by rewrite with_rows_entries in Hr'.
  - exact (magic_write drv (Some "entries"%string) (Some (entry id note)) None _ _ _ E).
Qed.

Lemma entry_new_typed rows id note :
  entry_fine id note → row_typed (entries rows) (new_row (col_names entries_schema) (row_cells entries_schema (entry id note) None)).
Proof. intros (_ & Hrow & _). apply new_typed; [by destruct Hfound|apply Hdecl|by eapply row_cells_typed]. Qed.

(** The key of an entry. *)
Definition keyed (id : Z) (note : string) : Prop :=
  cell_at (new_row (col_names entries_schema) (row_cells entries_schema (entry id note) None)) "id" = CInt id.

(** The keys after an entry is written. *)
Lemma put_entry_keys id note rows i :
  table_ok (entries rows) → entry_fine id note → keyed id note →
  CInt i ∈ keys "id" (put_entry id note rows) → i = id ∨ CInt i ∈ keys "id" rows.
Proof.
  intros Hok Hf Hid. pose proof (entry_new_typed rows id note Hf) as Hty. unfold put_entry, put_row, keyed in *.
  set (new := new_row _ _) in *. change (has_pk entries_schema) with true. cbv iota zeta.
  change (upsert _ _ _ _ _) with (upsert sql_cmp "id" ["note"%string] new (t_rows (entries rows))).
  rewrite (keys_upsert drv ctx (entries rows) "id" ["note"%string] new Hok eq_refl Hty); rewrite ?Hid; try done.
  - case_decide; [by right|]. intros [Hi|Hi%list_elem_of_singleton]%elem_of_app; [by right|left]. by injection Hi.
  - intros c ->%list_elem_of_singleton. by apply new_row_in; [|right; left].
  - by intros ?%list_elem_of_singleton.
Qed.

Lemma entry_buffers : buffers_ok entries_schema (zeros (sizeof Entry)) None.
Proof.
  split; [|split; [by repeat constructor|done]]. split_and!; [|done|simpl; lia|done]. split.
  - repeat constructor; simpl; unfold width, INT_MAX; simpl; try lia; done.
  - intros [|[|i]] [|[|j]] c1 c2 Hij H1 H2; simplify_eq/=; unfold disjoint_cols, width; simpl; lia.
Qed.

(** exists: what it finds is there. *)
Lemma exists_step id note rows s :
  entry_fine id note → keyed id note → stands 0 rows [] s →
  ∃ b s', entry_exists drv id s = Some (b, s') ∧ stands 0 rows [] s' ∧ (b = true → CInt id ∈ keys "id" rows).
Proof.
  intros Hf Hid Hs. destruct s as [h0 cm]. pose proof Hs as ((t & Ht & Hr) & _ & Hok & Hh & Ha & Hm).
  pose proof Hf as (_ & Hrow & Hcells). set (c := by_key entries_schema SQL_TYPE_INT64 (VInt id)).
  assert (searchable drv ctx (entries rows) (Some c)) as Hc.
  { eapply by_key_searchable; [by destruct Hfound|apply Hdecl|done|exact Hcells|by eapply row_cells_typed|done|].
    by symmetry. }
  destruct (read_run drv ctx (at_txn t V) o "entries" entries_schema (entries rows) _ (Some c) (zeros (sizeof Entry)) None None
    h0 Hr) as (x & h & E & Hi & Hpost); [|done|exact entry_buffers|].
  { split_and!; try done. intros b n ->. apply lookup_insert_eq. }
  destruct (with_cond_run "id" 1 id (λ c, SqlRDBRead drv (Some "entries"%string) c (Some (zeros (sizeof Entry))) None None)
    (MkG h0 cm) x h Ha E) as (al & Hal & Ew).
  exists (res_ok x.1.1), (MkG h (MkCondMem (cm_heap cm) al)). unfold entry_exists. rewrite (bind_run _ _ _ _ _ Ew).
  split; [done|].
  assert (tidy drv ctx (at_txn t V) (exactly (MkDb (with_entries rows) [] false)) h ∧
    (res_ok x.1.1 = true → chosen drv ctx (Some c) rows ≠ [])) as [Hti Hin].
  { unfold read_post in Hpost. destruct x.1.1; cbn [res_ok] in *;
      try (split; [|done]; eapply tidy_mono; [|exact Hpost]; intros b' n (b0 & n0 & -> & [->|[Hne _]]); done);
      try (split; [|done]; by destruct Hpost).
    destruct Hpost as (Hti & r & Hin & _). split; [done|]. intros _ E0. cbn [t_rows entries] in Hin. rewrite E0 in Hin.
    by apply elem_of_nil in Hin. }
  split.
  - split; [by exists t|]. split_and!; try done. simpl.
    rewrite (magic_read_rows drv (Some "entries"%string) (Some c) (Some (zeros (sizeof Entry))) None None _ _ _ E). exact Hm.
  - intros Hb. specialize (Hin Hb). destruct (chosen drv ctx (Some c) rows) as [|r l] eqn:Ech; [done|].
    assert (r ∈ chosen drv ctx (Some c) rows) as Hr0 by (rewrite Ech; left). unfold c, by_key in Hr0.
    rewrite (chosen_key drv ctx _ _ _ (new_row (col_names entries_schema) (row_cells entries_schema (entry id note) None))) in Hr0
      by (by symmetry).
    apply list_elem_of_filter in Hr0 as [Hsk Hr0]. change (pk_name entries_schema) with "id"%string in Hsk.
    rewrite (same_key_eq drv ctx (entries rows) "id" _ r Hok eq_refl (entry_new_typed rows id note Hf)) in Hsk;
      [|by rewrite Hid|done]. apply bool_decide_unpack in Hsk. rewrite Hid in Hsk.
    unfold keys. rewrite <-Hsk. by apply (list_elem_of_fmap_2 (λ r, cell_at r "id")).
Qed.

(** A call at depth 0 that needs a transaction. *)
Lemma refused_step c rows s :
  stands 0 rows [] s → c ≠ TxBegin →
  ∃ s', in_handle (tx_call drv c) s = Some (SQL_RDB_ERR_NO_ACTIVE_TX, s') ∧ stands 0 rows [] s'.
Proof.
  intros Hs Hc. destruct s as [h0 cm]. pose proof Hs as ((t & Ht & Hr) & _ & Hok & _ & _ & Hm).
  destruct (tx_refused drv ctx (at_txn t V) o _ h0 c Hr Hm Ht Hc) as (t' & h & E & Ht' & _ & Hr').
  exists (MkG h cm). split; [by apply in_handle_run|].
  eapply (stands_handle 0 rows [] _ _ _ (MkG h0 cm)); try done.
  - pose proof Hr as (_ & _ & _ & m0 & Hb). unfold exactly in Hb. simpl in Hb. by rewrite Hb in Hr'.
  - exact (magic_tx drv c _ _ _ E).
Qed.

(** The steps as assertions. *)
Context (L : list Z) (line : Z) (rest : M (GState D) Outcome) (Q : GState D → Prop).

Lemma ends_tx c k rows frames k' rows' frames' :
  k' = (if decide (c = TxBegin) then k + 1 else k - 1) →
  match c with
  | TxBegin => rows' = rows ∧ frames' = (frame_name (k + 1), with_entries rows) :: frames
  | TxCommit => rows' = rows ∧ ∃ T, frames = (frame_name k, T) :: frames'
  | TxRollback => frames = (frame_name k, with_entries rows') :: frames' ∧ table_ok (entries rows')
  end → line ∈ L → ends L (stands k' rows' frames') rest Q →
  ends L (stands k rows frames) (r ← in_handle (tx_call drv c); assert_at line (res_ok r) rest) Q.
Proof.
  intros -> Hc Hl Hr. eapply (ends_step _ _ _ res_ok (λ _, stands _ rows' frames')); [|by intros].
  intros s Hs. destruct (tx_step c k rows frames rows' frames' s Hs Hc) as (r & s' & E & H). exists r, s'.
  split; [done|]. by destruct (res_ok r).
Qed.

Lemma ends_write id note k rows frames :
  entry_fine id note → line ∈ L → ends L (stands k (put_entry id note rows) frames) rest Q →
  ends L (stands k rows frames) (r ← write_entry drv id note; assert_at line (res_ok r) rest) Q.
Proof.
  intros Hf Hl Hr. eapply (ends_step _ _ _ res_ok (λ _, stands k _ frames)); [|by intros].
  intros s Hs. destruct (write_step id note k rows frames s Hf Hs) as (r & s' & E & H). exists r, s'.
  split; [done|]. by destruct (res_ok r).
Qed.

Lemma ends_exists id note rows :
  entry_fine id note → keyed id note → line ∈ L → ends L (stands 0 rows []) rest Q →
  ends L (stands 0 rows []) (b ← entry_exists drv id; assert_at line b rest) Q.
Proof.
  intros Hf Hk Hl Hr. eapply (ends_step _ _ _ (λ b : bool, b) (λ _, stands 0 rows [])); [|by intros].
  intros s Hs. destruct (exists_step id note rows s Hf Hk Hs) as (b & s' & E & H & _). exists b, s'.
  split; [done|]. by destruct b.
Qed.

Lemma ends_absent id note rows :
  entry_fine id note → keyed id note → (CInt id ∉ keys "id" rows) → ends L (stands 0 rows []) rest Q →
  ends L (stands 0 rows []) (b ← entry_exists drv id; assert_at line (negb b) rest) Q.
Proof.
  intros Hf Hk Hn Hr. eapply (ends_step _ _ _ negb (λ _, stands 0 rows [])); [|by intros].
  intros s Hs. destruct (exists_step id note rows s Hf Hk Hs) as (b & s' & E & H & Hb). exists b, s'.
  split; [done|]. destruct b; [|done]. by destruct (Hn (Hb eq_refl)).
Qed.

Lemma ends_refused c rows :
  c ≠ TxBegin → ends L (stands 0 rows []) rest Q →
  ends L (stands 0 rows []) (r ← in_handle (tx_call drv c);
    assert_at line (bool_decide (r = SQL_RDB_ERR_NO_ACTIVE_TX)) rest) Q.
Proof.
  intros Hc Hr. eapply (ends_step _ _ _ (λ r, bool_decide (r = SQL_RDB_ERR_NO_ACTIVE_TX)) (λ _, stands 0 rows [])); [|by intros].
  intros s Hs. destruct (refused_step c rows s Hs Hc) as (s' & E & H). eexists _, s'. split; [done|]. by rewrite bool_decide_true.
Qed.

Lemma stands_ok k rows frames (m : M (GState D) Outcome) :
  (table_ok (entries rows) → ends L (stands k rows frames) m Q) → ends L (stands k rows frames) m Q.
Proof. intros H s Hs. apply (H ltac:(apply Hs) s Hs). Qed.
End transactions.

(** One assertion of the program each. *)
Ltac listed := apply (bool_decide_unpack _); vm_compute; exact I.
Ltac begins k := eapply (ends_tx _ _ _ _ _ _ _ _ _ _ _ TxBegin k); [reflexivity|by split|listed|].
Ltac commits k := eapply (ends_tx _ _ _ _ _ _ _ _ _ _ _ TxCommit k); [reflexivity|by split; [|eexists]|listed|].
Ltac rolls_back k := eapply (ends_tx _ _ _ _ _ _ _ _ _ _ _ TxRollback k); [reflexivity|by split|listed|].
Ltac writes H := eapply ends_write; [eassumption..|exact H|listed|].
Ltac finds H K := eapply ends_exists; [eassumption..|exact H|exact K|listed|].
Ltac misses H K := eapply ends_absent; [eassumption..|exact H|exact K|assumption|].
Ltac refuses c := eapply (ends_refused _ _ _ _ _ _ _ _ _ _ _ c); [done|].

(** ** Properties *)

(** The lines of transactions.c whose assertion is that a call succeeded. *)
Definition succeeds_at : list Z := [45; 47; 48; 49; 52; 54; 55; 59; 61; 63; 65; 66; 68; 69].

Section properties.
Context {D : Type} (drv : SqlRDBDriver D) `{!DriverLaws drv} (ctx : ptr) `{!SqlLaws drv ctx}.
Context (V : Setting) (o : gset ptr) (heap : gmap ptr CondNode) (tb : Tables) (kinds : gmap string Kind).

(** C12: transactions.c, between the registration and SqlRDBClose.  On a handle
    outside of any transaction, with a table of entries that has neither 2 nor
    4, and with memory for its conditions, the program ends; where it does not
    return 0 it ended at an assertion that a call succeeds.  The other
    assertions hold: what was rolled back, in the transaction and in the nested
    one, is not found (lines 56 and 70), and a commit and a rollback without a
    transaction are refused (73 and 74).  When it returns 0 the entries are
    those of before with 1 and 3 written, and no transaction is open. *)
Theorem transactions_example rows :
  found (st_registry V) "entries" entries_schema →
  (∀ rows, declared (MkTable kinds (Some "id"%string) rows) entries_schema) →
  Forall (λ e, entry_fine drv ctx e.1 e.2)
    [(1, "kept-on-commit"); (2, "discarded"); (3, "outer-row"); (4, "inner-row-rolled-back")]%string →
  (CInt 2 ∉ keys "id" rows) → (CInt 4 ∉ keys "id" rows) →
  ends succeeds_at (stands drv ctx V o heap tb kinds 0 rows [])
    (transactions_body drv)
    (stands drv ctx V o heap tb kinds 0 (put_entry drv ctx 3 "outer-row" (put_entry drv ctx 1 "kept-on-commit" rows)) []).
Proof.
  intros Hf Hd Hfine Hn2 Hn4.
  assert (entry_fine drv ctx 1 "kept-on-commit" ∧ entry_fine drv ctx 2 "discarded" ∧ entry_fine drv ctx 3 "outer-row" ∧
    entry_fine drv ctx 4 "inner-row-rolled-back") as (H1 & H2 & H3 & H4) by (rewrite !list.Forall_cons in Hfine; tauto).
  clear Hfine. unfold transactions_body. set (r1 := put_entry drv ctx 1 _ rows). set (r3 := put_entry drv ctx 3 _ r1).
  assert (keyed 1 "kept-on-commit" ∧ keyed 2 "discarded" ∧ keyed 3 "outer-row" ∧ keyed 4 "inner-row-rolled-back")
    as (K1 & K2 & K3 & K4) by (by vm_compute).
  apply (stands_ok drv ctx V o heap tb kinds). intros Hok0.
  assert (CInt 2 ∉ keys "id" r1) as N2 by (intros [?|?]%(put_entry_keys drv ctx V kinds Hf Hd); done).
  begins 0. writes H1. commits 1.
  apply (stands_ok drv ctx V o heap tb kinds). intros Hok1. finds H1 K1.
  begins 0. writes H2. rolls_back 1. misses H2 K2.
  begins 0. writes H3. apply (stands_ok drv ctx V o heap tb kinds). intros Hok3.
  begins 1. writes H4. rolls_back 2. commits 1. finds H3 K3.
  assert (CInt 4 ∉ keys "id" r3) as N4.
  { intros [?|[?|?]%(put_entry_keys drv ctx V kinds Hf Hd)]%(put_entry_keys drv ctx V kinds Hf Hd); done. }
  misses H4 K4. refuses TxCommit. refuses TxRollback. apply ends_return.
Qed.
End properties.

(** ** Examples: the programs on the driver with tables *)

(** A handle with the structs of the programs registered, their tables empty. *)
Definition ex_programs_reg : SqlRDBSchemaRegistry := MkReg [entries_schema; persons_schema; ex_docs_schema] 8 1%N.
Definition ex_programs_setting : Setting := MkSetting ex_programs_reg ex_config (MkTxn 0 (replicate 16 EmptyString)) True.
Definition ex_entry_kinds : gmap string Kind := {["id"%string := KInt; "note"%string := KText]}.
Definition ex_other_tables : Tables :=
  {["persons"%string := MkTable {["id"%string := KInt; "name"%string := KText; "score"%string := KReal]} (Some "id"%string) [];
    "docs"%string := MkTable {["id"%string := KInt; "label"%string := KText; "payload"%string := KBlob]} (Some "id"%string) []]}.
Definition ex_programs (al : list bool) : GState Tab :=
  MkG (MkH (set_h_registry ex_programs_reg ex_handle) (tab0 (with_entries ex_other_tables ex_entry_kinds [])) [] 15)
    (MkCondMem ∅ al).

Lemma entries_schema_ok : schema_ok entries_schema.
Proof.
  split; [by apply identifier_valid_spec|]. split; [done|]. split; [done|]. split; [split|].
  - by apply (bool_decide_unpack _).
  - repeat constructor; try done; by apply identifier_valid_spec.
  - right. exists 0%nat. eexists. split_and!; [done|done|done|lia].
Qed.

Lemma ex_programs_stands :
  stands tab_driver 1%N ex_programs_setting ∅ ∅ ex_other_tables ex_entry_kinds 0 [] [] (ex_programs []).
Proof.
  assert (NoDup (reg_names ex_programs_reg)) as Hnd by (by apply (bool_decide_unpack _)).
  split; [|split_and!; try done; [|constructor]].
  - exists (MkTxn 0 (replicate 16 EmptyString)). split; [done|]. split.
    + split; [|done]. split; [done|]. split.
      { split; [done|]. split; [|by split_and!].
        change (Forall schema_ok [entries_schema; persons_schema; ex_docs_schema]).
        rewrite !list.Forall_cons. split_and!; [apply entries_schema_ok|apply persons_schema_ok|apply ex_docs_schema_ok|constructor]. }
      split; [split_and!; try done; intros; simpl in *; lia|].
      exists [], (MkAbs 2 []). split_and!; [exact ex_rep|constructor|done|done|set_solver|set_solver].
    + split; [split_and!; try done; constructor|]. split; [|by exists 0].
      exists [], (MkAbs 2 []). split_and!; [exact ex_rep|constructor| |done]. intros sql p Hp. by apply elem_of_nil in Hp.
  - split; [constructor|]. intros key [= <-]. split; [by exists KInt|]. split; constructor.
Qed.

Lemma ex_entry_fine id note :
  bool_decide (cell_at (new_row (col_names entries_schema) (row_cells entries_schema (entry id note) None)) "id" ≠ CNull) = true →
  length (entry id note) = 36%nat → entry_fine tab_driver 1%N id note.
Proof.
  intros Hn Hl. split; [done|]. split.
  - rewrite Hl. apply entry_buffers.
  - split; [by apply Forall_forall|]. intros _. by apply bool_decide_eq_true in Hn.
Qed.

Lemma transactions_example_witness :
  ∃ out s', transactions_body tab_driver (ex_programs []) = Some (out, s') ∧
    match out with
    | Returned c => c = 0 ∧ stands tab_driver 1%N ex_programs_setting ∅ ∅ ex_other_tables ex_entry_kinds 0
        (put_entry tab_driver 1%N 3 "outer-row" (put_entry tab_driver 1%N 1 "kept-on-commit" [])) [] s'
    | Aborted l => l ∈ succeeds_at
    end.
Proof.
  apply (transactions_example tab_driver 1%N ex_programs_setting ∅ ∅ ex_other_tables ex_entry_kinds []).
  - split; [apply entries_schema_ok|]. split; [reflexivity|]. left.
  - intros rows. split; [|reflexivity]. repeat constructor; eexists; split; vm_compute; reflexivity.
  - rewrite !list.Forall_cons. split_and!; [apply ex_entry_fine; vm_compute; reflexivity..|constructor].
  - apply not_elem_of_nil.
  - apply not_elem_of_nil.
  - apply ex_programs_stands.
Defined.

(** Each program runs to its end. *)
Example ex_transactions_runs : fst <$> transactions_body tab_driver (ex_programs []) = Some (Returned 0).
Proof. vm_compute. reflexivity. Qed.
Example ex_basic_crud_runs : fst <$> basic_crud_body tab_driver (ex_programs []) = Some (Returned 0).
Proof. vm_compute. reflexivity. Qed.
Example ex_generated_crud_runs : fst <$> generated_crud_body tab_driver (ex_programs []) = Some (Returned 0).
Proof. vm_compute. reflexivity. Qed.
Example ex_multi_row_runs : fst <$> multi_row_body tab_driver 10 (ex_programs []) = Some (Returned 0).
Proof. vm_compute. reflexivity. Qed.

(** Without memory for the condition, exists asks for any row at all, and the
    assertion at line 56 fails. *)
Example ex_transactions_no_memory :
  fst <$> transactions_body tab_driver (ex_programs [true; false]) = Some (Aborted 56).
Proof. vm_compute. reflexivity. Qed.
