(* ===== verification/ExampleRuns.v ===== *)
(** * The example programs from main to return

    A driver that keeps its tables as TableDriver does and answers the queries
    on the catalogue as CatDriver does, and the programs of src/examples run on
    it from SqlRDBInit to SqlRDBClose. *)

From Stdlib Require Import Ascii String Strings.Byte.
From S2P Require Import Prelude Types Support Driver Condition Registry TypeMapping Relational TableDriver CatDriver Handle.
From S2P Require Import Lifecycle Migration MigrationTheorems Generated Examples.
Import ErrorCtx Logger Mutex.

Section both.
Context (c : Catalogue).

Local Abbreviation Both := (Tab * Cat)%type.
Local Abbreviation cat := (cat_driver C2SQL_DIALECT_SQLITE c).

Definition on_tab {A} (m : M Tab A) : M Both A := zoom fst (λ t x, (t, x.2)) m.
Definition on_cat {A} (m : M Cat A) : M Both A := zoom snd (λ t x, (x.1, t)) m.

(** A statement is of the one or of the other: its address is even or odd. *)
Definition route {A} (f : SqlRDBDriver Tab → ptr → M Tab A) (g : SqlRDBDriver Cat → ptr → M Cat A) (p : ptr) : M Both A :=
  if N.even p then on_tab (f tab_driver (p / 2)%N) else on_cat (g cat (p / 2)%N).

(** What is no statement on rows is a query on the catalogue. *)
Definition both_prepare (k : ptr) (sql : string) : M Both (SqlRDBResult * ptr) :=
  out ← on_tab (drv_prepare tab_driver k sql);
  if res_ok out.1 then mret (out.1, (2 * out.2)%N)
  else out ← on_cat (drv_prepare cat k sql); mret (out.1, (2 * out.2 + 1)%N).

Definition both_driver : SqlRDBDriver Both := {|
  drv_name := "tables and catalogue";
  drv_dialect := C2SQL_DIALECT_SQLITE;
  drv_open dsn := on_tab (drv_open tab_driver dsn);
  drv_close k := on_tab (drv_close tab_driver k);
  drv_exec k sql := on_cat (drv_exec cat k sql);
  drv_prepare := both_prepare;
  drv_bind_int64 p i v := route (λ d p, drv_bind_int64 d p i v) (λ d p, drv_bind_int64 d p i v) p;
  drv_bind_int32 p i v := route (λ d p, drv_bind_int32 d p i v) (λ d p, drv_bind_int32 d p i v) p;
  drv_bind_real p i v := route (λ d p, drv_bind_real d p i v) (λ d p, drv_bind_real d p i v) p;
  drv_bind_text p i s n := route (λ d p, drv_bind_text d p i s n) (λ d p, drv_bind_text d p i s n) p;
  drv_bind_blob p i s n := route (λ d p, drv_bind_blob d p i s n) (λ d p, drv_bind_blob d p i s n) p;
  drv_bind_null p i := route (λ d p, drv_bind_null d p i) (λ d p, drv_bind_null d p i) p;
  drv_step := route drv_step drv_step;
  drv_column_int64 p i := route (λ d p, drv_column_int64 d p i) (λ d p, drv_column_int64 d p i) p;
  drv_column_int32 p i := route (λ d p, drv_column_int32 d p i) (λ d p, drv_column_int32 d p i) p;
  drv_column_real p i := route (λ d p, drv_column_real d p i) (λ d p, drv_column_real d p i) p;
  drv_column_text p i := route (λ d p, drv_column_text d p i) (λ d p, drv_column_text d p i) p;
  drv_column_blob p i := route (λ d p, drv_column_blob d p i) (λ d p, drv_column_blob d p i) p;
  drv_column_isnull p i := route (λ d p, drv_column_isnull d p i) (λ d p, drv_column_isnull d p i) p;
  drv_reset := route drv_reset drv_reset;
  drv_finalize := route drv_finalize drv_finalize;
  drv_begin k := on_tab (drv_begin tab_driver k);
  drv_commit k := on_tab (drv_commit tab_driver k);
  drv_rollback k := on_tab (drv_rollback tab_driver k);
  drv_savepoint k n := on_tab (drv_savepoint tab_driver k n);
  drv_release_sp k n := on_tab (drv_release_sp tab_driver k n);
  drv_rollback_sp k n := on_tab (drv_rollback_sp tab_driver k n);
  drv_changes k := on_tab (drv_changes tab_driver k);
|}.

(** A process in which nothing is open. *)
Definition both_bk : Backends Both := MkBackends both_driver both_driver false.
Definition ex_process (tb : Tables) (al : list bool) : PState (D := Both) :=
  MkP (MkWorld ∅ [] 0 (MkMutex true false) (MkTab (MkDb tb [] false) ∅ 0 [], MkCat ∅ [] true) al) (MkCondMem ∅ []).

(** How the program ended, and the sizes of what it left: handles, statements, connections. *)
Definition outcome (run : option (Outcome * PState (D := Both))) : option (Outcome * (nat * nat * nat)) :=
  (λ x, (x.1, (size (w_heap (p_world x.2)),
    (size (tab_cursors (w_db (p_world x.2)).1) + size (cat_open (w_db (p_world x.2)).2))%nat,
    length (tab_conns (w_db (p_world x.2)).1)))) <$> run.
End both.

(** A column in the answer of PRAGMA table_info. *)
Definition column_row (i : Z) (name ty : string) (notnull pk : Z) : list Cell :=
  [CInt i; txt name; txt ty; CInt notnull; CNull; CInt pk].

(** The table is not there before the CREATE, and is as declared after it. *)
Definition after_create (table : string) (cols : list (list Cell)) : Catalogue :=
  [[]; [(pragma "table_info" table, cols); (ddl_query table, [[txt "CREATE TABLE t (id INTEGER) STRICT"]])]].

Definition ex_table (key : string) (kinds : list (string * Kind)) : Table := MkTable (list_to_map kinds) (Some key) [].

Definition entries_run al :=
  transactions_main (both_bk (after_create "entries" [column_row 0 "id" "INTEGER" 1 1; column_row 1 "note" "TEXT" 1 0])) 0 5
    (ex_process {["entries"%string := ex_table "id" [("id"%string, KInt); ("note"%string, KText)]]} al).
Definition persons_tables : Tables :=
  {["persons"%string := ex_table "id" [("id"%string, KInt); ("name"%string, KText); ("score"%string, KReal)]]}.
Definition persons_bk : Backends (Tab * Cat) :=
  both_bk (after_create "persons" [column_row 0 "id" "INTEGER" 1 1; column_row 1 "name" "TEXT" 1 0; column_row 2 "score" "REAL" 0 0]).

Example ex_transactions_main : outcome (entries_run []) = Some (Returned 0, (0, 0, 0)%nat).
Proof. vm_compute. reflexivity. Qed.
Example ex_basic_crud_main : outcome (basic_crud_main persons_bk 0 5 (ex_process persons_tables [])) = Some (Returned 0, (0, 0, 0)%nat).
Proof. vm_compute. reflexivity. Qed.
Example ex_generated_crud_main :
  outcome (generated_crud_main persons_bk 0 5 (ex_process persons_tables [])) = Some (Returned 0, (0, 0, 0)%nat).
Proof. vm_compute. reflexivity. Qed.
Example ex_multi_row_main :
  outcome (multi_row_main (both_bk (after_create "docs" [column_row 0 "id" "INTEGER" 1 1; column_row 1 "label" "TEXT" 1 0;
      column_row 2 "payload" "BLOB" 0 0])) 0 10
    (ex_process {["docs"%string := ex_table "id" [("id"%string, KInt); ("label"%string, KText); ("payload"%string, KBlob)]]} []))
  = Some (Returned 0, (0, 0, 0)%nat).
Proof. vm_compute. reflexivity. Qed.

(** Without memory for the handle, the first assertion fails. *)
Example ex_main_no_memory : outcome (entries_run [false]) = Some (Aborted 41, (0, 0, 0)%nat).
Proof. vm_compute. reflexivity. Qed.
