(* ===== verification/PostgresDriver.v ===== *)
(** * The PostgreSQL driver (src/postgres_driver.c)

    The driver table [g_postgres_driver] over libpq.  libpq is a parameter: the
    record [Libpq] has the functions the driver calls, on a state [W] that
    stands for the library and the server; [LibpqLaws] (PostgresProofs.v)
    states what the driver relies on.  The conversions between a double and
    its decimal text are a parameter too ([FloatText]): the C standard leaves
    their accuracy to the implementation.

    The driver's own memory is modelled: the PgCtx and PgStmt structs are in
    two tables, an array is a list whose bounds are checked, and a ledger
    counts what the driver has obtained and not given back (heap blocks,
    PGresults, buffers of PQunescapeBytea, connections).  The row number of a
    statement is an int: when it overflows, which C leaves undefined, the state
    remembers it in [pg_undefined], which nothing resets, and what the model
    does from then on stands for nothing in C. *)

From Stdlib Require Import String Strings.Byte.
From S2P Require Import Prelude PgText Types Driver.

(** ** libpq *)

Inductive ConnStatusType : Type := CONNECTION_OK | CONNECTION_other.

Inductive ExecStatusType : Type :=
  | PGRES_COMMAND_OK
  | PGRES_TUPLES_OK
  | PGRES_FATAL_ERROR
  | PGRES_other.

(** A returned NULL is [None]; what a pointer points to is a list of bytes.  A
    notice processor is the text it writes to stderr for a message. *)
Record Libpq (W : Type) : Type := MkLibpq {
  PGconn : Type;
  PGresult : Type;
  PQconnectdb : string → W → option PGconn * W;
  PQstatus : PGconn → W → ConnStatusType;
  PQfinish : PGconn → W → W;
  PQsetNoticeProcessor : PGconn → (string → string) → W → W;
  PQexec : PGconn → string → W → option PGresult * W;
  PQexecParams : PGconn → string → Z → option (list Z) → list (option (list byte)) →
    option (list Z) → option (list Z) → Z → W → option PGresult * W;
  PQresultStatus : PGresult → ExecStatusType;
  PQcmdTuples : PGresult → option string;
  PQntuples : PGresult → Z;
  PQgetisnull : option PGresult → Z → Z → Z;
  PQgetvalue : option PGresult → Z → Z → option (list byte);
  PQgetlength : option PGresult → Z → Z → Z;
  PQunescapeBytea : list byte → W → option (list byte) * W;
}.
Arguments PGconn {W}.
Arguments PGresult {W}.
Arguments PQconnectdb {W}.
Arguments PQstatus {W}.
Arguments PQfinish {W}.
Arguments PQsetNoticeProcessor {W}.
Arguments PQexec {W}.
Arguments PQexecParams {W}.
Arguments PQresultStatus {W}.
Arguments PQcmdTuples {W}.
Arguments PQntuples {W}.
Arguments PQgetisnull {W}.
Arguments PQgetvalue {W}.
Arguments PQgetlength {W}.
Arguments PQunescapeBytea {W}.

(** [snprintf("%.17g")] and [strtod], a double as its 64-bit pattern. *)
Record FloatText : Type := MkFloatText {
  fmt_g17 : Z → string;
  strtod : string → Z;
}.

Definition C2SQL_PG_BYTEAOID : Z := 17.

(** The characters of a C string and its NUL. *)
Definition cbytes (s : string) : list byte := list_byte_of_string s ++ [x00].

(** The C string that starts at a list of bytes: up to the first NUL. *)
Fixpoint cstring (l : list byte) : list byte :=
  match l with
  | [] => []
  | b :: l => if Byte.eqb b x00 then [] else b :: cstring l
  end.

(** ** Arrays *)

Definition aget {A} (l : list A) (i : Z) : option A := if 0 <=? i then l !! Z.to_nat i else None.

Definition aset {A} (l : list A) (i : Z) (x : A) : option (list A) :=
  if (0 <=? i) && (i <? Z.of_nat (length l)) then Some (<[Z.to_nat i := x]> l) else None.

(** [memcpy(buf, src, n)] into a buffer of its own: the bytes copied. *)
Definition memcpy (src : list byte) (n : Z) : option (list byte) :=
  if (0 <=? n) && (n <=? Z.of_nat (length src)) then Some (take (Z.to_nat n) src) else None.

Section pg.
Context {W : Type} (L : Libpq W) (F : FloatText).

Record PgCtx : Type := MkPgCtx {
  pc_conn : option (PGconn L);
  pc_last_changes : Z;
}.

Record PgStmt : Type := MkPgStmt {
  ps_ctx : ptr;
  ps_sql : string;
  ps_nparams : Z;
  ps_values : list (option (list byte));
  ps_lengths : list Z;
  ps_formats : list Z;
  ps_types : list Z;
  ps_owned : list bool;
  ps_res : option (PGresult L);
  ps_nrows : Z;
  ps_row : Z;
  ps_executed : bool;
  ps_blob_tmp : option (list byte);
}.

Definition with_params (s : PgStmt) values lengths formats types owned : PgStmt :=
  MkPgStmt (ps_ctx s) (ps_sql s) (ps_nparams s) values lengths formats types owned
    (ps_res s) (ps_nrows s) (ps_row s) (ps_executed s) (ps_blob_tmp s).

Definition with_result (s : PgStmt) res nrows row executed : PgStmt :=
  MkPgStmt (ps_ctx s) (ps_sql s) (ps_nparams s) (ps_values s) (ps_lengths s) (ps_formats s)
    (ps_types s) (ps_owned s) res nrows row executed (ps_blob_tmp s).

Definition with_blob (s : PgStmt) blob : PgStmt :=
  MkPgStmt (ps_ctx s) (ps_sql s) (ps_nparams s) (ps_values s) (ps_lengths s) (ps_formats s)
    (ps_types s) (ps_owned s) (ps_res s) (ps_nrows s) (ps_row s) (ps_executed s) blob.

(** What the driver holds. *)
Record Ledger : Type := MkLedger {
  lg_blocks : Z;   (* malloc and calloc *)
  lg_results : Z;  (* PGresults *)
  lg_buffers : Z;  (* PQunescapeBytea *)
  lg_conns : Z;    (* connections *)
}.

Definition ladd (a b : Ledger) : Ledger :=
  MkLedger (lg_blocks a + lg_blocks b) (lg_results a + lg_results b)
    (lg_buffers a + lg_buffers b) (lg_conns a + lg_conns b).

Record Pg : Type := MkPg {
  pg_w : W;
  pg_ctxs : gmap ptr PgCtx;
  pg_stmts : gmap ptr PgStmt;
  pg_ledger : Ledger;
  pg_alloc : list bool;
  pg_undefined : bool;  (* an int has overflowed *)
}.

Definition set_w (w : W) (d : Pg) := MkPg w (pg_ctxs d) (pg_stmts d) (pg_ledger d) (pg_alloc d) (pg_undefined d).
Definition set_ctxs m (d : Pg) := MkPg (pg_w d) m (pg_stmts d) (pg_ledger d) (pg_alloc d) (pg_undefined d).
Definition set_stmts m (d : Pg) := MkPg (pg_w d) (pg_ctxs d) m (pg_ledger d) (pg_alloc d) (pg_undefined d).
Definition set_ledger l (d : Pg) := MkPg (pg_w d) (pg_ctxs d) (pg_stmts d) l (pg_alloc d) (pg_undefined d).
Definition set_alloc al (d : Pg) := MkPg (pg_w d) (pg_ctxs d) (pg_stmts d) (pg_ledger d) al (pg_undefined d).

(** C gives what follows no meaning. *)
Definition overflow : M Pg unit :=
  mmodify (λ d, MkPg (pg_w d) (pg_ctxs d) (pg_stmts d) (pg_ledger d) (pg_alloc d) true).

(** ** Memory *)

Definition book (l : Ledger) : M Pg unit := mmodify (λ d, set_ledger (ladd (pg_ledger d) l) d).

Definition one_if (b : bool) : Z := if b then 1 else 0.
Definition held {A} (o : option A) : Z := match o with Some _ => 1 | None => 0 end.

Definition pg_malloc : M Pg bool :=
  ok ← zoom pg_alloc set_alloc malloc;
  book (MkLedger (one_if ok) 0 0 0);;
  mret ok.

Definition pg_calloc {A} (n : nat) (x : A) : M Pg (option (list A)) :=
  ok ← pg_malloc;
  mret (if ok : bool then Some (replicate n x) else None).

(** [free] of a pointer that may be NULL. *)
Definition pg_free {A} (o : option A) : M Pg unit := book (MkLedger (- held o) 0 0 0).

Definition pq_clear (o : option (PGresult L)) : M Pg unit := book (MkLedger 0 (- held o) 0 0).
Definition pq_freemem (o : option (list byte)) : M Pg unit := book (MkLedger 0 0 (- held o) 0).

(** Calls of libpq. *)
Definition pq {A} (f : W → A * W) : M Pg A := λ d, let '(a, w) := f (pg_w d) in Some (a, set_w w d).

Definition pq_result (f : W → option (PGresult L) * W) : M Pg (option (PGresult L)) :=
  res ← pq f;
  book (MkLedger 0 (held res) 0 0);;
  mret res.

Definition pq_finish (c : PGconn L) : M Pg unit :=
  pq (λ w, (tt, PQfinish L c w));;
  book (MkLedger 0 0 0 (-1)).

(** The structs; a pointer to none is not to be used. *)
Definition pg_ctx (c : ptr) : M Pg PgCtx := d ← mget; mdef (pg_ctxs d !! c).
Definition pg_stmt (p : ptr) : M Pg PgStmt := d ← mget; mdef (pg_stmts d !! p).
Definition put_ctx (c : ptr) (x : PgCtx) : M Pg unit := mmodify (λ d, set_ctxs (<[c := x]> (pg_ctxs d)) d).
Definition put_stmt (p : ptr) (s : PgStmt) : M Pg unit := mmodify (λ d, set_stmts (<[p := s]> (pg_stmts d)) d).

(** The addresses in use, those that a statement only remembers included. *)
Definition pg_addresses (d : Pg) : gset ptr :=
  {[NULL]} ∪ dom (pg_ctxs d) ∪ dom (pg_stmts d) ∪ list_to_set (ps_ctx ∘ snd <$> map_to_list (pg_stmts d)).

Definition pg_fresh : M Pg ptr := mgets (λ d, fresh (pg_addresses d)).

(** ** Connections and commands *)

Definition pg_quiet_notice (message : string) : string := EmptyString.

Definition pg_open (dsn : string) : M Pg (SqlRDBResult * ptr) :=
  conn ← pq (PQconnectdb L dsn);
  match conn with
  | None => mret (SQL_RDB_ERR_NO_MEMORY, NULL)
  | Some conn =>
      book (MkLedger 0 0 0 1);;
      st ← mgets (λ d, PQstatus L conn (pg_w d));
      match st with
      | CONNECTION_OK =>
          pq (λ w, (tt, PQsetNoticeProcessor L conn pg_quiet_notice w));;
          ok ← pg_malloc;
          if negb ok then pq_finish conn;; mret (SQL_RDB_ERR_NO_MEMORY, NULL) else
          c ← pg_fresh;
          put_ctx c (MkPgCtx (Some conn) 0);;
          mret (SQL_RDB_OK, c)
      | _ => pq_finish conn;; mret (SQL_RDB_ERR_DB_OPEN, NULL)
      end
  end.

Definition pg_close (ctx : ptr) : M Pg SqlRDBResult :=
  if decide (ctx = NULL) then mret SQL_RDB_OK else
  c ← pg_ctx ctx;
  match pc_conn c with Some conn => pq_finish conn | None => mret tt end;;
  pg_free (Some c);;
  mmodify (λ d, set_ctxs (delete ctx (pg_ctxs d)) d);;
  mret SQL_RDB_OK.

(** [(ct && *ct) ? atoi(ct) : 0] *)
Definition cmd_tuples (ct : option string) : Z :=
  match ct with
  | Some (String c s) => atoi (String c s)
  | _ => 0
  end.

Definition pg_exec (ctx : ptr) (sql : string) : M Pg SqlRDBResult :=
  c ← pg_ctx ctx;
  conn ← mdef (pc_conn c);
  res ← pq_result (PQexec L conn sql);
  match res with
  | None => mret SQL_RDB_ERR_NO_MEMORY
  | Some res =>
      let r := match PQresultStatus L res with
               | PGRES_COMMAND_OK | PGRES_TUPLES_OK => SQL_RDB_OK
               | _ => SQL_RDB_ERR_DRIVER
               end in
      (if res_ok r then put_ctx ctx (MkPgCtx (pc_conn c) (cmd_tuples (PQcmdTuples L res))) else mret tt);;
      pq_clear (Some res);;
      mret r
  end.

(** The formats all end in %s. *)
Definition pg_exec_fmt (ctx : ptr) (fmt name : string) : M Pg SqlRDBResult :=
  pg_exec ctx (vsnprintf 160 (fmt +:+ name)).

Definition pg_begin (ctx : ptr) : M Pg SqlRDBResult := pg_exec ctx "BEGIN".
Definition pg_commit (ctx : ptr) : M Pg SqlRDBResult := pg_exec ctx "COMMIT".
Definition pg_rollback (ctx : ptr) : M Pg SqlRDBResult := pg_exec ctx "ROLLBACK".
Definition pg_savepoint (ctx : ptr) (name : string) := pg_exec_fmt ctx "SAVEPOINT " name.
Definition pg_release_sp (ctx : ptr) (name : string) := pg_exec_fmt ctx "RELEASE SAVEPOINT " name.
Definition pg_rollback_sp (ctx : ptr) (name : string) := pg_exec_fmt ctx "ROLLBACK TO SAVEPOINT " name.

Definition pg_changes (ctx : ptr) : M Pg Z := c ← pg_ctx ctx; mret (pc_last_changes c).

(** ** Prepared statements *)

Definition pg_publish (s : PgStmt) : M Pg (SqlRDBResult * ptr) :=
  p ← pg_fresh;
  put_stmt p s;;
  mret (SQL_RDB_OK, p).

Definition pg_prepare (ctx : ptr) (sql : string) : M Pg (SqlRDBResult * ptr) :=
  ok ← pg_malloc;
  if negb ok then mret (SQL_RDB_ERR_NO_MEMORY, NULL) else
  ok ← pg_malloc;
  if negb ok then pg_free (Some tt);; mret (SQL_RDB_ERR_NO_MEMORY, NULL) else
  nparams ← mdef (pg_count_params sql);
  if 0 <? nparams then
    let n := Z.to_nat nparams in
    values ← pg_calloc n None;
    lengths ← pg_calloc n 0;
    formats ← pg_calloc n 0;
    types ← pg_calloc n 0;
    owned ← pg_calloc n false;
    match values, lengths, formats, types, owned with
    | Some vs, Some ls, Some fs, Some ts, Some os =>
        pg_publish (MkPgStmt ctx sql nparams vs ls fs ts os None 0 (-1) false None)
    | _, _, _, _, _ =>
        pg_free values;; pg_free lengths;; pg_free formats;; pg_free types;; pg_free owned;;
        pg_free (Some tt);; pg_free (Some tt);;
        mret (SQL_RDB_ERR_NO_MEMORY, NULL)
    end
  else pg_publish (MkPgStmt ctx sql nparams [] [] [] [] [] None 0 (-1) false None).

(** The slot [i] becomes a NULL of the given format and type; a value it owned
    is freed. *)
Definition clear_slot (s : PgStmt) (i fmt oid : Z) : M Pg PgStmt :=
  own ← mdef (aget (ps_owned s) i);
  (if own : bool then v ← mdef (aget (ps_values s) i); pg_free v else mret tt);;
  values ← mdef (aset (ps_values s) i None);
  owned ← mdef (aset (ps_owned s) i false);
  lengths ← mdef (aset (ps_lengths s) i 0);
  formats ← mdef (aset (ps_formats s) i fmt);
  types ← mdef (aset (ps_types s) i oid);
  mret (with_params s values lengths formats types owned).

(** The slot [i] takes over the block [buf]. *)
Definition fill_slot (s : PgStmt) (i : Z) (buf : list byte) (len : Z) : M Pg PgStmt :=
  values ← mdef (aset (ps_values s) i (Some buf));
  owned ← mdef (aset (ps_owned s) i true);
  lengths ← mdef (aset (ps_lengths s) i len);
  mret (with_params s values lengths (ps_formats s) (ps_types s) owned).

Definition store_param (p : ptr) (index : Z) (data : option (list byte)) (len fmt oid : Z) :
    M Pg SqlRDBResult :=
  s ← pg_stmt p;
  if (index <? 1) || (ps_nparams s <? index) then mret SQL_RDB_ERR_INVALID_ARG else
  let i := index - 1 in
  s ← clear_slot s i fmt oid;
  put_stmt p s;;
  match data with
  | None => mret SQL_RDB_OK
  | Some data =>
      ok ← pg_malloc;
      if negb ok then mret SQL_RDB_ERR_NO_MEMORY else
      buf ← mdef (memcpy data len);
      s ← fill_slot s i buf len;
      put_stmt p s;;
      mret SQL_RDB_OK
  end.

(** [snprintf(tmp, sizeof(tmp), ...)] of a text [s], then [store_param] of the
    [n + 1] bytes it reports. *)
Definition bind_printed (size : Z) (p : ptr) (index : Z) (s : string) : M Pg SqlRDBResult :=
  store_param p index (Some (cbytes (vsnprintf size s))) (slen s + 1) 0 0.

Definition pg_bind_int64 (p : ptr) (index value : Z) : M Pg SqlRDBResult :=
  bind_printed 32 p index (dec (to_signed 64 value)).
Definition pg_bind_int32 (p : ptr) (index value : Z) : M Pg SqlRDBResult :=
  bind_printed 16 p index (dec (to_signed 32 value)).
Definition pg_bind_real (p : ptr) (index value : Z) : M Pg SqlRDBResult :=
  bind_printed 40 p index (fmt_g17 F value).

Definition pg_bind_text (p : ptr) (index : Z) (value : option (list byte)) (len : Z) : M Pg SqlRDBResult :=
  s ← pg_stmt p;
  if (index <? 1) || (ps_nparams s <? index) then mret SQL_RDB_ERR_INVALID_ARG else
  let i := index - 1 in
  s ← clear_slot s i 0 0;
  put_stmt p s;;
  match value with
  | None => mret SQL_RDB_OK
  | Some value =>
      let slen := if len <? 0 then Z.of_nat (length (cstring value)) else len in
      ok ← pg_malloc;
      if negb ok then mret SQL_RDB_ERR_NO_MEMORY else
      buf ← mdef (memcpy value slen);
      s ← fill_slot s i (buf ++ [x00]) (to_signed 32 slen);
      put_stmt p s;;
      mret SQL_RDB_OK
  end.

Definition pg_bind_blob (p : ptr) (index : Z) (value : option (list byte)) (len : Z) : M Pg SqlRDBResult :=
  store_param p index value (to_signed 32 len) 1 C2SQL_PG_BYTEAOID.

Definition pg_bind_null (p : ptr) (index : Z) : M Pg SqlRDBResult := store_param p index None 0 0 0.

Definition pg_step (p : ptr) : M Pg (SqlRDBResult * option bool) :=
  s ← pg_stmt p;
  if negb (ps_executed s) then
    c ← pg_ctx (ps_ctx s);
    conn ← mdef (pc_conn c);
    let opt (x : list Z) := if ps_nparams s =? 0 then None else Some x in
    res ← pq_result (PQexecParams L conn (ps_sql s) (ps_nparams s) (opt (ps_types s)) (ps_values s)
                       (opt (ps_lengths s)) (opt (ps_formats s)) 0);
    match res with
    | None => put_stmt p (with_result s None (ps_nrows s) (ps_row s) false);; mret (SQL_RDB_ERR_DRIVER, None)
    | Some r =>
        match PQresultStatus L r with
        | PGRES_TUPLES_OK | PGRES_COMMAND_OK =>
            put_ctx (ps_ctx s) (MkPgCtx (pc_conn c) (cmd_tuples (PQcmdTuples L r)));;
            let nrows := PQntuples L r in
            put_stmt p (with_result s res nrows 0 true);;
            mret (SQL_RDB_OK, Some (0 <? nrows))
        | _ =>
            pq_clear res;;
            put_stmt p (with_result s None (ps_nrows s) (ps_row s) false);;
            mret (SQL_RDB_ERR_DRIVER, None)
        end
    end
  else if INT_MAX <=? ps_row s then overflow;; mret (SQL_RDB_OK, Some false)
  else
    let row := ps_row s + 1 in
    put_stmt p (with_result s (ps_res s) (ps_nrows s) row true);;
    mret (SQL_RDB_OK, Some (row <? ps_nrows s)).

(** ** Columns *)

(** [PQgetisnull(...) ? z : f(PQgetvalue(...))] *)
Definition pg_value {A} (p : ptr) (index : Z) (z : A) (f : string → A) : M Pg A :=
  s ← pg_stmt p;
  if PQgetisnull L (ps_res s) (ps_row s) index =? 0 then
    v ← mdef (PQgetvalue L (ps_res s) (ps_row s) index);
    mret (f (string_of_list_byte v))
  else mret z.

Definition pg_column_int64 (p : ptr) (index : Z) : M Pg (SqlRDBResult * Z) :=
  out ← pg_value p index 0 strtoll; mret (SQL_RDB_OK, out).

Definition pg_column_int32 (p : ptr) (index : Z) : M Pg (SqlRDBResult * Z) :=
  out ← pg_value p index 0 (λ v, to_signed 32 (strtoll v)); mret (SQL_RDB_OK, out).

(** The pattern of 0.0 is 0. *)
Definition pg_column_real (p : ptr) (index : Z) : M Pg (SqlRDBResult * Z) :=
  out ← pg_value p index 0 (strtod F); mret (SQL_RDB_OK, out).

Definition pg_column_text (p : ptr) (index : Z) : M Pg (SqlRDBResult * (option (list byte) * Z)) :=
  s ← pg_stmt p;
  mret (SQL_RDB_OK, (PQgetvalue L (ps_res s) (ps_row s) index,
                     size_t (PQgetlength L (ps_res s) (ps_row s) index))).

(** On failure the outputs are not written; the pair stands for what they
    were. *)
Definition pg_column_blob (p : ptr) (index : Z) : M Pg (SqlRDBResult * (option (list byte) * Z)) :=
  s ← pg_stmt p;
  pq_freemem (ps_blob_tmp s);;
  let s := with_blob s None in
  put_stmt p s;;
  if PQgetisnull L (ps_res s) (ps_row s) index =? 0 then
    v ← mdef (PQgetvalue L (ps_res s) (ps_row s) index);
    bin ← pq (PQunescapeBytea L v);
    match bin with
    | None => mret (SQL_RDB_ERR_NO_MEMORY, (None, 0))
    | Some b =>
        book (MkLedger 0 0 1 0);;
        put_stmt p (with_blob s bin);;
        mret (SQL_RDB_OK, (bin, Z.of_nat (length b)))
    end
  else mret (SQL_RDB_OK, (None, 0)).

Definition pg_column_isnull (p : ptr) (index : Z) : M Pg (SqlRDBResult * bool) :=
  s ← pg_stmt p;
  mret (SQL_RDB_OK, negb (PQgetisnull L (ps_res s) (ps_row s) index =? 0)).

(** ** Reset and release *)

Definition clear_results (s : PgStmt) : M Pg PgStmt :=
  pq_clear (ps_res s);;
  pq_freemem (ps_blob_tmp s);;
  mret (with_blob (with_result s None 0 (-1) false) None).

Fixpoint clear_params_loop (s : PgStmt) (i : Z) (n : nat) : M Pg PgStmt :=
  match n with
  | O => mret s
  | S n => s ← clear_slot s i 0 0; clear_params_loop s (i + 1) n
  end.

Definition clear_params (s : PgStmt) : M Pg PgStmt := clear_params_loop s 0 (Z.to_nat (ps_nparams s)).

Definition pg_reset (p : ptr) : M Pg SqlRDBResult :=
  s ← pg_stmt p;
  s ← clear_results s;
  s ← clear_params s;
  put_stmt p s;;
  mret SQL_RDB_OK.

(** An array that was allocated: those of a statement without parameters are
    NULL. *)
Definition array {A} (s : PgStmt) (l : list A) : option (list A) :=
  if 0 <? ps_nparams s then Some l else None.

Definition pg_finalize (p : ptr) : M Pg SqlRDBResult :=
  if decide (p = NULL) then mret SQL_RDB_OK else
  s ← pg_stmt p;
  s ← clear_results s;
  s ← clear_params s;
  pg_free (array s (ps_values s));;
  pg_free (array s (ps_lengths s));;
  pg_free (array s (ps_formats s));;
  pg_free (array s (ps_types s));;
  pg_free (array s (ps_owned s));;
  pg_free (Some (ps_sql s));;
  pg_free (Some s);;
  mmodify (λ d, set_stmts (delete p (pg_stmts d)) d);;
  mret SQL_RDB_OK.

Definition g_postgres_driver : SqlRDBDriver Pg := {|
  drv_name := "postgres";
  drv_dialect := C2SQL_DIALECT_POSTGRES;
  drv_open := pg_open;
  drv_close := pg_close;
  drv_exec := pg_exec;
  drv_prepare := pg_prepare;
  drv_bind_int64 := pg_bind_int64;
  drv_bind_int32 := pg_bind_int32;
  drv_bind_real := pg_bind_real;
  drv_bind_text := pg_bind_text;
  drv_bind_blob := pg_bind_blob;
  drv_bind_null := pg_bind_null;
  drv_step := pg_step;
  drv_column_int64 := pg_column_int64;
  drv_column_int32 := pg_column_int32;
  drv_column_real := pg_column_real;
  drv_column_text := pg_column_text;
  drv_column_blob := pg_column_blob;
  drv_column_isnull := pg_column_isnull;
  drv_reset := pg_reset;
  drv_finalize := pg_finalize;
  drv_begin := pg_begin;
  drv_commit := pg_commit;
  drv_rollback := pg_rollback;
  drv_savepoint := pg_savepoint;
  drv_release_sp := pg_release_sp;
  drv_rollback_sp := pg_rollback_sp;
  drv_changes := pg_changes;
|}.

End pg.

Arguments pc_conn {W L}.
Arguments pc_last_changes {W L}.
Arguments ps_ctx {W L}.
Arguments ps_sql {W L}.
Arguments ps_nparams {W L}.
Arguments ps_values {W L}.
Arguments ps_lengths {W L}.
Arguments ps_formats {W L}.
Arguments ps_types {W L}.
Arguments ps_owned {W L}.
Arguments ps_res {W L}.
Arguments ps_nrows {W L}.
Arguments ps_row {W L}.
Arguments ps_executed {W L}.
Arguments ps_blob_tmp {W L}.
Arguments pg_w {W L}.
Arguments pg_ctxs {W L}.
Arguments pg_stmts {W L}.
Arguments pg_ledger {W L}.
Arguments pg_alloc {W L}.
Arguments pg_undefined {W L}.
Arguments with_params {W L}.
Arguments with_result {W L}.
Arguments with_blob {W L}.
Arguments set_w {W L}.
Arguments set_ctxs {W L}.
Arguments set_stmts {W L}.
Arguments set_ledger {W L}.
Arguments set_alloc {W L}.
Arguments MkPg {W L}.
Arguments MkPgCtx {W L}.
Arguments MkPgStmt {W L}.
Arguments pg_addresses {W L}.
Arguments array {W L A}.
