(* ===== verification/PostgresProofs.v ===== *)
(** * The PostgreSQL driver keeps its structs in order

    What the driver relies on of libpq ([LibpqLaws]), the invariant of a PgStmt
    ([stmt_wf]), and for every operation that it is defined, keeps the
    invariant and books exactly what the struct it leaves owns.  The driver
    therefore satisfies [DriverLaws] and [FiniteRows]: what is proved of the
    library against that interface holds on PostgreSQL. *)

From Stdlib Require Import String Strings.Byte.
From S2P Require Import Prelude PgText Types Driver PostgresDriver.

(** ** libpq and the C library *)

Class LibpqLaws {W} (L : Libpq W) := {
  pq_ntuples res : 0 ≤ PQntuples L res ≤ INT_MAX;
  (* a value that is not NULL can be read *)
  pq_value res row i : PQgetisnull L res row i = 0 → is_Some (PQgetvalue L res row i);
  pq_length res row i : 0 ≤ PQgetlength L res row i < SIZE_MOD;
  pq_length_value res row i v :
    PQgetvalue L res row i = Some v → PQgetlength L res row i = Z.of_nat (length v);
}.

(** A sign, 17 digits, a point and an exponent of three digits. *)
Class FloatTextLaws (F : FloatText) := {
  fmt_g17_short v : slen (fmt_g17 F v) ≤ 24;
}.

(** ** Arrays *)

Lemma aget_nat {A} (l : list A) (i : nat) : aget l (Z.of_nat i) = l !! i.
Proof. unfold aget. rewrite (proj2 (Z.leb_le _ _)) by lia. by rewrite Nat2Z.id. Qed.

Lemma aset_nat {A} (l : list A) (i : nat) x : (i < length l)%nat → aset l (Z.of_nat i) x = Some (<[i := x]> l).
Proof.
  intros. unfold aset. rewrite (proj2 (Z.leb_le _ _)), (proj2 (Z.ltb_lt _ _)) by lia. by rewrite Nat2Z.id.
Qed.

Lemma memcpy_run src n : 0 ≤ n ≤ Z.of_nat (length src) → memcpy src n = Some (take (Z.to_nat n) src).
Proof. intros. unfold memcpy. by rewrite !(proj2 (Z.leb_le _ _)) by lia. Qed.

Lemma length_cstring l : (length (cstring l) ≤ length l)%nat.
Proof. induction l as [|b l IH]; simpl; [lia|]. destruct (Byte.eqb b x00); simpl; lia. Qed.

Lemma length_list_byte_of_string s : Z.of_nat (length (list_byte_of_string s)) = slen s.
Proof.
  unfold slen. f_equal. unfold list_byte_of_string. rewrite length_map. induction s as [|c s IH]; [done|]. simpl. by rewrite IH.
Qed.

(** A text shorter than the array is printed in full. *)
Lemma printed_fits size s : slen s < size → vsnprintf size s = s.
Proof. intros. unfold vsnprintf. apply substring_all. unfold slen in *. lia. Qed.

Section pg.
Context {W : Type} (L : Libpq W) (F : FloatText) `{!LibpqLaws L, !FloatTextLaws F}.
Implicit Types (s : PgStmt L) (d : Pg L).

(** ** What a struct owns *)

Definition lsub (a b : Ledger) : Ledger :=
  MkLedger (lg_blocks a - lg_blocks b) (lg_results a - lg_results b)
    (lg_buffers a - lg_buffers b) (lg_conns a - lg_conns b).

Definition nothing : Ledger := MkLedger 0 0 0 0.

Lemma ledger_eq a b :
  lg_blocks a = lg_blocks b → lg_results a = lg_results b → lg_buffers a = lg_buffers b →
  lg_conns a = lg_conns b → a = b.
Proof. destruct a, b. simpl. by intros -> -> -> ->. Qed.

Definition total_held {A} (l : list (option A)) : Z := foldr (λ o n, held o + n) 0 l.

Lemma total_held_insert {A} (l : list (option A)) i v v' :
  l !! i = Some v → total_held (<[i := v']> l) = total_held l - held v + held v'.
Proof.
  revert i. induction l as [|o l IH]; intros [|i] Hi; simpl in *; try done.
  - injection Hi as ->. lia.
  - rewrite (IH i Hi). lia.
Qed.

Lemma total_held_None {A} n : total_held (replicate n (@None A)) = 0.
Proof. induction n; simpl; lia. Qed.

(** The struct, its text, five arrays when it has parameters, a value each. *)
Definition footprint s : Ledger :=
  MkLedger (2 + (if 0 <? ps_nparams s then 5 else 0) + total_held (ps_values s))
    (held (ps_res s)) (held (ps_blob_tmp s)) 0.

Definition ctx_footprint (c : PgCtx L) : Ledger := MkLedger 1 0 0 (held (pc_conn c)).

(** ** The invariant of a statement *)

Record stmt_wf s : Prop := {
  swf_nparams : 0 ≤ ps_nparams s;
  swf_values : length (ps_values s) = Z.to_nat (ps_nparams s);
  swf_lengths : length (ps_lengths s) = Z.to_nat (ps_nparams s);
  swf_formats : length (ps_formats s) = Z.to_nat (ps_nparams s);
  swf_types : length (ps_types s) = Z.to_nat (ps_nparams s);
  swf_owned : ps_owned s = (λ v, bool_decide (is_Some v)) <$> ps_values s;
  swf_res : ps_executed s = false → ps_res s = None;
  swf_nrows : 0 ≤ ps_nrows s ≤ INT_MAX;
  swf_row : -1 ≤ ps_row s ≤ INT_MAX;
}.

(** [d'] is [d] with what [s'] owns in place of what [s] owned. *)
Definition rebooked s s' d d' : Prop :=
  d' = set_ledger (ladd (pg_ledger d) (lsub (footprint s') (footprint s))) d.

Lemma rebooked_refl s d : rebooked s s d d.
Proof. destruct d as [? ? ? [] ? ?]. unfold rebooked, set_ledger. simpl. f_equal. apply ledger_eq; simpl; lia. Qed.

Lemma rebooked_trans s1 s2 s3 d1 d2 d3 :
  rebooked s1 s2 d1 d2 → rebooked s2 s3 d2 d3 → rebooked s1 s3 d1 d3.
Proof.
  unfold rebooked. intros -> ->. unfold set_ledger. simpl. f_equal. apply ledger_eq; simpl; lia.
Qed.

(** *** The slots *)

Definition slot_null s (i : nat) (fmt oid : Z) : PgStmt L :=
  with_params s (<[i := None]> (ps_values s)) (<[i := 0]> (ps_lengths s)) (<[i := fmt]> (ps_formats s))
    (<[i := oid]> (ps_types s)) (<[i := false]> (ps_owned s)).

Definition slot_full s (i : nat) (buf : list byte) (len : Z) : PgStmt L :=
  with_params s (<[i := Some buf]> (ps_values s)) (<[i := len]> (ps_lengths s)) (ps_formats s)
    (ps_types s) (<[i := true]> (ps_owned s)).

Lemma slot_null_wf s i fmt oid : stmt_wf s → stmt_wf (slot_null s i fmt oid).
Proof. intros []. constructor; simpl; rewrite ?length_insert; try done. by rewrite swf_owned0, list_fmap_insert. Qed.

Lemma slot_full_wf s i buf len : stmt_wf s → stmt_wf (slot_full s i buf len).
Proof. intros []. constructor; simpl; rewrite ?length_insert; try done. by rewrite swf_owned0, list_fmap_insert. Qed.

Lemma clear_slot_run s (i : nat) fmt oid d :
  stmt_wf s → (i < Z.to_nat (ps_nparams s))%nat →
  ∃ d', clear_slot L s (Z.of_nat i) fmt oid d = Some (slot_null s i fmt oid, d') ∧
    rebooked s (slot_null s i fmt oid) d d'.
Proof.
  intros Hwf Hi. destruct (lookup_lt_is_Some_2 (ps_values s) i) as [v Hv]; [by rewrite swf_values|].
  assert (ps_owned s !! i = Some (bool_decide (is_Some v))) as Ho.
  { rewrite (swf_owned s Hwf), list_lookup_fmap, Hv. done. }
  assert (length (ps_owned s) = Z.to_nat (ps_nparams s)) as Hlo
    by (rewrite (swf_owned s Hwf), length_fmap; by apply swf_values).
  unfold clear_slot. rewrite !aget_nat, Ho, Hv.
  rewrite !aset_nat by (rewrite ?swf_values, ?swf_lengths, ?swf_formats, ?swf_types, ?Hlo by done; lia).
  unfold rebooked. destruct v as [b|]; simpl; eexists; (split; [reflexivity|]); unfold set_ledger; simpl.
  - f_equal. apply ledger_eq; simpl; try lia. rewrite (total_held_insert _ _ _ _ Hv). simpl. lia.
  - destruct d as [? ? ? l ?]; simpl. f_equal. destruct l. apply ledger_eq; simpl; try lia.
    rewrite (total_held_insert _ _ _ _ Hv). simpl. lia.
Qed.

(** A NULL slot takes a block that was booked. *)
Lemma fill_slot_run s (i : nat) buf len d :
  stmt_wf s → ps_values s !! i = Some None →
  fill_slot L s (Z.of_nat i) buf len d = Some (slot_full s i buf len, d) ∧
  rebooked s (slot_full s i buf len) d (set_ledger (ladd (pg_ledger d) (MkLedger 1 0 0 0)) d).
Proof.
  intros Hwf Hv. pose proof (lookup_lt_Some _ _ _ Hv) as Hi. rewrite swf_values in Hi by done.
  assert (length (ps_owned s) = Z.to_nat (ps_nparams s)) as Hlo
    by (rewrite (swf_owned s Hwf), length_fmap; by apply swf_values).
  split.
  - unfold fill_slot. rewrite !aset_nat by (rewrite ?swf_values, ?swf_lengths, ?Hlo by done; lia). done.
  - unfold rebooked, set_ledger. f_equal. apply ledger_eq; simpl; try lia.
    rewrite (total_held_insert _ _ _ _ Hv). simpl. lia.
Qed.

Lemma clear_params_run s (i n : nat) d :
  stmt_wf s → (i + n ≤ Z.to_nat (ps_nparams s))%nat →
  ∃ s' d', clear_params_loop L s (Z.of_nat i) n d = Some (s', d') ∧ rebooked s s' d d' ∧ stmt_wf s' ∧
    ps_ctx s' = ps_ctx s ∧ ps_nparams s' = ps_nparams s ∧ ps_res s' = ps_res s ∧
    ps_blob_tmp s' = ps_blob_tmp s ∧ ps_executed s' = ps_executed s ∧ ps_sql s' = ps_sql s ∧
    ps_nrows s' = ps_nrows s ∧ ps_row s' = ps_row s ∧
    (∀ j, (j < i)%nat → ps_values s' !! j = ps_values s !! j) ∧
    (∀ j, (i ≤ j < i + n)%nat → ps_values s' !! j = Some None).
Proof.
  revert s i d. induction n as [|n IH]; intros s i d Hwf Hi; cbn [clear_params_loop].
  { exists s, d. split_and!; try done; [apply rebooked_refl|intros; lia]. }
  destruct (clear_slot_run s i 0 0 d Hwf ltac:(lia)) as (d1 & E1 & H1).
  rewrite (bind_run _ _ _ _ _ E1). replace (Z.of_nat i + 1) with (Z.of_nat (S i)) by lia.
  destruct (IH (slot_null s i 0 0) (S i) d1) as (s' & d' & E & H2 & Hw & Hc & Hn & Hr & Hb & He & Hq & Hnr & Hro & Hlo & Hhi);
    [by apply slot_null_wf|simpl; lia|].
  exists s', d'. split_and!; try done; [by eapply rebooked_trans| |].
  - intros j Hj. rewrite Hlo by lia. simpl. by rewrite list_lookup_insert_ne by lia.
  - intros j Hj. destruct (decide (j = i)) as [->|]; [|apply Hhi; lia].
    rewrite Hlo by lia. simpl. apply list_lookup_insert_eq. rewrite swf_values by done. lia.
Qed.
(** ** The operations on a statement *)

(** The statement can be used: its struct is in order and its connection open. *)
Definition usable d s : Prop :=
  stmt_wf s ∧ ∃ c conn, pg_ctxs d !! ps_ctx s = Some c ∧ pc_conn c = Some conn.

Definition conn_map d : gmap ptr (option (PGconn L)) := pc_conn <$> pg_ctxs d.

(** The struct at [p] goes from [s] to [s'], the ledger with it; no connection
    is opened or closed. *)
Definition moved p s s' d d' : Prop :=
  pg_stmts d' = <[p := s']> (pg_stmts d) ∧ conn_map d' = conn_map d ∧
  pg_ledger d' = ladd (pg_ledger d) (lsub (footprint s') (footprint s)).

(** From a usable statement at [p] the operation is defined, leaves it usable
    and changes nothing else; [Q] relates its result to the struct before and
    after. *)
Definition acts {A} p (m : M (Pg L) A) (Q : Pg L → PgStmt L → A → PgStmt L → Prop) : Prop :=
  ∀ d s, pg_stmts d !! p = Some s → usable d s →
  ∃ a s' d', m d = Some (a, d') ∧ moved p s s' d d' ∧ stmt_wf s' ∧ ps_ctx s' = ps_ctx s ∧ Q d s a s'.

Lemma moved_refl p s d : pg_stmts d !! p = Some s → moved p s s d d.
Proof.
  intros Hs. split_and!; [by rewrite insert_id|done|].
  destruct (pg_ledger d). apply ledger_eq; simpl; lia.
Qed.

Lemma moved_trans p s1 s2 s3 d1 d2 d3 : moved p s1 s2 d1 d2 → moved p s2 s3 d2 d3 → moved p s1 s3 d1 d3.
Proof.
  intros (E1 & C1 & L1) (E2 & C2 & L2). split_and!; [by rewrite E2, E1, insert_insert_eq|congruence|].
  rewrite L2, L1. apply ledger_eq; simpl; lia.
Qed.

Lemma rebooked_moved p s s' d d' :
  rebooked s s' d d' → moved p s s' d (set_stmts (<[p := s']> (pg_stmts d')) d').
Proof. by intros ->. Qed.

(** The block of a new value, or none. *)
Lemma fill_run p s (i : nat) (o : option (list byte)) buf f len d :
  pg_stmts d !! p = Some s → stmt_wf s → ps_values s !! i = Some None → o = Some buf →
  ∃ s' d', (ok ← pg_malloc L;
     if negb ok then mret SQL_RDB_ERR_NO_MEMORY else
     buf ← mdef o; s ← fill_slot L s (Z.of_nat i) (f buf) len; put_stmt L p s;; mret SQL_RDB_OK) d =
    Some (if (malloc_ok (pg_alloc d)).1 then SQL_RDB_OK else SQL_RDB_ERR_NO_MEMORY, d') ∧
    moved p s s' d d' ∧ s' = if (malloc_ok (pg_alloc d)).1 then slot_full s i (f buf) len else s.
Proof.
  intros Hs Hwf Hv ->. unfold pg_malloc, zoom, malloc, book, mmodify, mbind, M_bind. simpl.
  destruct (malloc_ok (pg_alloc d)) as [ok al]. simpl. destruct ok; simpl.
  - set (d1 := set_ledger _ _). destruct (fill_slot_run s i (f buf) len d1 Hwf Hv) as [E _].
    unfold mbind, M_bind in E. rewrite E. eexists _, _. split; [done|]. split; [|done].
    split_and!; [done|done|]. simpl. apply ledger_eq; simpl; try lia.
    rewrite (total_held_insert _ _ _ _ Hv). simpl. lia.
  - eexists _, _. split; [done|]. split; [|done]. split_and!; simpl; [by rewrite insert_id|done|].
    destruct (pg_ledger d). apply ledger_eq; simpl; lia.
Qed.

(** What binding does to the parameter [index]: out of range nothing; else the
    slot is cleared, and filled when there is a value and the memory for it. *)
Definition bound (index fmt oid : Z) (val : option (list byte * Z)) d s (a : SqlRDBResult) s' : Prop :=
  if (index <? 1) || (ps_nparams s <? index) then a = SQL_RDB_ERR_INVALID_ARG ∧ s' = s else
  let i := Z.to_nat (index - 1) in
  let s0 := slot_null s i fmt oid in
  match val with
  | None => a = SQL_RDB_OK ∧ s' = s0
  | Some (buf, len) =>
      if (malloc_ok (pg_alloc d)).1 then a = SQL_RDB_OK ∧ s' = slot_full s0 i buf len
      else a = SQL_RDB_ERR_NO_MEMORY ∧ s' = s0
  end.

Lemma bound_acts p index fmt oid (data : option (list byte)) (o : list byte → option (list byte)) f len :
  (∀ bs, data = Some bs → is_Some (o bs)) →
  acts p
    (s ← pg_stmt L p;
     if (index <? 1) || (ps_nparams s <? index) then mret SQL_RDB_ERR_INVALID_ARG else
     s ← clear_slot L s (index - 1) fmt oid;
     put_stmt L p s;;
     match data with
     | None => mret SQL_RDB_OK
     | Some bs =>
         ok ← pg_malloc L;
         if negb ok then mret SQL_RDB_ERR_NO_MEMORY else
         buf ← mdef (o bs); s ← fill_slot L s (index - 1) (f buf) len; put_stmt L p s;; mret SQL_RDB_OK
     end)
    (bound index fmt oid (bs ← data; buf ← o bs; Some (f buf, len))).
Proof.
  intros Ho d s Hs [Hwf _]. unfold bound.
  assert (pg_stmt L p d = Some (s, d)) as Ep by (unfold pg_stmt, mbind, M_bind, mget, mdef; by rewrite Hs).
  rewrite (bind_run _ _ _ _ _ Ep). destruct ((index <? 1) || (ps_nparams s <? index)) eqn:Ei.
  { eexists _, _, _. split; [done|]. split_and!; [by apply moved_refl|done..]. }
  apply orb_false_iff in Ei as [?%Z.ltb_ge ?%Z.ltb_ge]. cbv zeta.
  destruct (clear_slot_run s (Z.to_nat (index - 1)) fmt oid d Hwf ltac:(lia)) as (d1 & E1 & H1).
  rewrite Z2Nat.id in E1 by lia. rewrite (bind_run _ _ _ _ _ E1).
  pose proof (slot_null_wf s (Z.to_nat (index - 1)) fmt oid Hwf) as Hw0.
  pose proof (rebooked_moved p _ _ _ _ H1) as Hm.
  set (s0 := slot_null s _ fmt oid) in *. set (d2 := set_stmts _ d1) in *.
  assert (put_stmt L p s0 d1 = Some (tt, d2)) as E2 by done. rewrite (bind_run _ _ _ _ _ E2).
  assert (pg_alloc d2 = pg_alloc d) as Hal by (unfold d2; by rewrite H1).
  destruct data as [bs|]; cbn [mbind option_bind].
  - destruct (Ho bs eq_refl) as [buf Hb].
    destruct (fill_run p s0 (Z.to_nat (index - 1)) (o bs) buf f len d2) as (s' & d' & E & Hm' & Es').
    { unfold d2. simpl. apply lookup_insert_eq. }
    { done. }
    { simpl. apply list_lookup_insert_eq. rewrite swf_values by done. lia. }
    { done. }
    rewrite Z2Nat.id in E by lia. eexists _, s', d'. split; [exact E|].
    split; [by eapply moved_trans|]. rewrite Hal in *. rewrite Hb. cbn [mbind option_bind].
    destruct (malloc_ok (pg_alloc d)).1; subst s'; split_and!; try done. by apply slot_full_wf.
  - eexists _, s0, d2. split; [done|]. split_and!; done.
Qed.

Lemma acts_weaken {A} p (m : M (Pg L) A) (Q Q' : Pg L → PgStmt L → A → PgStmt L → Prop) :
  acts p m Q → (∀ d s a s', Q d s a s' → Q' d s a s') → acts p m Q'.
Proof.
  intros Hm HQ d s Hs Hu. destruct (Hm d s Hs Hu) as (a & s' & d' & E & H1 & H2 & H3 & H4).
  exists a, s', d'. split_and!; auto.
Qed.

Lemma store_param_acts p index data len fmt oid :
  (∀ bs, data = Some bs → 0 ≤ len ≤ Z.of_nat (length bs)) →
  acts p (store_param L p index data len fmt oid)
    (bound index fmt oid ((λ bs, (take (Z.to_nat len) bs, len)) <$> data)).
Proof.
  intros Hd. eapply acts_weaken.
  - apply (bound_acts p index fmt oid data (λ bs, memcpy bs len) (λ b, b) len).
    intros bs E. by rewrite memcpy_run by auto.
  - intros d s a s'. destruct data as [bs|]; [|done]. cbn [mbind option_bind].
    by rewrite memcpy_run by auto.
Qed.

Lemma bind_printed_acts p size index str :
  slen str < size → acts p (bind_printed L size p index str) (bound index 0 0 (Some (cbytes str, slen str + 1))).
Proof.
  intros Hs. assert (Z.of_nat (length (cbytes str)) = slen str + 1) as Hl.
  { unfold cbytes. rewrite length_app, Nat2Z.inj_add, length_list_byte_of_string. done. }
  eapply acts_weaken.
  - apply store_param_acts. intros bs [= <-]. rewrite printed_fits by done. pose proof (slen_nonneg str). lia.
  - intros d s a s'. rewrite printed_fits by done. cbn [fmap option_fmap option_map].
    rewrite take_ge by lia. done.
Qed.

Definition printed (str : string) : option (list byte * Z) := Some (cbytes str, slen str + 1).

Lemma bind_int64_acts p index v : acts p (pg_bind_int64 L p index v) (bound index 0 0 (printed (dec (to_signed 64 v)))).
Proof.
  apply bind_printed_acts. pose proof (slen_dec (to_signed 64 v) 19 ltac:(lia)) as Hl.
  pose proof (to_signed_range 64 v ltac:(lia)) as Hr. change (2 ^ (64 - 1)) with (2 ^ 63) in Hr.
  specialize (Hl ltac:(change (Z.of_nat 19) with 19; lia)). lia.
Qed.

Lemma bind_int32_acts p index v : acts p (pg_bind_int32 L p index v) (bound index 0 0 (printed (dec (to_signed 32 v)))).
Proof.
  apply bind_printed_acts. pose proof (slen_dec (to_signed 32 v) 10 ltac:(lia)) as Hl.
  pose proof (to_signed_range 32 v ltac:(lia)) as Hr. change (2 ^ (32 - 1)) with (2 ^ 31) in Hr.
  specialize (Hl ltac:(change (Z.of_nat 10) with 10; lia)). lia.
Qed.

Lemma bind_real_acts p index v : acts p (pg_bind_real L F p index v) (bound index 0 0 (printed (fmt_g17 F v))).
Proof. apply bind_printed_acts. pose proof (fmt_g17_short v). lia. Qed.

(** The number of bytes that are bound of a text. *)
Definition text_len (bs : list byte) (len : Z) : Z := if len <? 0 then Z.of_nat (length (cstring bs)) else len.

Lemma bind_text_acts p index value len :
  arg_ok value len →
  acts p (pg_bind_text L p index value len)
    (bound index 0 0 ((λ bs, (take (Z.to_nat (text_len bs len)) bs ++ [x00], to_signed 32 (text_len bs len))) <$> value)).
Proof.
  intros Ha. assert (∀ bs, value = Some bs → memcpy bs (text_len bs len) = Some (take (Z.to_nat (text_len bs len)) bs)) as Hm.
  { intros bs E. destruct (Ha bs E). apply memcpy_run. unfold text_len. pose proof (length_cstring bs).
    destruct (Z.ltb_spec len 0); lia. }
  destruct value as [bs|].
  - eapply acts_weaken; [apply (bound_acts p index 0 0 (Some bs) (λ bs, memcpy bs (text_len bs len)) (λ b, b ++ [x00]) (to_signed 32 (text_len bs len)))|].
    + intros ? [= <-]. by rewrite Hm.
    + intros d s a s'. cbn [mbind option_bind fmap option_fmap option_map]. by rewrite Hm.
  - eapply acts_weaken; [apply (bound_acts p index 0 0 None (λ bs, Some bs) (λ b, b) 0)|]; done.
Qed.

Lemma bind_blob_acts p index value len :
  0 ≤ len → arg_ok value len →
  acts p (pg_bind_blob L p index value len)
    (bound index 1 C2SQL_PG_BYTEAOID ((λ bs, (take (Z.to_nat len) bs, len)) <$> value)).
Proof.
  intros Hl Ha. unfold pg_bind_blob. destruct value as [bs|].
  - destruct (Ha bs eq_refl). rewrite to_signed_small by (unfold INT_MAX in *; change (2 ^ (32 - 1)) with (2 ^ 31); lia).
    apply store_param_acts. intros ? [= <-]. lia.
  - eapply acts_weaken; [by apply store_param_acts|done].
Qed.

Lemma bind_null_acts p index : acts p (pg_bind_null L p index) (bound index 0 0 None).
Proof. by apply (store_param_acts p index None). Qed.
(** *** Execution and the cursor *)

(** What [PQexecParams] is given. *)
Definition pg_send (conn : PGconn L) s : W → option (PGresult L) * W :=
  let opt (x : list Z) := if ps_nparams s =? 0 then None else Some x in
  PQexecParams L conn (ps_sql s) (ps_nparams s) (opt (ps_types s)) (ps_values s)
    (opt (ps_lengths s)) (opt (ps_formats s)) 0.

Definition status_ok (st : ExecStatusType) : bool :=
  match st with PGRES_TUPLES_OK | PGRES_COMMAND_OK => true | _ => false end.

(** The result of executing the statement: [None] when there is none or the
    server reports an error. *)
Definition answer d s : option (PGresult L) :=
  c ← pg_ctxs d !! ps_ctx s;
  conn ← pc_conn c;
  res ← (pg_send conn s (pg_w d)).1;
  if status_ok (PQresultStatus L res) then Some res else None.

(** The first step executes, the next ones move the cursor. *)
Definition stepped d s (a : SqlRDBResult * option bool) s' : Prop :=
  if ps_executed s then
    if INT_MAX <=? ps_row s then a = (SQL_RDB_OK, Some false) ∧ s' = s
    else a = (SQL_RDB_OK, Some (ps_row s + 1 <? ps_nrows s)) ∧
      s' = with_result s (ps_res s) (ps_nrows s) (ps_row s + 1) true
  else
    match answer d s with
    | Some res => a = (SQL_RDB_OK, Some (0 <? PQntuples L res)) ∧ s' = with_result s (Some res) (PQntuples L res) 0 true
    | None => a = (SQL_RDB_ERR_DRIVER, None) ∧ s' = s
    end.

Lemma pg_stmt_run p s d : pg_stmts d !! p = Some s → pg_stmt L p d = Some (s, d).
Proof. intros Hs. unfold pg_stmt, mbind, M_bind, mget, mdef. by rewrite Hs. Qed.

Lemma pg_ctx_run c x d : pg_ctxs d !! c = Some x → pg_ctx L c d = Some (x, d).
Proof. intros Hs. unfold pg_ctx, mbind, M_bind, mget, mdef. by rewrite Hs. Qed.

Lemma with_result_id s : ps_executed s = false → ps_res s = None → with_result s None (ps_nrows s) (ps_row s) false = s.
Proof. destruct s. simpl. by intros -> ->. Qed.

Lemma conn_map_put c x n (d : gmap ptr (PgCtx L)) :
  d !! c = Some x → pc_conn <$> <[c := MkPgCtx (pc_conn x) n]> d = pc_conn <$> d.
Proof.
  intros Hc. rewrite fmap_insert. simpl. apply insert_id. by rewrite lookup_fmap, Hc.
Qed.

Lemma moved_same p s d d' :
  pg_stmts d !! p = Some s → pg_stmts d' = <[p := s]> (pg_stmts d) → conn_map d' = conn_map d →
  pg_ledger d' = ladd (pg_ledger d) nothing → moved p s s d d'.
Proof. intros Hs E1 E2 E3. split_and!; [done|done|]. rewrite E3. apply ledger_eq; simpl; lia. Qed.

Lemma with_result_wf s res nrows row :
  stmt_wf s → 0 ≤ nrows ≤ INT_MAX → -1 ≤ row ≤ INT_MAX → stmt_wf (with_result s res nrows row true).
Proof. intros []. by constructor. Qed.

Lemma answer_run d s c conn :
  pg_ctxs d !! ps_ctx s = Some c → pc_conn c = Some conn →
  answer d s = res ← (pg_send conn s (pg_w d)).1; if status_ok (PQresultStatus L res) then Some res else None.
Proof. intros Hc Hconn. unfold answer. rewrite Hc. simpl. by rewrite Hconn. Qed.

Lemma status_split {A} st (x y : A) :
  match st with PGRES_TUPLES_OK | PGRES_COMMAND_OK => x | _ => y end = if status_ok st then x else y.
Proof. by destruct st. Qed.

Lemma step_acts p : acts p (pg_step L p) stepped.
Proof.
  intros d s Hs [Hwf (c & conn & Hc & Hconn)]. unfold pg_step, stepped.
  rewrite (bind_run _ _ _ _ _ (pg_stmt_run _ _ _ Hs)). destruct (ps_executed s) eqn:Ex; cbn [negb].
  { pose proof (swf_row s Hwf). destruct (Z.leb_spec INT_MAX (ps_row s)).
    { eexists _, s, _. split; [done|]. split; [|by split_and!].
      apply moved_same; try done; simpl; [by rewrite insert_id|apply ledger_eq; simpl; lia]. }
    eexists _, (with_result s (ps_res s) (ps_nrows s) (ps_row s + 1) true), _.
    split; [done|]. split_and!; try done.
    - split_and!; try done. simpl. apply ledger_eq; simpl; lia.
    - apply with_result_wf; [done|apply Hwf|lia]. }
  pose proof (swf_res s Hwf Ex) as Hres. rewrite (answer_run d s c conn Hc Hconn).
  rewrite (bind_run _ _ _ _ _ (pg_ctx_run _ _ _ Hc)). rewrite Hconn. erewrite bind_run by done.
  cbv zeta. fold (pg_send conn s). unfold pq_result, pq, book, mmodify, mbind, M_bind.
  destruct (pg_send conn s (pg_w d)) as [[res|] w]; simpl.
  2: { eexists _, s, _. split; [done|]. rewrite (with_result_id s Ex Hres).
       split; [by apply moved_same|split_and!; done]. }
  rewrite status_split. destruct (status_ok (PQresultStatus L res)); simpl.
  - eexists _, (with_result s (Some res) (PQntuples L res) 0 true), _. split; [done|]. split_and!; try done.
    + split_and!; [done| |].
      * unfold conn_map. simpl. by rewrite <-Hconn, conn_map_put.
      * apply ledger_eq; simpl; rewrite ?Hres; simpl; lia.
    + apply with_result_wf; [done|apply pq_ntuples|done].
  - eexists _, s, _. split; [done|]. rewrite (with_result_id s Ex Hres). split; [|split_and!; done].
    apply moved_same; try done. simpl. apply ledger_eq; simpl; lia.
Qed.
(** *** Columns *)

Definition cell_null s (i : Z) : bool := negb (PQgetisnull L (ps_res s) (ps_row s) i =? 0).
Definition cell_value s (i : Z) : option (list byte) := PQgetvalue L (ps_res s) (ps_row s) i.

(** What a column is read as: [z] for NULL. *)
Definition cell_read {A} s (i : Z) (z : A) (f : string → A) : A :=
  if cell_null s i then z else f (string_of_list_byte (default [] (cell_value s i))).

Lemma cell_value_some s i : cell_null s i = false → ∃ v, cell_value s i = Some v.
Proof. unfold cell_null, cell_value. intros H%negb_false_iff%Z.eqb_eq. by apply pq_value. Qed.

Lemma value_acts {A} p i (z : A) f : acts p (pg_value L p i z f) (λ _ s a s', a = cell_read s i z f ∧ s' = s).
Proof.
  intros d s Hs [Hwf _]. unfold pg_value. rewrite (bind_run _ _ _ _ _ (pg_stmt_run _ _ _ Hs)).
  eexists _, s, d. split_and!; [| |done|done|done|done].
  - unfold cell_read. pose proof (cell_value_some s i) as Hv. unfold cell_null, cell_value in *.
    destruct (_ =? 0); simpl in *; [|done]. destruct (Hv eq_refl) as [v Ev]. by rewrite Ev.
  - by apply moved_refl.
Qed.

Lemma acts_map {A B} p (m : M (Pg L) A) (g : A → B) Q :
  acts p m Q → acts p (a ← m; mret (g a)) (λ d s b s', ∃ a, b = g a ∧ Q d s a s').
Proof.
  intros Hm d s Hs Hu. destruct (Hm d s Hs Hu) as (a & s' & d' & E & H).
  exists (g a), s', d'. rewrite (bind_run _ _ _ _ _ E). split; [done|]. naive_solver.
Qed.

Lemma column_acts p i (f : string → Z) :
  acts p (out ← pg_value L p i 0 f; mret (SQL_RDB_OK, out)) (λ _ s a s', a = (SQL_RDB_OK, cell_read s i 0 f) ∧ s' = s).
Proof. eapply acts_weaken; [apply acts_map, value_acts|]. by intros d s a s' (? & -> & -> & ->). Qed.

Lemma column_text_acts p i : acts p (pg_column_text L p i)
  (λ _ s a s', a = (SQL_RDB_OK, (cell_value s i, size_t (PQgetlength L (ps_res s) (ps_row s) i))) ∧ s' = s).
Proof.
  intros d s Hs [Hwf _]. unfold pg_column_text. rewrite (bind_run _ _ _ _ _ (pg_stmt_run _ _ _ Hs)).
  eexists _, s, d. split; [done|]. split; [by apply moved_refl|done].
Qed.

Lemma column_isnull_acts p i : acts p (pg_column_isnull L p i) (λ _ s a s', a = (SQL_RDB_OK, cell_null s i) ∧ s' = s).
Proof.
  intros d s Hs [Hwf _]. unfold pg_column_isnull. rewrite (bind_run _ _ _ _ _ (pg_stmt_run _ _ _ Hs)).
  eexists _, s, d. split; [done|]. split; [by apply moved_refl|done].
Qed.

Lemma with_blob_wf s b : stmt_wf s → stmt_wf (with_blob s b).
Proof. intros []. by constructor. Qed.

(** The statement keeps the decoded buffer until the next read or reset. *)
Definition blob_read (i : Z) d s (a : SqlRDBResult * (option (list byte) * Z)) s' : Prop :=
  if cell_null s i then a = (SQL_RDB_OK, (None, 0)) ∧ s' = with_blob s None else
  match (PQunescapeBytea L (default [] (cell_value s i)) (pg_w d)).1 with
  | Some b => a = (SQL_RDB_OK, (Some b, Z.of_nat (length b))) ∧ s' = with_blob s (Some b)
  | None => a = (SQL_RDB_ERR_NO_MEMORY, (None, 0)) ∧ s' = with_blob s None
  end.

Lemma column_blob_acts p i : acts p (pg_column_blob L p i) (blob_read i).
Proof.
  intros d s Hs [Hwf _]. unfold pg_column_blob, blob_read. rewrite (bind_run _ _ _ _ _ (pg_stmt_run _ _ _ Hs)).
  pose proof (cell_value_some s i) as Hv. unfold cell_null, cell_value in *.
  unfold pq_freemem, book, put_stmt, mmodify, pq, mbind, M_bind. cbn [ps_res ps_row with_blob].
  destruct (PQgetisnull L (ps_res s) (ps_row s) i =? 0); simpl in *.
  - destruct (Hv eq_refl) as [v Ev]. rewrite Ev. simpl.
    destruct (PQunescapeBytea L v (pg_w d)) as [[b|] w]; simpl.
    + eexists _, (with_blob s (Some b)), _. split; [done|]. split_and!; try done; [|by apply with_blob_wf].
      split_and!; simpl; [by rewrite insert_insert_eq|done|]. apply ledger_eq; simpl; lia.
    + eexists _, (with_blob s None), _. split; [done|]. split_and!; try done; [|by apply with_blob_wf].
      split_and!; [done|done|]. apply ledger_eq; simpl; lia.
  - eexists _, (with_blob s None), _. split; [done|]. split_and!; try done; [|by apply with_blob_wf].
    split_and!; [done|done|]. apply ledger_eq; simpl; lia.
Qed.

(** *** Reset and release *)

(** The struct as [pg_prepare] made it. *)
Definition cleared s s' : Prop :=
  ps_ctx s' = ps_ctx s ∧ ps_sql s' = ps_sql s ∧ ps_nparams s' = ps_nparams s ∧
  ps_values s' = replicate (Z.to_nat (ps_nparams s)) None ∧
  ps_res s' = None ∧ ps_nrows s' = 0 ∧ ps_row s' = -1 ∧ ps_executed s' = false ∧ ps_blob_tmp s' = None.

Lemma replicate_of {A} (l : list A) n x : length l = n → (∀ j, (j < n)%nat → l !! j = Some x) → l = replicate n x.
Proof.
  intros Hl Hx. apply list_eq. intros j. destruct (decide (j < n)%nat).
  - by rewrite Hx, lookup_replicate_2 by done.
  - rewrite (proj2 (lookup_ge_None l j)) by lia. symmetry. apply lookup_ge_None. rewrite length_replicate. lia.
Qed.

Lemma clear_run s d :
  stmt_wf s → ∃ s' d', (s ← clear_results L s; clear_params L s) d = Some (s', d') ∧
    rebooked s s' d d' ∧ stmt_wf s' ∧ cleared s s'.
Proof.
  intros Hwf. set (s0 := with_blob (with_result s None 0 (-1) false) None).
  assert (stmt_wf s0) as Hw0 by (destruct Hwf; by constructor).
  assert (∃ d0, clear_results L s d = Some (s0, d0) ∧ rebooked s s0 d d0) as (d0 & E0 & H0).
  { eexists. split; [done|]. unfold rebooked, set_ledger. simpl. f_equal. apply ledger_eq; simpl; lia. }
  rewrite (bind_run _ _ _ _ _ E0). unfold clear_params.
  destruct (clear_params_run s0 0 (Z.to_nat (ps_nparams s0)) d0 Hw0 ltac:(lia))
    as (s' & d' & E & H1 & Hw & Hc & Hn & Hr & Hb & He & Hq & Hnr & Hro & _ & Hall).
  exists s', d'. split; [exact E|]. split; [by eapply rebooked_trans|]. split; [done|].
  split_and!; try done. apply replicate_of; [by rewrite swf_values, Hn by done|].
  intros j Hj. apply Hall. simpl. lia.
Qed.

Lemma reset_acts p : acts p (pg_reset L p) (λ _ s a s', a = SQL_RDB_OK ∧ cleared s s').
Proof.
  intros d s Hs [Hwf _]. unfold pg_reset. rewrite (bind_run _ _ _ _ _ (pg_stmt_run _ _ _ Hs)).
  destruct (clear_run s d Hwf) as (s' & d' & E & H1 & Hw & Hc).
  apply bind_Some in E as (s0 & d0 & E0 & E1). rewrite (bind_run _ _ _ _ _ E0), (bind_run _ _ _ _ _ E1).
  eexists _, s', _. split; [done|]. split_and!; [by apply rebooked_moved|done|apply Hc|done|done].
Qed.

(** Finalizing gives back all that the statement owns. *)
Lemma pg_finalize_run p s d :
  pg_stmts d !! p = Some s → stmt_wf s → p ≠ NULL →
  ∃ d', pg_finalize L p d = Some (SQL_RDB_OK, d') ∧ pg_stmts d' = delete p (pg_stmts d) ∧
    pg_ctxs d' = pg_ctxs d ∧ pg_ledger d' = lsub (pg_ledger d) (footprint s).
Proof.
  intros Hs Hwf Hp. unfold pg_finalize. rewrite decide_False by done.
  rewrite (bind_run _ _ _ _ _ (pg_stmt_run _ _ _ Hs)).
  destruct (clear_run s d Hwf) as (s' & d' & E & H1 & Hw & Hc).
  apply bind_Some in E as (s0 & d0 & E0 & E1). rewrite (bind_run _ _ _ _ _ E0), (bind_run _ _ _ _ _ E1).
  destruct Hc as (_ & _ & Hn & Hv & Hr & _ & _ & _ & Hb).
  eexists. split; [done|]. rewrite H1. split_and!; [done|done|]. unfold footprint. rewrite Hv, Hr, Hb, total_held_None.
  apply ledger_eq; unfold array; simpl; rewrite ?Hn; destruct (0 <? ps_nparams s); simpl; lia.
Qed.
(** ** Connections and new statements *)

(** The connection can be used. *)
Definition online d (c : ptr) : Prop := ∃ x conn, pg_ctxs d !! c = Some x ∧ pc_conn x = Some conn.

(** Nothing is opened, closed or kept. *)
Definition unmoved d d' : Prop :=
  pg_stmts d' = pg_stmts d ∧ conn_map d' = conn_map d ∧ pg_ledger d' = pg_ledger d.

Lemma pg_exec_run c sql d : online d c → ∃ r d', pg_exec L c sql d = Some (r, d') ∧ unmoved d d'.
Proof.
  intros (x & conn & Hc & Hconn). unfold pg_exec. rewrite (bind_run _ _ _ _ _ (pg_ctx_run _ _ _ Hc)), Hconn.
  erewrite bind_run by done. unfold pq_result, pq, book, mmodify, mbind, M_bind.
  destruct (PQexec L conn sql (pg_w d)) as [[res|] w]; simpl.
  - destruct (PQresultStatus L res); simpl; eexists _, _; (split; [done|]); split_and!; try done;
      simpl; try (apply ledger_eq; simpl; lia); unfold conn_map; simpl; by rewrite <-Hconn, conn_map_put.
  - eexists _, _. split; [done|]. split_and!; try done. simpl. apply ledger_eq; simpl; lia.
Qed.

Lemma malloc_booked d :
  ∃ ok al, pg_malloc L d = Some (ok, set_ledger (ladd (pg_ledger d) (MkLedger (one_if ok) 0 0 0)) (set_alloc al d)).
Proof.
  unfold pg_malloc, zoom, malloc, book, mmodify, mbind, M_bind. simpl.
  destruct (malloc_ok (pg_alloc d)) as [ok al]. by exists ok, al.
Qed.

Lemma calloc_booked {A} n (x : A) d :
  ∃ o al, pg_calloc L n x d = Some (o, set_ledger (ladd (pg_ledger d) (MkLedger (held o) 0 0 0)) (set_alloc al d)) ∧
    (o = None ∨ o = Some (replicate n x)).
Proof.
  destruct (malloc_booked d) as (ok & al & E). unfold pg_calloc. rewrite (bind_run _ _ _ _ _ E).
  exists (if ok then Some (replicate n x) else None), al. destruct ok; (split; [done|auto]).
Qed.

Lemma fresh_address d : fresh (pg_addresses d) ∉ pg_addresses d.
Proof. apply is_fresh. Qed.

(** The struct of a new statement. *)
Definition new_stmt (ctx : ptr) (sql : string) (n : Z) : PgStmt L :=
  let k := Z.to_nat n in
  MkPgStmt ctx sql n (replicate k None) (replicate k 0) (replicate k 0) (replicate k 0) (replicate k false)
    None 0 (-1) false None.

Lemma new_stmt_wf ctx sql n : 0 ≤ n → stmt_wf (new_stmt ctx sql n).
Proof.
  intros Hn. constructor; simpl; rewrite ?length_replicate; try done.
  - by rewrite fmap_replicate.
Qed.

(** A statement is published, or nothing is kept. *)
Definition prepared (ctx : ptr) (sql : string) d (r : SqlRDBResult) (p : ptr) d' : Prop :=
  pg_ctxs d' = pg_ctxs d ∧
  if res_ok r then
    (p ∉ pg_addresses d) ∧ ∃ n, pg_count_params sql = Some n ∧
      pg_stmts d' = <[p := new_stmt ctx sql n]> (pg_stmts d) ∧
      pg_ledger d' = ladd (pg_ledger d) (footprint (new_stmt ctx sql n))
  else r = SQL_RDB_ERR_NO_MEMORY ∧ p = NULL ∧ pg_stmts d' = pg_stmts d ∧ pg_ledger d' = pg_ledger d.

Ltac nothing_kept :=
  eexists _, _, _; split; [done|]; split; [done|]; cbn [res_ok]; split_and!; try done; apply ledger_eq; simpl; lia.

Lemma pg_prepare_run ctx sql d :
  is_Some (pg_count_params sql) → ∃ r p d', pg_prepare L ctx sql d = Some ((r, p), d') ∧ prepared ctx sql d r p d'.
Proof.
  intros [n Hn]. pose proof (pg_count_nonneg _ _ Hn) as Hpos. unfold pg_prepare, prepared.
  destruct (malloc_booked d) as (ok & al & E). rewrite (bind_run _ _ _ _ _ E). clear E. destruct ok; cbn [negb one_if].
  2: { nothing_kept. }
  set (d1 := set_ledger _ _). destruct (malloc_booked d1) as (ok & al1 & E). rewrite (bind_run _ _ _ _ _ E). clear E. destruct ok; cbn [negb one_if].
  2: { nothing_kept. }
  rewrite Hn. erewrite bind_run by done. set (d2 := set_ledger _ _).
  assert (pg_addresses d2 = pg_addresses d) as Ha by done.
  destruct (Z.ltb_spec 0 n) as [Hlt|Hle]; cbv zeta.
  - set (k := Z.to_nat n).
    destruct (calloc_booked k (@None (list byte)) d2) as (vs & al3 & E & Hvs). rewrite (bind_run _ _ _ _ _ E). clear E. set (d3 := set_ledger _ _).
    destruct (calloc_booked k 0 d3) as (ls & al4 & E & Hls). rewrite (bind_run _ _ _ _ _ E). clear E. set (d4 := set_ledger _ _).
    destruct (calloc_booked k 0 d4) as (fs & al5 & E & Hfs). rewrite (bind_run _ _ _ _ _ E). clear E. set (d5 := set_ledger _ _).
    destruct (calloc_booked k 0 d5) as (ts & al6 & E & Hts). rewrite (bind_run _ _ _ _ _ E). clear E. set (d6 := set_ledger _ _).
    destruct (calloc_booked k false d6) as (os & al7 & E & Hos). rewrite (bind_run _ _ _ _ _ E). clear E. set (d7 := set_ledger _ _).
    assert (pg_addresses d7 = pg_addresses d) as Ha7 by done.
    destruct Hvs as [->| ->], Hls as [->| ->], Hfs as [->| ->], Hts as [->| ->], Hos as [->| ->].
    all: try nothing_kept.
    eexists _, _, _. split; [done|]. split; [done|]. cbn [res_ok]. rewrite Ha7. split; [apply fresh_address|].
    exists n. split_and!; [done|done|]. apply ledger_eq; simpl; try lia.
    rewrite total_held_None, (proj2 (Z.ltb_lt _ _)) by done. lia.
  - assert (n = 0) as -> by lia. eexists _, _, _. split; [done|]. split; [done|]. cbn [res_ok].
    rewrite Ha. split; [apply fresh_address|]. exists 0. split_and!; [done|done|]. apply ledger_eq; simpl; lia.
Qed.

Lemma pg_open_run dsn d : ∃ r c d', pg_open L dsn d = Some ((r, c), d') ∧ pg_stmts d' = pg_stmts d ∧
  if res_ok r then (c ∉ pg_addresses d) ∧ ∃ conn, pg_ctxs d' = <[c := MkPgCtx (Some conn) 0]> (pg_ctxs d) ∧
    pg_ledger d' = ladd (pg_ledger d) (MkLedger 1 0 0 1)
  else pg_ctxs d' = pg_ctxs d ∧ pg_ledger d' = pg_ledger d.
Proof.
  unfold pg_open, pq, pq_finish, pg_fresh, put_ctx, book, mmodify. unfold mbind at 1, M_bind at 1.
  destruct (PQconnectdb L dsn (pg_w d)) as [[conn|] w]; [|by eexists _, _, _].
  unfold mbind, M_bind, mgets. cbn [pg_w set_ledger set_w].
  destruct (PQstatus L conn w).
  2: { nothing_kept. }
  match goal with |- context [pg_malloc L ?x] => destruct (malloc_booked x) as (ok & al & ->) end. destruct ok; cbn [negb one_if].
  - eexists _, _, _. split; [done|]. split; [done|]. cbn [res_ok].
    split; [apply (fresh_address d)|]. exists conn. split; [done|]. apply ledger_eq; simpl; lia.
  - nothing_kept.
Qed.

Lemma pg_close_run c x d :
  pg_ctxs d !! c = Some x → c ≠ NULL →
  ∃ d', pg_close L c d = Some (SQL_RDB_OK, d') ∧ pg_stmts d' = pg_stmts d ∧
    pg_ctxs d' = delete c (pg_ctxs d) ∧ pg_ledger d' = lsub (pg_ledger d) (ctx_footprint x).
Proof.
  intros Hc Hn. unfold pg_close. rewrite decide_False by done. rewrite (bind_run _ _ _ _ _ (pg_ctx_run _ _ _ Hc)).
  unfold ctx_footprint. destruct (pc_conn x); eexists; (split; [done|]); split_and!; try done; apply ledger_eq; simpl; lia.
Qed.
End pg.
