(* ===== verification/PostgresLaws.v ===== *)
(** * The PostgreSQL driver implements the driver interface

    [DriverLaws] and [FiniteRows] of src/db_driver.h's table, from the lemmas
    of PostgresProofs.v.  The view of the driver has its ledger in it: what is
    proved against the interface keeps the driver's books, too. *)

From Stdlib Require Import String Strings.Byte.
From S2P Require Import Prelude PgText Types Driver PostgresDriver PostgresProofs.

Lemma ladd_comm a b : ladd a b = ladd b a.
Proof. apply ledger_eq; simpl; lia. Qed.

Lemma ladd_assoc a b c : ladd a (ladd b c) = ladd (ladd a b) c.
Proof. apply ledger_eq; simpl; lia. Qed.

#[global] Instance Ledger_eq_dec : EqDecision Ledger.
Proof. solve_decision. Defined.

(** ** Sums over a table *)

Section lsum.
Context {A : Type} (f : A → Ledger).

Definition lsum (m : gmap ptr A) : Ledger := map_fold (λ _ x l, ladd (f x) l) nothing m.

Lemma lsum_empty : lsum ∅ = nothing.
Proof. apply map_fold_empty. Qed.

Lemma lsum_insert m p x : m !! p = None → lsum (<[p := x]> m) = ladd (f x) (lsum m).
Proof.
  intros Hp. unfold lsum. rewrite (map_fold_insert_L (λ _ x l, ladd (f x) l)); [done| |done].
  intros. rewrite !ladd_assoc. f_equal. apply ladd_comm.
Qed.

Lemma lsum_delete m p x : m !! p = Some x → lsum m = ladd (f x) (lsum (delete p m)).
Proof.
  intros Hp. rewrite <-(insert_delete_id m p x Hp) at 1. apply lsum_insert. apply lookup_delete_eq.
Qed.

Lemma lsum_update m p x y : m !! p = Some x → lsum (<[p := y]> m) = ladd (lsum m) (lsub (f y) (f x)).
Proof.
  intros Hp. rewrite (lsum_delete m p x Hp), <-insert_delete_eq, lsum_insert by apply lookup_delete_eq.
  apply ledger_eq; simpl; lia.
Qed.
End lsum.

Section laws.
Context {W : Type} (L : Libpq W) (F : FloatText) `{!LibpqLaws L, !FloatTextLaws F}.
Context (debt : Ledger).
Implicit Types (s : PgStmt L) (d : Pg L).

(** ** What the driver owes

    Every struct is in order, and what was obtained and not given back is what
    the structs own, and [debt]: what was lost before. *)

Definition owned d : Ledger :=
  ladd (lsum (footprint L) (pg_stmts d)) (lsum (λ conn, MkLedger 1 0 0 (held conn)) (conn_map L d)).

Definition sane d : Prop :=
  map_Forall (λ _ s, stmt_wf L s) (pg_stmts d) ∧ pg_ledger d = ladd debt (owned d).

Lemma sane_moved p s s' d d' :
  sane d → pg_stmts d !! p = Some s → stmt_wf L s' → moved L p s s' d d' → sane d'.
Proof.
  intros [Hw Hl] Hs Hw' (Es & Ec & El). split.
  - rewrite Es. by apply map_Forall_insert_2.
  - rewrite El, Hl. unfold owned. rewrite Ec, Es, (lsum_update _ _ _ _ _ Hs). apply ledger_eq; simpl; lia.
Qed.

Lemma sane_unmoved d d' : sane d → unmoved L d d' → sane d'.
Proof. intros [Hw Hl] (Es & Ec & El). split; [by rewrite Es|]. unfold owned. by rewrite El, Es, Ec. Qed.

Lemma sane_wf d p s : sane d → pg_stmts d !! p = Some s → stmt_wf L s.
Proof. intros [Hw _] Hs. by eapply Hw. Qed.

(** ** What can be seen of the driver *)

Lemma stmt_wf_iff s :
  0 ≤ ps_nparams s ∧ length (ps_values s) = Z.to_nat (ps_nparams s) ∧
  length (ps_lengths s) = Z.to_nat (ps_nparams s) ∧ length (ps_formats s) = Z.to_nat (ps_nparams s) ∧
  length (ps_types s) = Z.to_nat (ps_nparams s) ∧
  ps_owned s = (λ v, bool_decide (is_Some v)) <$> ps_values s ∧
  (ps_executed s = false → match ps_res s with None => True | Some _ => False end) ∧
  (0 ≤ ps_nrows s ∧ ps_nrows s ≤ INT_MAX) ∧ (-1 ≤ ps_row s ∧ ps_row s ≤ INT_MAX) ↔ stmt_wf L s.
Proof.
  split.
  - intros (? & ? & ? & ? & ? & ? & Hr & ? & ?). constructor; try done. intros He. specialize (Hr He). by destruct (ps_res s).
  - intros []. split_and!; try done; try lia. intros He. by rewrite swf_res.
Qed.

Lemma online_iff d c : is_Some (x ← pg_ctxs d !! c; pc_conn x) ↔ online L d c.
Proof.
  unfold online. destruct (pg_ctxs d !! c) as [x|]; simpl; [|naive_solver].
  split; [intros [conn H]; by eexists _, _|intros (? & conn & [= <-] & ->); by eexists].
Qed.

#[local] Instance null_dec {A} (o : option A) : Decision (match o with None => True | Some _ => False end).
Proof. destruct o; [right; intros []|by left]. Defined.

Definition decision_iff {P Q : Prop} (H : P ↔ Q) (dec : Decision P) : Decision Q :=
  match dec with left p => left (proj1 H p) | right n => right (λ q, n (proj2 H q)) end.

#[local] Instance stmt_wf_dec s : Decision (stmt_wf L s) := decision_iff (stmt_wf_iff s) _.
#[local] Instance online_dec d c : Decision (online L d c) := decision_iff (online_iff d c) _.
#[local] Instance sane_dec d : Decision (sane d) := _.

Definition pg_view : View (Pg L) := MkView
  (λ d, dom (filter (λ '(p, s), p ≠ NULL ∧ sane d ∧ online L d (ps_ctx s)) (pg_stmts d)))
  (λ c d, dom (filter (λ '(p, s), p ≠ NULL ∧ sane d ∧ online L d (ps_ctx s) ∧ ps_ctx s = c) (pg_stmts d)))
  (λ d, dom (filter (λ '(c, _), c ≠ NULL ∧ sane d ∧ online L d c) (pg_ctxs d)))
  sane.

Lemma pg_stmts_elem d p :
  p ∈ v_stmts pg_view d ↔ ∃ s, pg_stmts d !! p = Some s ∧ p ≠ NULL ∧ sane d ∧ online L d (ps_ctx s).
Proof. simpl. rewrite elem_of_dom. unfold is_Some. setoid_rewrite map_lookup_filter_Some. naive_solver. Qed.

Lemma pg_stmts_of_elem c d p :
  p ∈ v_stmts_of pg_view c d ↔
  ∃ s, pg_stmts d !! p = Some s ∧ p ≠ NULL ∧ sane d ∧ online L d (ps_ctx s) ∧ ps_ctx s = c.
Proof. simpl. rewrite elem_of_dom. unfold is_Some. setoid_rewrite map_lookup_filter_Some. naive_solver. Qed.

Lemma pg_conns_elem d c : c ∈ v_conns pg_view d ↔ c ≠ NULL ∧ sane d ∧ online L d c.
Proof.
  simpl. rewrite elem_of_dom. unfold is_Some. setoid_rewrite map_lookup_filter_Some.
  split; [naive_solver|]. intros (Hn & Hsn & (x & conn & Hx & Hc)). exists x. split_and!; try done. by exists x, conn.
Qed.

(** Whether a connection is up depends on the connections alone. *)
Lemma online_map d c : online L d c ↔ ∃ conn, conn_map L d !! c = Some (Some conn).
Proof.
  unfold online, conn_map. rewrite lookup_fmap. destruct (pg_ctxs d !! c) as [x|]; simpl; [|naive_solver].
  split; [intros (? & conn & [= <-] & E); exists conn; by rewrite E|intros [conn [= E]]; by exists x, conn].
Qed.

Lemma online_same d d' c : conn_map L d' = conn_map L d → online L d' c ↔ online L d c.
Proof. intros E. by rewrite !online_map, E. Qed.

Lemma conns_same d d' :
  sane d → sane d' → conn_map L d' = conn_map L d → v_conns pg_view d' = v_conns pg_view d.
Proof. intros H H' E. apply set_eq. intros c. rewrite !pg_conns_elem, (online_same d d') by done. tauto. Qed.

(** *** An operation on a statement *)

Lemma moved_view p s s' d d' :
  sane d → moved L p s s' d d' → pg_stmts d !! p = Some s → stmt_wf L s' → ps_ctx s' = ps_ctx s →
  v_stmts pg_view d' = v_stmts pg_view d ∧ still pg_view d d'.
Proof.
  intros Hsane Hmv Hs Hw' Hctx. pose proof (sane_moved _ _ _ _ _ Hsane Hs Hw' Hmv) as Hsane'.
  destruct Hmv as (Es & Ec & _).
  assert (∀ q (P : ptr → Prop), (∃ t, pg_stmts d' !! q = Some t ∧ P (ps_ctx t)) ↔ (∃ t, pg_stmts d !! q = Some t ∧ P (ps_ctx t)))
    as Hsame.
  { intros q P. rewrite Es. destruct (decide (q = p)) as [->|].
    - rewrite lookup_insert_eq, Hs. split; intros (t & [= <-] & Ht); eexists; (split; [done|]); congruence.
    - by rewrite lookup_insert_ne. }
  split; [|split; [by apply conns_same|]].
  - apply set_eq. intros q. rewrite !pg_stmts_elem.
    rewrite (Hsame q (λ c, q ≠ NULL ∧ sane d' ∧ online L d' c)). setoid_rewrite (online_same d d' _ Ec). naive_solver.
  - intros c. apply set_eq. intros q. rewrite !pg_stmts_of_elem.
    rewrite (Hsame q (λ x, q ≠ NULL ∧ sane d' ∧ online L d' x ∧ x = c)). setoid_rewrite (online_same d d' _ Ec). naive_solver.
Qed.

Lemma acts_run {A} p (m : M (Pg L) A) Q d :
  acts L p m Q → p ∈ v_stmts pg_view d →
  ∃ a s s' d', m d = Some (a, d') ∧ v_stmts pg_view d' = v_stmts pg_view d ∧ still pg_view d d' ∧
    pg_stmts d !! p = Some s ∧ pg_stmts d' !! p = Some s' ∧ Q d s a s'.
Proof.
  intros Hm (s & Hs & Hn & Hsn & Ho)%pg_stmts_elem.
  destruct (Hm d s Hs (conj (sane_wf d p s Hsn Hs) Ho)) as (a & s' & d' & E & Hmv & Hw' & Hc & HQ).
  destruct (moved_view p s s' d d' Hsn Hmv Hs Hw' Hc) as [Hv Hcalm]. destruct Hmv as (Es & _).
  exists a, s, s', d'. split_and!; try done. rewrite Es. apply lookup_insert_eq.
Qed.

Lemma acts_keeps {A} p (m : M (Pg L) A) Q d : acts L p m Q → p ∈ v_stmts pg_view d → keeps pg_view m d.
Proof.
  intros Hm Hp. destruct (acts_run p m Q d Hm Hp) as (a & s & s' & d' & E & Hv & Hc & _). by exists a, d'.
Qed.

(** *** An operation on a connection *)

Lemma unmoved_view d d' : sane d → unmoved L d d' → v_stmts pg_view d' = v_stmts pg_view d ∧ still pg_view d d'.
Proof.
  intros Hsane Hu. pose proof (sane_unmoved _ _ Hsane Hu) as Hsane'. destruct Hu as (Es & Ec & _).
  split; [|split; [by apply conns_same|]].
  - apply set_eq. intros q. rewrite !pg_stmts_elem, Es. setoid_rewrite (online_same d d' _ Ec). naive_solver.
  - intros c. apply set_eq. intros q. rewrite !pg_stmts_of_elem, Es. setoid_rewrite (online_same d d' _ Ec). naive_solver.
Qed.

Lemma exec_keeps c sql d : c ∈ v_conns pg_view d → keeps pg_view (pg_exec L c sql) d.
Proof.
  intros (_ & Hsn & Ho)%pg_conns_elem. destruct (pg_exec_run L c sql d Ho) as (r & d' & E & Hu).
  exists r, d'. split; [done|]. by apply unmoved_view.
Qed.

Lemma changes_keeps c d : c ∈ v_conns pg_view d → keeps pg_view (pg_changes L c) d.
Proof.
  intros (_ & _ & (x & conn & Hx & _))%pg_conns_elem. unfold pg_changes, keeps.
  rewrite (bind_run _ _ _ _ _ (pg_ctx_run L _ _ _ Hx)). by eexists _, _.
Qed.

(** *** Opening and closing *)

Lemma address_stmt d p s : pg_stmts d !! p = Some s → p ∈ pg_addresses d ∧ ps_ctx s ∈ pg_addresses d.
Proof.
  intros Hs. unfold pg_addresses. split.
  - apply elem_of_union_l, elem_of_union_r, elem_of_dom. by exists s.
  - apply elem_of_union_r, elem_of_list_to_set, list_elem_of_fmap. exists (p, s). split; [done|].
    by apply elem_of_map_to_list.
Qed.

Lemma address_ctx d c x : pg_ctxs d !! c = Some x → c ∈ pg_addresses d.
Proof. intros Hs. unfold pg_addresses. do 2 apply elem_of_union_l. apply elem_of_union_r, elem_of_dom. by exists x. Qed.

Lemma address_null d : NULL ∈ pg_addresses d.
Proof. unfold pg_addresses. set_solver. Qed.

Lemma pg_open_law dsn d : sane d → ∃ r c d',
  pg_open L dsn d = Some ((r, c), d') ∧ sane d' ∧ v_stmts pg_view d' = v_stmts pg_view d ∧
  if res_ok r then c ≠ NULL ∧ (c ∉ v_conns pg_view d) ∧ v_conns pg_view d' = {[c]} ∪ v_conns pg_view d ∧
    v_stmts_of pg_view c d' = ∅
  else v_conns pg_view d' = v_conns pg_view d.
Proof.
  intros Hsane. destruct (pg_open_run L dsn d) as (r & c & d' & E & Es & Hr). exists r, c, d'. split; [done|].
  destruct (res_ok r).
  - destruct Hr as (Hf & conn & Ec & El).
    assert (pg_ctxs d !! c = None) as Hc.
    { destruct (pg_ctxs d !! c) as [x|] eqn:Hx; [|done]. destruct Hf. by eapply address_ctx. }
    assert (sane d') as Hsane'.
    { destruct Hsane as [Hw Hl]. split; [by rewrite Es|]. rewrite El, Hl. unfold owned, conn_map.
      rewrite Es, Ec, fmap_insert, lsum_insert by (by rewrite lookup_fmap, Hc). apply ledger_eq; simpl; lia. }
    assert (∀ q, q ≠ c → online L d' q ↔ online L d q) as Ho.
    { intros q Hq. unfold online. by rewrite Ec, lookup_insert_ne. }
    assert (∀ q s, pg_stmts d !! q = Some s → ps_ctx s ≠ c) as Hne.
    { intros q s Hs <-. apply Hf. by eapply address_stmt. }
    split_and!; [done| | | | |].
    + apply set_eq. intros q. rewrite !pg_stmts_elem, Es.
      split; intros (s & Hs & Hn & Hw & Hon); exists s; (split_and!; [done..|]); by eapply Ho; [eapply Hne|].
    + intros ->. apply Hf, address_null.
    + intros (_ & _ & (x & ? & Hx & _))%pg_conns_elem. by eapply Hf, address_ctx.
    + apply set_eq. intros q. rewrite elem_of_union, elem_of_singleton, !pg_conns_elem.
      destruct (decide (q = c)) as [->|Hq]; [|rewrite Ho by done; naive_solver].
      split; [auto|]. intros _. split; [intros ->; by apply Hf, address_null|]. split; [done|].
      eexists _, conn. rewrite Ec, lookup_insert_eq. done.
    + apply set_eq. intros q. rewrite pg_stmts_of_elem, Es. split; [|set_solver].
      intros (s & Hs & _ & _ & _ & E'). by destruct (Hne q s Hs).
  - destruct Hr as (Ec & El).
    assert (unmoved L d d') as Hu by (split_and!; [done|by unfold conn_map; rewrite Ec|done]).
    destruct (unmoved_view d d' Hsane Hu) as (? & ? & _). split_and!; try done. by eapply sane_unmoved.
Qed.

Lemma pg_close_law c d : c ∈ v_conns pg_view d → ∃ r d',
  pg_close L c d = Some (r, d') ∧ sane d' ∧ v_conns pg_view d' = v_conns pg_view d ∖ {[c]} ∧
  v_stmts pg_view d' ⊆ v_stmts pg_view d ∧ v_stmts pg_view d ∖ v_stmts_of pg_view c d ⊆ v_stmts pg_view d'.
Proof.
  intros (Hn & Hsane & (x & conn & Hx & Hc))%pg_conns_elem.
  destruct (pg_close_run L c x d Hx Hn) as (d' & E & Es & Ec & El). exists SQL_RDB_OK, d'. split; [done|].
  assert (sane d') as Hsane'.
  { destruct Hsane as [Hw Hl]. split; [by rewrite Es|]. rewrite El, Hl. unfold owned, conn_map.
    rewrite Es, Ec, fmap_delete. rewrite (lsum_delete _ (pc_conn <$> pg_ctxs d) c (pc_conn x)) by (by rewrite lookup_fmap, Hx).
    apply ledger_eq; simpl; lia. }
  assert (∀ q, online L d' q ↔ q ≠ c ∧ online L d q) as Ho.
  { intros q. unfold online. rewrite Ec. destruct (decide (q = c)) as [->|].
    - rewrite lookup_delete_eq. naive_solver.
    - rewrite lookup_delete_ne by done. naive_solver. }
  split_and!; [done| | |].
  - apply set_eq. intros q. rewrite elem_of_difference, elem_of_singleton, !pg_conns_elem, Ho. naive_solver.
  - intros q. rewrite !pg_stmts_elem, Es. setoid_rewrite Ho. naive_solver.
  - intros q. rewrite elem_of_difference, !pg_stmts_elem, pg_stmts_of_elem, Es. setoid_rewrite Ho.
    intros [(s & Hs & Hq & Hw & Hon) Hnot]. exists s. split_and!; try done. intros Heq. apply Hnot. by exists s.
Qed.

Lemma pg_prepare_law c sql d :
  c ∈ v_conns pg_view d → sql_text C2SQL_DIALECT_POSTGRES sql → ∃ r p d',
  pg_prepare L c sql d = Some ((r, p), d') ∧
  if res_ok r then p ≠ NULL ∧ (p ∉ v_stmts pg_view d) ∧ v_stmts pg_view d' = {[p]} ∪ v_stmts pg_view d ∧
    still_but pg_view p d d'
  else v_stmts pg_view d' = v_stmts pg_view d ∧ still pg_view d d'.
Proof.
  intros (Hn & Hsane & Hc)%pg_conns_elem [_ Hsql]. specialize (Hsql eq_refl).
  destruct (pg_prepare_run L c sql d Hsql) as (r & p & d' & E & Ec & Hr). exists r, p, d'.
  assert (conn_map L d' = conn_map L d) as Hm by (unfold conn_map; by rewrite Ec).
  split; [done|]. destruct (res_ok r).
  - destruct Hr as (Hf & n & Hcnt & Es & El).
    assert (pg_stmts d !! p = None) as Hp0.
    { destruct (pg_stmts d !! p) as [x|] eqn:Hx; [|done]. destruct Hf. by eapply address_stmt. }
    assert (sane d') as Hsane'.
    { pose proof (new_stmt_wf L c sql n (pg_count_nonneg _ _ Hcnt)). destruct Hsane as [Hw Hl]. split.
      - rewrite Es. by apply map_Forall_insert_2.
      - rewrite El, Hl. unfold owned. rewrite Hm, Es, lsum_insert by done. apply ledger_eq; simpl; lia. }
    assert (p ≠ NULL) as Hp by (intros ->; by apply Hf, address_null).
    split; [done|]. split; [|split; [|split; [by apply conns_same|]]].
    + intros (s & Hs & _)%pg_stmts_elem. by eapply Hf, address_stmt.
    + apply set_eq. intros q. rewrite elem_of_union, elem_of_singleton, !pg_stmts_elem, Es.
      destruct (decide (q = p)) as [->|].
      * rewrite lookup_insert_eq. split; [auto|]. intros _. eexists. split; [done|]. split_and!; [done|done|].
        by apply (online_same d d').
      * rewrite lookup_insert_ne by done. setoid_rewrite (online_same d d' _ Hm). naive_solver.
    + intros c'. apply set_eq. intros q. rewrite !elem_of_difference, elem_of_singleton, !pg_stmts_of_elem, Es.
      destruct (decide (q = p)) as [->|]; [tauto|].
      rewrite lookup_insert_ne by done. setoid_rewrite (online_same d d' _ Hm). naive_solver.
  - destruct Hr as (_ & _ & Es & El). assert (unmoved L d d') as Hu by done. by apply unmoved_view.
Qed.

Lemma pg_finalize_law p d : p ∈ v_stmts pg_view d → ∃ r d',
  pg_finalize L p d = Some (r, d') ∧ v_stmts pg_view d' = v_stmts pg_view d ∖ {[p]} ∧ calm pg_view d d' ∧
    still_but pg_view p d d'.
Proof.
  intros (s & Hs & Hn & Hsane & Ho)%pg_stmts_elem. pose proof (sane_wf d p s Hsane Hs) as Hw.
  destruct (pg_finalize_run L p s d Hs Hw Hn) as (d' & E & Es & Ec & El). exists SQL_RDB_OK, d'. split; [done|].
  assert (conn_map L d' = conn_map L d) as Hm by (unfold conn_map; by rewrite Ec).
  assert (sane d') as Hsane'.
  { destruct Hsane as [Hws Hl]. split; [rewrite Es; by apply map_Forall_delete|].
    rewrite El, Hl. unfold owned. rewrite Hm, Es, (lsum_delete _ _ _ _ Hs). apply ledger_eq; simpl; lia. }
  assert (∀ q t, pg_stmts d' !! q = Some t ↔ q ≠ p ∧ pg_stmts d !! q = Some t) as Hl.
  { intros q t. rewrite Es. rewrite lookup_delete_Some. naive_solver. }
  split; [|split; (split; [by apply conns_same|])].
  - apply set_eq. intros q. rewrite elem_of_difference, elem_of_singleton, !pg_stmts_elem.
    setoid_rewrite Hl. setoid_rewrite (online_same d d' _ Hm). naive_solver.
  - intros c q. rewrite !pg_stmts_of_elem. setoid_rewrite Hl. setoid_rewrite (online_same d d' _ Hm). naive_solver.
  - intros c. apply set_eq. intros q. rewrite !elem_of_difference, elem_of_singleton, !pg_stmts_of_elem.
    setoid_rewrite Hl. setoid_rewrite (online_same d d' _ Hm). naive_solver.
Qed.

Lemma pg_text_law p i d : p ∈ v_stmts pg_view d → ∃ r q n d',
  pg_column_text L p i d = Some ((r, (q, n)), d') ∧ v_stmts pg_view d' = v_stmts pg_view d ∧
  still pg_view d d' ∧ buffer_ok q n.
Proof.
  intros Hp. destruct (acts_run _ _ _ _ (column_text_acts L p i) Hp) as (a & s & s' & d' & E & Hv & Hc & _ & _ & -> & _).
  eexists _, _, _, d'. split; [done|]. split; [done|]. split; [done|]. split; [apply size_t_range|].
  intros bs Hb. rewrite size_t_small by apply pq_length. by rewrite (pq_length_value _ _ _ _ Hb).
Qed.

Lemma pg_blob_law p i d : p ∈ v_stmts pg_view d → ∃ r q n d',
  pg_column_blob L p i d = Some ((r, (q, n)), d') ∧ v_stmts pg_view d' = v_stmts pg_view d ∧
  still pg_view d d' ∧ buffer_ok q n.
Proof.
  intros Hp. destruct (acts_run _ _ _ _ (column_blob_acts L p i) Hp) as ([r [q n]] & s & s' & d' & E & Hv & Hc & _ & _ & Hb).
  exists r, q, n, d'. split; [done|]. split; [done|]. split; [done|].
  unfold blob_read in Hb. destruct (cell_null L s i); [|destruct (PQunescapeBytea _ _ _).1].
  all: destruct Hb as [[= -> -> ->] _]; split; [lia|]; intros bs [= <-]; lia.
Qed.

#[global] Instance pg_driver_laws : DriverLaws (g_postgres_driver L F).
Proof.
  refine {| view := pg_view |}; simpl; intros.
  - by apply pg_prepare_law.
  - by apply pg_finalize_law.
  - by eapply acts_keeps; [apply bind_int64_acts|].
  - by eapply acts_keeps; [apply bind_int32_acts|].
  - by eapply acts_keeps; [by apply bind_real_acts|].
  - by eapply acts_keeps; [apply bind_text_acts|].
  - by eapply acts_keeps; [apply bind_blob_acts|].
  - by eapply acts_keeps; [apply bind_null_acts|].
  - by eapply acts_keeps; [by apply step_acts|].
  - by eapply acts_keeps; [by apply column_acts|].
  - by eapply acts_keeps; [by apply column_acts|].
  - by eapply acts_keeps; [by apply column_acts|].
  - by apply pg_text_law.
  - by apply pg_blob_law.
  - by eapply acts_keeps; [apply column_isnull_acts|].
  - by eapply acts_keeps; [apply reset_acts|].
  - by apply exec_keeps.
  - by apply exec_keeps.
  - by apply exec_keeps.
  - by apply exec_keeps.
  - by apply exec_keeps.
  - by apply exec_keeps.
  - by apply exec_keeps.
  - by apply changes_keeps.
Defined.

#[global] Instance pg_conn_laws : ConnLaws (g_postgres_driver L F).
Proof.
  constructor; simpl; intros; [by apply pg_conns_elem in H as (_ & ? & _)|by apply pg_open_law|by apply pg_close_law].
Qed.

(** ** A result set is finite

    The rows still to come are those after the cursor; before the statement is
    executed, as many as an int can count. *)

Definition PG_ROWS : Z := 2 ^ 32.

Definition rows_after s : Z :=
  if ps_executed s then if ps_row s <? ps_nrows s then ps_nrows s - ps_row s else 0 else PG_ROWS.

Definition pg_rows_left (p : ptr) d : nat :=
  match pg_stmts d !! p with Some s => Z.to_nat (rows_after s) | None => 0 end%nat.

Lemma rows_after_bound s : stmt_wf L s → 0 ≤ rows_after s ≤ PG_ROWS.
Proof.
  intros []. unfold rows_after, PG_ROWS, INT_MAX in *.
  destruct (ps_executed s); [|lia]. destruct (Z.ltb_spec (ps_row s) (ps_nrows s)); lia.
Qed.

(** A step that returns a row uses one up. *)
Lemma stepped_rows d s r s' : stmt_wf L s → stepped L d s (r, Some true) s' → 0 ≤ rows_after s' < rows_after s.
Proof.
  intros Hw. pose proof (swf_row L s Hw) as Hr. pose proof (swf_nrows L s Hw) as Hn. unfold stepped, rows_after.
  destruct (ps_executed s) eqn:Ex.
  - destruct (INT_MAX <=? ps_row s); [by intros [? _]|]. intros [[= _ Hlt] ->]. simpl. rewrite <-Hlt.
    symmetry in Hlt. apply Z.ltb_lt in Hlt. rewrite (proj2 (Z.ltb_lt (ps_row s) _)); lia.
  - destruct (answer L d s) as [res|]; [|by intros [? _]]. intros [[= _ Hlt] ->]. simpl. rewrite <-Hlt.
    pose proof (pq_ntuples res). symmetry in Hlt. apply Z.ltb_lt in Hlt. unfold PG_ROWS, INT_MAX in *. lia.
Qed.

Lemma value_silent {A} p i (z : A) f d a d' : pg_value L p i z f d = Some (a, d') → d' = d.
Proof.
  unfold pg_value, pg_stmt, mbind, M_bind, mget, mdef. destruct (pg_stmts d !! p) as [s|]; [|done].
  destruct (_ =? 0); [|by intros [= _ <-]]. destruct (PQgetvalue _ _ _ _); [by intros [= _ <-]|done].
Qed.

#[global] Instance pg_driver_finite : FiniteRows (g_postgres_driver L F) (Z.to_nat PG_ROWS).
Proof.
  refine {| rows_left := pg_rows_left |}; simpl.
  - intros p d (s & Hs & _ & Hsn & _)%pg_stmts_elem. pose proof (sane_wf d p s Hsn Hs) as Hw.
    unfold pg_rows_left. rewrite Hs.
    apply Z2Nat.inj_le; apply rows_after_bound in Hw; unfold PG_ROWS in *; lia.
  - intros p d r d' Hp E _. pose proof (proj1 (pg_stmts_elem d p) Hp) as (s & Hs & _ & Hsn & _).
    pose proof (sane_wf d p s Hsn Hs) as Hw.
    destruct (acts_run _ _ _ _ (step_acts L p) Hp) as (a & s0 & s' & d0 & E' & _ & _ & Hs0 & Hs' & Hq).
    rewrite E in E'. injection E' as <- <-. rewrite Hs in Hs0. injection Hs0 as <-.
    unfold pg_rows_left. rewrite Hs, Hs'. apply stepped_rows in Hq; [|done]. apply Z2Nat.inj_lt; lia.
  - intros p i d x d' E. unfold pg_column_text, pg_stmt, mbind, M_bind, mget, mdef in E.
    destruct (pg_stmts d !! p); [|done]. by injection E as _ <-.
  - intros p i d x d' (a & d1 & E1%value_silent & E2)%bind_Some. subst d1. by injection E2 as _ <-.
Defined.
End laws.
