(* ===== verification/PostgresTheorems.v ===== *)
(** * What holds of the library on PostgreSQL

    The theorems on src/postgres_driver.c: the books of the driver under any
    use of the library, the values a statement sends, the rows it returns, the
    parameters of the statements the query builder writes, and the boundary of
    a blob's length. *)

From Stdlib Require Import String Strings.Byte Strings.Ascii.
From S2P Require Import Prelude PgText Types Driver StmtCacheSpec StmtCacheProofs StmtCacheTheorems Condition.
From S2P Require Import QueryBuilder QueryBuilderProofs Registry RegistryProofs PgParams Handle Api ApiProofs.
From S2P Require Import ApiSafety ApiTheorems PostgresDriver PostgresProofs PostgresLaws.

(** ** A server for the examples

    Every statement returns one row: its parameters as it received them. *)

Definition wire (fmt len : Z) (v : list byte) : list byte :=
  if fmt =? 0 then cstring v else take (Z.to_nat len) v.

Definition wires (values : list (option (list byte))) (lengths formats : list Z) : list (option (list byte)) :=
  zip_with (λ v '(l, f), wire f l <$> v) values (zip lengths formats).

Definition echo_cell (res : option (list (option (list byte)))) (row i : Z) : option (list byte) :=
  r ← res;
  if row =? 0 then v ← aget r i; v ← v; if Z.of_nat (length v) <=? INT_MAX then Some v else None else None.

Definition echo : Libpq unit := {|
  PGconn := unit;
  PGresult := list (option (list byte));
  PQconnectdb _ w := (Some tt, w);
  PQstatus _ _ := CONNECTION_OK;
  PQfinish _ w := w;
  PQsetNoticeProcessor _ _ w := w;
  PQexec _ _ w := (Some [], w);
  PQexecParams _ _ _ _ values lengths formats _ w := (Some (wires values (default [] lengths) (default [] formats)), w);
  PQresultStatus _ := PGRES_TUPLES_OK;
  PQcmdTuples _ := Some "1"%string;
  PQntuples _ := 1;
  PQgetisnull res row i := match echo_cell res row i with Some _ => 0 | None => 1 end;
  PQgetvalue := echo_cell;
  PQgetlength res row i := match echo_cell res row i with Some v => Z.of_nat (length v) | None => 0 end;
  PQunescapeBytea v w := (Some v, w);
|}.

Lemma echo_cell_length res row i v : echo_cell res row i = Some v → Z.of_nat (length v) ≤ INT_MAX.
Proof.
  unfold echo_cell. destruct res as [r|]; [|done]. simpl. destruct (row =? 0); [|done].
  destruct (aget r i) as [[u|]|]; simpl; try done. destruct (Z.leb_spec (Z.of_nat (length u)) INT_MAX); [|done].
  by intros [= <-].
Qed.

#[global] Instance echo_laws : LibpqLaws echo.
Proof.
  split; simpl.
  - done.
  - intros res row i. by destruct (echo_cell res row i).
  - intros res row i. pose proof (echo_cell_length res row i) as H. destruct (echo_cell res row i) as [v|]; [|done].
    specialize (H v eq_refl). unfold INT_MAX, SIZE_MOD in *. lia.
  - intros res row i v E. by rewrite E.
Defined.

(** Doubles are printed as 0. *)
Definition zero_text : FloatText := MkFloatText (λ _, "0"%string) (λ _, 0).
#[global] Instance zero_text_laws : FloatTextLaws zero_text.
Proof. split. by intros v. Defined.

(** One connection, no statement. *)
Definition echo_pg : Pg echo := MkPg tt {[1%N := MkPgCtx (L := echo) (Some tt) 0]} ∅ (MkLedger 1 0 0 1) [] false.

(** ** The books *)

Section pg.
Context {W : Type} (L : Libpq W) (F : FloatText) `{!LibpqLaws L, !FloatTextLaws F}.
Implicit Types (s : PgStmt L) (d : Pg L).

(** What the driver holds is what its statements and connections own. *)
Definition balanced d : Prop := sane L nothing d.

Lemma balanced_ledger d : balanced d → pg_ledger d = owned L d.
Proof. intros [_ ->]. apply ledger_eq; simpl; lia. Qed.

(** [exec] and its invariant on this driver. *)
Abbreviation drv := (g_postgres_driver L F).
#[local] Instance books : DriverLaws drv := pg_driver_laws L F nothing.

Lemma pg_blob_present : blob_present drv.
Proof.
  intros p d r q n d'. simpl. unfold pg_column_blob.
  intros (s & d1 & _ & (_ & d2 & _ & (_ & d3 & _ & H)%bind_Some)%bind_Some)%bind_Some.
  destruct (_ =? 0); [|injection H as _ <- <- _; lia].
  apply bind_Some in H as (v & d4 & _ & ([b|] & d5 & _ & H)%bind_Some); [|injection H as _ <- <- _; lia].
  apply bind_Some in H as (_ & d6 & _ & (_ & d7 & _ & H)%bind_Some). by injection H as _ <- _ _.
Qed.

(** ** What a statement sends *)

(** The parameter [i] as the server receives it: type, format and value. *)
Definition param s (i : nat) : option (Z * Z * option (list byte)) :=
  match ps_values s !! i, ps_lengths s !! i, ps_formats s !! i, ps_types s !! i with
  | Some v, Some l, Some f, Some t => Some (t, f, wire f l <$> v)
  | _, _, _, _ => None
  end.

(** A value of the type mapping, bound by the function the driver has for it. *)
Definition bind_cell (p : ptr) (i : Z) (c : Cell) : M (Pg L) SqlRDBResult :=
  match c with
  | CNull => pg_bind_null L p i
  | CInt v => pg_bind_int64 L p i v
  | CReal v => pg_bind_real L F p i v
  | CText t => pg_bind_text L p i (Some t) (Z.of_nat (length t))
  | CBlob t => pg_bind_blob L p i (Some t) (Z.of_nat (length t))
  end.

Fixpoint bind_cells (p : ptr) (i : Z) (cells : list Cell) : M (Pg L) SqlRDBResult :=
  match cells with
  | [] => mret SQL_RDB_OK
  | c :: cells =>
      r ← bind_cell p i c;
      if negb (res_ok r) then mret r else bind_cells p (i + 1) cells
  end.

(** Text for the server to read as the type it infers; a blob as bytes of the
    type bytea. *)
Definition encode (c : Cell) : Z * Z * option (list byte) :=
  match c with
  | CNull => (0, 0, None)
  | CInt v => (0, 0, Some (list_byte_of_string (dec v)))
  | CReal v => (0, 0, Some (cstring (list_byte_of_string (fmt_g17 F v))))
  | CText t => (0, 0, Some (cstring t))
  | CBlob t => (C2SQL_PG_BYTEAOID, 1, Some t)
  end.

Definition cell_ok (c : Cell) : Prop :=
  match c with
  | CInt v => LLONG_MIN ≤ v ≤ LLONG_MAX
  | CText t | CBlob t => Z.of_nat (length t) ≤ INT_MAX
  | _ => True
  end.

Lemma cstring_nul l : cstring (l ++ [x00]) = cstring l.
Proof. induction l as [|b l IH]; [done|]. simpl. destruct (Byte.eqb b x00); [done|]. by rewrite IH. Qed.

Lemma isdigit_not_nul c : isdigit c = true → Byte.eqb (byte_of_ascii c) x00 = false.
Proof.
  intros Hc. destruct (Byte.eqb (byte_of_ascii c) x00) eqn:E; [|done]. apply Byte.byte_dec_bl in E.
  rewrite <-(ascii_of_byte_of_ascii c), E in Hc. by vm_compute in Hc.
Qed.

Lemma cstring_digits ds : all_digits ds = true → cstring (list_byte_of_string ds) = list_byte_of_string ds.
Proof.
  induction ds as [|c ds IH]; [done|]. cbn [all_digits]. intros [Hc Hds]%andb_true_iff.
  change (list_byte_of_string (String c ds)) with (byte_of_ascii c :: list_byte_of_string ds). cbn [cstring].
  by rewrite isdigit_not_nul, IH by done.
Qed.

Lemma cstring_dec v : LLONG_MIN ≤ v ≤ LLONG_MAX → cstring (list_byte_of_string (dec v)) = list_byte_of_string (dec v).
Proof.
  unfold LLONG_MIN, LLONG_MAX. intros Hv. unfold dec.
  assert (∀ n, 0 ≤ n ≤ 2 ^ 63 → all_digits (dec_loop 20 n EmptyString) = true) as H.
  { intros n Hn. destruct (dec_loop_digits 20 n EmptyString) as (ds & -> & Hall & _); [|lia|by rewrite sapp_nil_r].
    change (10 ^ Z.of_nat 20) with (10 ^ 20). lia. }
  destruct (Z.ltb_spec v 0).
  - assert (∀ t, list_byte_of_string (String "-" t) = x2d :: list_byte_of_string t) as -> by done.
    cbn [cstring]. rewrite cstring_digits by (apply H; lia). done.
  - apply cstring_digits, H. lia.
Qed.

(** Each of the functions binds one slot so that the server reads [encode c]. *)
Lemma bind_cell_acts p i c :
  cell_ok c → ∃ f o val, acts L p (bind_cell p i c) (bound L i f o val) ∧
    encode c = (o, f, (λ '(buf, len), wire f len buf) <$> val).
Proof.
  intros Hc. destruct c as [|v|v|t|t]; cbn [bind_cell encode cell_ok] in *.
  - eexists _, _, _. split; [apply bind_null_acts|done].
  - eexists _, _, _. split; [apply bind_int64_acts|].
    rewrite to_signed_llong by done. simpl. unfold wire, cbytes. simpl. by rewrite cstring_nul, cstring_dec.
  - eexists _, _, _. split; [by apply bind_real_acts|]. simpl. unfold wire, cbytes. simpl. by rewrite cstring_nul.
  - eexists _, _, _. split; [apply bind_text_acts; intros ? [= <-]; lia|].
    simpl. unfold wire, text_len. rewrite (proj2 (Z.ltb_ge _ _)) by lia. rewrite Nat2Z.id, firstn_all. simpl.
    by rewrite cstring_nul.
  - eexists _, _, _. split; [apply bind_blob_acts; [lia|intros ? [= <-]; lia]|].
    simpl. unfold wire. simpl. by rewrite Nat2Z.id, !firstn_all.
Qed.

(** What was bound is what is sent; the other parameters are as they were. *)
Lemma bound_param i f o val d s r s' :
  stmt_wf L s → (i < Z.to_nat (ps_nparams s))%nat → bound L (Z.of_nat i + 1) f o val d s r s' →
  (r = SQL_RDB_OK ∨ r = SQL_RDB_ERR_NO_MEMORY) ∧ ((malloc_ok (pg_alloc d)).1 = true → r = SQL_RDB_OK) ∧
  ps_nparams s' = ps_nparams s ∧ (∀ j, j ≠ i → param s' j = param s j) ∧
  (r = SQL_RDB_OK → param s' i = Some (o, f, (λ '(buf, len), wire f len buf) <$> val)).
Proof.
  intros Hw Hi. unfold bound. rewrite (proj2 (Z.ltb_ge _ _)), (proj2 (Z.ltb_ge _ _)) by lia. cbn [orb]. cbv zeta.
  rewrite Z.add_simpl_r, Nat2Z.id.
  assert ((i < length (ps_values s))%nat ∧ (i < length (ps_lengths s))%nat ∧ (i < length (ps_formats s))%nat ∧
    (i < length (ps_types s))%nat) as (? & ? & ? & ?)
    by (rewrite swf_values, swf_lengths, swf_formats, swf_types by done; done).
  destruct val as [[buf len]|]; [destruct (malloc_ok (pg_alloc d)).1|]; intros [-> ->]; split_and!; try done; auto.
  all: try (intros j Hj; unfold param; simpl; by rewrite !list_lookup_insert_ne by done).
  all: intros _; unfold param; simpl; rewrite !list_lookup_insert_eq by (rewrite ?length_insert; done); done.
Qed.

Lemma usable_moved p s s' d d' :
  usable L d s → moved L p s s' d d' → stmt_wf L s' → ps_ctx s' = ps_ctx s → usable L d' s'.
Proof.
  intros [_ Ho] (_ & Ec & _) Hw Hc. split; [done|]. rewrite Hc. by apply (online_same L d d').
Qed.

(** *** Without failures ahead, there are none *)

Definition lucky {A} (m : M (Pg L) A) : Prop := ∀ d a d', m d = Some (a, d') → pg_alloc d = [] → pg_alloc d' = [].

Lemma lucky_bind {A B} (m : M (Pg L) A) (k : A → M (Pg L) B) : lucky m → (∀ a, lucky (k a)) → lucky (m ≫= k).
Proof. intros Hm Hk d b d' (a & d1 & E1 & E2)%bind_Some Hd. eapply Hk; [done|]. by eapply Hm. Qed.

Lemma lucky_silent {A} (m : M (Pg L) A) : silent pg_alloc m → lucky m.
Proof. intros Hm d a d' E Hd. by rewrite (Hm _ _ _ E). Qed.

Lemma lucky_malloc : lucky (pg_malloc L).
Proof.
  unfold lucky, pg_malloc, zoom, malloc, book, mmodify, mbind, M_bind. simpl.
  intros d a d' E Hd. rewrite Hd in E. simpl in E. by injection E as _ <-.
Qed.

Lemma silent_modify {B} (g : Pg L → B) f : (∀ d, g (f d) = g d) → silent g (mmodify f).
Proof. intros H d a d' [= _ <-]. apply H. Qed.

Lemma silent_stmt p : silent pg_alloc (pg_stmt L p).
Proof. unfold pg_stmt. apply silent_bind; [|intros ?; apply silent_def]. by intros d a d' [= _ <-]. Qed.

Lemma silent_slot s i f o : silent pg_alloc (clear_slot L s i f o).
Proof.
  unfold clear_slot. silence; unfold pg_free, book; by apply silent_modify.
Qed.

Lemma silent_fill s i b n : silent pg_alloc (fill_slot L s i b n).
Proof. unfold fill_slot. silence. Qed.

Lemma silent_put p s : silent pg_alloc (put_stmt L p s).
Proof. by apply silent_modify. Qed.

Lemma lucky_store p i data len f o : lucky (store_param L p i data len f o).
Proof.
  unfold store_param. apply lucky_bind; [apply lucky_silent, silent_stmt|]. intros s.
  destruct (_ || _); [apply lucky_silent, silent_ret|]. cbv zeta.
  apply lucky_bind; [apply lucky_silent, silent_slot|]. intros s'.
  apply lucky_bind; [apply lucky_silent, silent_put|]. intros _.
  destruct data; [|apply lucky_silent, silent_ret]. apply lucky_bind; [apply lucky_malloc|]. intros ok.
  apply lucky_silent. destruct ok; cbn [negb]; silence; first [apply silent_fill|apply silent_put].
Qed.

Lemma lucky_text p i v len : lucky (pg_bind_text L p i v len).
Proof.
  unfold pg_bind_text. apply lucky_bind; [apply lucky_silent, silent_stmt|]. intros s.
  destruct (_ || _); [apply lucky_silent, silent_ret|]. cbv zeta.
  apply lucky_bind; [apply lucky_silent, silent_slot|]. intros s'.
  apply lucky_bind; [apply lucky_silent, silent_put|]. intros _.
  destruct v; [|apply lucky_silent, silent_ret]. apply lucky_bind; [apply lucky_malloc|]. intros ok.
  apply lucky_silent. destruct ok; cbn [negb]; silence; first [apply silent_fill|apply silent_put].
Qed.

Lemma lucky_cell p i c : lucky (bind_cell p i c).
Proof. destruct c; try apply lucky_store; apply lucky_text. Qed.

(** *** Binding a row *)

Lemma bind_cells_run p cells k d s :
  pg_stmts d !! p = Some s → usable L d s → Forall cell_ok cells →
  ps_nparams s = Z.of_nat (k + length cells) →
  ∃ r s' d', bind_cells p (Z.of_nat k + 1) cells d = Some (r, d') ∧ pg_stmts d' !! p = Some s' ∧ usable L d' s' ∧
    (r = SQL_RDB_OK ∨ r = SQL_RDB_ERR_NO_MEMORY) ∧ (pg_alloc d = [] → r = SQL_RDB_OK) ∧
    ps_nparams s' = ps_nparams s ∧
    (∀ i, (i < k)%nat → param s' i = param s i) ∧
    (r = SQL_RDB_OK → ∀ i c, cells !! i = Some c → param s' (k + i) = Some (encode c)).
Proof.
  revert k d s. induction cells as [|c cells IH]; intros k d s Hs Hu Hok Hn; cbn [bind_cells].
  { exists SQL_RDB_OK, s, d. split_and!; try done; auto. }
  apply Forall_cons in Hok as [Hc Hok]. cbn [length] in Hn.
  destruct (bind_cell_acts p (Z.of_nat k + 1) c Hc) as (f & o & val & Ha & He).
  destruct (Ha d s Hs Hu) as (r & s1 & d1 & E & Hm & Hw1 & Hctx & Hb).
  destruct (bound_param k f o val d s r s1) as (Hr & Hlk & Hn1 & Hj & Hp); [apply Hu|lia|done|].
  rewrite (bind_run _ _ _ _ _ E). assert (pg_stmts d1 !! p = Some s1) as Hs1
    by (destruct Hm as (-> & _); apply lookup_insert_eq).
  pose proof (usable_moved _ _ _ _ _ Hu Hm Hw1 Hctx) as Hu1.
  destruct (res_ok r) eqn:Er; cbn [negb].
  - replace (Z.of_nat k + 1 + 1) with (Z.of_nat (S k) + 1) by lia.
    destruct (IH (S k) d1 s1 Hs1 Hu1 Hok) as (r' & s' & d' & E' & Hs' & Hu' & Hr' & Hl' & Hn' & Hlo & Hhi); [lia|].
    exists r', s', d'. split_and!; try done.
    + intros Hal. apply Hl'. by eapply lucky_cell.
    + congruence.
    + intros i Hi. rewrite Hlo, Hj by lia. done.
    + intros Hok' [|i] c' Hi; simpl in Hi.
      * injection Hi as <-. rewrite Nat.add_0_r, Hlo by lia. rewrite He. apply Hp. by apply res_ok_true.
      * replace (k + S i)%nat with (S k + i)%nat by lia. by apply Hhi.
  - exists r, s1, d1. split_and!; try done.
    + intros Hal. apply Hlk. by rewrite Hal.
    + intros i Hi. apply Hj. lia.
    + intros ->. done.
Qed.

(** ** The rows of a result *)

Fixpoint pg_steps (p : ptr) (n : nat) : M (Pg L) (list (SqlRDBResult * option bool)) :=
  match n with
  | O => mret []
  | S n => xs ← pg_steps p n; x ← pg_step L p; mret (xs ++ [x])
  end.

(** [m] steps have been made over a result of [n] rows. *)
Definition fetched (n m : nat) : list (SqlRDBResult * option bool) :=
  (λ i, (SQL_RDB_OK, Some (bool_decide (i < n)%nat))) <$> seq 0 m.

Lemma ltb_nat a b : (Z.of_nat a <? Z.of_nat b) = bool_decide (a < b)%nat.
Proof. case_bool_decide; [apply Z.ltb_lt; lia|apply Z.ltb_ge; lia]. Qed.

(** A step overflows only past the last row number. *)
Lemma step_defined p s d a d' :
  pg_stmts d !! p = Some s → (ps_executed s = true → ps_row s < INT_MAX) →
  pg_step L p d = Some (a, d') → pg_undefined d' = pg_undefined d.
Proof.
  intros Hs Hlt. unfold pg_step. rewrite (bind_run _ _ _ _ _ (pg_stmt_run L _ _ _ Hs)).
  destruct (ps_executed s); cbn [negb]; [rewrite (proj2 (Z.leb_gt _ _)) by auto; by intros [= _ <-]|clear Hlt].
  unfold pg_ctx, pq_result, pq, book, pq_clear, put_stmt, put_ctx, mmodify, mbind, M_bind, mget, mdef.
  destruct (pg_ctxs d !! ps_ctx s) as [x|]; [|done]. destruct (pc_conn x) as [conn|]; [|done]. cbv zeta.
  destruct (PQexecParams _ _ _ _ _ _ _ _ _ _) as [[r|] w]; simpl; [|by intros [= _ <-]].
  destruct (PQresultStatus L r); simpl; by intros [= _ <-].
Qed.

Lemma pg_steps_run p d s res n m :
  pg_stmts d !! p = Some s → usable L d s → ps_executed s = false → answer L d s = Some res →
  PQntuples L res = Z.of_nat n → (m ≤ n)%nat →
  ∃ d', pg_steps p (S m) d = Some (fetched n (S m), d') ∧
    pg_stmts d' !! p = Some (with_result s (Some res) (Z.of_nat n) (Z.of_nat m) true) ∧
    usable L d' (with_result s (Some res) (Z.of_nat n) (Z.of_nat m) true) ∧ pg_undefined d' = pg_undefined d.
Proof.
  intros Hs Hu Hex Hans Hn. pose proof (pq_ntuples res) as Hmax. rewrite Hn in Hmax.
  induction m as [|m IH]; intros Hm.
  - destruct (step_acts L p d s Hs Hu) as (a & s' & d' & E & Hmv & Hw & Hc & Hst).
    unfold stepped in Hst. rewrite Hex, Hans, Hn in Hst. destruct Hst as [-> ->].
    exists d'. cbn [pg_steps]. rewrite (bind_run _ _ _ _ _ eq_refl), (bind_run _ _ _ _ _ E).
    split_and!; [|destruct Hmv as (-> & _); apply lookup_insert_eq|by eapply usable_moved|eapply step_defined; [done|congruence|done]].
    by rewrite (ltb_nat 0 n : (0 <? Z.of_nat n) = _).
  - destruct IH as (d1 & E1 & Hs1 & Hu1 & Hdef); [lia|].
    destruct (step_acts L p d1 _ Hs1 Hu1) as (a & s' & d' & E & Hmv & Hw & Hc & Hst).
    unfold stepped in Hst. simpl in Hst. rewrite (proj2 (Z.leb_gt _ _)) in Hst by lia.
    replace (Z.of_nat m + 1) with (Z.of_nat (S m)) in Hst by lia. destruct Hst as [-> ->].
    exists d'. change (pg_steps p (S (S m))) with (xs ← pg_steps p (S m); x ← pg_step L p; mret (xs ++ [x])).
    rewrite (bind_run _ _ _ _ _ E1), (bind_run _ _ _ _ _ E).
    split_and!; [|destruct Hmv as (-> & _); apply lookup_insert_eq|by eapply usable_moved|].
    2:{ rewrite <-Hdef. eapply step_defined; [done| |done]. simpl. lia. }
    unfold mret, M_ret. do 2 f_equal. unfold fetched. rewrite (seq_S (S m)), fmap_app. f_equal. by rewrite ltb_nat.
Qed.

End pg.

(** ** Examples *)

Abbreviation echo_driver := (g_postgres_driver echo zero_text).

Lemma echo_sane : sane echo nothing echo_pg.
Proof. split; [apply map_Forall_empty|by vm_compute]. Qed.

Lemma echo_online : online echo echo_pg 1%N.
Proof. by exists (MkPgCtx (L := echo) (Some tt) 0), tt. Qed.

(** A handle on the connection, with one struct registered. *)
Definition echo_client := MkClient (MkH ex_handle echo_pg [] 5) [].

Lemma echo_client_inv : @client_inv _ echo_driver (pg_driver_laws echo zero_text nothing) (r_reg ex_r1) echo_client.
Proof.
  split; [constructor|]. split; [constructor|]. split; [|done]. split; [done|]. split; [exact ex_r1_wf|].
  split; [split_and!; try done; intros; simpl in *; lia|].
  exists [], (MkAbs 2 []).
  assert (v_stmts (pg_view echo nothing) echo_pg = ∅) as Hst.
  { apply set_eq. intros p. rewrite pg_stmts_elem. split; [by intros (s & Hs & _)|set_solver]. }
  split_and!; [exact ex_rep|constructor| |set_solver| |].
  - change (v_stmts (pg_view echo nothing) echo_pg = ∅ ∪ ∅). by rewrite Hst, (left_id_L ∅ (∪)).
  - change (NULL ∉ v_stmts (pg_view echo nothing) echo_pg). rewrite Hst. set_solver.
  - apply pg_conns_elem. split_and!; [done|exact echo_sane|exact echo_online].
Qed.

(** A statement with three parameters, prepared and not executed. *)
Definition echo_stmt : PgStmt echo := new_stmt echo 1%N "SELECT $1, $2, $3" 3.
Definition echo_prepared : Pg echo := MkPg tt (pg_ctxs echo_pg) {[2%N := echo_stmt]} (MkLedger 8 0 0 1) [] false.

Lemma echo_usable : usable echo echo_prepared echo_stmt.
Proof. split; [by apply new_stmt_wf|]. exact echo_online. Qed.

(** What is bound comes back. *)
Example ex_echo :
  fst <$> (x ← bind_cells echo zero_text 2%N 1 [CInt (-7); CText [x68; x69]; CBlob [x00; x01]];
   y ← pg_step echo 2%N;
   a ← pg_column_int64 echo 2%N 0;
   b ← pg_column_text echo 2%N 1;
   c ← pg_column_blob echo 2%N 2;
   z ← pg_step echo 2%N;
   mret (x, y, a, b, c, z)) echo_prepared =
  Some (SQL_RDB_OK, (SQL_RDB_OK, Some true), (SQL_RDB_OK, -7), (SQL_RDB_OK, (Some [x68; x69], 2)),
        (SQL_RDB_OK, (Some [x00; x01], 2)), (SQL_RDB_OK, Some false)).
Proof. vm_compute. reflexivity. Qed.

(** Stepped on past the end 2^31 times, a statement overflows its row number. *)
Example ex_step_overflows :
  let d := set_stmts {[2%N := with_result echo_stmt (Some []) 1 INT_MAX true]} echo_prepared in
  pg_undefined ∘ snd <$> pg_step echo 2%N d = Some true.
Proof. vm_compute. reflexivity. Qed.

Definition echo_query : SqlRDBQuerySpec := query echo_driver C2SQL_QB_SELECT ex_raw_e (Some ex_where) None.

Lemma ex_raw_e_ok : schema_ok ex_raw_e.
Proof. by destruct ex_r1_wf as (_ & [Hs _]%Forall_cons & _). Qed.

Lemma echo_query_fits : spec_fits echo_query ex_raw_e.
Proof. apply query_fits; [exact ex_raw_e_ok|done|apply ex_where_fits|done|by intros [?|?]]. Qed.

(** ** Properties *)

(** C8: the library on PostgreSQL.  Take any sequence of calls of the functions
    on rows, transactions and the configuration, with arguments as the header
    asks for and blobs below 2^31 bytes, with any allocation failing and any
    answer of the server.  Either in its course the int row number of a
    statement has overflowed, which takes more than 2^31 steps of it without a
    reset and which C leaves undefined; or every call is defined, the handle
    is quiescent, and the driver's books balance: the heap blocks, PGresults,
    bytea buffers and connections that it obtained and did not give back are
    exactly those that its statements and connections own, so that nothing is
    leaked and nothing is freed twice. *)
Theorem pg_history_balanced {W} (L : Libpq W) (F : FloatText) `{!LibpqLaws L, !FloatTextLaws F} R calls c :
  @client_inv _ (g_postgres_driver L F) (pg_driver_laws L F nothing) R c →
  Forall (call_ok (g_postgres_driver L F) R) calls →
  ∃ c', exec_all (g_postgres_driver L F) calls c = Some (tt, c') ∧
    (pg_undefined (hs_db (cl_state c')) = true ∨
     pg_undefined (hs_db (cl_state c')) = false ∧
     @quiescent _ (g_postgres_driver L F) (pg_driver_laws L F nothing) c' ∧
     pg_ledger (hs_db (cl_state c')) = owned L (hs_db (cl_state c'))).
Proof.
  intros Hc Hcalls. destruct (exec_all_safe _ R calls Hcalls c Hc) as ([] & c' & E & Hc').
  exists c'. split; [done|]. destruct (pg_undefined _); [by left|right].
  split_and!; [done|by eapply client_quiescent|].
  destruct Hc' as (_ & _ & (_ & _ & _ & ps & a & _ & _ & _ & _ & _ & Hcx) & _).
  apply balanced_ledger. by apply pg_conns_elem in Hcx as (_ & ? & _).
Qed.

Lemma pg_history_balanced_witness :
  ∃ c', exec_all echo_driver ex_calls echo_client = Some (tt, c') ∧
    (pg_undefined (hs_db (cl_state c')) = true ∨
     pg_undefined (hs_db (cl_state c')) = false ∧
     @quiescent _ echo_driver (pg_driver_laws echo zero_text nothing) c' ∧
     pg_ledger (hs_db (cl_state c')) = owned echo (hs_db (cl_state c'))).
Proof.
  apply (pg_history_balanced echo zero_text (r_reg ex_r1)).
  - exact echo_client_inv.
  - exact (ex_calls_ok echo_driver).
Defined.

(** C22: what a statement sends.  Binding a row of values to the parameters 1, 2,
    ... of a statement, whatever was bound to them before, is defined and
    returns OK, or NO_MEMORY when an allocation fails; after OK the statement
    sends for each parameter the text of the value (a double to 17 digits), a
    blob as bytes of type bytea, NULL for NULL, and nothing else. *)
Theorem pg_bind_sends {W} (L : Libpq W) (F : FloatText) `{!LibpqLaws L, !FloatTextLaws F} p cells d s :
  pg_stmts d !! p = Some s → usable L d s → Forall cell_ok cells → ps_nparams s = Z.of_nat (length cells) →
  ∃ r s' d', bind_cells L F p 1 cells d = Some (r, d') ∧ pg_stmts d' !! p = Some s' ∧ usable L d' s' ∧
    (r = SQL_RDB_OK ∨ r = SQL_RDB_ERR_NO_MEMORY) ∧ (pg_alloc d = [] → r = SQL_RDB_OK) ∧
    (r = SQL_RDB_OK → ∀ i, param L s' i = encode F <$> cells !! i).
Proof.
  intros Hs Hu Hok Hn. destruct (bind_cells_run L F p cells 0 d s Hs Hu Hok Hn)
    as (r & s' & d' & E & Hs' & Hu' & Hr & Hl & Hn' & _ & Hp).
  exists r, s', d'. split_and!; try done. intros Hr' i. destruct (cells !! i) as [c|] eqn:Ei; [by apply (Hp Hr')|].
  apply lookup_ge_None in Ei. unfold param. rewrite (proj2 (lookup_ge_None _ _)); [done|].
  destruct Hu' as [Hw _]. rewrite swf_values, Hn', Hn by done. lia.
Qed.

Lemma pg_bind_sends_witness :
  ∃ r s' d', bind_cells echo zero_text 2%N 1 [CInt (-7); CNull; CBlob [x00]] echo_prepared = Some (r, d') ∧
    pg_stmts d' !! 2%N = Some s' ∧ usable echo d' s' ∧
    (r = SQL_RDB_OK ∨ r = SQL_RDB_ERR_NO_MEMORY) ∧ (pg_alloc echo_prepared = [] → r = SQL_RDB_OK) ∧
    (r = SQL_RDB_OK → ∀ i, param echo s' i = encode zero_text <$> [CInt (-7); CNull; CBlob [x00]] !! i).
Proof.
  apply (pg_bind_sends echo zero_text 2%N _ echo_prepared echo_stmt).
  - reflexivity.
  - exact echo_usable.
  - repeat constructor; vm_compute; intros [=].
  - reflexivity.
Defined.

(** C28: the rows of a result.  When the server answers a statement with n rows,
    the steps from the first on return n times a row, which is row 0, 1, ...,
    n - 1 of the result, and then report the end: a loop that steps until the
    end makes n + 1 steps and sees each row once, in order; the row number does
    not overflow. *)
Theorem pg_fetch_all {W} (L : Libpq W) `{!LibpqLaws L} p d s res n :
  pg_stmts d !! p = Some s → usable L d s → ps_executed s = false → answer L d s = Some res →
  PQntuples L res = Z.of_nat n →
  (∃ d', pg_steps L p (S n) d = Some (replicate n (SQL_RDB_OK, Some true) ++ [(SQL_RDB_OK, Some false)], d') ∧
    pg_undefined d' = pg_undefined d) ∧
  ∀ m, (m < n)%nat → ∃ d' s', pg_steps L p (S m) d = Some (replicate (S m) (SQL_RDB_OK, Some true), d') ∧
    pg_stmts d' !! p = Some s' ∧ ∀ i, cell_value L s' i = PQgetvalue L (Some res) (Z.of_nat m) i.
Proof.
  intros Hs Hu Hex Hans Hn. assert (∀ k, (k ≤ n)%nat → fetched n k = replicate k (SQL_RDB_OK, Some true)) as Hf.
  { intros k Hk. unfold fetched. apply list_eq. intros i. rewrite list_lookup_fmap.
    destruct (decide (i < k)%nat).
    - rewrite lookup_seq_lt, lookup_replicate_2 by done. simpl. by rewrite bool_decide_true by lia.
    - rewrite (proj2 (lookup_ge_None _ _)), (proj2 (lookup_ge_None (replicate _ _) _)); [done|..];
        rewrite ?length_replicate, ?length_seq; lia. }
  split.
  - destruct (pg_steps_run L p d s res n n Hs Hu Hex Hans Hn ltac:(lia)) as (d' & E & _ & _ & Hdef).
    exists d'. split; [|done]. rewrite E. unfold fetched. rewrite seq_S, fmap_app. fold (fetched n n). rewrite Hf by lia. simpl.
    by rewrite bool_decide_false by lia.
  - intros m Hm. destruct (pg_steps_run L p d s res n m Hs Hu Hex Hans Hn ltac:(lia)) as (d' & E & Hs' & _).
    exists d'. eexists. rewrite E, Hf by lia. done.
Qed.

Lemma pg_fetch_all_witness :
  ∃ d', pg_steps echo 2%N 2 echo_prepared = Some ([(SQL_RDB_OK, Some true); (SQL_RDB_OK, Some false)], d') ∧
    pg_undefined d' = pg_undefined echo_prepared.
Proof.
  refine (proj1 (pg_fetch_all echo 2%N echo_prepared echo_stmt [None; None; None] 1 _ _ _ _ _)).
  - reflexivity.
  - exact echo_usable.
  - reflexivity.
  - reflexivity.
  - reflexivity.
Defined.

(** Integers through the text protocol.  A 64-bit integer that is bound is
    sent as decimal text, and a result cell that holds the text that was sent
    is read back by pg_column_int64 as the same integer. *)
Theorem pg_int64_roundtrip {W} (L : Libpq W) `{!LibpqLaws L} p i v d s :
  pg_stmts d !! p = Some s → usable L d s → (i < Z.to_nat (ps_nparams s))%nat → pg_alloc d = [] →
  LLONG_MIN ≤ v ≤ LLONG_MAX →
  ∃ d' s' w, pg_bind_int64 L p (Z.of_nat i + 1) v d = Some (SQL_RDB_OK, d') ∧ pg_stmts d' !! p = Some s' ∧
    param L s' i = Some (0, 0, Some w) ∧
    ∀ q j e t, pg_stmts e !! q = Some t → usable L e t → cell_null L t j = false → cell_value L t j = Some w →
      ∃ e', pg_column_int64 L q j e = Some ((SQL_RDB_OK, v), e').
Proof.
  intros Hs Hu Hi Hal Hv. pose proof (to_signed_llong v Hv) as E64.
  destruct (bind_int64_acts L p (Z.of_nat i + 1) v d s Hs Hu) as (r & s' & d' & E & Hm & Hw & Hc & Hb).
  destruct (bound_param L i _ _ _ _ _ _ _ (proj1 Hu) Hi Hb) as (_ & Hr & _ & _ & Hp).
  rewrite Hal in Hr. specialize (Hr eq_refl). subst r. specialize (Hp eq_refl). simpl in Hp. rewrite E64 in Hp.
  unfold wire, cbytes in Hp. simpl in Hp. rewrite cstring_nul, cstring_dec in Hp by done.
  exists d', s', (list_byte_of_string (dec v)). split_and!; [done|destruct Hm as (-> & _); apply lookup_insert_eq|done|].
  intros q j e t Ht Hut Hnull Hval.
  destruct (column_acts L q j strtoll e t Ht Hut) as (a & t' & e' & Ee & _ & _ & _ & -> & _).
  exists e'. unfold pg_column_int64. rewrite Ee. unfold cell_read. rewrite Hnull, Hval. simpl.
  by rewrite string_of_list_byte_of_string, strtoll_dec.
Qed.

Lemma pg_int64_roundtrip_witness :
  ∃ d' s' w, pg_bind_int64 echo 2%N 1 LLONG_MIN echo_prepared = Some (SQL_RDB_OK, d') ∧
    pg_stmts d' !! 2%N = Some s' ∧ param echo s' 0 = Some (0, 0, Some w) ∧
    ∀ q j e t, pg_stmts e !! q = Some t → usable echo e t → cell_null echo t j = false → cell_value echo t j = Some w →
      ∃ e', pg_column_int64 echo q j e = Some ((SQL_RDB_OK, LLONG_MIN), e').
Proof.
  apply (pg_int64_roundtrip echo 2%N 0 LLONG_MIN echo_prepared echo_stmt).
  - reflexivity.
  - exact echo_usable.
  - vm_compute. lia.
  - reflexivity.
  - split; vm_compute; intros [=].
Defined.

(** C26: the parameters of a statement.  For every statement that the query
    builder writes for PostgreSQL, preparing it scans the text for exactly the
    number of values that the builder says are to be bound: a value can be
    bound to each parameter from 1 to that number, and every other index is
    refused with INVALID_ARG. *)
Theorem pg_params_match {W} (L : Libpq W) `{!LibpqLaws L} c spec sch d :
  online L d c → spec_fits spec sch → q_dialect spec = C2SQL_DIALECT_POSTGRES → qb_result spec sch = SQL_RDB_OK →
  ∃ r p d', pg_prepare L c (qb_text spec sch) d = Some ((r, p), d') ∧
    (r = SQL_RDB_OK ∨ r = SQL_RDB_ERR_NO_MEMORY) ∧
    (r = SQL_RDB_OK → ∀ i, ∃ r' d'', pg_bind_null L p i d' = Some (r', d'') ∧
       r' = if bool_decide (1 ≤ i ≤ qb_binds spec sch) then SQL_RDB_OK else SQL_RDB_ERR_INVALID_ARG).
Proof.
  intros Hc Hf Hd Hres. pose proof (fits_count spec sch Hf Hd Hres) as Hn.
  destruct (pg_prepare_run L c (qb_text spec sch) d) as (r & p & d' & E & Ec & Hr); [by eexists|].
  exists r, p, d'. split; [done|]. destruct (res_ok r) eqn:Er.
  - apply res_ok_true in Er as ->. split; [auto|]. intros _ i.
    destruct Hr as (_ & n & Hn' & Es & _). rewrite Hn in Hn'. injection Hn' as <-.
    set (s := new_stmt L c _ _) in Es. assert (pg_stmts d' !! p = Some s) as Hs by (rewrite Es; apply lookup_insert_eq).
    assert (usable L d' s) as Hu.
    { split; [by apply new_stmt_wf, pg_count_nonneg with (qb_text spec sch)|]. simpl. rewrite Ec. exact Hc. }
    destruct (bind_null_acts L p i d' s Hs Hu) as (r' & s' & d'' & E' & _ & _ & _ & Hb).
    exists r', d''. split; [done|]. unfold bound, s in Hb. simpl in Hb.
    case_bool_decide; destruct (Z.ltb_spec i 1), (Z.ltb_spec (qb_binds spec sch) i); simpl in Hb; try lia; by destruct Hb.
  - destruct Hr as (-> & _). split; [auto|done].
Qed.

Lemma pg_params_match_witness :
  ∃ r p d', pg_prepare echo 1%N (qb_text echo_query ex_raw_e) echo_pg = Some ((r, p), d') ∧
    (r = SQL_RDB_OK ∨ r = SQL_RDB_ERR_NO_MEMORY) ∧
    (r = SQL_RDB_OK → ∀ i, ∃ r' d'', pg_bind_null echo p i d' = Some (r', d'') ∧
       r' = if bool_decide (1 ≤ i ≤ qb_binds echo_query ex_raw_e) then SQL_RDB_OK else SQL_RDB_ERR_INVALID_ARG).
Proof.
  apply (pg_params_match echo 1%N echo_query ex_raw_e echo_pg).
  - exact echo_online.
  - exact echo_query_fits.
  - reflexivity.
  - reflexivity.
Defined.

(** C39: the length of a blob.  pg_bind_blob converts the length to int.  Up to
    2^31 - 1 the parameter sent is the first bytes of the buffer, as many as the
    length says; from 2^31 to below 2^32 the int is negative, and the call is
    undefined: it copies a negative number of bytes. *)
Theorem pg_bind_blob_bounds {W} (L : Libpq W) `{!LibpqLaws L} p i bs n d s :
  pg_stmts d !! p = Some s → usable L d s → (i < Z.to_nat (ps_nparams s))%nat → pg_alloc d = [] →
  (0 ≤ n ≤ INT_MAX → n ≤ Z.of_nat (length bs) →
    ∃ d' s', pg_bind_blob L p (Z.of_nat i + 1) (Some bs) n d = Some (SQL_RDB_OK, d') ∧
      pg_stmts d' !! p = Some s' ∧ param L s' i = Some (C2SQL_PG_BYTEAOID, 1, Some (take (Z.to_nat n) bs))) ∧
  (2 ^ 31 ≤ n < 2 ^ 32 → pg_bind_blob L p (Z.of_nat i + 1) (Some bs) n d = None).
Proof.
  intros Hs Hu Hi Hal. split.
  - intros Hn Hl. destruct (bind_blob_acts L p (Z.of_nat i + 1) (Some bs) n) with (d := d) (s := s)
      as (r & s' & d' & E & Hm & _ & _ & Hb); [lia|intros ? [= <-]; lia|done|done|].
    destruct (bound_param L i _ _ _ _ _ _ _ (proj1 Hu) Hi Hb) as (_ & Hr & _ & _ & Hp).
    rewrite Hal in Hr. specialize (Hr eq_refl). subst r. exists d', s'.
    split_and!; [done|destruct Hm as (-> & _); apply lookup_insert_eq|]. rewrite Hp by done. simpl.
    unfold wire. simpl. by rewrite take_take, Nat.min_id.
  - intros Hn. unfold pg_bind_blob, store_param. rewrite (bind_run _ _ _ _ _ (pg_stmt_run L _ _ _ Hs)).
    rewrite (proj2 (Z.ltb_ge _ _)), (proj2 (Z.ltb_ge _ _)) by lia. cbn [orb]. cbv zeta. rewrite Z.add_simpl_r.
    destruct (clear_slot_run L s i 1 C2SQL_PG_BYTEAOID d (proj1 Hu) Hi) as (d1 & E1 & H1).
    rewrite (bind_run _ _ _ _ _ E1). erewrite bind_run by done.
    assert (to_signed 32 n < 0) as Hneg.
    { unfold to_signed. cbv zeta. change (2 ^ (32 - 1)) with (2 ^ 31). rewrite Z.mod_small by lia.
      rewrite (proj2 (Z.leb_le _ _)) by lia. lia. }
    unfold memcpy. rewrite (proj2 (Z.leb_gt _ _)) by lia. cbn [andb].
    match goal with |- (pg_malloc L ≫= ?k) ?x = None => destruct (malloc_booked L x) as (ok & al & E2) end.
    assert (ok = true) as ->.
    { unfold pg_malloc, zoom, malloc, book, mmodify, mbind, M_bind in E2. simpl in E2.
      rewrite H1 in E2. simpl in E2. rewrite Hal in E2. simpl in E2. by injection E2 as <- _. }
    rewrite (bind_run _ _ _ _ _ E2). done.
Qed.

Lemma pg_bind_blob_bounds_witness : pg_bind_blob echo 2%N 1 (Some [x00]) (2 ^ 31) echo_prepared = None.
Proof.
  refine (proj2 (pg_bind_blob_bounds echo 2%N 0 [x00] (2 ^ 31) echo_prepared echo_stmt _ _ _ _) _).
  - reflexivity.
  - exact echo_usable.
  - vm_compute. lia.
  - reflexivity.
  - lia.
Defined.
