(* ===== verification/SqliteDriver.v ===== *)
(** * The SQLite driver (src/sqlite_driver.c)

    The driver table [g_sqlite3_driver] over the SQLite C library.  The library
    is a parameter: the record [Sqlite] has the functions the driver calls, on
    a state [W] of the library; a call that its documentation leaves undefined
    is one whose run is [None].  The driver keeps no state of its own: its
    contexts and statements are SQLite's. *)

From Stdlib Require Import String Strings.Byte.
From S2P Require Import Prelude Types Driver.

(** ** The SQLite library *)

Definition SQLITE_OK : Z := 0.
Definition SQLITE_NOMEM : Z := 7.
Definition SQLITE_ROW : Z := 100.
Definition SQLITE_DONE : Z := 101.
Definition SQLITE_NULL : Z := 5.
Definition SQLITE_OPEN_READWRITE : Z := 2.
Definition SQLITE_OPEN_CREATE : Z := 4.
Definition SQLITE_OPEN_NOMUTEX : Z := 32768.

(** The destructor argument: SQLite makes a copy of its own. *)
Inductive Destructor : Type := SQLITE_STATIC | SQLITE_TRANSIENT.

Record Sqlite (W : Type) : Type := MkSqlite {
  sqlite3_open_v2 : string → Z → M W (Z * ptr);
  sqlite3_close_v2 : ptr → M W Z;
  sqlite3_exec : ptr → string → M W (Z * ptr);
  sqlite3_free : ptr → M W unit;
  sqlite3_changes : ptr → M W Z;
  sqlite3_prepare_v2 : ptr → string → Z → M W (Z * ptr);
  sqlite3_bind_int64 : ptr → Z → Z → M W Z;
  sqlite3_bind_int : ptr → Z → Z → M W Z;
  sqlite3_bind_double : ptr → Z → Z → M W Z;
  sqlite3_bind_text : ptr → Z → option (list byte) → Z → Destructor → M W Z;
  sqlite3_bind_blob : ptr → Z → option (list byte) → Z → Destructor → M W Z;
  sqlite3_bind_null : ptr → Z → M W Z;
  sqlite3_step : ptr → M W Z;
  sqlite3_column_int64 : ptr → Z → M W Z;
  sqlite3_column_double : ptr → Z → M W Z;
  sqlite3_column_text : ptr → Z → M W (option (list byte));
  sqlite3_column_blob : ptr → Z → M W (option (list byte));
  sqlite3_column_bytes : ptr → Z → M W Z;
  sqlite3_column_type : ptr → Z → M W Z;
  sqlite3_reset : ptr → M W Z;
  sqlite3_finalize : ptr → M W Z;
}.
Arguments sqlite3_open_v2 {W}.
Arguments sqlite3_close_v2 {W}.
Arguments sqlite3_exec {W}.
Arguments sqlite3_free {W}.
Arguments sqlite3_changes {W}.
Arguments sqlite3_prepare_v2 {W}.
Arguments sqlite3_bind_int64 {W}.
Arguments sqlite3_bind_int {W}.
Arguments sqlite3_bind_double {W}.
Arguments sqlite3_bind_text {W}.
Arguments sqlite3_bind_blob {W}.
Arguments sqlite3_bind_null {W}.
Arguments sqlite3_step {W}.
Arguments sqlite3_column_int64 {W}.
Arguments sqlite3_column_double {W}.
Arguments sqlite3_column_text {W}.
Arguments sqlite3_column_blob {W}.
Arguments sqlite3_column_bytes {W}.
Arguments sqlite3_column_type {W}.
Arguments sqlite3_reset {W}.
Arguments sqlite3_finalize {W}.

(** ** Error translation *)

Definition map_open_error (rc : Z) : SqlRDBResult :=
  if rc =? SQLITE_OK then SQL_RDB_OK
  else if rc =? SQLITE_NOMEM then SQL_RDB_ERR_NO_MEMORY
  else SQL_RDB_ERR_DB_OPEN.

Definition map_error (rc : Z) : SqlRDBResult :=
  if (rc =? SQLITE_OK) || (rc =? SQLITE_DONE) || (rc =? SQLITE_ROW) then SQL_RDB_OK
  else if rc =? SQLITE_NOMEM then SQL_RDB_ERR_NO_MEMORY
  else SQL_RDB_ERR_DRIVER.

Section sqlite.
Context {W : Type} (S : Sqlite W).

(** ** Connection and transaction functions *)

Definition sqlite_open (dsn : string) : M W (SqlRDBResult * ptr) :=
  '(rc, db) ← sqlite3_open_v2 S dsn
     (Z.lor (Z.lor SQLITE_OPEN_READWRITE SQLITE_OPEN_CREATE) SQLITE_OPEN_NOMUTEX);
  if negb (rc =? SQLITE_OK) then
    (if decide (db = NULL) then mret tt else sqlite3_close_v2 S db;; mret tt);;
    mret (map_open_error rc, NULL)
  else mret (SQL_RDB_OK, db).

Definition sqlite_close (ctx : ptr) : M W SqlRDBResult :=
  rc ← sqlite3_close_v2 S ctx; mret (map_error rc).

Definition sqlite_exec (ctx : ptr) (sql : string) : M W SqlRDBResult :=
  '(rc, errmsg) ← sqlite3_exec S ctx sql;
  (if decide (errmsg = NULL) then mret tt else sqlite3_free S errmsg);;
  mret (map_error rc).

(** The formats all end in %s. *)
Definition exec_fmt (ctx : ptr) (fmt name : string) : M W SqlRDBResult :=
  sqlite_exec ctx (vsnprintf 256 (fmt +:+ name)).

Definition sqlite_begin (ctx : ptr) : M W SqlRDBResult := sqlite_exec ctx "BEGIN".
Definition sqlite_commit (ctx : ptr) : M W SqlRDBResult := sqlite_exec ctx "COMMIT".
Definition sqlite_rollback (ctx : ptr) : M W SqlRDBResult := sqlite_exec ctx "ROLLBACK".
Definition sqlite_savepoint (ctx : ptr) (name : string) := exec_fmt ctx "SAVEPOINT " name.
Definition sqlite_release_sp (ctx : ptr) (name : string) := exec_fmt ctx "RELEASE SAVEPOINT " name.
Definition sqlite_rollback_sp (ctx : ptr) (name : string) := exec_fmt ctx "ROLLBACK TO SAVEPOINT " name.

Definition sqlite_changes (ctx : ptr) : M W Z := n ← sqlite3_changes S ctx; mret (to_signed 32 n).

(** ** Prepared statements, bind, step, column *)

Definition sqlite_prepare (ctx : ptr) (sql : string) : M W (SqlRDBResult * ptr) :=
  '(rc, stmt) ← sqlite3_prepare_v2 S ctx sql (-1);
  if negb (rc =? SQLITE_OK) then mret (SQL_RDB_ERR_DRIVER, NULL)
  else mret (SQL_RDB_OK, stmt).

Definition sqlite_bind_int64 (stmt : ptr) (index value : Z) : M W SqlRDBResult :=
  rc ← sqlite3_bind_int64 S stmt index value; mret (map_error rc).

Definition sqlite_bind_int32 (stmt : ptr) (index value : Z) : M W SqlRDBResult :=
  rc ← sqlite3_bind_int S stmt index (to_signed 32 value); mret (map_error rc).

Definition sqlite_bind_real (stmt : ptr) (index value : Z) : M W SqlRDBResult :=
  rc ← sqlite3_bind_double S stmt index value; mret (map_error rc).

Definition sqlite_bind_text (stmt : ptr) (index : Z) (value : option (list byte)) (len : Z) : M W SqlRDBResult :=
  rc ← sqlite3_bind_text S stmt index value len SQLITE_TRANSIENT; mret (map_error rc).

Definition sqlite_bind_blob (stmt : ptr) (index : Z) (value : option (list byte)) (len : Z) : M W SqlRDBResult :=
  rc ← sqlite3_bind_blob S stmt index value (to_signed 32 len) SQLITE_TRANSIENT; mret (map_error rc).

Definition sqlite_bind_null (stmt : ptr) (index : Z) : M W SqlRDBResult :=
  rc ← sqlite3_bind_null S stmt index; mret (map_error rc).

Definition sqlite_step (stmt : ptr) : M W (SqlRDBResult * option bool) :=
  rc ← sqlite3_step S stmt;
  if rc =? SQLITE_ROW then mret (SQL_RDB_OK, Some true)
  else if rc =? SQLITE_DONE then mret (SQL_RDB_OK, Some false)
  else mret (SQL_RDB_ERR_DRIVER, None).

Definition sqlite_column_int64 (stmt : ptr) (index : Z) : M W (SqlRDBResult * Z) :=
  out ← sqlite3_column_int64 S stmt index; mret (SQL_RDB_OK, out).

Definition sqlite_column_int32 (stmt : ptr) (index : Z) : M W (SqlRDBResult * Z) :=
  out ← sqlite3_column_int64 S stmt index; mret (SQL_RDB_OK, to_signed 32 out).

Definition sqlite_column_real (stmt : ptr) (index : Z) : M W (SqlRDBResult * Z) :=
  out ← sqlite3_column_double S stmt index; mret (SQL_RDB_OK, out).

Definition sqlite_column_text (stmt : ptr) (index : Z) : M W (SqlRDBResult * (option (list byte) * Z)) :=
  p ← sqlite3_column_text S stmt index;
  n ← sqlite3_column_bytes S stmt index;
  mret (SQL_RDB_OK, (p, size_t n)).

Definition sqlite_column_blob (stmt : ptr) (index : Z) : M W (SqlRDBResult * (option (list byte) * Z)) :=
  p ← sqlite3_column_blob S stmt index;
  n ← sqlite3_column_bytes S stmt index;
  mret (SQL_RDB_OK, (p, size_t n)).

Definition sqlite_column_isnull (stmt : ptr) (index : Z) : M W (SqlRDBResult * bool) :=
  t ← sqlite3_column_type S stmt index; mret (SQL_RDB_OK, t =? SQLITE_NULL).

Definition sqlite_reset (stmt : ptr) : M W SqlRDBResult := rc ← sqlite3_reset S stmt; mret (map_error rc).
Definition sqlite_finalize (stmt : ptr) : M W SqlRDBResult := rc ← sqlite3_finalize S stmt; mret (map_error rc).

Definition g_sqlite3_driver : SqlRDBDriver W := {|
  drv_name := "sqlite3";
  drv_dialect := C2SQL_DIALECT_SQLITE;
  drv_open := sqlite_open;
  drv_close := sqlite_close;
  drv_exec := sqlite_exec;
  drv_prepare := sqlite_prepare;
  drv_bind_int64 := sqlite_bind_int64;
  drv_bind_int32 := sqlite_bind_int32;
  drv_bind_real := sqlite_bind_real;
  drv_bind_text := sqlite_bind_text;
  drv_bind_blob := sqlite_bind_blob;
  drv_bind_null := sqlite_bind_null;
  drv_step := sqlite_step;
  drv_column_int64 := sqlite_column_int64;
  drv_column_int32 := sqlite_column_int32;
  drv_column_real := sqlite_column_real;
  drv_column_text := sqlite_column_text;
  drv_column_blob := sqlite_column_blob;
  drv_column_isnull := sqlite_column_isnull;
  drv_reset := sqlite_reset;
  drv_finalize := sqlite_finalize;
  drv_begin := sqlite_begin;
  drv_commit := sqlite_commit;
  drv_rollback := sqlite_rollback;
  drv_savepoint := sqlite_savepoint;
  drv_release_sp := sqlite_release_sp;
  drv_rollback_sp := sqlite_rollback_sp;
  drv_changes := sqlite_changes;
|}.
End sqlite.
