(* ===== verification/SqliteTheorems.v ===== *)
(** * What holds of the library on SQLite

    What the driver of src/sqlite_driver.c relies on of the SQLite library
    ([SqliteLaws], from its documentation), that the driver then implements the
    driver interface, and the theorems that follow. *)

From Stdlib Require Import String Strings.Byte.
From S2P Require Import Prelude Types Driver MemDriver StmtCacheSpec StmtCacheProofs StmtCacheTheorems Condition.
From S2P Require Import QueryBuilder QueryBuilderProofs Registry RegistryProofs Handle Api ApiProofs ApiSafety.
From S2P Require Import ApiTheorems SqliteDriver.

(** ** The library *)

(** The statements that are prepared and not finalized, the connections that
    are open, the error messages that are not freed. *)
Record Holdings (W : Type) : Type := MkHoldings {
  sq_stmts : W → gset ptr;
  sq_conns : W → gset ptr;
  sq_msgs : W → gset ptr;
}.
Arguments MkHoldings {W}.
Arguments sq_stmts {W}.
Arguments sq_conns {W}.
Arguments sq_msgs {W}.

Definition same_holdings {W} (h : Holdings W) (w w' : W) : Prop :=
  sq_stmts h w' = sq_stmts h w ∧ sq_conns h w' = sq_conns h w ∧ sq_msgs h w' = sq_msgs h w.

(** The call is defined and takes or gives up nothing. *)
Definition lends {W A} (h : Holdings W) (m : M W A) (w : W) : Prop :=
  ∃ a w', m w = Some (a, w') ∧ same_holdings h w w'.

(** [x] is new in a set, or NULL and the set is as it was. *)
Definition obtained (x : ptr) (X X' : gset ptr) : Prop :=
  if decide (x = NULL) then X' = X else (x ∉ X) ∧ X' = {[x]} ∪ X.

Class SqliteLaws {W} (S : Sqlite W) := {
  holdings : Holdings W;
  (* "whether or not an error occurs when it is opened", a connection that is
     not NULL is to be closed *)
  sq_open dsn flags w : ∃ rc db w', sqlite3_open_v2 S dsn flags w = Some ((rc, db), w') ∧
    sq_stmts holdings w' = sq_stmts holdings w ∧ sq_msgs holdings w' = sq_msgs holdings w ∧
    obtained db (sq_conns holdings w) (sq_conns holdings w') ∧ (rc = SQLITE_OK → db ≠ NULL);
  (* statements that are left keep the connection as a zombie *)
  sq_close c w : c ∈ sq_conns holdings w → ∃ rc w', sqlite3_close_v2 S c w = Some (rc, w') ∧
    sq_stmts holdings w' = sq_stmts holdings w ∧ sq_msgs holdings w' = sq_msgs holdings w ∧
    sq_conns holdings w' = sq_conns holdings w ∖ {[c]};
  sq_exec c sql w : c ∈ sq_conns holdings w → ∃ rc msg w', sqlite3_exec S c sql w = Some ((rc, msg), w') ∧
    sq_stmts holdings w' = sq_stmts holdings w ∧ sq_conns holdings w' = sq_conns holdings w ∧
    obtained msg (sq_msgs holdings w) (sq_msgs holdings w');
  sq_free msg w : msg ∈ sq_msgs holdings w → ∃ w', sqlite3_free S msg w = Some (tt, w') ∧
    sq_stmts holdings w' = sq_stmts holdings w ∧ sq_conns holdings w' = sq_conns holdings w ∧
    sq_msgs holdings w' = sq_msgs holdings w ∖ {[msg]};
  sq_changes c w : c ∈ sq_conns holdings w → lends holdings (sqlite3_changes S c) w;
  (* the statement is NULL on an error, and when the text has no SQL in it *)
  sq_prepare c sql w : c ∈ sq_conns holdings w → ∃ rc p w', sqlite3_prepare_v2 S c sql (-1) w = Some ((rc, p), w') ∧
    sq_conns holdings w' = sq_conns holdings w ∧ sq_msgs holdings w' = sq_msgs holdings w ∧
    obtained p (sq_stmts holdings w) (sq_stmts holdings w') ∧ (rc ≠ SQLITE_OK → p = NULL) ∧
    (rc = SQLITE_OK → sql_text C2SQL_DIALECT_SQLITE sql → p ≠ NULL);
  sq_finalize p w : p ∈ sq_stmts holdings w → ∃ rc w', sqlite3_finalize S p w = Some (rc, w') ∧
    sq_conns holdings w' = sq_conns holdings w ∧ sq_msgs holdings w' = sq_msgs holdings w ∧
    sq_stmts holdings w' = sq_stmts holdings w ∖ {[p]};
  sq_bind_int64 p i v w : p ∈ sq_stmts holdings w → lends holdings (sqlite3_bind_int64 S p i v) w;
  sq_bind_int p i v w : p ∈ sq_stmts holdings w → lends holdings (sqlite3_bind_int S p i v) w;
  sq_bind_double p i v w : p ∈ sq_stmts holdings w → lends holdings (sqlite3_bind_double S p i v) w;
  (* a copy is made of as many bytes as the length says, or of a C string *)
  sq_bind_text p i v n w : p ∈ sq_stmts holdings w → arg_ok v n →
    lends holdings (sqlite3_bind_text S p i v n SQLITE_TRANSIENT) w;
  (* the length of NULL is ignored *)
  sq_bind_blob p i v n w : p ∈ sq_stmts holdings w → (∀ bs, v = Some bs → 0 ≤ n) → arg_ok v n →
    lends holdings (sqlite3_bind_blob S p i v n SQLITE_TRANSIENT) w;
  sq_bind_null p i w : p ∈ sq_stmts holdings w → lends holdings (sqlite3_bind_null S p i) w;
  sq_step p w : p ∈ sq_stmts holdings w → lends holdings (sqlite3_step S p) w;
  (* of a column there is always a value, of an unspecified kind when there is
     no current row *)
  sq_column_int64 p i w : p ∈ sq_stmts holdings w → lends holdings (sqlite3_column_int64 S p i) w;
  sq_column_double p i w : p ∈ sq_stmts holdings w → lends holdings (sqlite3_column_double S p i) w;
  sq_column_type p i w : p ∈ sq_stmts holdings w → lends holdings (sqlite3_column_type S p i) w;
  (* column_bytes, called next, is the length of what was returned *)
  sq_column_text p i w : p ∈ sq_stmts holdings w → ∃ q n w1 w2,
    sqlite3_column_text S p i w = Some (q, w1) ∧ sqlite3_column_bytes S p i w1 = Some (n, w2) ∧
    same_holdings holdings w w2 ∧ 0 ≤ n ≤ INT_MAX ∧ ∀ bs, q = Some bs → n ≤ Z.of_nat (length bs);
  sq_column_blob p i w : p ∈ sq_stmts holdings w → ∃ q n w1 w2,
    sqlite3_column_blob S p i w = Some (q, w1) ∧ sqlite3_column_bytes S p i w1 = Some (n, w2) ∧
    same_holdings holdings w w2 ∧ 0 ≤ n ≤ INT_MAX ∧ ∀ bs, q = Some bs → n ≤ Z.of_nat (length bs);
  sq_reset p w : p ∈ sq_stmts holdings w → lends holdings (sqlite3_reset S p) w;
}.

Section laws.
Context {W : Type} (S : Sqlite W) `{!SqliteLaws S}.

(** No error message is left over. *)
Definition clean (w : W) : Prop := sq_msgs holdings w = ∅.

Definition if_clean (w : W) (X : gset ptr) : gset ptr := if decide (clean w) then X else ∅.

(** Closing a connection leaves its statements. *)
Definition sqlite_view : View W :=
  MkView (λ w, if_clean w (sq_stmts holdings w)) (λ _ _, ∅) (λ w, if_clean w (sq_conns holdings w)) clean.

Lemma if_clean_elem p w X : p ∈ if_clean w X ↔ clean w ∧ p ∈ X.
Proof. unfold if_clean. destruct (decide (clean w)); set_solver. Qed.

Lemma if_clean_true w X : clean w → if_clean w X = X.
Proof. intros. unfold if_clean. by rewrite decide_True. Qed.

Lemma same_view w w' :
  clean w → same_holdings holdings w w' →
  clean w' ∧ v_stmts sqlite_view w' = v_stmts sqlite_view w ∧ still sqlite_view w w'.
Proof.
  intros Hc (Hs & Hn & Hm). assert (clean w') as Hc' by (unfold clean; by rewrite Hm).
  split_and!; simpl; rewrite ?if_clean_true by done; try done. split; simpl; [|done]. by rewrite !if_clean_true.
Qed.

Lemma lends_keeps {A B} (m : M W A) (f : A → B) p w :
  p ∈ v_stmts sqlite_view w → (p ∈ sq_stmts holdings w → lends holdings m w) →
  keeps sqlite_view (a ← m; mret (f a)) w.
Proof.
  intros [Hc Hp]%if_clean_elem Hm. destruct (Hm Hp) as (a & w' & E & Hs).
  exists (f a), w'. rewrite (bind_run _ _ _ _ _ E). split; [done|]. by apply same_view.
Qed.

Lemma sqlite_exec_keeps c sql w : c ∈ v_conns sqlite_view w → keeps sqlite_view (sqlite_exec S c sql) w.
Proof.
  intros [Hc Hin]%if_clean_elem. destruct (sq_exec c sql w Hin) as (rc & msg & w1 & E & Hs & Hn & Hm).
  unfold sqlite_exec, keeps. rewrite (bind_run _ _ _ _ _ E). unfold obtained in Hm.
  destruct (decide (msg = NULL)).
  - exists (map_error rc), w1. split; [done|]. by apply same_view.
  - destruct Hm as [Hni Hm]. destruct (sq_free msg w1) as (w2 & E2 & Hs2 & Hn2 & Hm2); [set_solver|].
    rewrite (bind_run _ _ _ _ _ E2). exists (map_error rc), w2. split; [done|]. apply same_view; [done|].
    split_and!; [congruence|congruence|]. rewrite Hm2, Hm. set_solver.
Qed.

(** Opening: a connection that failed to open is closed. *)
Lemma sqlite_open_run dsn w : ∃ r c w',
  sqlite_open S dsn w = Some ((r, c), w') ∧ sq_stmts holdings w' = sq_stmts holdings w ∧
  sq_msgs holdings w' = sq_msgs holdings w ∧
  if res_ok r then c ≠ NULL ∧ (c ∉ sq_conns holdings w) ∧ sq_conns holdings w' = {[c]} ∪ sq_conns holdings w
  else (r = SQL_RDB_ERR_NO_MEMORY ∨ r = SQL_RDB_ERR_DB_OPEN) ∧ c = NULL ∧ sq_conns holdings w' = sq_conns holdings w.
Proof.
  unfold sqlite_open.
  destruct (sq_open dsn (Z.lor (Z.lor SQLITE_OPEN_READWRITE SQLITE_OPEN_CREATE) SQLITE_OPEN_NOMUTEX) w)
    as (rc & db & w1 & E & Hs & Hm & Hn & Hok).
  rewrite (bind_run _ _ _ _ _ E). unfold obtained in Hn. destruct (Z.eqb_spec rc SQLITE_OK) as [Erc|Erc]; cbn [negb].
  - rewrite decide_False in Hn by auto. exists SQL_RDB_OK, db, w1. split_and!; try done. cbn [res_ok].
    split_and!; [by apply Hok|apply Hn|apply Hn].
  - assert (∃ w', (if decide (db = NULL) then mret tt else sqlite3_close_v2 S db;; mret tt) w1 = Some (tt, w') ∧
      sq_stmts holdings w' = sq_stmts holdings w ∧ sq_msgs holdings w' = sq_msgs holdings w ∧
      sq_conns holdings w' = sq_conns holdings w) as (w' & E2 & H1 & H2 & H3).
    { destruct (decide (db = NULL)); [by exists w1|]. destruct Hn as [Hni Hn].
      destruct (sq_close db w1) as (rc' & w2 & E2 & Hs2 & Hm2 & Hn2); [set_solver|].
      exists w2. rewrite (bind_run _ _ _ _ _ E2). split_and!; [done|congruence|congruence|]. rewrite Hn2, Hn. set_solver. }
    rewrite (bind_run _ _ _ _ _ E2). exists (map_open_error rc), NULL, w'. split_and!; try done.
    unfold map_open_error. rewrite (proj2 (Z.eqb_neq _ _)) by done. destruct (rc =? SQLITE_NOMEM); simpl; auto.
Qed.

Lemma sqlite_bytes_law p i w f :
  (∀ w, p ∈ sq_stmts holdings w → ∃ q n w1 w2,
    f w = Some (q, w1) ∧ sqlite3_column_bytes S p i w1 = Some (n, w2) ∧
    same_holdings holdings w w2 ∧ 0 ≤ n ≤ INT_MAX ∧ ∀ bs, q = Some bs → n ≤ Z.of_nat (length bs)) →
  p ∈ v_stmts sqlite_view w → ∃ r q n w',
  (q ← f; n ← sqlite3_column_bytes S p i; mret (SQL_RDB_OK, (q, size_t n))) w = Some ((r, (q, n)), w') ∧
  v_stmts sqlite_view w' = v_stmts sqlite_view w ∧ still sqlite_view w w' ∧ buffer_ok q n.
Proof.
  intros Hf [Hc Hp]%if_clean_elem. destruct (Hf w Hp) as (q & n & w1 & w2 & E1 & E2 & Hs & Hn & Hq).
  exists SQL_RDB_OK, q, n, w2. rewrite (bind_run _ _ _ _ _ E1), (bind_run _ _ _ _ _ E2).
  rewrite size_t_small by (unfold INT_MAX, SIZE_MOD in *; lia). destruct (same_view w w2 Hc Hs) as (_ & Hv & Hcm).
  split; [done|]. split; [done|]. split; [done|]. split; [lia|done].
Qed.

#[global] Instance sqlite_driver_laws : DriverLaws (g_sqlite3_driver S).
Proof.
  refine {| view := sqlite_view |}; cbn [g_sqlite3_driver drv_open drv_close drv_prepare drv_finalize drv_dialect
    drv_bind_int64 drv_bind_int32 drv_bind_real drv_bind_text drv_bind_blob drv_bind_null drv_step
    drv_column_int64 drv_column_int32 drv_column_real drv_column_text drv_column_blob drv_column_isnull
    drv_reset drv_exec drv_begin drv_commit drv_rollback drv_savepoint drv_release_sp drv_rollback_sp drv_changes].
  - intros c sql w [Hc Hin]%if_clean_elem Hsql.
    destruct (sq_prepare c sql w Hin) as (rc & p & w' & E & Hn & Hm & Hp & Hne & Hok).
    assert (clean w') as Hc' by (unfold clean; by rewrite Hm). unfold obtained in Hp.
    unfold sqlite_prepare. rewrite (bind_run _ _ _ _ _ E). destruct (Z.eqb_spec rc SQLITE_OK) as [->|Hrc]; cbn [negb].
    + specialize (Hok eq_refl Hsql). rewrite decide_False in Hp by done.
      exists SQL_RDB_OK, p, w'. unfold still_but. simpl. rewrite !if_clean_true by done. naive_solver.
    + rewrite Hne, decide_True in Hp by done. exists SQL_RDB_ERR_DRIVER, NULL, w'.
      unfold still. simpl. by rewrite !if_clean_true by done.
  - intros p w [Hc Hin]%if_clean_elem. destruct (sq_finalize p w Hin) as (rc & w' & E & Hn & Hm & Hs).
    exists (map_error rc), w'. unfold sqlite_finalize. rewrite (bind_run _ _ _ _ _ E).
    assert (clean w') as Hc' by (unfold clean; by rewrite Hm). unfold calm, still_but. simpl. by rewrite !if_clean_true by done.
  - intros. eapply lends_keeps; [done|]. apply sq_bind_int64.
  - intros. eapply lends_keeps; [done|]. apply sq_bind_int.
  - intros. eapply lends_keeps; [done|]. apply sq_bind_double.
  - intros. eapply lends_keeps; [done|]. intros. by apply sq_bind_text.
  - intros p i v n w Hp Hn Ha. unfold sqlite_bind_blob. eapply lends_keeps; [done|]. intros Hin.
    destruct v as [bs|]; [|by apply sq_bind_blob].
    destruct (Ha bs eq_refl). rewrite to_signed_small by (unfold INT_MAX in *; change (2 ^ (32 - 1)) with (2 ^ 31); lia).
    by apply sq_bind_blob.
  - intros. eapply lends_keeps; [done|]. apply sq_bind_null.
  - intros p w [Hc Hp]%if_clean_elem. destruct (sq_step p w Hp) as (rc & w' & E & Hs).
    unfold sqlite_step, keeps. rewrite (bind_run _ _ _ _ _ E). destruct (same_view w w' Hc Hs) as (_ & Hv & Hcm).
    destruct (rc =? SQLITE_ROW); [by eexists _, w'|]. destruct (rc =? SQLITE_DONE); by eexists _, w'.
  - intros. eapply lends_keeps; [done|]. apply sq_column_int64.
  - intros. eapply lends_keeps; [done|]. apply sq_column_int64.
  - intros. eapply lends_keeps; [done|]. apply sq_column_double.
  - intros p i w. apply sqlite_bytes_law. intros. by apply sq_column_text.
  - intros p i w. apply sqlite_bytes_law. intros. by apply sq_column_blob.
  - intros. eapply lends_keeps; [done|]. apply sq_column_type.
  - intros. eapply lends_keeps; [done|]. apply sq_reset.
  - intros. by apply sqlite_exec_keeps.
  - intros. by apply sqlite_exec_keeps.
  - intros. by apply sqlite_exec_keeps.
  - intros. by apply sqlite_exec_keeps.
  - intros. by apply sqlite_exec_keeps.
  - intros. by apply sqlite_exec_keeps.
  - intros. by apply sqlite_exec_keeps.
  - intros c w [Hc Hin]%if_clean_elem. destruct (sq_changes c w Hin) as (n & w' & E & Hs).
    exists (to_signed 32 n), w'. unfold sqlite_changes. rewrite (bind_run _ _ _ _ _ E). split; [done|]. by apply same_view.
Defined.

#[global] Instance sqlite_conn_laws : ConnLaws (g_sqlite3_driver S).
Proof.
  constructor; cbn [g_sqlite3_driver drv_open drv_close].
  - by intros c w [Hc _]%if_clean_elem.
  - intros dsn w Hc. destruct (sqlite_open_run dsn w) as (r & c & w' & E & Hs & Hm & Hr). exists r, c, w'.
    assert (clean w') as Hc' by (unfold clean; by rewrite Hm).
    split; [done|]. split; [done|]. simpl. rewrite !if_clean_true by done. split; [done|].
    destruct (res_ok r); [naive_solver|]. by destruct Hr as (_ & _ & ->).
  - intros c w [Hc Hin]%if_clean_elem. destruct (sq_close c w Hin) as (rc & w' & E & Hs & Hm & Hn).
    exists (map_error rc), w'. unfold sqlite_close. rewrite (bind_run _ _ _ _ _ E).
    assert (clean w') as Hc' by (unfold clean; by rewrite Hm). simpl. rewrite !if_clean_true by done.
    split_and!; try done; set_solver.
Qed.
End laws.

(** ** A library for the examples

    The in-memory driver under SQLite's interface; a statement that fails
    leaves a message to be freed. *)

Definition Lite : Type := Mem * gset ptr.

Definition lite {A} (m : M Mem A) : M Lite A := zoom fst (λ m w, (m, w.2)) m.

Definition lite_rc {A} (m : M Mem A) (rc : Z) : M Lite Z := lite m;; mret rc.

Definition lite_exec (c : ptr) (sql : string) : M Lite (Z * ptr) :=
  r ← lite (mem_exec sql);
  if res_ok r then mret (SQLITE_OK, NULL) else
  λ w, let msg := fresh ({[NULL]} ∪ w.2) in Some ((1, msg), (w.1, {[msg]} ∪ w.2)).

Definition lite_column {A} (p : ptr) (i : Z) (f : Cell → A) : M Lite A :=
  x ← lite (mem_column p i f); mret x.2.

Definition lite_sqlite : Sqlite Lite := {|
  sqlite3_open_v2 _ _ := x ← lite mem_connect; mret (SQLITE_OK, x.2);
  sqlite3_close_v2 c := lite_rc (drv_close mem_driver c) SQLITE_OK;
  sqlite3_exec := lite_exec;
  sqlite3_free msg := λ w, Some (tt, (w.1, w.2 ∖ {[msg]}));
  sqlite3_changes c := mret 1;
  sqlite3_prepare_v2 c sql n := x ← lite (mem_prepare sql); mret (if res_ok x.1 then SQLITE_OK else 1, x.2);
  sqlite3_bind_int64 p i v := lite_rc (mem_bind p i (CInt v)) SQLITE_OK;
  sqlite3_bind_int p i v := lite_rc (mem_bind p i (CInt v)) SQLITE_OK;
  sqlite3_bind_double p i v := lite_rc (mem_bind p i (CReal v)) SQLITE_OK;
  sqlite3_bind_text p i v n _ := lite_rc (mem_bind p i (CText (default [] v))) SQLITE_OK;
  sqlite3_bind_blob p i v n _ := lite_rc (mem_bind p i (CBlob (default [] v))) SQLITE_OK;
  sqlite3_bind_null p i := lite_rc (mem_bind p i CNull) SQLITE_OK;
  sqlite3_step p := x ← lite (mem_step p); mret (match x.2 with Some true => SQLITE_ROW | _ => SQLITE_DONE end);
  sqlite3_column_int64 p i := lite_column p i cell_int;
  sqlite3_column_double p i := lite_column p i cell_real;
  sqlite3_column_text p i := lite_column p i (λ c, (cell_bytes c).1);
  sqlite3_column_blob p i := lite_column p i (λ c, (cell_bytes c).1);
  sqlite3_column_bytes p i := lite_column p i (λ c, Z.min (cell_bytes c).2 INT_MAX);
  sqlite3_column_type p i := lite_column p i (λ c, if is_null c then SQLITE_NULL else 1);
  sqlite3_reset p := lite_rc (mem_use p) SQLITE_OK;
  sqlite3_finalize p := lite_rc (mem_finalize p) SQLITE_OK;
|}.

Definition lite_holdings : Holdings Lite :=
  MkHoldings (λ w, mem_stmts w.1) (λ w, list_to_set (mem_conns w.1)) snd.

Lemma lite_lends {A B} (m : M Mem A) (f : A → B) w :
  keeps mem_view m w.1 → lends lite_holdings (x ← lite m; mret (f x)) w.
Proof.
  intros (a & m' & E & Hs & Hc & _). exists (f a), (m', w.2). split; [|done].
  unfold lite. erewrite bind_run by (apply zoom_run; exact E). done.
Qed.

Lemma mem_use_keeps p m : p ∈ mem_stmts m → keeps mem_view (mem_use p) m.
Proof. intros Hp. exists tt, m. rewrite mem_use_run by done. done. Qed.

Lemma mem_do_keeps {A} p (f : Mem → A * Mem) m :
  p ∈ mem_stmts m → mem_open (f m).2 = mem_open m → mem_conns (f m).2 = mem_conns m →
  keeps mem_view (mem_use p;; mem_do f) m.
Proof.
  intros Hp Ho Hc. unfold mem_do, keeps. rewrite (bind_run _ _ _ _ _ (mem_use_run p m Hp)).
  exists (f m).1, (f m).2. rewrite <-surjective_pairing. split; [done|].
  split; [simpl; unfold mem_stmts; by rewrite Ho|]. split; [simpl; by rewrite Hc|done].
Qed.

Lemma lite_column_run {A} p i (f : Cell → A) w :
  p ∈ mem_stmts w.1 → lite_column p i f w = Some (f (default CNull (mem_cur w.1 !! Z.to_nat i)), w).
Proof.
  intros Hp. destruct w as [m ms]. unfold lite_column, lite, zoom, mem_column, mem_do, mbind, M_bind.
  by rewrite mem_use_run.
Qed.

Lemma lite_bytes p i w : p ∈ mem_stmts w.1 → ∃ q n w1 w2,
  lite_column p i (λ c, (cell_bytes c).1) w = Some (q, w1) ∧
  lite_column p i (λ c, Z.min (cell_bytes c).2 INT_MAX) w1 = Some (n, w2) ∧
  same_holdings lite_holdings w w2 ∧ 0 ≤ n ≤ INT_MAX ∧ ∀ bs, q = Some bs → n ≤ Z.of_nat (length bs).
Proof.
  intros Hp. set (c := default CNull (mem_cur w.1 !! Z.to_nat i)).
  exists (cell_bytes c).1, (Z.min (cell_bytes c).2 INT_MAX), w, w. rewrite !lite_column_run by done.
  split; [done|]. split; [done|]. split; [done|]. unfold INT_MAX. destruct c; simpl; (split; [lia|]);
    try done; intros bs [= <-]; lia.
Qed.

#[global] Instance lite_laws : SqliteLaws lite_sqlite.
Proof.
  refine {| holdings := lite_holdings |}; simpl.
  - intros dsn flags w. destruct (open_law (drv := mem_driver) dsn w.1) as (r & c & m & E & _ & Hs & Hr); [done|].
    simpl in E. injection E as <- <- <-. simpl in Hr. destruct Hr as (Hn & Hni & Hc & _).
    eexists _, _, _. split; [done|]. split_and!; try done. unfold obtained. by rewrite decide_False.
  - intros c w Hin. destruct (close_law (drv := mem_driver) c w.1) as (r & m & E & _ & Hc & _); [done|].
    simpl in E. injection E as <- <-. eexists _, _. split; [done|]. split_and!; try done.
  - intros c sql w _. unfold lite_exec, lite, zoom, mem_exec, mbind, M_bind. simpl.
    case_bool_decide; cbn [res_ok]; eexists _, _, _; (split; [done|]); split_and!; try done; unfold obtained.
    pose proof (is_fresh ({[NULL]} ∪ w.2)). rewrite decide_False by set_solver. set_solver.
  - intros msg w _. by eexists.
  - intros c w _. by eexists _, _.
  - intros c sql w Hin. unfold lite, zoom, mem_prepare, mbind, M_bind. case_bool_decide; simpl.
    + eexists _, _, _. split; [done|]. split_and!; try done.
    + eexists _, _, _. split; [done|]. unfold NULL, obtained. split_and!; try done; try lia.
      rewrite decide_False by (unfold NULL; lia). split; [|done].
      unfold mem_stmts. rewrite elem_of_list_to_set. intros Hp%foldr_max. lia.
  - intros p w Hp. destruct (finalize_law (drv := mem_driver) p w.1) as (r & m & E & Hs & [Hc _] & _); [done|].
    eexists _, (m, w.2). split; [|done]. unfold lite_rc, lite. by erewrite bind_run by (apply zoom_run; exact E).
  - intros p i v w Hp. by apply (lite_lends _ (λ _, SQLITE_OK)), mem_do_keeps.
  - intros p i v w Hp. by apply (lite_lends _ (λ _, SQLITE_OK)), mem_do_keeps.
  - intros p i v w Hp. by apply (lite_lends _ (λ _, SQLITE_OK)), mem_do_keeps.
  - intros p i v n w Hp _. by apply (lite_lends _ (λ _, SQLITE_OK)), mem_do_keeps.
  - intros p i v n w Hp _ _. by apply (lite_lends _ (λ _, SQLITE_OK)), mem_do_keeps.
  - intros p i w Hp. by apply (lite_lends _ (λ _, SQLITE_OK)), mem_do_keeps.
  - intros p w Hp. apply lite_lends, mem_do_keeps; [done|by destruct (mem_rows w.1)..].
  - intros p i w Hp. exists (cell_int (default CNull (mem_cur w.1 !! Z.to_nat i))), w. by rewrite lite_column_run.
  - intros p i w Hp. exists (cell_real (default CNull (mem_cur w.1 !! Z.to_nat i))), w. by rewrite lite_column_run.
  - intros p i w Hp. eexists _, w. by rewrite lite_column_run.
  - apply lite_bytes.
  - apply lite_bytes.
  - intros p w Hp. by apply (lite_lends _ (λ _, SQLITE_OK)), mem_use_keeps.
Defined.

(** ** Properties *)

(** C27: the library on SQLite.  Any sequence of calls of the functions on rows,
    transactions and the configuration, without SqlRDBRegisterStruct, whose
    arguments are what the header asks for, with blobs below 2^31 bytes, any
    allocation failing and any result code of SQLite, is defined throughout on
    the SQLite driver - the library is never called on a statement that was
    finalized or a connection that was closed, nor with a buffer shorter than
    the length passed - and leaves the handle quiescent and every error message
    of sqlite3_exec freed. *)
Theorem sqlite_history_clean {W} (S : Sqlite W) `{!SqliteLaws S} R calls c :
  client_inv (g_sqlite3_driver S) R c → Forall (call_ok (g_sqlite3_driver S) R) calls →
  ∃ c', exec_all (g_sqlite3_driver S) calls c = Some (tt, c') ∧ quiescent (g_sqlite3_driver S) c' ∧
    sq_msgs holdings (hs_db (cl_state c')) = ∅.
Proof.
  intros Hc Hcalls. destruct (exec_all_safe _ R calls Hcalls c Hc) as ([] & c' & E & Hc').
  exists c'. split_and!; [done|by eapply client_quiescent|].
  destruct Hc' as (_ & _ & (_ & _ & _ & ps & a & _ & _ & _ & _ & _ & Hcx) & _).
  by apply (if_clean_elem S) in Hcx as [? _].
Qed.

(** The example, on a library for which COMMIT fails with a message. *)
Definition lite_client := MkClient (MkH ex_handle (MkMem [] [[CInt 3; CNull]] [] [] [] ["COMMIT"%string] [1%N], ∅ : gset ptr) [] 5) [].

Lemma lite_client_inv : client_inv (g_sqlite3_driver lite_sqlite) (r_reg ex_r1) lite_client.
Proof.
  split; [constructor|]. split; [constructor|]. split; [|done]. split; [done|]. split; [exact ex_r1_wf|].
  split; [split_and!; try done; intros; simpl in *; lia|].
  exists [], (MkAbs 2 []). split_and!; [exact ex_rep|constructor|done|done| |].
  - simpl. rewrite if_clean_true by done. set_solver.
  - simpl. rewrite if_clean_true by done. set_solver.
Qed.

Lemma sqlite_history_clean_witness :
  ∃ c', exec_all (g_sqlite3_driver lite_sqlite) ex_calls lite_client = Some (tt, c') ∧
    quiescent (g_sqlite3_driver lite_sqlite) c' ∧ sq_msgs holdings (hs_db (cl_state c')) = ∅.
Proof.
  apply (sqlite_history_clean lite_sqlite (r_reg ex_r1)).
  - exact lite_client_inv.
  - exact (ex_calls_ok (g_sqlite3_driver lite_sqlite)).
Defined.

(** C40: opening a database.  sqlite_open is defined; it returns OK exactly when
    SQLite did, with a connection that was not open before and is now; on any
    error code it returns NO_MEMORY for SQLITE_NOMEM and DB_OPEN for every other
    one, with the context NULL, and the connection that SQLite hands out even
    then is closed: none is left open. *)
Theorem sqlite_open_correct {W} (S : Sqlite W) `{!SqliteLaws S} dsn w :
  ∃ rc db w1 r c w', sqlite3_open_v2 S dsn 32774 w = Some ((rc, db), w1) ∧
    sqlite_open S dsn w = Some ((r, c), w') ∧
    r = (if decide (rc = SQLITE_OK) then SQL_RDB_OK
         else if decide (rc = SQLITE_NOMEM) then SQL_RDB_ERR_NO_MEMORY else SQL_RDB_ERR_DB_OPEN) ∧
    sq_conns holdings w' = (if res_ok r then {[c]} ∪ sq_conns holdings w else sq_conns holdings w) ∧
    (if res_ok r then c = db ∧ c ≠ NULL ∧ c ∉ sq_conns holdings w else c = NULL) ∧
    sq_stmts holdings w' = sq_stmts holdings w ∧ sq_msgs holdings w' = sq_msgs holdings w.
Proof.
  destruct (sqlite_open_run S dsn w) as (r & c & w' & E & Hs & Hm & Hr).
  destruct (sq_open dsn 32774 w) as (rc & db & w1 & Eo & _). exists rc, db, w1, r, c, w'.
  assert (r = (if decide (rc = SQLITE_OK) then SQL_RDB_OK
               else if decide (rc = SQLITE_NOMEM) then SQL_RDB_ERR_NO_MEMORY else SQL_RDB_ERR_DB_OPEN) ∧
          (rc = SQLITE_OK → c = db)) as [Er Ec].
  { unfold sqlite_open in E. change (Z.lor _ _) with 32774 in E. rewrite (bind_run _ _ _ _ _ Eo) in E.
    unfold map_open_error in E. destruct (Z.eqb_spec rc SQLITE_OK) as [->|Hrc]; cbn [negb] in E.
    - injection E as <- <- _. done.
    - rewrite decide_False by done. apply bind_Some in E as ([] & w2 & _ & E). injection E as <- <- _.
      destruct (Z.eqb_spec rc SQLITE_NOMEM); [by rewrite decide_True|by rewrite decide_False]. }
  split_and!; try done.
  - destruct (res_ok r); naive_solver.
  - destruct (res_ok r) eqn:Eok; [|naive_solver]. split_and!; [|apply Hr|apply Hr].
    apply Ec. apply res_ok_true in Eok. destruct (decide (rc = SQLITE_OK)); [done|].
    destruct (decide (rc = SQLITE_NOMEM)); congruence.
Qed.

Lemma sqlite_open_correct_witness :
  ∃ rc db w1 r c w', sqlite3_open_v2 lite_sqlite "f.db" 32774 (mem0, ∅ : gset ptr) = Some ((rc, db), w1) ∧
    sqlite_open lite_sqlite "f.db" (mem0, ∅ : gset ptr) = Some ((r, c), w') ∧ r = SQL_RDB_OK.
Proof.
  destruct (sqlite_open_correct lite_sqlite "f.db" (mem0, ∅ : gset ptr))
    as (rc & db & w1 & r & c & w' & E1 & E2 & Hr & _).
  exists rc, db, w1, r, c, w'. split; [exact E1|]. split; [exact E2|].
  vm_compute in E1. injection E1 as <- _ _. exact Hr.
Defined.
